(* ===== verification/_CoqProject ===== *)
-Q . S2P
Prelude.v
GoStrings.v
Flag.v
Binary.v
Pae.v
Sha256.v
Base64.v
Json.v
JsonFacts.v
Wire.v
ServerName.v
NetIP.v
NetIPFacts.v
CanonIP.v
Probe.v
Crypto.v
Vectors.v
Registry.v
RateLimit.v
Store.v
StoreHistory.v
NonceStore.v
EnrollStore.v
GoPath.v
Http.v
Threads.v
Ledger.v
Pages.v
Config.v
ConfigFile.v
RealIP.v
Server.v
Admin.v
Prog.v
App.v
Session.v
AppHistory.v
Concurrent.v
Overlap.v
Interleaving.v
Main.v
Typed.v
Routing.v
Plug.v
Caddy.v
Caddyfile.v
Traefik.v
Gate.v
Sites.v
GateOps.v
GateOverlap.v
Gateways.v
