(* ===== verification/Prelude.v ===== *)
(** * JIT network access: a verification of the Go engines

    The program opens a dark web service to a device that has proved, by a
    keyed "knock", that it is enrolled.  A client asks [/challenge] for a nonce,
    answers [/respond] with an HMAC over the service, its key id and the nonce,
    and is given a time-limited grant bound to its address (and, under
    [ip+cookie], to a cookie).  Three Go engines share one core: the Authorizer
    (an HTTP forward-auth server), a Caddy module and a Traefik plugin.

    ** The parts and where they are modelled

    The core, [core/go]:
    - [Pae] ([pae.go]), [ServerName] and [CanonIP] ([canon.go]), [Base64] and
      [Crypto] ([crypto.go]), [Registry] ([registry.go]), [RateLimit]
      ([ratelimit.go]), and [store.go] in three files: [Store] (GrantStore),
      [NonceStore], [EnrollStore].  [StoreHistory] holds the theorems on runs
      of the grant store.
    The Authorizer, [authorizer]:
    - [Config] and [ConfigFile] ([config.go], [LoadConfig] in the second),
      [RealIP] ([realip.go]), [Wire] (the bodies of the requests), [Pages] (the
      static pages), [Server] ([server.go]), [Admin] ([admin.go]): the handlers,
      against an interface of the operations requests share; [App] runs them to
      completion over one environment and states what each does; [AppHistory]
      states the theorems on runs, [Routing] those on the routing table;
      [Prog] reads the same handlers as programs, [Concurrent] makes a machine of
      them, the sweeper and reloads, [Overlap] says what each has checked at every
      point of its program and [Interleaving] what follows for overlapping requests;
      [Main] ([main.go]) is the process: its command line, start-up, signals, reload;
      [Typed] types its state; [Session] composes the handlers with the client.
    The in-process engines, [adapters]:
    - [Plug] (the state both share), [Caddy] and [Caddyfile]
      ([caddy/jitaccess.go], the directive in the second), [Traefik]
      ([traefik/plugin/jitaccess.go]), [Gate] (what the gate lets through),
      [Sites] (from the configuration of a site to who may enter), and for requests
      that overlap [GateOps] (the machine), [GateOverlap] (what each request has
      checked) and [Gateways] (what follows).
    Goroutines, for both kinds of engine: [Threads] (programs of operations, their
    interleavings, logs, and how to prove what holds of every one) and [Ledger]
    (what a log says of grants, nonces and codes).
    [Probe] is [core/go/canonprobe]; [Vectors] evaluates the model on the shared
    conformance vectors of [core/testdata].
    The Go standard library the code relies on, as executable definitions:
    - [GoStrings], [Flag] (flag), [Binary] (encoding/binary, encoding/hex),
      [Sha256] (SHA-256 and HMAC, evaluated in the kernel), [Base64] (RawURLEncoding), [Json] and
      [JsonFacts] (encoding/json: scanner, decoding into typed variables with its
      quirks, encoder), [NetIP] and
      [NetIPFacts] (net/netip), [GoPath] (path.Clean, url.PathUnescape), [Http]
      (header keys, cookies, requests, responses).
    This file holds bytes, 64-bit integers, [result], the monad notation and the
    tactics and hints the others share.

    ** How state and operations correspond

    A Go string or byte slice is a list of bytes; an [int64] is a [Z] with [i64]
    written at every operation that can wrap; a [(value, error)] pair is
    [result], or [option] when the callers only test the error.  A store is a
    record of finite maps and each method one definition on it, returning the
    new store: a method holds the lock of its store throughout, so it is atomic.
    A [range] over a map takes the enumeration order as an argument where the code's result could depend on it.  A handler is a definition of
    the same name, in any monad with the operations of [Server.Ops] or, in the
    in-process engines, [Plug.POps]; its guards
    and early returns are those of the code, in its order.  The monad is a state
    monad over the shared state, the response written so far and the positions in
    two streams, the readings of the clock and the random draws
    ([Server.world_ops], [Plug.pworld_ops]);
    or the tree of operations itself ([Threads.prog]), interleaved with the
    others, sweeps one store at a time, reloads and the making of codes, under any
    clock.
    Handlers start from the bytes of the request and end in those of the
    response; headers the HTTP transport adds of its own (Date, Connection) are
    outside.  [url.Parse] is a parameter, since what it accepts depends on the
    version of Go: every theorem holds for all of them.  Caddy's token dispenser
    and duration parser are third-party: the first is the class
    [Caddyfile.Dispenser], with what its documentation promises in
    [DispenserLaws], the second an argument; witnesses instantiate both.

    ** What the theorems show

    - Access: in any run, a request that is let through rides on a grant that an
      earlier, fully verified knock (or an authenticated admin call) minted for
      this client and service ([AppHistory], [Gate]); the knock, the forward-auth
      answer and the gate are characterised exactly ([App], [Gate]); a knock
      does open the door, and an honest client gets all the way from the
      challenge to the page ([App], [Session]).
    - Overlapping requests: on every interleaving of their operations, access
      still has a lawful origin, a code gives its secret once, a nonce is redeemed
      once under the provisos of [NonceStore]; one request at a time is among the
      interleavings ([Interleaving] for the Authorizer, [Gateways] for the
      in-process engines).
    - The process: [-check] says of a file what a start would do with it; a running
      process goes through its server's requests, sweeps and reloads and nothing
      else, applies a SIGHUP exactly when it may, and lets nobody in whom the file
      in force does not allow ([Main]); its state stays well typed,
      64-bit integers in range included ([Typed]).
    - Denials: every refusal is one response, a function of the configuration
      ([App], [Gate]).
    - Single use: nonces, with the one interleaving that breaks it ([NonceStore]),
      and enrollment codes ([App] for one request, [Interleaving], [Gateways]).
    - Files and bodies: what a JSON encoder writes is what the decoders read,
      whatever the order of the members ([JsonFacts], [Wire], [ConfigFile]); a
      Caddyfile block of plain lines configures what its options say, or is refused
      ([Caddyfile]).
    - The grant store refines an abstract map; its history, its index and the
      exact effect of revocation and sweeping ([Store], [StoreHistory]), proved
      against the interface [GrantBackendLaws] and discharged by its instance.
    - Nonces and proofs: exactly the minted ones verify, and their MAC inputs
      determine what they are bound to ([Crypto], [Pae]).
    - Identity: canonical names and addresses are idempotent, injective where a
      grant key depends on it, and fail closed; headers count only from trusted
      proxies ([ServerName], [CanonIP], [RealIP]).
    - Configuration, reload and routing ([Config], [AppHistory], [Routing]);
      admission bounds of the rate limiter ([RateLimit]).
    - Sites: which configurations the in-process engines accept, that a gate lets
      in whom its own site lists and nobody else, from the text of a Caddyfile on
      and however requests overlap, and that the Traefik plugin is the Caddy
      module, from the configuration on ([Sites], [Gateways], [Traefik]).

    ** Fuel and bounds

    [ServerName.trim_loop] runs on one unit of fuel per byte plus one, and is
    proved to need no more.  [NetIP.v6_loop] spends one unit per group of an IPv6
    address and stops at eight; the round trip of [CanonIP] shows that every
    printed address is read back.  The JSON scanner runs on twice the length of
    its input plus one ([Json.fuel]), and more never changes its answer
    ([JsonFacts.value_enough]); the Caddyfile loops need one unit per
    token and two more.
    Every other loop is structural.  Framing theorems assume fields shorter than
    [2^64] bytes ([Pae.fits]), as the length prefix does; the theorems on time
    assume clock readings in [int64].

    ** What is not modelled

    The theorems of [App], [AppHistory], [Main], [Typed], [Session], [Gate] and
    [Sites] are on requests that run one at a time; overlap is the subject of
    [Interleaving] and [Gateways].  Memory is sequentially consistent, as the locks
    make it; the [stop] of the sweeper is left out.  Sockets, timeouts, the drain of a shutdown, logging but for the
    outcome of a reload, and the engines in other languages are left out.  The copy of the
    core vendored by the Traefik plugin is byte-identical to [core/go].  A
    [uri_prefix] with braces, which Go's mux reads as a wildcard pattern, is
    outside the model of the routing table.  Caddy counts durations in
    nanoseconds and converts them through a float; the model truncates the
    exact quotient, which agrees for durations below [2^23] seconds and for
    whole seconds; a [ttl] of the Traefik plugin has a counterpart there only up to
    the 292 years an [int64] of nanoseconds holds.  A redirect of Go's mux is its
    status alone, without the page [net/http] writes, and the mux's exception for
    [CONNECT] is left out.  Whether there is an admin listener the code decides at
    the start and [Admin.AdminHandler] on each request: the same, since a reload
    that changes [admin_listen] is refused ([Main]). *)

From stdpp Require Export gmap strings list fin_maps.
From Stdlib Require Export ZArith Lia.
From Stdlib Require Export Strings.Byte.

#[global] Open Scope Z_scope.
#[export] Set Default Goal Selector "!".

(** ** Bytes *)

(** A Go [string] and a Go [[]byte] are both finite byte sequences; both are
    modelled by the same type. *)
Notation byte := Byte.byte.
Notation bytes := (list Byte.byte).

#[export] Instance byte_eq_dec : EqDecision byte := Byte.byte_eq_dec.
#[export] Instance byte_countable : Countable byte :=
  inj_countable Byte.to_N Byte.of_N Byte.of_to_N.
#[export] Instance byte_inhabited : Inhabited byte := populate Byte.x00.

Definition b2z (b : byte) : Z := Z.of_N (Byte.to_N b).
Definition z2b (z : Z) : byte :=
  match Byte.of_N (Z.to_N (z mod 256)) with Some b => b | None => Byte.x00 end.

(** String literals of the source, as byte sequences. *)
Definition lit (s : string) : bytes := String.list_byte_of_string s.
Arguments lit s%_string.

Lemma b2z_range b : 0 <= b2z b < 256.
Proof. unfold b2z. pose proof (Byte.to_N_bounded b). lia. Qed.

Lemma b2z_inj b c : b2z b = b2z c -> b = c.
Proof.
  unfold b2z. intros H%N2Z.inj.
  apply (f_equal Byte.of_N) in H. rewrite !Byte.of_to_N in H. congruence.
Qed.

Lemma b2z_z2b z : b2z (z2b z) = z mod 256.
Proof.
  unfold b2z, z2b. pose proof (Z.mod_pos_bound z 256 ltac:(lia)).
  destruct (Byte.of_N (Z.to_N (z mod 256))) as [b|] eqn:E.
  - apply Byte.to_of_N in E. rewrite E. lia.
  - apply Byte.of_N_None_iff in E. lia.
Qed.

Lemma b2z_z2b_small z : 0 <= z < 256 -> b2z (z2b z) = z.
Proof. intros H. rewrite b2z_z2b. apply Z.mod_small. lia. Qed.

Lemma z2b_b2z b : z2b (b2z b) = b.
Proof. apply b2z_inj. apply b2z_z2b_small. apply b2z_range. Qed.

Lemma z2b_mod z : z2b (z mod 256) = z2b z.
Proof. apply b2z_inj. rewrite !b2z_z2b. apply Z.mod_mod. lia. Qed.

(** Keep integer operations folded under [simpl]. *)
#[global] Arguments Z.pow : simpl never.
#[global] Arguments Z.shiftr : simpl never.
#[global] Arguments Z.shiftl : simpl never.
#[global] Arguments Z.land : simpl never.
#[global] Arguments Z.lor : simpl never.
#[global] Arguments Z.lxor : simpl never.
#[global] Arguments Z.modulo : simpl never.
#[global] Arguments Z.div : simpl never.
#[global] Arguments Z.add : simpl never.
#[global] Arguments Z.sub : simpl never.
#[global] Arguments Z.mul : simpl never.
#[global] Arguments Z.leb : simpl never.
#[global] Arguments Z.ltb : simpl never.
#[global] Arguments Z.eqb : simpl never.
#[global] Arguments z2b : simpl never.

(** ** Machine integers *)

(** [int64]/[int] arithmetic wraps modulo 2^64 into the signed range. *)
Definition MaxInt64 : Z := 9223372036854775807.
Definition i64 (z : Z) : Z := (z + 2^63) mod 2^64 - 2^63.
Definition u64 (z : Z) : Z := z mod 2^64.
Definition in_i64 (z : Z) : Prop := - 2^63 <= z < 2^63.

Lemma i64_small z : in_i64 z -> i64 z = z.
Proof. unfold in_i64, i64. intros H. rewrite Z.mod_small; lia. Qed.

Lemma i64_in z : in_i64 (i64 z).
Proof.
  unfold in_i64, i64. pose proof (Z.mod_pos_bound (z + 2^63) (2^64) ltac:(lia)). lia.
Qed.

Lemma u64_small z : 0 <= z < 2^64 -> u64 z = z.
Proof. intros H. apply Z.mod_small. lia. Qed.

(** ** Lists *)

Section drop_while.
Context {A : Type}.
Implicit Types (p : A -> bool) (l : list A).

Fixpoint drop_while p l : list A :=
  match l with
  | [] => []
  | x :: l' => if p x then drop_while p l' else l
  end.

Fixpoint take_while p l : list A :=
  match l with
  | [] => []
  | x :: l' => if p x then x :: take_while p l' else []
  end.

(** Drop from the right-hand end. *)
Definition rdrop_while p l : list A := reverse (drop_while p (reverse l)).

Lemma take_drop_while p l : take_while p l ++ drop_while p l = l.
Proof. induction l as [|x l IH]; simpl; [done|]. destruct (p x); simpl; congruence. Qed.

Lemma take_while_Forall p l : Forall (fun x => p x = true) (take_while p l).
Proof. induction l as [|x l IH]; simpl; [done|]. destruct (p x) eqn:?; auto. Qed.

Lemma drop_while_head p l :
  match drop_while p l with [] => True | x :: _ => p x = false end.
Proof. induction l as [|x l IH]; simpl; [done|]. destruct (p x) eqn:?; auto. Qed.

Lemma drop_while_id p l :
  match l with [] => True | x :: _ => p x = false end -> drop_while p l = l.
Proof. destruct l as [|x l]; simpl; [done|]. by intros ->. Qed.

Lemma drop_while_idemp p l : drop_while p (drop_while p l) = drop_while p l.
Proof. apply drop_while_id, drop_while_head. Qed.

Lemma drop_while_app_all p l1 l2 :
  Forall (fun x => p x = true) l1 -> drop_while p (l1 ++ l2) = drop_while p l2.
Proof. induction 1 as [|x l Hx _ IH]; simpl; [done|]. by rewrite Hx. Qed.

Lemma take_while_app_all p l1 l2 :
  Forall (fun x => p x = true) l1 -> take_while p (l1 ++ l2) = l1 ++ take_while p l2.
Proof. induction 1 as [|x l Hx _ IH]; simpl; [done|]. rewrite Hx. by f_equal. Qed.

Lemma drop_while_length p l : (length (drop_while p l) <= length l)%nat.
Proof. induction l as [|x l IH]; simpl; [done|]. destruct (p x); simpl; lia. Qed.

Lemma drop_while_suffix p l : exists k, l = k ++ drop_while p l.
Proof. exists (take_while p l). by rewrite take_drop_while. Qed.

Lemma rdrop_while_prefix p l : exists k, l = rdrop_while p l ++ k.
Proof.
  destruct (drop_while_suffix p (reverse l)) as [k Hk].
  exists (reverse k). unfold rdrop_while. rewrite <- reverse_app, <- Hk.
  by rewrite reverse_involutive.
Qed.

Lemma rdrop_while_length p l : (length (rdrop_while p l) <= length l)%nat.
Proof.
  unfold rdrop_while. rewrite length_reverse.
  etrans; [apply drop_while_length|]. by rewrite length_reverse.
Qed.

Lemma rdrop_while_idemp p l : rdrop_while p (rdrop_while p l) = rdrop_while p l.
Proof. unfold rdrop_while. by rewrite reverse_involutive, drop_while_idemp. Qed.

Lemma rdrop_while_snoc p l x :
  rdrop_while p (l ++ [x]) = if p x then rdrop_while p l else l ++ [x].
Proof.
  unfold rdrop_while. rewrite reverse_app. simpl. destruct (p x); [done|].
  rewrite reverse_cons, reverse_involutive. done.
Qed.

Lemma rdrop_while_nil p : rdrop_while p [] = [].
Proof. done. Qed.

Lemma rdrop_while_id p l :
  match last l with None => True | Some x => p x = false end -> rdrop_while p l = l.
Proof.
  destruct l as [|x l _] using rev_ind; [done|].
  rewrite last_snoc, rdrop_while_snoc. by intros ->.
Qed.

Lemma rdrop_while_last p l :
  match last (rdrop_while p l) with None => True | Some x => p x = false end.
Proof.
  induction l as [|x l IH] using rev_ind; [done|].
  rewrite rdrop_while_snoc. destruct (p x) eqn:Hp; [done|]. by rewrite last_snoc.
Qed.

Lemma rdrop_while_app_all p l1 l2 :
  Forall (fun x => p x = true) l2 -> rdrop_while p (l1 ++ l2) = rdrop_while p l1.
Proof.
  intros H. unfold rdrop_while. rewrite reverse_app, drop_while_app_all; [done|].
  by apply Forall_reverse.
Qed.

Lemma rdrop_while_head p l x k :
  rdrop_while p l = x :: k -> head l = Some x.
Proof. intros H. destruct (rdrop_while_prefix p l) as [k' ->]. by rewrite H. Qed.
End drop_while.

(** ** Finite maps *)

Section gmap.
Context `{Countable K} {A : Type}.
Implicit Types (m : gmap K A).

Lemma map_to_list_filter (P : K * A -> Prop) `{forall x, Decision (P x)} m :
  map_to_list (filter P m) ≡ₚ filter P (map_to_list m).
Proof.
  apply NoDup_Permutation.
  - apply NoDup_map_to_list.
  - apply NoDup_filter, NoDup_map_to_list.
  - intros [k a]. rewrite list_elem_of_filter, !elem_of_map_to_list, map_lookup_filter_Some.
    naive_solver.
Qed.

(** Counting the entries a loop over any enumeration selects. *)
Lemma length_filter_order (P : K * A -> Prop) `{forall x, Decision (P x)} order m :
  order ≡ₚ map_to_list m -> length (filter P order) = size (filter P m).
Proof.
  intros Hp. rewrite <- length_map_to_list, map_to_list_filter. by rewrite Hp.
Qed.
End gmap.

(** ** Automation *)

Create HintDb gobytes.
#[export] Hint Rewrite b2z_z2b z2b_b2z : gobytes.
#[export] Hint Resolve b2z_range i64_in : gobytes.

(** Split a hypothesis or goal on the innermost boolean test. *)
Ltac case_bool :=
  match goal with
  | |- context [if ?b then _ else _] =>
      lazymatch b with context [if _ then _ else _] => fail | _ => destruct b eqn:? end
  | H : context [if ?b then _ else _] |- _ =>
      lazymatch b with context [if _ then _ else _] => fail | _ => destruct b eqn:? end
  end.

(** Turn boolean comparisons into propositions. *)
Ltac bool_prop :=
  repeat match goal with
  | H : (_ && _)%bool = true |- _ => apply andb_true_iff in H as [? ?]
  | H : (_ || _)%bool = false |- _ => apply orb_false_iff in H as [? ?]
  | H : negb _ = true |- _ => apply negb_true_iff in H
  | H : negb _ = false |- _ => apply negb_false_iff in H
  | H : bool_decide _ = true |- _ => apply bool_decide_eq_true in H
  | H : bool_decide _ = false |- _ => apply bool_decide_eq_false in H
  | H : (_ <=? _) = true |- _ => apply Z.leb_le in H
  | H : (_ <=? _) = false |- _ => apply Z.leb_gt in H
  | H : (_ <? _) = true |- _ => apply Z.ltb_lt in H
  | H : (_ <? _) = false |- _ => apply Z.ltb_ge in H
  | H : (_ =? _) = true |- _ => apply Z.eqb_eq in H
  | H : (_ =? _) = false |- _ => apply Z.eqb_neq in H
  end.

Ltac destruct_unit := repeat match goal with u : unit |- _ => destruct u end.

(** Discharge a closed decidable proposition by evaluating its decision. *)
Ltac decide_closed :=
  match goal with |- ?P => apply (bool_decide_eq_true_1 P); vm_compute; reflexivity end.

(** ** Results *)

(** A Go [(value, error)] pair: exactly one of the two is meaningful. *)
Inductive result (E A : Type) : Type :=
| Ok (a : A)
| Err (e : E).
Arguments Ok {E A} a.
Arguments Err {E A} e.

#[export] Instance result_ret E : MRet (result E) := fun A a => Ok a.
#[export] Instance result_bind E : MBind (result E) := fun A B f r =>
  match r with Ok a => f a | Err e => Err e end.
#[export] Instance result_fmap E : FMap (result E) := fun A B f r =>
  match r with Ok a => Ok (f a) | Err e => Err e end.

Definition of_option {E A} (e : E) (o : option A) : result E A :=
  match o with Some a => Ok a | None => Err e end.

Definition is_ok {E A} (r : result E A) : bool :=
  match r with Ok _ => true | Err _ => false end.

#[export] Instance result_eq_dec {E A} `{EqDecision E, EqDecision A} : EqDecision (result E A).
Proof. solve_decision. Defined.

Lemma result_bind_Ok {E A B} (f : A -> result E B) (r : result E A) b :
  (r ≫= f) = Ok b <-> exists a, r = Ok a /\ f a = Ok b.
Proof.
  destruct r; simpl; split; try done.
  - eauto.
  - by intros (? & [= ->] & ?).
  - by intros (? & ? & ?).
Qed.

Lemma of_option_Ok {E A} (e : E) (o : option A) a : of_option e o = Ok a <-> o = Some a.
Proof. destruct o; simpl; split; congruence. Qed.
