(* ===== verification/GoStrings.v ===== *)
(** * GoStrings: the parts of Go's [strings] package the program uses.

    Go strings are byte sequences.  An index result of [-1] is [None].
    [Trim]'s cutset is always ASCII in this program, so membership of a byte
    in the cutset is the whole test. *)

From S2P Require Import Prelude.

Module strings.

Definition in_cutset (cutset : bytes) (b : byte) : bool := bool_decide (b ∈ cutset).

Definition TrimLeft (s cutset : bytes) : bytes := drop_while (in_cutset cutset) s.
Definition TrimRight (s cutset : bytes) : bytes := rdrop_while (in_cutset cutset) s.
Definition Trim (s cutset : bytes) : bytes := TrimRight (TrimLeft s cutset) cutset.

Definition HasPrefix (s p : bytes) : bool := bool_decide (p `prefix_of` s).
Definition HasSuffix (s p : bytes) : bool := bool_decide (p `suffix_of` s).
Definition TrimPrefix (s p : bytes) : bytes :=
  if HasPrefix s p then drop (length p) s else s.
Definition TrimSuffix (s p : bytes) : bytes :=
  if HasSuffix s p then take (length s - length p) s else s.

Fixpoint IndexFunc (p : byte -> bool) (s : bytes) : option nat :=
  match s with
  | [] => None
  | b :: s' => if p b then Some 0%nat else S <$> IndexFunc p s'
  end.
Definition IndexByte (s : bytes) (c : byte) : option nat :=
  IndexFunc (fun b => bool_decide (b = c)) s.
Definition IndexAny (s chars : bytes) : option nat := IndexFunc (in_cutset chars) s.
Definition ContainsAny (s chars : bytes) : bool :=
  match IndexAny s chars with Some _ => true | None => false end.
Fixpoint LastIndexFunc (p : byte -> bool) (s : bytes) : option nat :=
  match s with
  | [] => None
  | b :: s' =>
      match LastIndexFunc p s' with
      | Some i => Some (S i)
      | None => if p b then Some 0%nat else None
      end
  end.
Definition LastIndexByte (s : bytes) (c : byte) : option nat :=
  LastIndexFunc (fun b => bool_decide (b = c)) s.
Definition Count (s : bytes) (c : byte) : nat :=
  length (filter (fun b => b = c) s).

Fixpoint Contains (s sub : bytes) : bool :=
  HasPrefix s sub || match s with [] => false | _ :: s' => Contains s' sub end.

(** [strings.Split] on a one-byte separator: always at least one piece. *)
Fixpoint Split (s : bytes) (sep : byte) : list bytes :=
  match s with
  | [] => [[]]
  | b :: s' =>
      if bool_decide (b = sep) then [] :: Split s' sep
      else match Split s' sep with
           | [] => [[b]]
           | p :: ps => (b :: p) :: ps
           end
  end.

Fixpoint Join (ps : list bytes) (sep : bytes) : bytes :=
  match ps with
  | [] => []
  | [p] => p
  | p :: ps' => p ++ sep ++ Join ps' sep
  end.

(** [strings.TrimSpace]: Unicode White_Space, in UTF-8. *)
Definition space_runes : list bytes :=
  map (map z2b)
  [ [9]; [10]; [11]; [12]; [13]; [32];
    [194;133]; [194;160]; [225;154;128];
    [226;128;128]; [226;128;129]; [226;128;130]; [226;128;131]; [226;128;132];
    [226;128;133]; [226;128;134]; [226;128;135]; [226;128;136]; [226;128;137];
    [226;128;138]; [226;128;168]; [226;128;169]; [226;128;175]; [226;129;159];
    [227;128;128] ].

Definition strip_rune_l (s : bytes) : option bytes :=
  (fun r => drop (length r) s) <$> List.find (HasPrefix s) space_runes.
Definition strip_rune_r (s : bytes) : option bytes :=
  (fun r => take (length s - length r) s) <$> List.find (HasSuffix s) space_runes.
Fixpoint trim_runes (strip : bytes -> option bytes) (fuel : nat) (s : bytes) : bytes :=
  match fuel with
  | O => s
  | S f => match strip s with Some s' => trim_runes strip f s' | None => s end
  end.
Definition TrimSpace (s : bytes) : bytes :=
  let t := trim_runes strip_rune_l (length s) s in
  trim_runes strip_rune_r (length t) t.

(** [strings.ToUpper] restricted to ASCII letters. *)
Definition is_lower (b : byte) : bool := (97 <=? b2z b) && (b2z b <=? 122).
Definition is_upper (b : byte) : bool := (65 <=? b2z b) && (b2z b <=? 90).
Definition is_digit (b : byte) : bool := (48 <=? b2z b) && (b2z b <=? 57).
Definition ToUpperASCII (s : bytes) : bytes :=
  map (fun b => if is_lower b then z2b (b2z b - 32) else b) s.

End strings.

(** ** Facts *)

Section facts.
Import strings.
Implicit Types (s p : bytes) (b c : byte).

Lemma IndexFunc_Some f s i :
  IndexFunc f s = Some i ->
  exists b, s !! i = Some b /\ f b = true /\
            Forall (fun x => f x = false) (take i s).
Proof.
  revert i. induction s as [|x s IH]; simpl; [done|]. intros i.
  destruct (f x) eqn:Hf.
  - intros [= <-]. exists x. auto.
  - destruct (IndexFunc f s) as [j|] eqn:Hj; simpl; [|done].
    intros [= <-]. destruct (IH j eq_refl) as (b & ? & ? & ?).
    exists b. simpl. auto.
Qed.

Lemma IndexFunc_None f s :
  IndexFunc f s = None <-> Forall (fun x => f x = false) s.
Proof.
  induction s as [|x s IH]; simpl; [done|].
  destruct (f x) eqn:Hf.
  - split; [done|]. intros H%Forall_inv. congruence.
  - destruct (IndexFunc f s); simpl; split; try done.
    + intros H%Forall_inv_tail. by apply IH in H.
    + intros _. constructor; [done|]. by apply IH.
Qed.

Lemma IndexFunc_app_first f s1 b s2 :
  Forall (fun x => f x = false) s1 -> f b = true ->
  IndexFunc f (s1 ++ b :: s2) = Some (length s1).
Proof.
  induction 1 as [|x l Hx _ IH]; simpl; intros Hb; [by rewrite Hb|].
  rewrite Hx, IH; done.
Qed.

Lemma IndexByte_None s c : IndexByte s c = None <-> c ∉ s.
Proof.
  unfold IndexByte. rewrite IndexFunc_None, Forall_forall. split.
  - intros H Hin. specialize (H _ Hin). bool_prop. done.
  - intros H x Hin. apply bool_decide_eq_false. by intros ->.
Qed.

Lemma IndexByte_Some s c i :
  IndexByte s c = Some i ->
  s = take i s ++ c :: drop (S i) s /\ c ∉ take i s /\ (i < length s)%nat.
Proof.
  intros (b & Hl & Hb & Hf)%IndexFunc_Some. bool_prop. subst b.
  split; [by rewrite take_drop_middle|]. split.
  - intros Hin. rewrite Forall_forall in Hf. specialize (Hf _ Hin). bool_prop. done.
  - by eapply lookup_lt_Some.
Qed.

Lemma IndexByte_app_first s1 c s2 :
  c ∉ s1 -> IndexByte (s1 ++ c :: s2) c = Some (length s1).
Proof.
  intros H. apply IndexFunc_app_first; [|by apply bool_decide_eq_true].
  apply Forall_forall. intros x Hx. apply bool_decide_eq_false. by intros ->.
Qed.

Lemma LastIndexFunc_None f s :
  LastIndexFunc f s = None <-> Forall (fun x => f x = false) s.
Proof.
  induction s as [|x s IH]; simpl; [done|].
  destruct (LastIndexFunc f s) eqn:E; split; try done.
  - intros H%Forall_inv_tail. by apply IH in H.
  - destruct (f x) eqn:Hf; [done|]. intros _. constructor; [done|]. by apply IH.
  - intros H. by rewrite (Forall_inv H).
Qed.

Lemma LastIndexFunc_app_last f s1 b s2 :
  Forall (fun x => f x = false) s2 -> f b = true ->
  LastIndexFunc f (s1 ++ b :: s2) = Some (length s1).
Proof.
  intros H Hb. induction s1 as [|x s1 IH]; simpl.
  - rewrite (proj2 (LastIndexFunc_None f s2) H). by rewrite Hb.
  - by rewrite IH.
Qed.

Lemma LastIndexByte_None s c : LastIndexByte s c = None <-> c ∉ s.
Proof.
  unfold LastIndexByte. rewrite LastIndexFunc_None, Forall_forall. split.
  - intros H Hin. specialize (H _ Hin). bool_prop. done.
  - intros H x Hin. apply bool_decide_eq_false. by intros ->.
Qed.

Lemma LastIndexByte_app_last s1 c s2 :
  c ∉ s2 -> LastIndexByte (s1 ++ c :: s2) c = Some (length s1).
Proof.
  intros H. apply LastIndexFunc_app_last; [|by apply bool_decide_eq_true].
  apply Forall_forall. intros x Hx. apply bool_decide_eq_false. by intros ->.
Qed.

Lemma Count_app s1 s2 c : Count (s1 ++ s2) c = (Count s1 c + Count s2 c)%nat.
Proof. unfold Count. by rewrite filter_app, length_app. Qed.

Lemma Count_zero s c : Count s c = 0%nat <-> c ∉ s.
Proof.
  unfold Count. rewrite length_zero_iff_nil. split.
  - intros H Hin. assert (c ∈ filter (fun b => b = c) s) as Hx
      by (by apply list_elem_of_filter). rewrite H in Hx. by apply elem_of_nil in Hx.
  - intros H. destruct (filter (fun b => b = c) s) as [|y l] eqn:E; [done|].
    assert (y ∈ filter (fun b => b = c) s) as Hx by (rewrite E; left).
    apply list_elem_of_filter in Hx as [-> ?]. done.
Qed.

Lemma HasPrefix_spec s p : HasPrefix s p = true <-> exists k, s = p ++ k.
Proof. unfold HasPrefix. by rewrite bool_decide_eq_true. Qed.

Lemma HasPrefix_app p k : HasPrefix (p ++ k) p = true.
Proof. apply HasPrefix_spec. eauto. Qed.

Lemma TrimSuffix_byte s c :
  TrimSuffix s [c] =
    match last s with
    | Some x => if decide (x = c) then take (length s - 1) s else s
    | None => s
    end.
Proof.
  unfold TrimSuffix, HasSuffix. destruct s as [|x s _] using rev_ind.
  - case_bool_decide as H; [|done]. by apply suffix_length in H; simpl in H.
  - rewrite last_snoc. case_bool_decide as H; case_decide; subst; try done.
    + by pose proof (suffix_snoc_inv_1 c x [] s H).
    + destruct H. by exists s.
Qed.

Lemma TrimSuffix_snoc s c : TrimSuffix (s ++ [c]) [c] = s.
Proof.
  rewrite TrimSuffix_byte, last_snoc, decide_True by done.
  rewrite length_app; simpl. rewrite Nat.add_sub. apply take_app_length.
Qed.

Lemma TrimSuffix_snoc_ne s x c : x <> c -> TrimSuffix (s ++ [x]) [c] = s ++ [x].
Proof. intros H. by rewrite TrimSuffix_byte, last_snoc, decide_False. Qed.

(** [Join] inverts [Split]. *)
Lemma Join_Split s c : Join (Split s c) [c] = s.
Proof.
  induction s as [|b s IH]; simpl; [done|].
  case_bool_decide as Hb.
  - subst b. destruct (Split s c) as [|p ps] eqn:E.
    + destruct s as [|x s]; simpl in E; [done|].
      case_bool_decide; [done|]. by destruct (Split s c).
    + change (c :: Join (p :: ps) [c] = c :: s). by rewrite IH.
  - destruct (Split s c) as [|p ps] eqn:E; simpl in *.
    + by subst s.
    + destruct ps; simpl in *; congruence.
Qed.

Lemma Split_not_nil s c : Split s c <> [].
Proof. destruct s as [|b s]; simpl; [done|]. case_bool_decide; [done|]. by destruct (Split s c). Qed.

Lemma Split_no_sep s c : Forall (fun p => c ∉ p) (Split s c).
Proof.
  induction s as [|b s IH]; simpl.
  - repeat constructor. by intros ?%elem_of_nil.
  - case_bool_decide as Hb.
    + constructor; [by intros ?%elem_of_nil|done].
    + destruct (Split s c) as [|p ps].
      * repeat constructor. intros [->|Hx%elem_of_nil]%elem_of_cons; done.
      * apply Forall_cons in IH as [Hp Hps]. constructor; [|done].
        intros [->|?]%elem_of_cons; done.
Qed.

Lemma Split_no_sep_id s c : c ∉ s -> Split s c = [s].
Proof.
  induction s as [|b s IH]; simpl; intros H; [done|].
  rewrite bool_decide_eq_false_2 by (intros ->; apply H; left).
  rewrite IH; [done|]. intros ?; apply H; by right.
Qed.

Lemma Split_app s1 s2 c :
  c ∉ s1 -> Split (s1 ++ c :: s2) c = s1 :: Split s2 c.
Proof.
  induction s1 as [|b s1 IH]; simpl; intros H.
  - by rewrite bool_decide_eq_true_2.
  - rewrite bool_decide_eq_false_2 by (intros ->; apply H; left).
    rewrite IH; [done|]. intros ?; apply H; by right.
Qed.
End facts.
