(* ===== verification/Flag.v ===== *)
(** * Flag: the command line, as Go's [flag] package reads it.

    [flag.Parse] on the arguments of a command: one or two dashes, a value after
    an equals sign or, but for a boolean flag, in the next argument; the first
    argument that is no flag, or two dashes alone, ends the flags.  A flag writes a
    field of the options [F]. *)

From S2P Require Import Prelude GoStrings.
Import strings.

Module flag.

(** The [error] with which [Parse] ends the process. *)
Inductive flag_err :=
| ErrHelp
| BadSyntax (s : bytes)
| NotDefined (name : bytes)
| NeedsArgument (name : bytes)
| InvalidValue (name value : bytes).

(** [flag.CommandLine] is [ExitOnError]: 0 after the usage was asked for, else 2. *)
Definition exit_code (e : flag_err) : Z := match e with ErrHelp => 0 | _ => 2 end.

(** [strconv.ParseBool] *)
Definition ParseBool (s : bytes) : option bool :=
  if bool_decide (s ∈ [lit "1"; lit "t"; lit "T"; lit "true"; lit "TRUE"; lit "True"]) then Some true
  else if bool_decide (s ∈ [lit "0"; lit "f"; lit "F"; lit "false"; lit "FALSE"; lit "False"]) then Some false
  else None.

(** The text of an argument after its dashes: the name, and the value if it has one. *)
Definition cut_value (s : bytes) : bytes * option bytes :=
  match IndexByte s "="%byte with
  | Some i => (take i s, Some (drop (S i) s))
  | None => (s, None)
  end.

(** What an argument is to [parseOne], before its name is looked up. *)
Inductive argument :=
| NotAFlag
| Malformed
| Named (name : bytes) (value : option bytes).

Definition argument_of (s : bytes) : argument :=
  match s with
  | "-"%byte :: c :: _ =>
      let minuses := if bool_decide (c = "-"%byte) then 2%nat else 1%nat in
      if bool_decide (minuses = 2%nat) && (length s =? 2)%nat then NotAFlag
      else
        match drop minuses s with
        | [] | "-"%byte :: _ | "="%byte :: _ => Malformed
        | name => let '(name, value) := cut_value name in Named name value
        end
  | _ => NotAFlag
  end.

Section flags.
Context {F : Type}.

Record Flag := mkFlag {
  Name : bytes;
  IsBoolFlag : bool;
  Set_ : bytes -> F -> option F }.

Definition BoolVar (name : bytes) (write : bool -> F -> F) : Flag :=
  mkFlag name true (fun s o => (fun b => write b o) <$> ParseBool s).

Definition StringVar (name : bytes) (write : bytes -> F -> F) : Flag :=
  mkFlag name false (fun s o => Some (write s o)).

Variable (formal : list Flag).

Definition Lookup (name : bytes) : option Flag := find (fun f => bool_decide (Name f = name)) formal.

Fixpoint Parse (args : list bytes) (o : F) : result flag_err F :=
  match args with
  | [] => Ok o
  | s :: args' =>
      match argument_of s with
      | NotAFlag => Ok o
      | Malformed => Err (BadSyntax s)
      | Named name value =>
          match Lookup name with
          | None =>
              if bool_decide (name = lit "help") || bool_decide (name = lit "h") then Err ErrHelp
              else Err (NotDefined name)
          | Some f =>
              match (if IsBoolFlag f then Some (default (lit "true") value) else value), args' with
              | Some v, _ =>
                  match Set_ f v o with Some o' => Parse args' o' | None => Err (InvalidValue name v) end
              | None, v :: args'' =>
                  match Set_ f v o with Some o' => Parse args'' o' | None => Err (InvalidValue name v) end
              | None, [] => Err (NeedsArgument name)
              end
          end
      end
  end.

(** ** Spellings *)

(** One setting of a flag: how many dashes, and whether the value is joined. *)
Record spelling := mkSpelling { doubled : bool; joined : bool }.

Definition dashes (p : spelling) : bytes := if doubled p then lit "--" else lit "-".

(** The arguments that give the flag [name] the value [v]. *)
Definition spell (p : spelling) (name v : bytes) : list bytes :=
  if joined p then [dashes p ++ name ++ "="%byte :: v] else [dashes p ++ name; v].

(** A name [Parse] reads back. *)
Definition plain (name : bytes) : Prop :=
  match name with [] => False | c :: _ => c <> "-"%byte end /\ "="%byte ∉ name.

Lemma cut_value_none name : "="%byte ∉ name -> cut_value name = (name, None).
Proof.
  intros H. unfold cut_value, IndexByte.
  enough (IndexFunc (fun b => bool_decide (b = "="%byte)) name = None) as -> by done.
  induction name as [|c name IH]; [done|]. apply not_elem_of_cons in H as [Hc H]. cbn.
  rewrite bool_decide_eq_false_2 by done. by rewrite IH.
Qed.

Lemma cut_value_some name v : "="%byte ∉ name -> cut_value (name ++ "="%byte :: v) = (name, Some v).
Proof.
  intros H. unfold cut_value, IndexByte.
  enough (IndexFunc (fun b => bool_decide (b = "="%byte)) (name ++ "="%byte :: v) = Some (length name)) as ->.
  { rewrite take_app_length, cons_middle, app_assoc, drop_app_length'; [done|]. rewrite length_app. cbn. lia. }
  induction name as [|c name IH]; [done|]. apply not_elem_of_cons in H as [Hc H]. cbn.
  rewrite bool_decide_eq_false_2 by done. by rewrite IH.
Qed.

Lemma argument_of_dashes p s :
  match s with [] => False | c :: _ => c <> "-"%byte /\ c <> "="%byte end ->
  argument_of (dashes p ++ s) = let '(name, value) := cut_value s in Named name value.
Proof.
  destruct s as [|c s]; [done|]. intros [Hd He]. destruct p as [[] j]; cbn [dashes doubled].
  - change (lit "--" ++ c :: s) with ("-"%byte :: "-"%byte :: c :: s). cbn.
    destruct c; try done; by destruct (cut_value _).
  - change (lit "-" ++ c :: s) with ("-"%byte :: c :: s). cbn [argument_of].
    rewrite (bool_decide_eq_false_2 (c = _)) by done. cbn. destruct c; try done; by destruct (cut_value _).
Qed.

Lemma plain_head name tail : plain name ->
  match name ++ tail with [] => False | c :: _ => c <> "-"%byte /\ c <> "="%byte end.
Proof. intros [H He]. destruct name as [|c name]; [done|]. split; [done|]. by apply not_elem_of_cons in He as [? _]. Qed.

Section plain.
Variables (name : bytes) (f : Flag) (args : list bytes) (o : F).
Hypothesis (Hplain : plain name).
Hypothesis (Hf : Lookup name = Some f).

(** However a value is spelled, the flag is set to it. *)
Lemma Parse_spell p v :
  (joined p = false -> IsBoolFlag f = false) ->
  Parse (spell p name v ++ args) o =
    match Set_ f v o with Some o' => Parse args o' | None => Err (InvalidValue name v) end.
Proof.
  intros Hb. unfold spell. destruct (joined p) eqn:Hj; cbn [app Parse].
  - rewrite argument_of_dashes by (by apply plain_head). rewrite cut_value_some by apply Hplain.
    rewrite Hf. cbn. by destruct (IsBoolFlag f), args.
  - pose proof (plain_head name [] Hplain) as Hh. rewrite app_nil_r in Hh.
    rewrite argument_of_dashes by done. rewrite cut_value_none by apply Hplain.
    rewrite Hf. by rewrite Hb.
Qed.

(** A boolean flag alone is set. *)
Lemma Parse_alone p :
  IsBoolFlag f = true ->
  Parse ((dashes p ++ name) :: args) o =
    match Set_ f (lit "true") o with
    | Some o' => Parse args o'
    | None => Err (InvalidValue name (lit "true"))
    end.
Proof.
  intros Hb. cbn [Parse]. pose proof (plain_head name [] Hplain) as Hh. rewrite app_nil_r in Hh.
  rewrite argument_of_dashes by done. rewrite cut_value_none by apply Hplain.
  rewrite Hf, Hb. cbn. by destruct args.
Qed.
End plain.

(** A flag that is not defined. *)
Lemma Parse_undefined name args o p :
  plain name -> name ∉ [lit "help"; lit "h"] ++ map Name formal ->
  Parse ((dashes p ++ name) :: args) o = Err (NotDefined name).
Proof.
  intros Hn [[Hhelp [Hh _]%not_elem_of_cons]%not_elem_of_cons Hnew]%not_elem_of_app. cbn [Parse].
  pose proof (plain_head name [] Hn) as Hd. rewrite app_nil_r in Hd.
  rewrite argument_of_dashes by done. rewrite cut_value_none by apply Hn.
  enough (Lookup name = None) as ->.
  { rewrite !bool_decide_eq_false_2; [done|done|done]. }
  unfold Lookup. induction formal as [|f fs IH]; [done|]. cbn [map] in Hnew.
  apply not_elem_of_cons in Hnew as [Hf Hnew]. cbn [find].
  rewrite bool_decide_eq_false_2 by done. by apply IH.
Qed.
End flags.
Arguments Flag F : clear implicits.

End flag.
