(* ===== verification/Binary.v ===== *)
(** * Binary: Go's [encoding/binary] and [encoding/hex] as the program uses them. *)

From S2P Require Import Prelude.

Module binary.

(** Little-endian, [k] bytes: byte [i] is [n >> 8*i]. *)
Fixpoint put_le (k : nat) (n : Z) : bytes :=
  match k with
  | O => []
  | S k' => z2b n :: put_le k' (Z.shiftr n 8)
  end.

Fixpoint le_val (l : bytes) : Z :=
  match l with
  | [] => 0
  | b :: l' => b2z b + 256 * le_val l'
  end.

Definition LittleEndian_PutUint64 (n : Z) : bytes := put_le 8 n.
Definition BigEndian_PutUint64 (n : Z) : bytes := reverse (put_le 8 n).
Definition BigEndian_Uint64 (l : bytes) : Z := le_val (reverse l).

Lemma length_put_le k n : length (put_le k n) = k.
Proof. revert n. induction k; intros n; simpl; [done|]. by rewrite IHk. Qed.

Lemma le_val_range l : 0 <= le_val l < 256 ^ Z.of_nat (length l).
Proof.
  induction l as [|b l IH]; simpl le_val; simpl length; [lia|].
  rewrite Nat2Z.inj_succ, Z.pow_succ_r by lia. pose proof (b2z_range b). nia.
Qed.

Lemma le_val_put_le k n : 0 <= n -> le_val (put_le k n) = n mod 256 ^ Z.of_nat k.
Proof.
  revert n. induction k as [|k IH]; intros n Hn; simpl le_val; simpl put_le.
  - rewrite Z.mod_1_r. done.
  - rewrite b2z_z2b, IH by (apply Z.shiftr_nonneg; lia).
    rewrite Z.shiftr_div_pow2 by lia.
    rewrite Nat2Z.inj_succ, Z.pow_succ_r by lia.
    rewrite Z.rem_mul_r by lia. done.
Qed.

Lemma put_le_le_val l : put_le (length l) (le_val l) = l.
Proof.
  induction l as [|b l IH]; simpl; [done|].
  f_equal.
  - apply b2z_inj. rewrite b2z_z2b. rewrite Z.mul_comm, Z_mod_plus_full.
    apply Z.mod_small, b2z_range.
  - rewrite Z.shiftr_div_pow2 by lia. change (2 ^ 8) with 256.
    rewrite Z.mul_comm, Z.div_add by lia.
    rewrite Z.div_small by apply b2z_range. rewrite Z.add_0_l. apply IH.
Qed.

Lemma length_BigEndian_PutUint64 n : length (BigEndian_PutUint64 n) = 8%nat.
Proof. unfold BigEndian_PutUint64. by rewrite length_reverse, length_put_le. Qed.

Lemma BigEndian_roundtrip n :
  0 <= n < 2 ^ 64 -> BigEndian_Uint64 (BigEndian_PutUint64 n) = n.
Proof.
  intros H. unfold BigEndian_Uint64, BigEndian_PutUint64.
  rewrite reverse_involutive, le_val_put_le by lia. apply Z.mod_small. lia.
Qed.

Lemma BigEndian_roundtrip_l l :
  length l = 8%nat -> BigEndian_PutUint64 (BigEndian_Uint64 l) = l.
Proof.
  intros H. unfold BigEndian_Uint64, BigEndian_PutUint64.
  replace 8%nat with (length (reverse l)) by (by rewrite length_reverse).
  by rewrite put_le_le_val, reverse_involutive.
Qed.

Lemma BigEndian_Uint64_range l :
  length l = 8%nat -> 0 <= BigEndian_Uint64 l < 2 ^ 64.
Proof.
  intros H. pose proof (le_val_range (reverse l)) as Hr.
  rewrite length_reverse, H in Hr. exact Hr.
Qed.

End binary.

Module hex.

Definition hexdigit (z : Z) : byte := z2b (if z <? 10 then 48 + z else 87 + z).

(** [hex.EncodeToString]: two lower-case digits per byte. *)
Definition EncodeToString (l : bytes) : bytes :=
  l ≫= (fun b => [hexdigit (Z.shiftr (b2z b) 4); hexdigit (Z.land (b2z b) 15)]).

Definition hexval (b : byte) : option Z :=
  let z := b2z b in
  if (48 <=? z) && (z <=? 57) then Some (z - 48)
  else if (97 <=? z) && (z <=? 102) then Some (z - 87)
  else if (65 <=? z) && (z <=? 70) then Some (z - 55)
  else None.

Fixpoint decode (l : bytes) : option bytes :=
  match l with
  | [] => Some []
  | [_] => None
  | h :: l :: rest =>
      h' ← hexval h; l' ← hexval l; r ← decode rest;
      Some (z2b (16 * h' + l') :: r)
  end.

Lemma hexval_hexdigit z : 0 <= z < 16 -> hexval (hexdigit z) = Some z.
Proof.
  intros H. unfold hexval, hexdigit.
  destruct (z <? 10) eqn:E; bool_prop; rewrite b2z_z2b_small by lia.
  - rewrite (proj2 (Z.leb_le _ _)), (proj2 (Z.leb_le _ _)) by lia. simpl. f_equal; lia.
  - rewrite (proj2 (Z.leb_gt (87 + z) 57)) by lia. rewrite andb_false_r.
    rewrite (proj2 (Z.leb_le _ _)), (proj2 (Z.leb_le _ _)) by lia. simpl. f_equal; lia.
Qed.

Lemma decode_encode l : decode (EncodeToString l) = Some l.
Proof.
  induction l as [|b l IH]; [done|]. cbn [EncodeToString mbind list_bind app decode].
  pose proof (b2z_range b) as Hb.
  assert (Hh : Z.shiftr (b2z b) 4 = b2z b / 16) by (by rewrite Z.shiftr_div_pow2).
  assert (Hl : Z.land (b2z b) 15 = b2z b mod 16) by (by apply (Z.land_ones _ 4)).
  rewrite Hh, Hl.
  assert (0 <= b2z b / 16 < 16).
  { split; [apply Z.div_pos; lia|apply Z.div_lt_upper_bound; lia]. }
  pose proof (Z.mod_pos_bound (b2z b) 16 ltac:(lia)).
  rewrite !hexval_hexdigit by lia.
  change (EncodeToString l) with
    (l ≫= (fun b => [hexdigit (Z.shiftr (b2z b) 4); hexdigit (Z.land (b2z b) 15)])) in IH.
  simpl. simpl in IH. rewrite IH. simpl. rewrite <- Z_div_mod_eq_full. by rewrite z2b_b2z.
Qed.

Lemma EncodeToString_inj l1 l2 : EncodeToString l1 = EncodeToString l2 -> l1 = l2.
Proof.
  intros H. apply (f_equal decode) in H. rewrite !decode_encode in H. congruence.
Qed.

Lemma length_EncodeToString l : length (EncodeToString l) = (2 * length l)%nat.
Proof.
  induction l as [|b l IH]; [done|]. unfold EncodeToString in *. cbn [mbind list_bind app length] in *. lia.
Qed.

End hex.
