(* ===== verification/Pae.v ===== *)
(** * Pae: Pre-Authentication Encoding ([core/go/pae.go]).

    [LE64] and [PAE] are the program's encoders.  [parse] is the reference
    decoder: it reads a [PAE] encoding off the front of a byte string, which
    shows that the encoding is injective and prefix-free. *)

From S2P Require Import Prelude Binary.
Import binary.

(** [b[7] &= 0x7f] on the eight little-endian bytes. *)
Definition LE64 (n : Z) : bytes :=
  alter (fun b => z2b (Z.land (b2z b) 0x7f)) 7%nat (LittleEndian_PutUint64 n).

Definition PAE (pieces : list bytes) : bytes :=
  LE64 (u64 (Z.of_nat (length pieces))) ++
  (pieces ≫= (fun p => LE64 (u64 (Z.of_nat (length p))) ++ p)).

(** Lengths are Go [int]s, so every slice length is below 2^63. *)
Definition fits {A} (l : list A) : Prop := Z.of_nat (length l) < 2 ^ 63.
Definition pieces_fit (ps : list bytes) : Prop := fits ps /\ Forall fits ps.

Fixpoint parse_pieces (n : nat) (s : bytes) : option (list bytes * bytes) :=
  match n with
  | O => Some ([], s)
  | S n' =>
      let len := Z.to_nat (le_val (take 8 s)) in
      if (length s <? 8 + len)%nat then None
      else '(ps, rest) ← parse_pieces n' (drop len (drop 8 s));
           Some (take len (drop 8 s) :: ps, rest)
  end.

Definition parse (s : bytes) : option (list bytes * bytes) :=
  if (length s <? 8)%nat then None
  else parse_pieces (Z.to_nat (le_val (take 8 s))) (drop 8 s).

Lemma length_LE64 n : length (LE64 n) = 8%nat.
Proof. unfold LE64, LittleEndian_PutUint64. by rewrite length_alter, length_put_le. Qed.

Lemma le_val_LE64 n : 0 <= n < 2 ^ 63 -> le_val (LE64 n) = n.
Proof.
  intros Hn. unfold LE64.
  assert (Hid : alter (fun b => z2b (Z.land (b2z b) 0x7f)) 7%nat (LittleEndian_PutUint64 n)
                = LittleEndian_PutUint64 n).
  { rewrite (list_alter_ext _ id _ (LittleEndian_PutUint64 n)); [by apply list_alter_id| |done].
    intros b Hb. unfold id. unfold LittleEndian_PutUint64 in Hb.
    simpl in Hb. injection Hb as <-. apply b2z_inj.
    rewrite !Z.shiftr_shiftr by lia. change (8 + (8 + (8 + (8 + (8 + (8 + 8)))))) with 56.
    rewrite Z.shiftr_div_pow2 by lia.
    assert (0 <= n / 2 ^ 56 < 128).
    { split; [apply Z.div_pos; lia|]. apply Z.div_lt_upper_bound; lia. }
    rewrite (b2z_z2b_small (n / 2 ^ 56)) by lia.
    change 0x7f with (Z.ones 7). rewrite Z.land_ones by lia.
    rewrite (Z.mod_small _ (2 ^ 7)) by lia. apply b2z_z2b_small. lia. }
  rewrite Hid. unfold LittleEndian_PutUint64.
  rewrite le_val_put_le by lia. apply Z.mod_small. lia.
Qed.

Lemma le_val_LE64_len {A} (l : list A) :
  fits l -> le_val (LE64 (u64 (Z.of_nat (length l)))) = Z.of_nat (length l).
Proof.
  unfold fits. intros H. rewrite u64_small by lia. apply le_val_LE64. lia.
Qed.

Lemma take_LE64 n s : take 8 (LE64 n ++ s) = LE64 n.
Proof. rewrite <- (length_LE64 n). apply take_app_length. Qed.
Lemma drop_LE64 n s : drop 8 (LE64 n ++ s) = s.
Proof. rewrite <- (length_LE64 n) at 1. apply drop_app_length. Qed.

Lemma parse_pieces_PAE ps rest :
  Forall fits ps ->
  parse_pieces (length ps)
    ((ps ≫= (fun p => LE64 (u64 (Z.of_nat (length p))) ++ p)) ++ rest) = Some (ps, rest).
Proof.
  induction 1 as [|p ps Hp Hps IH]; [done|].
  cbn [mbind list_bind length parse_pieces] in *.
  rewrite <- !app_assoc.
  rewrite take_LE64, drop_LE64, le_val_LE64_len by done. rewrite Nat2Z.id.
  rewrite (proj2 (Nat.ltb_ge _ _)) by (rewrite !length_app, length_LE64; lia).
  rewrite drop_app_length, take_app_length. rewrite IH. done.
Qed.

Lemma parse_PAE ps rest : pieces_fit ps -> parse (PAE ps ++ rest) = Some (ps, rest).
Proof.
  intros [Hn Hps]. unfold parse, PAE.
  rewrite <- app_assoc, take_LE64, drop_LE64, le_val_LE64_len by done.
  rewrite (proj2 (Nat.ltb_ge _ _)) by (rewrite !length_app, length_LE64; lia).
  rewrite Nat2Z.id. by apply parse_pieces_PAE.
Qed.

Lemma PAE_inj ps qs : pieces_fit ps -> pieces_fit qs -> PAE ps = PAE qs -> ps = qs.
Proof.
  intros Hp Hq Heq. pose proof (parse_PAE ps [] Hp) as H1.
  pose proof (parse_PAE qs [] Hq) as H2. rewrite Heq in H1. congruence.
Qed.

(** A decidable form, for closed instances. *)
Lemma pieces_fit_dec ps :
  (Z.of_nat (length ps) <? 2 ^ 63) &&
  forallb (fun p : bytes => Z.of_nat (length p) <? 2 ^ 63) ps = true ->
  pieces_fit ps.
Proof.
  intros [H1 H2]%andb_true_iff. split; [by apply Z.ltb_lt|].
  rewrite forallb_forall in H2. apply Forall_forall. intros p Hp.
  apply Z.ltb_lt, H2, list_elem_of_In, Hp.
Qed.
