(* ===== verification/Sha256.v ===== *)
(** * Sha256: Go's [crypto/sha256] and [crypto/hmac].

    SHA-256 (FIPS 180-4) and HMAC (RFC 2104) as executable functions on byte
    lists, so the program's hashes and tags evaluate in the kernel.  Words are
    32-bit integers kept in [Z] with the wrap-around written out. *)

From S2P Require Import Prelude Binary.

Module sha256.

Definition w32 (z : Z) : Z := z mod 2 ^ 32.
Definition rotr (n x : Z) : Z := Z.lor (Z.shiftr x n) (w32 (Z.shiftl x (32 - n))).

(** The constants are the leading fractional bits of roots of primes (FIPS 180-4,
    4.2.2 and 5.3.3), computed here rather than listed. *)
Definition prime (n : nat) : bool :=
  forallb (fun d => negb (Z.of_nat n mod Z.of_nat d =? 0)) (seq 2 (n - 2)).

Definition primes (k : nat) : list Z :=
  take k (map Z.of_nat (filter (fun n => Is_true (prime n)) (seq 2 310))).

(** The integer [e]-th root of [n], found bit by bit from bit [b] down. *)
Fixpoint iroot (e n : Z) (b : nat) (r : Z) : Z :=
  let r' := r + 2 ^ Z.of_nat b in
  let r := if r' ^ e <=? n then r' else r in
  match b with O => r | S b' => iroot e n b' r end.

Definition frac_root (e p : Z) : Z := w32 (iroot e (p * 2 ^ (32 * e)) 40 0).

Definition K : list Z := Eval vm_compute in map (frac_root 3) (primes 64).

(** The chaining state: eight 32-bit words. *)
Record state := State { sa : Z; sb : Z; sc : Z; sd : Z; se : Z; sf : Z; sg : Z; sh : Z }.

Definition init : state := Eval vm_compute in
  match map (frac_root 2) (primes 8) with
  | [a; b; c; d; e; f; g; h] => State a b c d e f g h
  | _ => State 0 0 0 0 0 0 0 0
  end.

Definition sigma0 x := Z.lxor (Z.lxor (rotr 7 x) (rotr 18 x)) (Z.shiftr x 3).
Definition sigma1 x := Z.lxor (Z.lxor (rotr 17 x) (rotr 19 x)) (Z.shiftr x 10).
Definition Sigma0 x := Z.lxor (Z.lxor (rotr 2 x) (rotr 13 x)) (rotr 22 x).
Definition Sigma1 x := Z.lxor (Z.lxor (rotr 6 x) (rotr 11 x)) (rotr 25 x).

(** [w] is a sliding window of the next sixteen schedule words. *)
Fixpoint rounds (ks w : list Z) (s : state) : state :=
  match ks with
  | [] => s
  | k :: ks' =>
      let w0 := nth 0 w 0 in
      let ch := Z.lxor (Z.land (se s) (sf s)) (Z.land (Z.lxor (se s) 0xffffffff) (sg s)) in
      let t1 := sh s + Sigma1 (se s) + ch + k + w0 in
      let maj := Z.lxor (Z.lxor (Z.land (sa s) (sb s)) (Z.land (sa s) (sc s)))
                        (Z.land (sb s) (sc s)) in
      let t2 := Sigma0 (sa s) + maj in
      let w16 := w32 (sigma1 (nth 14 w 0) + nth 9 w 0 + sigma0 (nth 1 w 0) + w0) in
      rounds ks' (drop 1 w ++ [w16])
        (State (w32 (t1 + t2)) (sa s) (sb s) (sc s) (w32 (sd s + t1)) (se s) (sf s) (sg s))
  end.

Fixpoint be_val_acc (acc : Z) (l : bytes) : Z :=
  match l with [] => acc | b :: l' => be_val_acc (acc * 256 + b2z b) l' end.
Definition be4 (z : Z) : bytes := reverse (binary.put_le 4 z).

Fixpoint chunks (fuel k : nat) (l : bytes) : list bytes :=
  match fuel, l with
  | O, _ | _, [] => []
  | S f, _ => take k l :: chunks f k (drop k l)
  end.

Definition block (s : state) (b : bytes) : state :=
  let s' := rounds K (map (be_val_acc 0) (chunks 16 4 b)) s in
  State (w32 (sa s + sa s')) (w32 (sb s + sb s')) (w32 (sc s + sc s')) (w32 (sd s + sd s'))
        (w32 (se s + se s')) (w32 (sf s + sf s')) (w32 (sg s + sg s')) (w32 (sh s + sh s')).

Definition pad (m : bytes) : bytes :=
  let l := Z.of_nat (length m) in
  m ++ [Byte.x80] ++ replicate (Z.to_nat ((55 - l) mod 64)) Byte.x00 ++
  binary.BigEndian_PutUint64 (8 * l).

Definition digest (s : state) : bytes :=
  be4 (sa s) ++ be4 (sb s) ++ be4 (sc s) ++ be4 (sd s) ++
  be4 (se s) ++ be4 (sf s) ++ be4 (sg s) ++ be4 (sh s).

Definition Sum256 (m : bytes) : bytes :=
  let p := pad m in digest (fold_left block (chunks (length p) 64 p) init).

Lemma length_Sum256 m : length (Sum256 m) = 32%nat.
Proof. unfold Sum256, digest. by rewrite !length_app. Qed.

End sha256.

Module hmac.

Definition blockSize : nat := 64.
Definition key_block (key : bytes) : bytes :=
  let k := if (blockSize <? length key)%nat then sha256.Sum256 key else key in
  k ++ replicate (blockSize - length k) Byte.x00.
Definition xor_pad (c : Z) (k : bytes) : bytes := map (fun b => z2b (Z.lxor (b2z b) c)) k.

(** [hmac.New(sha256.New, key)], one [Write], [Sum(nil)]. *)
Definition HMAC_SHA256 (key data : bytes) : bytes :=
  let k := key_block key in
  sha256.Sum256 (xor_pad 0x5c k ++ sha256.Sum256 (xor_pad 0x36 k ++ data)).

(** [hmac.Equal]/[subtle.ConstantTimeCompare]: equality of the contents. *)
Definition Equal (a b : bytes) : bool := bool_decide (a = b).

Lemma length_HMAC_SHA256 key data : length (HMAC_SHA256 key data) = 32%nat.
Proof. apply sha256.length_Sum256. Qed.

Lemma Equal_true a b : Equal a b = true <-> a = b.
Proof. apply bool_decide_eq_true. Qed.
Lemma Equal_refl a : Equal a a = true.
Proof. by apply Equal_true. Qed.

End hmac.

#[global] Opaque sha256.Sum256 hmac.HMAC_SHA256.

(** FIPS 180-4 and RFC 4231 check values. *)
Example sha256_abc :
  hex.EncodeToString (sha256.Sum256 (lit "abc")) =
  lit "ba7816bf8f01cfea414140de5dae2223b00361a396177a9cb410ff61f20015ad".
Proof. vm_compute. reflexivity. Qed.

Example hmac_rfc4231_2 :
  hex.EncodeToString (hmac.HMAC_SHA256 (lit "Jefe") (lit "what do ya want for nothing?")) =
  lit "5bdcc146bf60754e6a042426089575c75a003f089d2739839dec58b964ec3843".
Proof. vm_compute. reflexivity. Qed.
