(* ===== verification/Base64.v ===== *)
(** * Base64: [base64.RawURLEncoding] and the program's wrappers
    [B64u]/[B64uDecode] ([core/go/crypto.go]). *)

From S2P Require Import Prelude GoStrings.

Module RawURLEncoding.

Definition alphabet : bytes :=
  Eval vm_compute in lit "ABCDEFGHIJKLMNOPQRSTUVWXYZabcdefghijklmnopqrstuvwxyz0123456789-_".

Definition enc6 (z : Z) : byte := nth (Z.to_nat z) alphabet Byte.x00.

Definition dec6 (b : byte) : option Z :=
  let z := b2z b in
  if (65 <=? z) && (z <=? 90) then Some (z - 65)
  else if (97 <=? z) && (z <=? 122) then Some (z - 71)
  else if (48 <=? z) && (z <=? 57) then Some (z + 4)
  else if z =? 45 then Some 62
  else if z =? 95 then Some 63
  else None.

Fixpoint EncodeToString (l : bytes) : bytes :=
  match l with
  | [] => []
  | [a] =>
      let v := b2z a * 65536 in
      [enc6 (v / 262144); enc6 (v / 4096 mod 64)]
  | [a; b] =>
      let v := b2z a * 65536 + b2z b * 256 in
      [enc6 (v / 262144); enc6 (v / 4096 mod 64); enc6 (v / 64 mod 64)]
  | a :: b :: c :: rest =>
      let v := b2z a * 65536 + b2z b * 256 + b2z c in
      enc6 (v / 262144) :: enc6 (v / 4096 mod 64) :: enc6 (v / 64 mod 64) :: enc6 (v mod 64)
        :: EncodeToString rest
  end.

(** Non-strict decoding: trailing bits of a short final group are ignored. *)
Fixpoint decode (l : bytes) : option bytes :=
  match l with
  | [] => Some []
  | [_] => None
  | [w; x] =>
      w' ← dec6 w; x' ← dec6 x;
      Some [z2b ((w' * 262144 + x' * 4096) / 65536)]
  | [w; x; y] =>
      w' ← dec6 w; x' ← dec6 x; y' ← dec6 y;
      let v := w' * 262144 + x' * 4096 + y' * 64 in
      Some [z2b (v / 65536); z2b (v / 256)]
  | w :: x :: y :: z :: rest =>
      w' ← dec6 w; x' ← dec6 x; y' ← dec6 y; z' ← dec6 z;
      let v := w' * 262144 + x' * 4096 + y' * 64 + z' in
      r ← decode rest;
      Some (z2b (v / 65536) :: z2b (v / 256) :: z2b v :: r)
  end.

(** The decoder skips embedded CR and LF. *)
Definition is_newline (b : byte) : bool := (b2z b =? 10) || (b2z b =? 13).
Definition DecodeString (s : bytes) : option bytes :=
  decode (filter (fun b => is_newline b = false) s).

End RawURLEncoding.
Import RawURLEncoding.

(** ** The program's wrappers *)

Definition B64u (b : bytes) : bytes := RawURLEncoding.EncodeToString b.

Definition in_b64u_alphabet (b : byte) : bool :=
  let c := b2z b in
  ((65 <=? c) && (c <=? 90)) || ((97 <=? c) && (c <=? 122)) || ((48 <=? c) && (c <=? 57))
  || (c =? 45) || (c =? 95).

Definition B64uDecode (s : bytes) : option bytes :=
  let s := strings.TrimRight s (lit "=") in
  if forallb in_b64u_alphabet s then RawURLEncoding.DecodeString s else None.

(** ** Facts *)

(** The three-byte induction the codec follows. *)
Lemma bytes_ind3 (P : bytes -> Prop) :
  P [] -> (forall a, P [a]) -> (forall a b, P [a; b]) ->
  (forall a b c l, P l -> P (a :: b :: c :: l)) -> forall l, P l.
Proof.
  intros H0 H1 H2 H3 l. remember (length l) as n eqn:Hn.
  revert l Hn. induction (lt_wf n) as [n _ IH]. intros l ->.
  destruct l as [|a [|b [|c l]]]; auto.
  apply H3. eapply IH; [|reflexivity]. simpl. lia.
Qed.

Lemma dec6_enc6 z : 0 <= z < 64 -> dec6 (enc6 z) = Some z.
Proof.
  intros H.
  assert (Hall : forallb (fun n => bool_decide (dec6 (enc6 (Z.of_nat n)) = Some (Z.of_nat n)))
                   (seq 0 64) = true) by (vm_compute; reflexivity).
  rewrite forallb_forall in Hall. specialize (Hall (Z.to_nat z)).
  rewrite Z2Nat.id in Hall by lia. rewrite bool_decide_eq_true in Hall.
  apply Hall, in_seq. lia.
Qed.

Lemma alphabet_enc6 z : 0 <= z < 64 -> in_b64u_alphabet (enc6 z) = true.
Proof.
  intros H.
  assert (Hall : forallb (fun n => in_b64u_alphabet (enc6 (Z.of_nat n))) (seq 0 64) = true)
    by (vm_compute; reflexivity).
  rewrite forallb_forall in Hall. specialize (Hall (Z.to_nat z)).
  rewrite Z2Nat.id in Hall by lia. apply Hall, in_seq. lia.
Qed.

#[local] Ltac z2b_eq := apply b2z_inj; rewrite b2z_z2b; Z.to_euclidean_division_equations; lia.
#[local] Ltac sextet := Z.to_euclidean_division_equations; lia.
#[local] Ltac byte_ranges :=
  repeat match goal with
  | b : byte |- _ =>
      lazymatch goal with
      | H : 0 <= b2z b < 256 |- _ => fail
      | _ => pose proof (b2z_range b)
      end
  end.

Lemma decode_EncodeToString l : decode (EncodeToString l) = Some l.
Proof.
  induction l as [|a|a b|a b c l IH] using bytes_ind3; [done| | |].
  - pose proof (b2z_range a). simpl. rewrite !dec6_enc6 by sextet. simpl. do 2 f_equal. z2b_eq.
  - pose proof (b2z_range a). pose proof (b2z_range b).
    simpl. rewrite !dec6_enc6 by sextet. simpl. repeat f_equal; z2b_eq.
  - pose proof (b2z_range a). pose proof (b2z_range b). pose proof (b2z_range c).
    simpl. rewrite !dec6_enc6 by sextet. simpl. rewrite IH. simpl. repeat f_equal; z2b_eq.
Qed.

Lemma alphabet_EncodeToString l :
  Forall (fun b => in_b64u_alphabet b = true) (EncodeToString l).
Proof.
  induction l as [|a|a b|a b c l IH] using bytes_ind3; simpl; [done| | |].
  - pose proof (b2z_range a). repeat constructor; apply alphabet_enc6; sextet.
  - pose proof (b2z_range a). pose proof (b2z_range b).
    repeat constructor; apply alphabet_enc6; sextet.
  - pose proof (b2z_range a). pose proof (b2z_range b). pose proof (b2z_range c).
    repeat (constructor; [apply alphabet_enc6; sextet|]). done.
Qed.

Lemma alphabet_not_pad b : in_b64u_alphabet b = true -> strings.in_cutset (lit "=") b = false.
Proof. destruct b; vm_compute; congruence. Qed.
Lemma alphabet_not_newline b : in_b64u_alphabet b = true -> is_newline b = false.
Proof. destruct b; vm_compute; congruence. Qed.

Lemma DecodeString_alphabet s :
  Forall (fun b => in_b64u_alphabet b = true) s -> DecodeString s = decode s.
Proof.
  intros H. unfold DecodeString. f_equal. induction H as [|b s Hb _ IH]; [done|].
  rewrite filter_cons_True by (by apply alphabet_not_newline). by rewrite IH.
Qed.

Lemma TrimRight_pad s n :
  strings.TrimRight (s ++ replicate n "="%byte) (lit "=") = strings.TrimRight s (lit "=").
Proof.
  apply rdrop_while_app_all. apply Forall_replicate. vm_compute. reflexivity.
Qed.

Lemma TrimRight_alphabet s :
  Forall (fun b => in_b64u_alphabet b = true) s -> strings.TrimRight s (lit "=") = s.
Proof.
  intros H. apply rdrop_while_id. destruct (last s) as [x|] eqn:E; [|done].
  apply alphabet_not_pad. rewrite Forall_forall in H. apply H.
  by apply last_Some_elem_of.
Qed.

Lemma B64uDecode_B64u_padded b n : B64uDecode (B64u b ++ replicate n "="%byte) = Some b.
Proof.
  unfold B64uDecode, B64u. rewrite TrimRight_pad.
  pose proof (alphabet_EncodeToString b) as H.
  rewrite TrimRight_alphabet by done.
  rewrite (proj2 (forallb_forall _ _)).
  - rewrite DecodeString_alphabet by done. apply decode_EncodeToString.
  - intros x Hx. rewrite Forall_forall in H. apply H, list_elem_of_In, Hx.
Qed.

Lemma B64uDecode_B64u b : B64uDecode (B64u b) = Some b.
Proof. rewrite <- (app_nil_r (B64u b)). apply (B64uDecode_B64u_padded b 0). Qed.

Lemma B64u_inj a b : B64u a = B64u b -> a = b.
Proof.
  intros H. apply (f_equal B64uDecode) in H. rewrite !B64uDecode_B64u in H. congruence.
Qed.

Lemma B64u_nonempty b : b <> [] -> B64u b <> [].
Proof. intros Hb H. apply (B64u_inj b []) in H. done. Qed.
