(* ===== verification/Json.v ===== *)
(** * Json: Go's [encoding/json] as the program uses it.

    [value] is the scanner and decoder of one JSON value, [Decode] the first value
    of a stream of which only a prefix may be read ([http.MaxBytesReader]), the
    [_into] functions the decoding of a value into a typed variable, and [Encode]
    the encoder with HTML escaping.  Object members keep their order and their
    duplicates, as decoding goes through them one by one. *)

From stdpp Require Import pretty.
From S2P Require Import Prelude GoStrings Binary.
Import strings.

(** ** UTF-8 *)

Module utf8.

Definition within (lo hi : Z) (b : byte) : bool := (lo <=? b2z b) && (b2z b <=? hi).
Definition cont : byte -> bool := within 0x80 0xBF.

Definition two (b0 b1 : byte) : bool := within 0xC2 0xDF b0 && cont b1.
Definition three (b0 b1 b2 : byte) : bool :=
  (within 0xE0 0xE0 b0 && within 0xA0 0xBF b1 ||
   (within 0xE1 0xEC b0 || within 0xEE 0xEF b0) && cont b1 ||
   within 0xED 0xED b0 && within 0x80 0x9F b1) && cont b2.
Definition four (b0 b1 b2 b3 : byte) : bool :=
  (within 0xF0 0xF0 b0 && within 0x90 0xBF b1 ||
   within 0xF1 0xF3 b0 && cont b1 ||
   within 0xF4 0xF4 b0 && within 0x80 0x8F b1) && cont b2 && cont b3.

(** How many of the bytes [r] after [b] belong to the character [b] starts. *)
Definition extra (b : byte) (r : bytes) : option nat :=
  if b2z b <? 0x80 then Some 0%nat
  else
    match r with
    | [] => None
    | b1 :: r1 =>
        if two b b1 then Some 1%nat
        else
          match r1 with
          | [] => None
          | b2 :: r2 =>
              if three b b1 b2 then Some 2%nat
              else match r2 with
                   | [] => None
                   | b3 :: _ => if four b b1 b2 b3 then Some 3%nat else None
                   end
          end
    end.

(** [pend] bytes of the current character are still to come. *)
Fixpoint valid_from (pend : nat) (s : bytes) : bool :=
  match s with
  | [] => true
  | b :: r =>
      match pend with
      | S p => valid_from p r
      | O => match extra b r with Some n => valid_from n r | None => false end
      end
  end.

Definition ValidString : bytes -> bool := valid_from 0.

Definition RuneError : bytes := [xef; xbf; xbd].

Definition EncodeRune (r : Z) : bytes :=
  if r <? 0x80 then [z2b r]
  else if r <? 0x800 then [z2b (0xC0 + r / 64); z2b (0x80 + r mod 64)]
  else if (0xD800 <=? r) && (r <? 0xE000) || (0x10FFFF <? r) then RuneError
  else if r <? 0x10000 then
    [z2b (0xE0 + r / 4096); z2b (0x80 + r / 64 mod 64); z2b (0x80 + r mod 64)]
  else
    [z2b (0xF0 + r / 262144); z2b (0x80 + r / 4096 mod 64); z2b (0x80 + r / 64 mod 64);
     z2b (0x80 + r mod 64)].
End utf8.

(** ** Values *)

Inductive json :=
| JNull
| JBool (b : bool)
| JNum (text : bytes)
| JStr (s : bytes)
| JArr (l : list json)
| JObj (l : list (bytes * json)).

Definition dquote : byte := x22.
Definition bslash : byte := x5c.

Definition is_ws (b : byte) : bool :=
  bool_decide (b ∈ [" "%byte; x09; x0d; x0a]).
Definition skip_ws : bytes -> bytes := drop_while is_ws.

Definition is_hexdigit (b : byte) : bool := if hex.hexval b then true else false.

(** ** Strings *)

(** The raw contents of a string literal, up to its closing quote, and the rest. *)
Fixpoint scan_str (s : bytes) : option (bytes * bytes) :=
  match s with
  | [] => None
  | c :: r =>
      if decide (c = dquote) then Some ([], r)
      else if decide (c = bslash) then
        match r with
        | [] => None
        | e :: r1 =>
            if decide (e = "u"%byte) then
              match r1 with
              | h1 :: h2 :: h3 :: h4 :: r2 =>
                  if is_hexdigit h1 && is_hexdigit h2 && is_hexdigit h3 && is_hexdigit h4 then
                    '(raw, rest) ← scan_str r2;
                    Some (c :: e :: h1 :: h2 :: h3 :: h4 :: raw, rest)
                  else None
              | _ => None
              end
            else if bool_decide (e ∈ ["b"; "f"; "n"; "r"; "t"; "/"; dquote; bslash]%byte) then
              '(raw, rest) ← scan_str r1;
              Some (c :: e :: raw, rest)
            else None
        end
      else if b2z c <? 32 then None
      else
        '(raw, rest) ← scan_str r;
        Some (c :: raw, rest)
  end.

Definition unescape (e : byte) : byte :=
  if decide (e = "b"%byte) then x08
  else if decide (e = "f"%byte) then x0c
  else if decide (e = "n"%byte) then x0a
  else if decide (e = "r"%byte) then x0d
  else if decide (e = "t"%byte) then x09
  else e.

Definition hex4 (h1 h2 h3 h4 : byte) : Z :=
  let v h := default 0 (hex.hexval h) in
  v h1 * 4096 + v h2 * 256 + v h3 * 16 + v h4.

Definition is_surrogate (r : Z) : bool := (0xD800 <=? r) && (r <? 0xE000).

Definition utf16_DecodeRune (r1 r2 : Z) : option Z :=
  if (0xD800 <=? r1) && (r1 <? 0xDC00) && (0xDC00 <=? r2) && (r2 <? 0xE000)
  then Some ((r1 - 0xD800) * 1024 + (r2 - 0xDC00) + 0x10000)
  else None.

(** The string a raw literal denotes.  A byte that starts no valid character, and
    an unpaired surrogate escape, each become U+FFFD. *)
Fixpoint unquote (pend : nat) (s : bytes) : bytes :=
  match s with
  | [] => []
  | c :: r =>
      match pend with
      | S p => c :: unquote p r
      | O =>
          if decide (c = bslash) then
            match r with
            | [] => []
            | e :: r1 =>
                if decide (e = "u"%byte) then
                  match r1 with
                  | h1 :: h2 :: h3 :: h4 :: r2 =>
                      let rr := hex4 h1 h2 h3 h4 in
                      if is_surrogate rr then
                        match r2 with
                        | c' :: u' :: g1 :: g2 :: g3 :: g4 :: r3 =>
                            if bool_decide (c' = bslash) && bool_decide (u' = "u"%byte) then
                              match utf16_DecodeRune rr (hex4 g1 g2 g3 g4) with
                              | Some v => utf8.EncodeRune v ++ unquote 0 r3
                              | None => utf8.RuneError ++ unquote 0 r2
                              end
                            else utf8.RuneError ++ unquote 0 r2
                        | _ => utf8.RuneError ++ unquote 0 r2
                        end
                      else utf8.EncodeRune rr ++ unquote 0 r2
                  | _ => []
                  end
                else unescape e :: unquote 0 r1
            end
          else
            match utf8.extra c r with
            | Some n => c :: unquote n r
            | None => utf8.RuneError ++ unquote 0 r
            end
      end
  end.

(** ** Numbers *)

Definition digits (s : bytes) : option (bytes * bytes) :=
  match take_while is_digit s with
  | [] => None
  | ds => Some (ds, drop_while is_digit s)
  end.

Definition scan_int (s : bytes) : option (bytes * bytes) :=
  match s with
  | [] => None
  | c :: r => if decide (c = "0"%byte) then Some ([c], r) else digits s
  end.

Definition scan_frac (s : bytes) : option (bytes * bytes) :=
  match s with
  | c :: r =>
      if decide (c = "."%byte) then '(ds, r') ← digits r; Some (c :: ds, r') else Some ([], s)
  | [] => Some ([], [])
  end.

Definition scan_exp (s : bytes) : option (bytes * bytes) :=
  match s with
  | c :: r =>
      if bool_decide (c ∈ ["e"; "E"]%byte) then
        match r with
        | sg :: r' =>
            if bool_decide (sg ∈ ["+"; "-"]%byte) then
              '(ds, r'') ← digits r'; Some (c :: sg :: ds, r'')
            else '(ds, r'') ← digits r; Some (c :: ds, r'')
        | [] => None
        end
      else Some ([], s)
  | [] => Some ([], [])
  end.

Definition scan_num (s : bytes) : option (bytes * bytes) :=
  let '(sign, s) := match s with
                    | c :: r => if decide (c = "-"%byte) then ([c], r) else ([], s)
                    | [] => ([], [])
                    end in
  '(i, s) ← scan_int s;
  '(f, s) ← scan_frac s;
  '(e, s) ← scan_exp s;
  Some (sign ++ i ++ f ++ e, s).

(** ** The value scanner *)

Definition maxNestingDepth : Z := 10000.

Definition literal (w : bytes) (v : json) (s : bytes) : option (json * bytes) :=
  if HasPrefix s w then Some (v, drop (length w) s) else None.

Definition scalar (s : bytes) : option (json * bytes) :=
  match s with
  | [] => None
  | c :: r =>
      if decide (c = dquote) then '(raw, rest) ← scan_str r; Some (JStr (unquote 0 raw), rest)
      else if decide (c = "t"%byte) then literal (lit "true") (JBool true) s
      else if decide (c = "f"%byte) then literal (lit "false") (JBool false) s
      else if decide (c = "n"%byte) then literal (lit "null") JNull s
      else '(t, rest) ← scan_num s; Some (JNum t, rest)
  end.

#[global] Arguments scalar : simpl never.

Fixpoint value (f : nat) (depth : Z) (s : bytes) : option (json * bytes) :=
  match f with
  | O => None
  | S f =>
      match skip_ws s with
      | [] => None
      | c :: r =>
          if decide (c = "{"%byte) then
            if maxNestingDepth <=? depth then None
            else
              match skip_ws r with
              | [] => None
              | c' :: r' =>
                  if decide (c' = "}"%byte) then Some (JObj [], r')
                  else '(l, rest) ← members f (depth + 1) (c' :: r'); Some (JObj l, rest)
              end
          else if decide (c = "["%byte) then
            if maxNestingDepth <=? depth then None
            else
              match skip_ws r with
              | [] => None
              | c' :: r' =>
                  if decide (c' = "]"%byte) then Some (JArr [], r')
                  else '(l, rest) ← elements f (depth + 1) (c' :: r'); Some (JArr l, rest)
              end
          else scalar (c :: r)
      end
  end
with members (f : nat) (depth : Z) (s : bytes) : option (list (bytes * json) * bytes) :=
  match f with
  | O => None
  | S f =>
      match skip_ws s with
      | [] => None
      | c :: r =>
          if decide (c = dquote) then
            '(raw, r) ← scan_str r;
            match skip_ws r with
            | [] => None
            | c2 :: r =>
                if decide (c2 = ":"%byte) then
                  '(v, r) ← value f depth r;
                  match skip_ws r with
                  | [] => None
                  | c3 :: r =>
                      if decide (c3 = ","%byte) then
                        '(l, r) ← members f depth r;
                        Some ((unquote 0 raw, v) :: l, r)
                      else if decide (c3 = "}"%byte) then Some ([(unquote 0 raw, v)], r)
                      else None
                  end
                else None
            end
          else None
      end
  end
with elements (f : nat) (depth : Z) (s : bytes) : option (list json * bytes) :=
  match f with
  | O => None
  | S f =>
      '(v, r) ← value f depth s;
      match skip_ws r with
      | [] => None
      | c :: r =>
          if decide (c = ","%byte) then
            '(l, r) ← elements f depth r;
            Some (v :: l, r)
          else if decide (c = "]"%byte) then Some ([v], r)
          else None
      end
  end.

(** Every call consumes a byte, but for [elements], which first calls [value] on the
    same text; so two units per byte and one more are enough. *)
Definition fuel (s : bytes) : nat := S (2 * length s).

(** A scalar ends only where the next byte, or the end of the stream, says so. *)
Definition ends_itself (v : json) : bool :=
  match v with JArr _ | JObj _ => true | _ => false end.

(** [json.NewDecoder(http.MaxBytesReader(w, body, limit)).Decode]: the first value
    of [body].  Bytes past [limit] cannot be read; what follows the value is
    not looked at. *)
Definition Decode (limit : Z) (body : bytes) : option json :=
  let avail := take (Z.to_nat limit) body in
  '(v, rest) ← value (fuel avail) 0 avail;
  if negb (ends_itself v) && bool_decide (rest = []) && (Z.to_nat limit <? length body)%nat
  then None else Some v.

(** [json.Unmarshal]: one value and nothing after it. *)
Definition Unmarshal (s : bytes) : option json :=
  '(v, rest) ← value (fuel s) 0 s;
  if bool_decide (skip_ws rest = []) then Some v else None.

(** ** Decoding into a typed variable *)

(** [strconv.ParseInt(text, 10, 64)] on the text of a JSON number. *)
Definition ParseInt (t : bytes) : option Z :=
  let '(sign, ds) := match t with
                     | c :: r => if decide (c = "-"%byte) then (-1, r) else (1, t)
                     | [] => (1, [])
                     end in
  if bool_decide (ds = []) || negb (forallb is_digit ds) then None
  else
    let v := sign * foldl (fun acc d => acc * 10 + (b2z d - 48)) 0 ds in
    if (- 2 ^ 63 <=? v) && (v <? 2 ^ 63) then Some v else None.

Definition str_into (v : json) (old : bytes) : option bytes :=
  match v with JNull => Some old | JStr s => Some s | _ => None end.

Definition int_into (v : json) (old : Z) : option Z :=
  match v with JNull => Some old | JNum t => ParseInt t | _ => None end.

(** A Go slice that a decoder may fill more than once: [None] is nil; otherwise
    its elements and the stale ones between its length and its capacity, which a
    later, longer array would decode into. *)
Definition slice (A : Type) : Type := option (list A * list A).

Definition slice_list {A} (s : slice A) : list A := match s with Some (l, _) => l | None => [] end.

Section slices.
Context {A : Type} (dec : json -> A -> option A) (zero : A).

Fixpoint elems_into (l : list json) (back : list A) : option (list A) :=
  match l with
  | [] => Some []
  | v :: l' =>
      x ← dec v (hd zero back);
      xs ← elems_into l' (tl back);
      Some (x :: xs)
  end.

Definition slice_into (v : json) (old : slice A) : option (slice A) :=
  match v with
  | JNull => Some None
  | JArr [] => Some (Some ([], []))
  | JArr l =>
      let back := match old with Some (c, b) => c ++ b | None => [] end in
      cur ← elems_into l back;
      Some (Some (cur, drop (length l) back))
  | _ => None
  end.

(** A map from strings: every member decodes into a fresh element. *)
Definition map_into (v : json) (old : gmap bytes A) : option (gmap bytes A) :=
  match v with
  | JNull => Some ∅
  | JObj l =>
      foldl (fun acc kv => m ← acc; x ← dec kv.2 zero; Some (<[kv.1 := x]> m)) (Some old) l
  | _ => None
  end.
End slices.

(** Field names match exactly, or else up to case: ASCII case, and the two
    characters outside ASCII that fold to an ASCII letter, U+017F and U+212A. *)
Fixpoint foldName (s : bytes) : bytes :=
  match s with
  | [] => []
  | c :: r =>
      if decide (c = xc5) then
        match r with
        | c1 :: r1 => if decide (c1 = xbf) then "S"%byte :: foldName r1 else c :: foldName r
        | [] => [c]
        end
      else if decide (c = xe2) then
        match r with
        | c1 :: c2 :: r2 =>
            if bool_decide (c1 = x84) && bool_decide (c2 = xaa) then "K"%byte :: foldName r2
            else c :: foldName r
        | _ => c :: foldName r
        end
      else (if is_lower c then z2b (b2z c - 32) else c) :: foldName r
  end.

(** The field of the struct with fields [names] that a member [key] is for. *)
Definition find_field (names : list bytes) (key : bytes) : option bytes :=
  match find (fun f => bool_decide (f = key)) names with
  | Some f => Some f
  | None => find (fun f => bool_decide (foldName f = foldName key)) names
  end.

(** The value of one field after every member for it has been decoded in turn. *)
Definition get_field (names : list bytes) (kvs : list (bytes * json)) {A} (name : string)
    (dec : json -> A -> option A) (old : A) : option A :=
  foldl (fun acc kv =>
    a ← acc;
    if bool_decide (find_field names kv.1 = Some (lit name)) then dec kv.2 a else Some a)
    (Some old) kvs.

(** A struct: [build] puts together its fields; [strict] is
    [DisallowUnknownFields].  An error in any member is an error of the whole. *)
Definition struct_into {A} (strict : bool) (names : list bytes)
    (build : list (bytes * json) -> A -> option A) (v : json) (old : A) : option A :=
  match v with
  | JNull => Some old
  | JObj kvs =>
      if strict && negb (forallb (fun kv => if find_field names kv.1 then true else false) kvs)
      then None else build kvs old
  | _ => None
  end.

(** ** Encoding *)

Definition lower_hex (z : Z) : byte := hex.hexdigit z.

Definition u00 (b : byte) : bytes :=
  [bslash; "u"; "0"; "0"]%byte ++ [lower_hex (b2z b / 16); lower_hex (b2z b mod 16)].

(** One byte below 0x80. *)
Definition escape (b : byte) : bytes :=
  if bool_decide (b = dquote) || bool_decide (b = bslash) then [bslash; b]
  else if decide (b = x08) then [bslash; "b"%byte]
  else if decide (b = x0c) then [bslash; "f"%byte]
  else if decide (b = x0a) then [bslash; "n"%byte]
  else if decide (b = x0d) then [bslash; "r"%byte]
  else if decide (b = x09) then [bslash; "t"%byte]
  else if (b2z b <? 32) || bool_decide (b ∈ ["<"; ">"; "&"]%byte) then u00 b
  else [b].

(** U+2028 and U+2029 are escaped too; a byte that starts no character is
    written as the escape of U+FFFD. *)
Fixpoint quote_body (pend : nat) (s : bytes) : bytes :=
  match s with
  | [] => []
  | b :: r =>
      match pend with
      | S p => b :: quote_body p r
      | O =>
          if b2z b <? 0x80 then escape b ++ quote_body 0 r
          else
            match utf8.extra b r with
            | None => bslash :: lit "ufffd" ++ quote_body 0 r
            | Some n =>
                match r with
                | b1 :: b2 :: r2 =>
                    if bool_decide (b = xe2) && bool_decide (b1 = x80) &&
                       (bool_decide (b2 = xa8) || bool_decide (b2 = xa9))
                    then bslash :: lit "u202" ++ [lower_hex (b2z b2 mod 16)] ++ quote_body 0 r2
                    else b :: quote_body n r
                | _ => b :: quote_body n r
                end
            end
      end
  end.

Definition quote (s : bytes) : bytes := dquote :: quote_body 0 s ++ [dquote].

Fixpoint encode (v : json) : bytes :=
  match v with
  | JNull => lit "null"
  | JBool b => if b then lit "true" else lit "false"
  | JNum t => t
  | JStr s => quote s
  | JArr l => lit "[" ++ Join (map encode l) (lit ",") ++ lit "]"
  | JObj l => lit "{" ++ Join (map (fun kv => quote kv.1 ++ lit ":" ++ encode kv.2) l) (lit ",") ++ lit "}"
  end.

(** [json.NewEncoder(w).Encode(v)] *)
Definition Encode (v : json) : bytes := encode v ++ [x0a].

Definition FormatInt (z : Z) : bytes := lit (pretty z).
Definition JInt (z : Z) : json := JNum (FormatInt z).

(** A Go map is encoded with its keys in byte order. *)
Fixpoint bytes_le (a b : bytes) : bool :=
  match a, b with
  | [], _ => true
  | _ :: _, [] => false
  | x :: a', y :: b' => (b2z x <? b2z y) || (b2z x =? b2z y) && bytes_le a' b'
  end.

Fixpoint insert_key (kv : bytes * json) (l : list (bytes * json)) : list (bytes * json) :=
  match l with
  | [] => [kv]
  | kv' :: l' => if bytes_le kv.1 kv'.1 then kv :: l else kv' :: insert_key kv l'
  end.

Definition JMap (l : list (bytes * json)) : json := JObj (foldr insert_key [] l).
