(* ===== verification/JsonFacts.v ===== *)
(** * JsonFacts: the scanner terminates, and reads back what the encoder writes. *)

From stdpp Require Import pretty.
From S2P Require Import Prelude GoStrings Binary Json.
Import strings.

(** ** Consumption *)

Lemma skip_ws_length s : (length (skip_ws s) <= length s)%nat.
Proof. apply drop_while_length. Qed.

Lemma scan_str_length s raw rest : scan_str s = Some (raw, rest) -> (length rest < length s)%nat.
Proof.
  revert raw rest. induction s as [s IH] using (induction_ltof1 _ length). unfold ltof in IH.
  destruct s as [|c r]; [done|]. intros raw rest. cbn [scan_str].
  destruct (decide (c = dquote)); [intros [= <- <-]; cbn; lia|].
  destruct (decide (c = bslash)).
  - destruct r as [|b r1]; [done|]. destruct (decide (b = "u"%byte)).
    + destruct r1 as [|h1 [|h2 [|h3 [|h4 r2]]]]; [done..|]. destruct (_ && _); [|done].
      intros ([raw' rest'] & H & [= <- <-])%bind_Some. apply IH in H; cbn in *; lia.
    + destruct (bool_decide _); [|done].
      intros ([raw' rest'] & H & [= <- <-])%bind_Some. apply IH in H; cbn in *; lia.
  - destruct (_ <? _); [done|].
    intros ([raw' rest'] & H & [= <- <-])%bind_Some. apply IH in H; cbn in *; lia.
Qed.

Lemma digits_length s ds rest : digits s = Some (ds, rest) -> (length rest < length s)%nat.
Proof.
  unfold digits. pose proof (take_drop_while is_digit s) as Hs.
  destruct (take_while is_digit s) as [|d ds'] eqn:E; [done|]. intros [= <- <-].
  rewrite <- Hs at 2. rewrite length_app. cbn. lia.
Qed.

Lemma scan_frac_length s f rest : scan_frac s = Some (f, rest) -> (length rest <= length s)%nat.
Proof.
  destruct s as [|c r]; cbn; [by intros [= <- <-]|]. destruct (decide _); [|by intros [= <- <-]].
  intros ([ds r'] & H%digits_length & [= <- <-])%bind_Some. lia.
Qed.

Lemma scan_exp_length s f rest : scan_exp s = Some (f, rest) -> (length rest <= length s)%nat.
Proof.
  destruct s as [|c r]; cbn; [by intros [= <- <-]|]. case_bool_decide; [|by intros [= <- <-]].
  destruct r as [|sg r']; [done|].
  case_bool_decide; intros ([ds r''] & H'%digits_length & [= <- <-])%bind_Some; cbn in *; lia.
Qed.

Lemma scan_int_length s f rest : scan_int s = Some (f, rest) -> (length rest < length s)%nat.
Proof.
  destruct s as [|c r]; cbn; [done|].
  destruct (decide _); [intros [= <- <-]; lia|apply digits_length].
Qed.

Lemma scan_num_length s t rest : scan_num s = Some (t, rest) -> (length rest < length s)%nat.
Proof.
  unfold scan_num. set (p := match s with [] => _ | _ => _ end).
  assert (Hp : (length p.2 <= length s)%nat).
  { destruct s as [|c r]; cbn; [done|]. destruct (decide _); cbn; lia. }
  destruct p as [sign s']. cbn in Hp.
  intros ([i s1] & H1%scan_int_length & H)%bind_Some.
  apply bind_Some in H as ([fr s2] & H2%scan_frac_length & H).
  apply bind_Some in H as ([ex s3] & H3%scan_exp_length & [= <- <-]). lia.
Qed.

Lemma literal_length w v s x rest :
  w <> [] -> literal w v s = Some (x, rest) -> (length rest < length s)%nat.
Proof.
  unfold literal. destruct (HasPrefix s w) eqn:E; [|done]. intros Hw [= <- <-].
  apply HasPrefix_spec in E as [t ->]. rewrite drop_app_length, length_app.
  destruct w; [done|]. cbn. lia.
Qed.

Lemma scalar_length s v rest : scalar s = Some (v, rest) -> (length rest < length s)%nat.
Proof.
  destruct s as [|c r]; [done|]. unfold scalar.
  destruct (decide _).
  { intros ([raw rest'] & H%scan_str_length & [= <- <-])%bind_Some. cbn. lia. }
  repeat (destruct (decide _); [by apply literal_length|]).
  intros ([raw rest'] & H%scan_num_length & [= <- <-])%bind_Some. cbn in *. lia.
Qed.

(** ** Enough fuel *)

(** Every result leaves less text than it was given. *)
Lemma scan_consumes f :
  (forall d s v rest, value f d s = Some (v, rest) -> (length rest < length s)%nat) /\
  (forall d s l rest, members f d s = Some (l, rest) -> (length rest < length s)%nat) /\
  (forall d s l rest, elements f d s = Some (l, rest) -> (length rest < length s)%nat).
Proof.
  induction f as [|f (IHv & IHm & IHe)]; [done|]. split; [|split]; intros d s x rest; cbn.
  - pose proof (skip_ws_length s) as Hs. destruct (skip_ws s) as [|c r] eqn:E; [done|].
    destruct (decide (c = "{"%byte)); [|destruct (decide (c = "["%byte))].
    + destruct (_ <=? _); [done|]. pose proof (skip_ws_length r) as Hr.
      destruct (skip_ws r) as [|c' r'] eqn:E'; [done|]. destruct (decide _).
      * intros [= <- <-]. cbn in *. lia.
      * intros ([l rest'] & H%IHm & [= <- <-])%bind_Some. cbn in *. lia.
    + destruct (_ <=? _); [done|]. pose proof (skip_ws_length r) as Hr.
      destruct (skip_ws r) as [|c' r'] eqn:E'; [done|]. destruct (decide _).
      * intros [= <- <-]. cbn in *. lia.
      * intros ([l rest'] & H%IHe & [= <- <-])%bind_Some. cbn in *. lia.
    + intros H%scalar_length. lia.
  - pose proof (skip_ws_length s) as Hs. destruct (skip_ws s) as [|c r] eqn:E; [done|].
    destruct (decide _); [|done]. intros ([raw r1] & H1%scan_str_length & H)%bind_Some.
    pose proof (skip_ws_length r1) as Hr1. destruct (skip_ws r1) as [|c2 r2] eqn:E2; [done|].
    destruct (decide _); [|done]. apply bind_Some in H as ([v r3] & H2%IHv & H).
    pose proof (skip_ws_length r3) as Hr3. destruct (skip_ws r3) as [|c3 r4] eqn:E3; [done|].
    destruct (decide _).
    + apply bind_Some in H as ([l r5] & H3%IHm & [= <- <-]). cbn in *. lia.
    + destruct (decide _); [|done]. injection H as <- <-. cbn in *. lia.
  - intros ([v r1] & H1%IHv & H)%bind_Some.
    pose proof (skip_ws_length r1) as Hr1. destruct (skip_ws r1) as [|c r2] eqn:E; [done|].
    destruct (decide _).
    + apply bind_Some in H as ([l r3] & H3%IHe & [= <- <-]). cbn in *. lia.
    + destruct (decide _); [|done]. injection H as <- <-. cbn in *. lia.
Qed.

Lemma value_consumes f d s v rest : value f d s = Some (v, rest) -> (length rest < length s)%nat.
Proof. apply scan_consumes. Qed.

Lemma scan_enough f1 : forall f2,
  (forall d s, (2 * length s < f1)%nat -> (2 * length s < f2)%nat -> value f1 d s = value f2 d s) /\
  (forall d s, (2 * length s + 1 < f1)%nat -> (2 * length s + 1 < f2)%nat -> members f1 d s = members f2 d s) /\
  (forall d s, (2 * length s + 1 < f1)%nat -> (2 * length s + 1 < f2)%nat -> elements f1 d s = elements f2 d s).
Proof.
  induction f1 as [|f1 IH]; [intros f2; split; [|split]; intros d s H; lia|].
  intros [|f2]; [split; [|split]; intros d s H1 H2; lia|].
  destruct (IH f2) as (IHv & IHm & IHe). clear IH.
  split; [|split]; intros d s Hf1 Hf2; cbn.
  - pose proof (skip_ws_length s) as Hs. destruct (skip_ws s) as [|c r] eqn:E; [done|].
    pose proof (skip_ws_length r) as Hr. cbn in Hs.
    destruct (skip_ws r) as [|c' r'] eqn:E'; [done|]. cbn in Hr.
    rewrite IHm, IHe by (cbn; lia). done.
  - pose proof (skip_ws_length s) as Hs. destruct (skip_ws s) as [|c r] eqn:E; [done|]. cbn in Hs.
    destruct (decide _); [|done]. destruct (scan_str r) as [[raw r1]|] eqn:E1; [|done].
    apply scan_str_length in E1. cbn [mbind option_bind].
    pose proof (skip_ws_length r1) as Hr1. destruct (skip_ws r1) as [|c2 r2] eqn:E2; [done|]. cbn in Hr1.
    destruct (decide _); [|done]. rewrite IHv by lia.
    destruct (value f2 d r2) as [[v r3]|] eqn:E3; [|done]. apply value_consumes in E3.
    cbn [mbind option_bind].
    pose proof (skip_ws_length r3) as Hr3. destruct (skip_ws r3) as [|c3 r4] eqn:E4; [done|]. cbn in Hr3.
    rewrite IHm by lia. done.
  - rewrite IHv by lia. destruct (value f2 d s) as [[v r1]|] eqn:E1; [|done].
    apply value_consumes in E1. cbn [mbind option_bind].
    pose proof (skip_ws_length r1) as Hr1. destruct (skip_ws r1) as [|c r2] eqn:E2; [done|]. cbn in Hr1.
    rewrite IHe by lia. done.
Qed.

Lemma value_enough f d s : (2 * length s < f)%nat -> value f d s = value (fuel s) d s.
Proof. intros H. apply (scan_enough f (fuel s)); [done|unfold fuel; lia]. Qed.

(** ** Strings read back *)

Lemma high_not_special b : 0x80 <= b2z b -> b <> dquote /\ b <> bslash /\ (b2z b <? 32) = false.
Proof.
  intros H. split; [|split; [|lia]]; intros ->; revert H; vm_compute; congruence.
Qed.

(** The bytes after the first of a character are high. *)
Lemma within_high lo hi b : 0x80 <= lo -> utf8.within lo hi b = true -> 0x80 <= b2z b.
Proof. unfold utf8.within. intros ? H. bool_prop. lia. Qed.

Lemma extra_high b r n :
  utf8.extra b r = Some n ->
  (n <= length r)%nat /\ Forall (fun x => 0x80 <= b2z x) (take n r) /\
  (0x80 <= b2z b <-> n <> 0%nat).
Proof.
  unfold utf8.extra. destruct (b2z b <? 0x80) eqn:E.
  { intros [= <-]. apply Z.ltb_lt in E. split; [lia|]. split; [constructor|lia]. }
  apply Z.ltb_ge in E.
  destruct r as [|b1 r1]; [done|]. destruct (utf8.two b b1) eqn:E2.
  { intros [= <-]. unfold utf8.two, utf8.cont in E2. bool_prop. cbn. split; [lia|].
    split; [|lia]. repeat constructor. by eapply (within_high 0x80). }
  destruct r1 as [|b2 r2]; [done|]. destruct (utf8.three b b1 b2) eqn:E3.
  { intros [= <-]. unfold utf8.three, utf8.cont in E3. bool_prop. cbn. split; [lia|].
    split; [|lia]. repeat constructor; [|by eapply (within_high 0x80)].
    repeat (apply orb_true_iff in H as [H|H]); bool_prop; (eapply within_high; [|eassumption]); lia. }
  destruct r2 as [|b3 r3]; [done|]. destruct (utf8.four b b1 b2 b3) eqn:E4; [|done].
  intros [= <-]. unfold utf8.four, utf8.cont in E4. bool_prop. cbn. split; [lia|].
  split; [|lia]. repeat constructor; try by eapply (within_high 0x80).
  repeat (apply orb_true_iff in H as [H|H]); bool_prop; (eapply within_high; [|eassumption]); lia.
Qed.

(** How long a character is depends on its own bytes. *)
Lemma extra_own b r r' n :
  utf8.extra b r = Some n -> take n r' = take n r -> utf8.extra b r' = Some n.
Proof.
  intros H. destruct (extra_high _ _ _ H) as (Hn & _ & _). revert H Hn. unfold utf8.extra.
  destruct (b2z b <? 0x80); [done|].
  destruct r as [|b1 r1]; [done|]. destruct (utf8.two b b1) eqn:E2.
  { intros [= <-] _. destruct r' as [|c1 r1']; [done|]. cbn. intros [= ->]. by rewrite E2. }
  destruct r1 as [|b2 r2]; [done|]. destruct (utf8.three b b1 b2) eqn:E3.
  { intros [= <-] _. destruct r' as [|c1 [|c2 r2']]; [done..|]. cbn. intros [= -> ->].
    by rewrite E2, E3. }
  destruct r2 as [|b3 r3]; [done|]. destruct (utf8.four b b1 b2 b3) eqn:E4; [|done].
  intros [= <-] _. destruct r' as [|c1 [|c2 [|c3 r3']]]; [done..|]. cbn. intros [= -> -> ->].
  by rewrite E2, E3, E4.
Qed.

(** [pend] high bytes are indeed to come. *)
Definition pending (pend : nat) (s : bytes) : Prop :=
  (pend <= length s)%nat /\ Forall (fun x => 0x80 <= b2z x) (take pend s).

Lemma pending_tail p b s : pending (S p) (b :: s) -> 0x80 <= b2z b /\ pending p s.
Proof. intros [Hl Hf]. cbn in *. inversion Hf; subst. split; [done|]. split; [lia|done]. Qed.

Lemma extra_pending b r n : utf8.extra b r = Some n -> pending n r.
Proof. intros (? & ? & _)%extra_high. by split. Qed.

Lemma quote_body_take p s : take p (quote_body p s) = take p s.
Proof. revert s. induction p as [|p IH]; [done|]. intros [|b s]; [done|]. cbn. by rewrite IH. Qed.

(** A byte below 0x80, escaped, is scanned as it is and denotes itself. *)
Lemma escape_scan b t :
  (b2z b <? 0x80) = true ->
  scan_str (escape b ++ t) = ('(raw, rest) ← scan_str t; Some (escape b ++ raw, rest)) /\
  unquote 0 (escape b ++ t) = b :: unquote 0 t.
Proof.
  intros Hb. split; destruct b; first [discriminate Hb | reflexivity | by destruct (scan_str t) as [[??]|]].
Qed.

Definition line_sep (b b1 b2 : byte) : bool :=
  bool_decide (b = xe2) && bool_decide (b1 = x80) && (bool_decide (b2 = xa8) || bool_decide (b2 = xa9)).

Definition sep_escape (b2 : byte) : bytes := bslash :: lit "u202" ++ [lower_hex (b2z b2 mod 16)].

(** A character above ASCII that is written as it is. *)
Definition plain_char (b : byte) (r : bytes) : Prop :=
  match r with b1 :: b2 :: _ => line_sep b b1 b2 = false | _ => True end.

Lemma quote_body_char b r n :
  (b2z b <? 0x80) = false -> utf8.extra b r = Some n ->
  (plain_char b r /\ quote_body 0 (b :: r) = b :: quote_body n r) \/
  (exists b2 r2, r = x80 :: b2 :: r2 /\ b = xe2 /\ n = 2%nat /\ (b2 = xa8 \/ b2 = xa9) /\
     quote_body 0 (b :: r) = sep_escape b2 ++ quote_body 0 r2).
Proof.
  intros Hb He. cbn [quote_body]. rewrite Hb, He. unfold plain_char.
  destruct r as [|b1 [|b2 r2]]; [by left..|]. change (_ && _ && _) with (line_sep b b1 b2).
  destruct (line_sep b b1 b2) eqn:E; [right|by left].
  unfold line_sep in E. bool_prop. subst b b1. exists b2, r2.
  apply orb_true_iff in H0 as [H0|H0]; bool_prop; subst b2; cbn in He; injection He as <-; auto 6.
Qed.

Lemma sep_escape_scan b2 t : b2 = xa8 \/ b2 = xa9 ->
  scan_str (sep_escape b2 ++ t) = ('(raw, rest) ← scan_str t; Some (sep_escape b2 ++ raw, rest)) /\
  unquote 0 (sep_escape b2 ++ t) = xe2 :: x80 :: b2 :: unquote 0 t.
Proof. intros [-> | ->]; split; reflexivity. Qed.

Lemma scan_str_high b t : 0x80 <= b2z b ->
  scan_str (b :: t) = ('(raw, rest) ← scan_str t; Some (b :: raw, rest)).
Proof.
  intros (Hq & Hs & Hl)%high_not_special. cbn [scan_str].
  by rewrite (decide_False _ _ Hq), (decide_False _ _ Hs), Hl.
Qed.

Lemma quote_reads_from s : forall pend rest,
  utf8.valid_from pend s = true -> pending pend s ->
  scan_str (quote_body pend s ++ dquote :: rest) = Some (quote_body pend s, rest) /\
  unquote pend (quote_body pend s) = s.
Proof.
  induction s as [s IH] using (induction_ltof1 _ length). unfold ltof in IH.
  destruct s as [|b r]; [done|]. intros [|p] rest Hv Hp.
  - destruct (b2z b <? 0x80) eqn:Hb.
    + cbn [quote_body]. rewrite Hb. rewrite <- app_assoc.
      destruct (escape_scan b (quote_body 0 r ++ dquote :: rest) Hb) as [-> _].
      destruct (escape_scan b (quote_body 0 r) Hb) as [_ ->].
      cbn [utf8.valid_from] in Hv. unfold utf8.extra in Hv. rewrite Hb in Hv.
      destruct (IH r ltac:(cbn; lia) 0%nat rest Hv) as [-> ->]; [split; [lia|constructor]|]. done.
    + cbn [utf8.valid_from] in Hv. destruct (utf8.extra b r) as [n|] eqn:He; [|done].
      pose proof (extra_pending _ _ _ He) as Hpr.
      destruct (quote_body_char b r n Hb He) as [[_ ->]|(b2 & r2 & -> & -> & -> & Hb2 & ->)].
      * destruct (IH r ltac:(cbn; lia) n rest Hv Hpr) as [Hs Hu].
        apply Z.ltb_ge in Hb. cbn [app]. rewrite scan_str_high by done. rewrite Hs. split; [done|].
        cbn [unquote]. rewrite decide_False by by apply high_not_special.
        rewrite (extra_own b r _ n He) by apply quote_body_take. by rewrite Hu.
      * rewrite <- app_assoc.
        destruct (sep_escape_scan b2 (quote_body 0 r2 ++ dquote :: rest) Hb2) as [-> _].
        destruct (sep_escape_scan b2 (quote_body 0 r2) Hb2) as [_ ->].
        destruct (IH r2 ltac:(cbn; lia) 0%nat rest Hv) as [-> ->]; [split; [lia|constructor]|]. done.
  - destruct (pending_tail _ _ _ Hp) as [Hb Hp']. cbn [utf8.valid_from] in Hv.
    destruct (IH r ltac:(cbn; lia) p rest Hv Hp') as [Hs Hu].
    cbn [quote_body app]. rewrite scan_str_high by done. rewrite Hs. split; [done|].
    cbn [unquote]. by rewrite Hu.
Qed.

Lemma quote_reads s rest :
  utf8.ValidString s = true ->
  scan_str (quote_body 0 s ++ dquote :: rest) = Some (quote_body 0 s, rest) /\
  unquote 0 (quote_body 0 s) = s.
Proof. intros H. apply quote_reads_from; [done|]. split; [lia|constructor]. Qed.

(** ** Numbers read back *)

(** [rest] does not continue a number. *)
Definition num_stop (rest : bytes) : bool :=
  match rest with
  | [] => true
  | c :: _ => negb (is_digit c) && negb (bool_decide (c ∈ ["."; "e"; "E"]%byte))
  end.

Lemma num_stop_digit c rest : num_stop (c :: rest) = true -> is_digit c = false.
Proof. cbn. intros. by bool_prop. Qed.

Lemma take_while_stop {A} (p : A -> bool) l r :
  (forall x r', r = x :: r' -> p x = false) ->
  take_while p (l ++ r) = (if decide (drop_while p l = []) then l else take_while p l) /\
  drop_while p (l ++ r) = drop_while p l ++ r.
Proof.
  intros Hr. induction l as [|x l [IHt IHd]]; cbn.
  - rewrite decide_True by done. destruct r as [|y r']; [done|]. cbn. by rewrite (Hr y r').
  - destruct (p x) eqn:E; cbn.
    + rewrite IHt, IHd. split; [|done]. by destruct (decide _).
    + done.
Qed.

Lemma drop_while_nil_take {A} (p : A -> bool) l : drop_while p l = [] -> take_while p l = l.
Proof. intros H. pose proof (take_drop_while p l) as E. by rewrite H, app_nil_r in E. Qed.

Lemma digits_app s ds r rest :
  digits s = Some (ds, r) -> num_stop rest = true -> digits (s ++ rest) = Some (ds, r ++ rest).
Proof.
  unfold digits. intros H Hs.
  destruct (take_while_stop is_digit s rest) as [Ht Hd].
  { intros x r' ->. by eapply num_stop_digit. }
  rewrite Ht, Hd. destruct (decide (drop_while is_digit s = [])) as [E|]; [|].
  - rewrite (drop_while_nil_take _ _ E), E in H. rewrite E.
    destruct s; [done|]. by injection H as <- <-.
  - destruct (take_while is_digit s); [done|]. by injection H as <- <-.
Qed.

Lemma scan_frac_app s f r rest :
  scan_frac s = Some (f, r) -> num_stop rest = true -> scan_frac (s ++ rest) = Some (f, r ++ rest).
Proof.
  intros H Hs. destruct s as [|c s'].
  - cbn in H. injection H as <- <-. cbn [app]. destruct rest as [|c rest']; [done|]. cbn in *.
    bool_prop. rewrite decide_False; [done|]. intros ->. apply H0. set_solver.
  - cbn in *. destruct (decide _); [|injection H as <- <-; done].
    apply bind_Some in H as ([ds r'] & H & [= <- <-]). by rewrite (digits_app _ _ _ _ H Hs).
Qed.

Lemma scan_exp_app s f r rest :
  scan_exp s = Some (f, r) -> num_stop rest = true -> scan_exp (s ++ rest) = Some (f, r ++ rest).
Proof.
  intros H Hs. destruct s as [|c s'].
  - cbn in H. injection H as <- <-. cbn [app]. destruct rest as [|c rest']; [done|].
    unfold scan_exp. rewrite bool_decide_eq_false_2; [done|]. cbn in Hs. bool_prop. set_solver.
  - unfold scan_exp in *. cbn [app]. case_bool_decide; [|injection H as <- <-; done].
    destruct s' as [|sg s'']; [done|]. cbn [app].
    case_bool_decide; apply bind_Some in H as ([ds r'] & H & [= <- <-]).
    + by rewrite (digits_app _ _ _ _ H Hs).
    + change (sg :: s'' ++ rest) with ((sg :: s'') ++ rest). by rewrite (digits_app _ _ _ _ H Hs).
Qed.

Lemma scan_int_app s f r rest :
  scan_int s = Some (f, r) -> num_stop rest = true -> scan_int (s ++ rest) = Some (f, r ++ rest).
Proof.
  intros H Hs. destruct s as [|c s']; [done|]. unfold scan_int in *. cbn [app].
  destruct (decide _); [by injection H as <- <-|].
  change (c :: s' ++ rest) with ((c :: s') ++ rest). by apply digits_app.
Qed.

Lemma scan_num_app t rest :
  scan_num t = Some (t, []) -> num_stop rest = true -> scan_num (t ++ rest) = Some (t, rest).
Proof.
  intros H Hs. destruct t as [|c t']; [by vm_compute in H|]. unfold scan_num in *. cbn [app].
  assert (Hgen : forall sign s,
    ('(i, s) ← scan_int s; '(f, s) ← scan_frac s; '(e, s) ← scan_exp s; Some (sign ++ i ++ f ++ e, s))
      = Some (c :: t', []) ->
    ('(i, s) ← scan_int (s ++ rest); '(f, s) ← scan_frac s; '(e, s) ← scan_exp s;
       Some (sign ++ i ++ f ++ e, s)) = Some (c :: t', rest)).
  { intros sign s Hn. apply bind_Some in Hn as ([i s1] & H1 & Hn).
    apply bind_Some in Hn as ([f s2] & H2 & Hn). apply bind_Some in Hn as ([e s3] & H3 & [= Ht ->]).
    rewrite (scan_int_app _ _ _ _ H1 Hs). cbn [mbind option_bind].
    rewrite (scan_frac_app _ _ _ _ H2 Hs). cbn [mbind option_bind].
    rewrite (scan_exp_app _ _ _ _ H3 Hs). cbn [mbind option_bind app]. by rewrite Ht. }
  destruct (decide (c = "-"%byte)); [by apply Hgen|].
  change (c :: t' ++ rest) with ((c :: t') ++ rest). by apply Hgen.
Qed.

(** ** Values read back *)

Section json_ind'.
Variable (P : json -> Prop).
Hypotheses (Hnull : P JNull) (Hbool : forall b, P (JBool b)) (Hnum : forall t, P (JNum t))
  (Hstr : forall s, P (JStr s)) (Harr : forall l, Forall P l -> P (JArr l))
  (Hobj : forall l, Forall (fun kv => P kv.2) l -> P (JObj l)).

Fixpoint json_ind' (v : json) : P v :=
  match v with
  | JNull => Hnull
  | JBool b => Hbool b
  | JNum t => Hnum t
  | JStr s => Hstr s
  | JArr l => Harr l ((fix go l : Forall P l :=
      match l with [] => Forall_nil_2 P | v :: l' => Forall_cons_2 P v l' (json_ind' v) (go l') end) l)
  | JObj l => Hobj l ((fix go l : Forall (fun kv => P kv.2) l :=
      match l with [] => Forall_nil_2 _ | kv :: l' => Forall_cons_2 _ kv l' (json_ind' kv.2) (go l') end) l)
  end.
End json_ind'.

(** Values that the encoder writes as they are: numbers in JSON syntax, strings in
    UTF-8, and no deeper than [d] levels. *)
Fixpoint writable (d : Z) (v : json) : bool :=
  match v with
  | JNull | JBool _ => true
  | JNum t => bool_decide (scan_num t = Some (t, []))
  | JStr s => utf8.ValidString s
  | JArr l => (0 <? d) && forallb (writable (d - 1)) l
  | JObj l => (0 <? d) && forallb (fun kv => utf8.ValidString kv.1 && writable (d - 1) kv.2) l
  end.

(** The first byte of a value. *)
Definition value_head (s : bytes) : Prop :=
  match s with
  | [] => False
  | c :: _ => is_ws c = false /\ c <> "]"%byte /\ c <> "}"%byte
  end.

Lemma value_head_ws s : value_head s -> skip_ws s = s.
Proof. destruct s as [|c s]; [done|]. intros (H & _). unfold skip_ws. cbn. by rewrite H. Qed.

Definition num_head (c : byte) : Prop :=
  is_ws c = false /\ Forall (fun x => c <> x) ["]"; "}"; "{"; "["; dquote; "t"; "f"; "n"]%byte.

Lemma digit_head c : is_digit c = true \/ c = "-"%byte -> num_head c.
Proof.
  intros [H| ->].
  - split; [destruct c; first [discriminate H | reflexivity]|].
    rewrite !Forall_cons. repeat split; try constructor; intros ->; discriminate H.
  - split; [reflexivity|]. rewrite !Forall_cons. repeat split; try constructor; done.
Qed.

Lemma digits_head c s ds r : digits (c :: s) = Some (ds, r) -> is_digit c = true.
Proof. unfold digits. cbn. by destruct (is_digit c). Qed.

Lemma scan_num_head c s t r : scan_num (c :: s) = Some (t, r) -> num_head c.
Proof.
  unfold scan_num. intros H. apply digit_head. destruct (decide (c = "-"%byte)); [by right|left].
  apply bind_Some in H as ([i s1] & H1 & _). unfold scan_int in H1.
  destruct (decide (c = "0"%byte)) as [->|]; [done|by eapply digits_head].
Qed.

Lemma scan_num_scalar c s t rest :
  scan_num (c :: s) = Some (t, rest) -> scalar (c :: s) = Some (JNum t, rest).
Proof.
  intros H. destruct (scan_num_head _ _ _ _ H) as [_ Hh]. rewrite !Forall_cons in Hh.
  destruct Hh as (?&?&?&?&?&?&?&?&_). unfold scalar. rewrite !decide_False by done. by rewrite H.
Qed.

Lemma encode_head d v : writable d v = true -> value_head (encode v).
Proof.
  destruct v as [|[]|t|s|l|l]; cbn; try done.
  intros H. bool_prop. destruct t as [|c t]; [by vm_compute in H|].
  destruct (scan_num_head _ _ _ _ H) as [? Hh]. rewrite !Forall_cons in Hh.
  cbn. naive_solver.
Qed.

Lemma Join_cons x y l sep : Join (x :: y :: l) sep = x ++ sep ++ Join (y :: l) sep.
Proof. done. Qed.

Lemma skip_ws_nows c s : is_ws c = false -> skip_ws (c :: s) = c :: s.
Proof. intros H. unfold skip_ws. cbn. by rewrite H. Qed.

(** The punctuation, as single bytes. *)
Ltac punct :=
  repeat match goal with
  | |- context [lit ?s] => let b := eval vm_compute in (lit s) in change (lit s) with b
  | H : context [lit ?s] |- _ => let b := eval vm_compute in (lit s) in change (lit s) with b in H
  end; cbn [app] in *.

(** Reading one value, whatever follows it. *)
Definition reads (d : Z) (v : json) : Prop :=
  forall f rest, num_stop rest = true -> (2 * length (encode v ++ rest) < f)%nat ->
    value f d (encode v ++ rest) = Some (v, rest).

Lemma elements_read d l f rest :
  l <> [] -> Forall (reads d) l -> num_stop rest = true ->
  (2 * length (Join (map encode l) (lit ",") ++ "]"%byte :: rest) + 1 < f)%nat ->
  elements f d (Join (map encode l) (lit ",") ++ "]"%byte :: rest) = Some (l, rest).
Proof.
  intros Hne Hl Hs. revert f. induction Hl as [|v l Hv Hl IH]; [done|]. intros f Hf.
  destruct f as [|f]; [lia|]. cbn [elements]. destruct l as [|v' l'].
  - cbn [map Join] in *. rewrite Hv; [|done|lia]. cbn [mbind option_bind]. done.
  - cbn [map] in *. rewrite Join_cons, <- !app_assoc in *. punct.
    rewrite Hv; [|done|lia]. cbn [mbind option_bind].
    rewrite skip_ws_nows by done. rewrite decide_True by done.
    rewrite IH; [done..|]. rewrite length_app in Hf. cbn [length] in Hf. lia.
Qed.

Definition member (kv : bytes * json) : bytes := quote kv.1 ++ lit ":" ++ encode kv.2.

Lemma member_eq k v t :
  member (k, v) ++ t = dquote :: quote_body 0 k ++ dquote :: ":"%byte :: encode v ++ t.
Proof. unfold member, quote. cbn [fst snd]. punct. by rewrite <- !app_assoc. Qed.

Lemma members_step d k v f (t : bytes) :
  utf8.ValidString k = true -> reads d v -> num_stop t = true ->
  (2 * length (member (k, v) ++ t) + 1 < S f)%nat ->
  members (S f) d (member (k, v) ++ t) =
    match skip_ws t with
    | [] => None
    | c3 :: r =>
        if decide (c3 = ","%byte) then '(l, r) ← members f d r; Some ((k, v) :: l, r)
        else if decide (c3 = "}"%byte) then Some ([(k, v)], r) else None
    end.
Proof.
  intros Hk Hv Ht Hf. rewrite member_eq in *. cbn [members].
  rewrite skip_ws_nows by done. rewrite decide_True by done.
  destruct (quote_reads k (":"%byte :: encode v ++ t) Hk) as [-> Hu]. cbn [mbind option_bind].
  rewrite skip_ws_nows by done. rewrite decide_True by done.
  rewrite Hv; [|done|].
  - cbn [mbind option_bind]. by rewrite Hu.
  - cbn [length] in Hf. rewrite length_app in Hf. cbn [length] in Hf. lia.
Qed.

Lemma members_read d l f rest :
  l <> [] -> Forall (fun kv => utf8.ValidString kv.1 = true /\ reads d kv.2) l -> num_stop rest = true ->
  (2 * length (Join (map member l) (lit ",") ++ "}"%byte :: rest) + 1 < f)%nat ->
  members f d (Join (map member l) (lit ",") ++ "}"%byte :: rest) = Some (l, rest).
Proof.
  intros Hne Hl Hs. revert f. induction Hl as [|[k v] l [Hk Hv] Hl IH]; [done|]. intros f Hf.
  destruct f as [|f]; [lia|]. cbn [fst snd] in *. destruct l as [|kv' l'].
  - cbn [map Join] in *. rewrite members_step; [|done..]. done.
  - cbn [map] in *. rewrite Join_cons, <- !app_assoc in *.
    rewrite members_step; [|done..|]; punct; [|lia].
    rewrite skip_ws_nows by done. rewrite decide_True by done.
    rewrite IH; [done..|]. rewrite length_app in Hf. cbn [length] in Hf. lia.
Qed.

Lemma Join_head l sep : l <> [] -> Forall value_head l -> value_head (Join l sep).
Proof.
  intros Hne Hl. destruct Hl as [|x l Hx Hl]; [done|]. destruct l as [|y l]; [done|].
  rewrite Join_cons. by destruct x.
Qed.

(** An array is read when its elements are. *)
Lemma array_reads d l :
  d < maxNestingDepth -> Forall (reads (d + 1)) l -> Forall value_head (map encode l) -> reads d (JArr l).
Proof.
  intros Hd Hl Hheads f rest Hs Hf. destruct f as [|f]; [lia|].
  cbn [encode] in *. rewrite <- !app_assoc in *. punct.
  cbn [value]. rewrite skip_ws_nows by done. rewrite decide_False by done. rewrite decide_True by done.
  destruct (maxNestingDepth <=? d) eqn:E; [bool_prop; lia|].
  destruct l as [|v l']; [done|]. set (l := v :: l') in *.
  assert (Hh : value_head (Join (map encode l) (lit ",") ++ "]"%byte :: rest)).
  { assert (Hj : value_head (Join (map encode l) (lit ","))) by (by apply Join_head).
    by destruct (Join _ _). }
  pose proof (elements_read (d + 1) l f rest ltac:(done) Hl Hs) as He. punct.
  rewrite (value_head_ws _ Hh).
  destruct (Join (map encode l) [","%byte] ++ "]"%byte :: rest) as [|c' r']; [done|].
  destruct Hh as (_ & Hc & _). rewrite decide_False by done. rewrite He by (cbn in *; lia). done.
Qed.

(** An object is read when its names are valid and its members are read. *)
Lemma object_reads d l :
  d < maxNestingDepth -> Forall (fun kv => utf8.ValidString kv.1 = true /\ reads (d + 1) kv.2) l ->
  reads d (JObj l).
Proof.
  intros Hd Hl f rest Hs Hf. destruct f as [|f]; [lia|].
  cbn [encode] in *. rewrite <- !app_assoc in *. punct.
  cbn [value]. rewrite skip_ws_nows by done. rewrite decide_True by done.
  destruct (maxNestingDepth <=? d) eqn:E; [bool_prop; lia|].
  change (fun kv : bytes * json => quote kv.1 ++ ":"%byte :: encode kv.2) with member in *.
  destruct l as [|kv l']; [done|]. set (l := kv :: l') in *.
  assert (Hh : value_head (Join (map member l) (lit ",") ++ "}"%byte :: rest)).
  { assert (Hj : value_head (Join (map member l) (lit ","))).
    { apply Join_head; [done|]. apply Forall_map, Forall_forall. intros [k v] _. done. }
    by destruct (Join _ _). }
  pose proof (members_read (d + 1) l f rest ltac:(done) Hl Hs) as He. punct.
  rewrite (value_head_ws _ Hh).
  destruct (Join (map member l) [","%byte] ++ "}"%byte :: rest) as [|c' r']; [done|].
  destruct Hh as (_ & _ & Hc). rewrite decide_False by done. rewrite He by (cbn in *; lia). done.
Qed.

Lemma encode_reads v : forall d, writable (maxNestingDepth - d) v = true -> reads d v.
Proof.
  induction v as [|b|t|s|l IH|l IH] using json_ind'; intros d Hw; cbn [writable] in Hw; bool_prop.
  1-4: intros f rest Hs Hf; (destruct f as [|f]; [lia|]).
  - done.
  - by destruct b.
  - cbn [encode] in *. destruct t as [|c t]; [by vm_compute in Hw|].
    destruct (scan_num_head _ _ _ _ Hw) as [Hws Hh]. rewrite !Forall_cons in Hh.
    cbn [value app]. rewrite skip_ws_nows by done. rewrite !decide_False by naive_solver.
    apply scan_num_scalar. apply (scan_num_app (c :: t) rest Hw Hs).
  - cbn [encode] in *. unfold quote in *. cbn [value app]. rewrite skip_ws_nows by done.
    rewrite !decide_False by done. unfold scalar. rewrite decide_True by done.
    rewrite <- app_assoc. cbn [app]. destruct (quote_reads s rest Hw) as [-> Hu].
    cbn [mbind option_bind]. by rewrite Hu.
  - rewrite forallb_forall in H0. rewrite Forall_forall in IH. apply array_reads; [lia| |].
    + apply Forall_forall. intros v Hv. apply IH; [done|].
      replace (maxNestingDepth - (d + 1)) with (maxNestingDepth - d - 1) by lia.
      by apply H0, list_elem_of_In.
    + apply Forall_map, Forall_forall. intros v Hv. eapply encode_head, H0. by apply list_elem_of_In.
  - rewrite forallb_forall in H0. rewrite Forall_forall in IH. apply object_reads; [lia|].
    apply Forall_forall. intros kv Hv. apply list_elem_of_In in Hv as Hv'. specialize (H0 _ Hv'). bool_prop.
    split; [done|]. apply IH; [done|].
    by replace (maxNestingDepth - (d + 1)) with (maxNestingDepth - d - 1) by lia.
Qed.

(** ** Integers read back *)

Definition dec_val (ds : bytes) : Z := foldl (fun acc d => acc * 10 + (b2z d - 48)) 0 ds.

Lemma pretty_digit k : (k < 10)%N -> exists c,
  String.list_byte_of_string (String.String (pretty_N_char k) EmptyString) = [c] /\
  is_digit c = true /\ b2z c - 48 = Z.of_N k /\ (k <> 0%N -> c <> "0"%byte).
Proof.
  intros H. exists (nth (N.to_nat k) ["0";"1";"2";"3";"4";"5";"6";"7";"8";"9"]%byte "0"%byte).
  assert (Hk : k = 0%N \/ k = 1%N \/ k = 2%N \/ k = 3%N \/ k = 4%N \/ k = 5%N \/ k = 6%N \/ k = 7%N
    \/ k = 8%N \/ k = 9%N) by lia.
  by destruct Hk as [->|[->|[->|[->|[->|[->|[->|[->|[->| ->]]]]]]]]].
Qed.

Lemma list_byte_cons c s :
  String.list_byte_of_string (String.String c s) =
  String.list_byte_of_string (String.String c EmptyString) ++ String.list_byte_of_string s.
Proof. done. Qed.

Lemma pretty_N_go_digits x : (0 < x)%N -> forall s, exists d ds,
  String.list_byte_of_string (pretty_N_go x s) = (d :: ds) ++ String.list_byte_of_string s /\
  forallb is_digit (d :: ds) = true /\ d <> "0"%byte /\ dec_val (d :: ds) = Z.of_N x.
Proof.
  induction (N.lt_wf_0 x) as [x _ IH]. intros Hx s. rewrite pretty_N_go_step by done.
  destruct (pretty_digit (x mod 10)) as (c & Hc & Hd & Hv & Hz); [by apply N.mod_lt|].
  pose proof (N.div_mod x 10 ltac:(done)) as Hdm.
  destruct (decide (x / 10 = 0)%N) as [E|E].
  - rewrite E, pretty_N_go_0, list_byte_cons, Hc. exists c, []. cbn [forallb app]. rewrite Hd.
    split; [done|]. split; [done|]. rewrite E in Hdm. assert (Hm : (x mod 10)%N = x) by (clear -Hdm; lia). rewrite Hm in *.
    split; [apply Hz; lia|]. unfold dec_val. cbn. lia.
  - destruct (IH (x / 10)%N (N.div_lt x 10 Hx ltac:(done)) (proj1 (N.neq_0_lt_0 _) E)
      (String.String (pretty_N_char (x mod 10)) s)) as (d & ds & -> & Hds & Hd0 & Hval).
    rewrite list_byte_cons, Hc. exists d, (ds ++ [c]). split; [cbn; by rewrite <- app_assoc|].
    split; [change (d :: ds ++ [c]) with ((d :: ds) ++ [c]); rewrite forallb_app, Hds; cbn; by rewrite Hd|].
    split; [done|]. change (d :: ds ++ [c]) with ((d :: ds) ++ [c]).
    unfold dec_val in *. rewrite foldl_app. rewrite Hval. cbn. rewrite Hv. lia.
Qed.

(** The decimal text of an integer: a sign, and digits without a leading zero. *)
Lemma FormatInt_digits z : exists ds,
  FormatInt z = (if z <? 0 then ["-"%byte] else []) ++ ds /\
  forallb is_digit ds = true /\ dec_val ds = Z.abs z /\
  (ds = ["0"%byte] \/ exists d ds', ds = d :: ds' /\ d <> "0"%byte).
Proof.
  assert (Hpos : forall p, exists ds, lit (pretty (N.pos p)) = ds /\
    forallb is_digit ds = true /\ dec_val ds = Z.pos p /\ exists d ds', ds = d :: ds' /\ d <> "0"%byte).
  { intros p. destruct (pretty_N_go_digits (N.pos p) ltac:(done) EmptyString) as (d & ds & He & H1 & H2 & H3).
    exists (d :: ds). split; [|split; [done|split; [done|by eauto]]].
    unfold lit, pretty, pretty_N. rewrite decide_False by done. rewrite He. apply app_nil_r. }
  unfold FormatInt. destruct z as [|p|p].
  - exists ["0"%byte]. split; [done|]. split; [done|]. split; [done|by left].
  - destruct (Hpos p) as (ds & E & H1 & H2 & H3). exists ds. split; [done|]. auto.
  - destruct (Hpos p) as (ds & E & H1 & H2 & H3). exists ds. split; [|by auto].
    change (lit (pretty (Z.neg p))) with ("-"%byte :: lit (pretty (N.pos p))). by rewrite E.
Qed.

Lemma digits_all ds : ds <> [] -> forallb is_digit ds = true -> digits ds = Some (ds, []).
Proof.
  intros Hne H. unfold digits.
  assert (Hd : drop_while is_digit ds = []).
  { clear Hne. induction ds as [|d ds IH]; [done|]. cbn in *. bool_prop. rewrite H. by apply IH. }
  rewrite (drop_while_nil_take _ _ Hd), Hd. by destruct ds.
Qed.

Lemma scan_num_FormatInt z : scan_num (FormatInt z) = Some (FormatInt z, []).
Proof.
  destruct (FormatInt_digits z) as (ds & -> & Hds & _ & Hhead).
  assert (Hi : scan_int ds = Some (ds, [])).
  { destruct Hhead as [->|(d & ds' & -> & Hd)]; [done|]. unfold scan_int. rewrite decide_False by done.
    by apply digits_all. }
  assert (Hne : exists c r, ds = c :: r /\ c <> "-"%byte).
  { destruct Hhead as [->|(d & ds' & -> & Hd)]; [by eexists _, _|]. exists d, ds'. split; [done|].
    intros ->. discriminate Hds. }
  destruct Hne as (c & r & -> & Hc). unfold scan_num. destruct (z <? 0); cbn [app].
  - rewrite decide_True by done. rewrite Hi. cbn. by rewrite app_nil_r.
  - rewrite decide_False by done. rewrite Hi. cbn. by rewrite app_nil_r.
Qed.

Lemma ParseInt_FormatInt z : in_i64 z -> ParseInt (FormatInt z) = Some z.
Proof.
  unfold in_i64. intros Hz. destruct (FormatInt_digits z) as (ds & -> & Hds & Hv & Hhead).
  assert (Hne : exists c r, ds = c :: r /\ c <> "-"%byte).
  { destruct Hhead as [->|(d & ds' & -> & Hd)]; [by eexists _, _|]. exists d, ds'. split; [done|].
    intros ->. discriminate Hds. }
  destruct Hne as (c & r & -> & Hc). unfold ParseInt. unfold dec_val in Hv.
  destruct (z <? 0) eqn:E; cbn [app].
  - rewrite decide_True by done. rewrite Hds, Hv. rewrite bool_decide_eq_false_2 by done. cbn [negb orb].
    bool_prop. replace (-1 * Z.abs z) with z by lia.
    by rewrite (proj2 (Z.leb_le (- 2 ^ 63) z)), (proj2 (Z.ltb_lt z (2 ^ 63))) by lia.
  - rewrite decide_False by done. rewrite Hds, Hv. rewrite bool_decide_eq_false_2 by done. cbn [negb orb].
    bool_prop. replace (1 * Z.abs z) with z by lia.
    by rewrite (proj2 (Z.leb_le (- 2 ^ 63) z)), (proj2 (Z.ltb_lt z (2 ^ 63))) by lia.
Qed.

(** ** The stream decoder *)

Lemma Decode_Encode limit v :
  writable maxNestingDepth v = true -> (length (Encode v) <= Z.to_nat limit)%nat ->
  Decode limit (Encode v) = Some v.
Proof.
  intros Hw Hl. unfold Decode. rewrite take_ge by done. unfold Encode.
  rewrite (encode_reads v 0); [|by rewrite Z.sub_0_r|done|unfold fuel; lia].
  cbn [mbind option_bind]. by rewrite bool_decide_eq_false_2, andb_false_r.
Qed.

Lemma Unmarshal_Encode v : writable maxNestingDepth v = true -> Unmarshal (Encode v) = Some v.
Proof.
  intros Hw. unfold Unmarshal, Encode.
  rewrite (encode_reads v 0); [done|by rewrite Z.sub_0_r|done|unfold fuel; lia].
Qed.

(** The bytes past the limit are never looked at, and an object or an array that
    is not complete within it is an error. *)
Lemma Decode_prefix limit body body' :
  take (Z.to_nat limit) body = take (Z.to_nat limit) body' ->
  (Z.to_nat limit < length body)%nat -> (Z.to_nat limit < length body')%nat ->
  Decode limit body = Decode limit body'.
Proof.
  intros E H1 H2. unfold Decode. rewrite E.
  by rewrite (proj2 (Nat.ltb_lt _ (length body))), (proj2 (Nat.ltb_lt _ (length body'))).
Qed.
