(* ===== verification/Wire.v ===== *)
(** * Wire: the request bodies of the three engines.

    Each is the body struct the source declares (its [json] tags are the field
    names) and its decoding by [json.NewDecoder(http.MaxBytesReader(w, r.Body,
    limit)).Decode(&body)] from a zero value; [None] is the error. *)

From S2P Require Import Prelude GoStrings Binary Base64 Json JsonFacts.
Import strings.

Definition decode_body {A} (names : list bytes) (build : list (bytes * json) -> A -> option A)
    (zero : A) (limit : Z) (body : bytes) : option A :=
  v ← Decode limit body; struct_into false names build v zero.

(** The knock: [respondBody] of [authorizer/server.go] and of both adapters. *)
Record respondBody := mkRespond { rbV : Z; rbKid : bytes; rbNonce : bytes; rbProof : bytes }.

Definition respond_names : list bytes := [lit "v"; lit "kid"; lit "nonce"; lit "proof"].

Definition respond_build (kvs : list (bytes * json)) (o : respondBody) : option respondBody :=
  v ← get_field respond_names kvs "v" int_into (rbV o);
  kid ← get_field respond_names kvs "kid" str_into (rbKid o);
  nonce ← get_field respond_names kvs "nonce" str_into (rbNonce o);
  proof ← get_field respond_names kvs "proof" str_into (rbProof o);
  Some (mkRespond v kid nonce proof).

Definition json_respond : Z -> bytes -> option respondBody :=
  decode_body respond_names respond_build (mkRespond 0 [] [] []).

(** [enrollBody]: its one field. *)
Definition json_enroll : Z -> bytes -> option bytes :=
  let names := [lit "code"] in
  decode_body names (fun kvs => get_field names kvs "code" str_into) [].

(** The bodies of the admin API ([authorizer/admin.go]). *)
Record grantBody := mkGrantBody { gbService : bytes; gbIP : bytes; gbTTL : Z; gbKid : bytes }.

Definition grant_names : list bytes := [lit "service"; lit "ip"; lit "ttl"; lit "kid"].

Definition json_grantBody : Z -> bytes -> option grantBody :=
  decode_body grant_names (fun kvs o =>
    service ← get_field grant_names kvs "service" str_into (gbService o);
    ip ← get_field grant_names kvs "ip" str_into (gbIP o);
    ttl ← get_field grant_names kvs "ttl" int_into (gbTTL o);
    kid ← get_field grant_names kvs "kid" str_into (gbKid o);
    Some (mkGrantBody service ip ttl kid)) (mkGrantBody [] [] 0 []).

Record revokeBody := mkRevokeBody { rvService : bytes; rvIP : bytes }.

Definition revoke_names : list bytes := [lit "service"; lit "ip"].

Definition json_revokeBody : Z -> bytes -> option revokeBody :=
  decode_body revoke_names (fun kvs o =>
    service ← get_field revoke_names kvs "service" str_into (rvService o);
    ip ← get_field revoke_names kvs "ip" str_into (rvIP o);
    Some (mkRevokeBody service ip)) (mkRevokeBody [] []).

Definition json_kidBody : Z -> bytes -> option bytes :=
  let names := [lit "kid"] in
  decode_body names (fun kvs => get_field names kvs "kid" str_into) [].

Record codeBody := mkCodeBody {
  cbKid : bytes; cbOrigins : slice bytes; cbServer : bytes; cbTTL : Z }.

Definition code_names : list bytes := [lit "kid"; lit "origins"; lit "server"; lit "ttl"].

Definition json_codeBody : Z -> bytes -> option codeBody :=
  decode_body code_names (fun kvs o =>
    kid ← get_field code_names kvs "kid" str_into (cbKid o);
    origins ← get_field code_names kvs "origins" (slice_into str_into []) (cbOrigins o);
    server ← get_field code_names kvs "server" str_into (cbServer o);
    ttl ← get_field code_names kvs "ttl" int_into (cbTTL o);
    Some (mkCodeBody kid origins server ttl)) (mkCodeBody [] None [] 0).

(** A slice as a JSON value: nil is [null]. *)
Definition json_slice {A} (enc : A -> json) (s : slice A) : json :=
  match s with None => JNull | Some (l, _) => JArr (map enc l) end.

#[global] Arguments json_respond : simpl never.
#[global] Arguments json_enroll : simpl never.
#[global] Arguments json_grantBody : simpl never.
#[global] Arguments json_revokeBody : simpl never.
#[global] Arguments json_kidBody : simpl never.
#[global] Arguments json_codeBody : simpl never.

(** A JSON text in single quotes, for readable examples. *)
Definition quoted (s : string) : bytes := map (fun b => if decide (b = "'"%byte) then dquote else b) (lit s).

Example respond_body_case : json_respond 4096
  (quoted "{'KID': 'a', 'nonce': null, 'proof': '\u0070', 'v': 2, 'x': [1.5e3, {}]} trailing") =
  Some (mkRespond 2 (lit "a") [] (lit "p")).
Proof. vm_compute. reflexivity. Qed.

Example respond_body_type : json_respond 4096 (quoted "{'kid': 7}") = None.
Proof. vm_compute. reflexivity. Qed.

Example respond_body_limit : json_respond 10 (quoted "{'kid': 'a'}") = None.
Proof. vm_compute. reflexivity. Qed.

Example code_body_origins :
  cbOrigins <$> json_codeBody 65536 (quoted "{'origins': ['a', 'b'], 'origins': [null]}") =
  Some (Some ([lit "a"], [lit "b"])).
Proof. vm_compute. reflexivity. Qed.

(** ** What the decoders read *)

Lemma get_field_filter names kvs {A} name (dec : json -> A -> option A) old :
  get_field names kvs name dec old =
  foldl (fun acc kv => a ← acc; dec kv.2 a) (Some old)
    (filter (fun kv => find_field names kv.1 = Some (lit name)) kvs).
Proof.
  unfold get_field. generalize (Some old) as acc. induction kvs as [|kv kvs IH]; intros acc; [done|].
  rewrite filter_cons. cbn [foldl]. rewrite IH. case_bool_decide as H.
  - by rewrite decide_True.
  - rewrite decide_False by done. f_equal. by destruct acc.
Qed.

(** A field that one member names gets its value, wherever that member stands. *)
Lemma get_field_one names kvs kvs' kv {A} name (dec : json -> A -> option A) old :
  kvs ≡ₚ kvs' ->
  filter (fun kv => find_field names kv.1 = Some (lit name)) kvs' = [kv] ->
  get_field names kvs name dec old = dec kv.2 old.
Proof.
  intros Hp Hf. rewrite get_field_filter.
  assert (H : filter (fun kv => find_field names kv.1 = Some (lit name)) kvs ≡ₚ [kv])
    by (rewrite <- Hf; by apply filter_Permutation).
  apply Permutation_singleton_r in H. by rewrite H.
Qed.

Lemma filter_extras names name (extras : list (bytes * json)) :
  Forall (fun kv => find_field names kv.1 = None) extras ->
  filter (fun kv => find_field names kv.1 = Some (lit name)) extras = [].
Proof.
  induction 1 as [|kv extras H _ IH]; [done|]. rewrite filter_cons, decide_False; [done|]. by rewrite H.
Qed.

Lemma forallb_perm {A} (p : A -> bool) l l' : l ≡ₚ l' -> forallb p l = forallb p l'.
Proof. induction 1; cbn; [done|congruence| |congruence]. by rewrite !andb_assoc, (andb_comm (p y)). Qed.

Lemma ascii_valid s : Forall (fun b => b2z b < 0x80) s -> utf8.ValidString s = true.
Proof.
  unfold utf8.ValidString. induction 1 as [|b s H _ IH]; [done|]. cbn. unfold utf8.extra.
  by rewrite (proj2 (Z.ltb_lt _ _) H).
Qed.

Lemma B64u_valid b : utf8.ValidString (B64u b) = true.
Proof.
  apply ascii_valid. eapply Forall_impl; [apply alphabet_EncodeToString|].
  intros c H. destruct c; first [discriminate H | reflexivity].
Qed.

(** ** Writing and reading whole documents *)

(** What a JSON file can hold: text in UTF-8, and 64-bit integers. *)
Definition text (s : bytes) : Prop := utf8.ValidString s = true.

#[export] Instance text_dec s : Decision (text s).
Proof. unfold text. apply _. Defined.
#[export] Instance in_i64_dec z : Decision (in_i64 z).
Proof. unfold in_i64. apply _. Defined.

Section slices.
Context {A : Type} (dec : json -> A -> option A) (zero : A) (enc : A -> json).

Lemma elems_into_all l back :
  (forall x old, x ∈ l -> dec (enc x) old = Some x) -> elems_into dec zero (map enc l) back = Some l.
Proof.
  revert back. induction l as [|x l IH]; intros back H; [done|]. cbn [map elems_into].
  rewrite H by left. cbn [mbind option_bind]. rewrite IH; [done|]. intros y old Hy. apply H. by right.
Qed.

(** A written slice replaces what was there. *)
Lemma slice_into_all l old :
  (forall x o, x ∈ l -> dec (enc x) o = Some x) ->
  exists b, slice_into dec zero (JArr (map enc l)) old = Some (Some (l, b)).
Proof.
  intros H. destruct l as [|x l]; [by exists []|].
  set (back := match old with Some (c, b) => c ++ b | None => [] end).
  exists (drop (length (map enc (x :: l))) back).
  cbn [slice_into map]. fold back. change (enc x :: map enc l) with (map enc (x :: l)).
  by rewrite elems_into_all.
Qed.

(** The members of a written map that has no key twice. *)
Lemma map_into_all (l : list (bytes * A)) :
  NoDup l.*1 -> (forall k x, (k, x) ∈ l -> dec (enc x) zero = Some x) ->
  map_into dec zero (JObj (map (fun kv => (kv.1, enc kv.2)) l)) ∅ = Some (list_to_map l).
Proof.
  intros Hnd H. cbn [map_into].
  set (step := fun (acc : option (gmap bytes A)) (kv : bytes * json) =>
    m ← acc; x ← dec kv.2 zero; Some (<[kv.1 := x]> m)).
  enough (Hgen : forall acc : gmap bytes A, (forall k, k ∈ l.*1 -> acc !! k = None) ->
    foldl step (Some acc) (map (fun kv => (kv.1, enc kv.2)) l) = Some (list_to_map l ∪ acc)).
  { etrans; [apply Hgen; intros; apply lookup_empty|]. by rewrite (right_id_L ∅ (∪)). }
  induction l as [|[k x] l IH]; intros acc Hacc; [cbn; by rewrite (left_id_L ∅ (∪))|].
  cbn [fmap list_fmap fst] in Hnd. apply NoDup_cons in Hnd as [Hni Hnd].
  cbn [map foldl fst snd]. unfold step at 2. cbn [mbind option_bind fst snd].
  rewrite (H k x) by left. cbn [mbind option_bind]. rewrite IH; [|done|intros k' x' Hx; apply (H k'); by right|].
  - cbn [list_to_map foldr]. rewrite <- insert_union_l, <- insert_union_r; [done|].
    by apply not_elem_of_list_to_map_1.
  - intros k' Hk'. rewrite lookup_insert_ne by (intros <-; done). apply Hacc. cbn. by right.
Qed.
End slices.

Definition strs (l : list bytes) : json := JArr (map JStr l).

(** Rewrite with the value of the next field of a struct. *)
Ltac field Hperm nm :=
  match goal with
  | |- context [get_field ?names ?kvs nm ?dec ?old] =>
      erewrite (get_field_one names kvs _ _ nm dec old Hperm) by (reflexivity);
      cbn [fst snd str_into int_into JInt]; try rewrite ParseInt_FormatInt by done;
      cbn [mbind option_bind]
  end.

Lemma strs_into l old : exists b, slice_into str_into [] (strs l) old = Some (Some (l, b)).
Proof. by apply slice_into_all. Qed.

Lemma writable_strs d l : 0 < d -> Forall text l -> writable d (strs l) = true.
Proof.
  intros Hd H. unfold strs. cbn [writable]. apply andb_true_iff. split; [lia|].
  rewrite forallb_forall. intros v (s & <- & Hs)%in_map_iff. rewrite Forall_forall in H.
  apply H. by apply list_elem_of_In.
Qed.

Lemma writable_arr d l : 0 < d -> Forall (fun v => writable (d - 1) v = true) l -> writable d (JArr l) = true.
Proof.
  intros Hd H. cbn [writable]. apply andb_true_iff. split; [lia|]. rewrite forallb_forall.
  intros v Hv%list_elem_of_In. rewrite Forall_forall in H. by apply H.
Qed.

Lemma writable_int d z : writable d (JInt z) = true.
Proof. apply bool_decide_eq_true, scan_num_FormatInt. Qed.

Lemma writable_obj d l :
  0 < d -> Forall (fun kv => text kv.1 /\ writable (d - 1) kv.2 = true) l -> writable d (JObj l) = true.
Proof.
  intros Hd H. cbn [writable]. apply andb_true_iff. split; [lia|]. rewrite forallb_forall.
  intros kv Hkv%list_elem_of_In. rewrite Forall_forall in H. apply andb_true_iff. by apply H.
Qed.

Ltac members := repeat (apply Forall_cons; split; [split; [reflexivity|]|]); [..|by constructor].

(** A knock body is understood whatever the order of its members and whatever
    other members it has: written by an encoder that puts each field once, it
    decodes to its fields. *)
Lemma respond_body_reads limit v kid nonce proof extras kvs
    (Hv : in_i64 v) (Hk : utf8.ValidString kid = true) (Hn : utf8.ValidString nonce = true)
    (Hp : utf8.ValidString proof = true)
    (Hextra : Forall (fun kv => find_field respond_names kv.1 = None) extras)
    (Hw : writable maxNestingDepth (JObj extras) = true)
    (Hperm : kvs ≡ₚ [(lit "v", JInt v); (lit "kid", JStr kid); (lit "nonce", JStr nonce);
                     (lit "proof", JStr proof)] ++ extras)
    (Hlen : (length (Encode (JObj kvs)) <= Z.to_nat limit)%nat) :
  json_respond limit (Encode (JObj kvs)) = Some (mkRespond v kid nonce proof).
Proof.
  assert (Hf : forall name x,
    filter (fun kv => find_field respond_names kv.1 = Some (lit name))
      [(lit "v", JInt v); (lit "kid", JStr kid); (lit "nonce", JStr nonce); (lit "proof", JStr proof)] = [x] ->
    filter (fun kv => find_field respond_names kv.1 = Some (lit name))
      ([(lit "v", JInt v); (lit "kid", JStr kid); (lit "nonce", JStr nonce); (lit "proof", JStr proof)] ++ extras)
      = [x]).
  { intros name x H. rewrite filter_app, H, filter_extras by done. done. }
  unfold json_respond, decode_body. rewrite Decode_Encode; [| |done].
  - cbn [mbind option_bind struct_into andb]. unfold respond_build.
    rewrite (get_field_one _ kvs _ (lit "v", JInt v) "v" int_into _ Hperm) by (apply Hf; reflexivity).
    cbn [fst snd int_into JInt]. rewrite ParseInt_FormatInt by done. cbn [mbind option_bind].
    rewrite (get_field_one _ kvs _ (lit "kid", JStr kid) "kid" str_into _ Hperm) by (apply Hf; reflexivity).
    cbn [fst snd str_into mbind option_bind].
    rewrite (get_field_one _ kvs _ (lit "nonce", JStr nonce) "nonce" str_into _ Hperm) by (apply Hf; reflexivity).
    cbn [fst snd str_into mbind option_bind].
    rewrite (get_field_one _ kvs _ (lit "proof", JStr proof) "proof" str_into _ Hperm) by (apply Hf; reflexivity).
    done.
  - cbn [writable] in *. bool_prop. apply andb_true_iff. split; [done|].
    rewrite (forallb_perm _ _ _ Hperm), forallb_app, H0, andb_true_r. cbn [forallb fst snd writable].
    rewrite Hk, Hn, Hp. unfold JInt. cbn [writable].
    by rewrite bool_decide_eq_true_2 by apply scan_num_FormatInt.
Qed.

Example respond_body_read :
  json_respond 4096 (Encode (JObj [(lit "x", JArr [JNull]); (lit "proof", JStr (lit "p"));
    (lit "nonce", JStr (lit "n")); (lit "kid", JStr (lit "k")); (lit "v", JInt 1)])) =
  Some (mkRespond 1 (lit "k") (lit "n") (lit "p")).
Proof.
  apply (respond_body_reads 4096 1 (lit "k") (lit "n") (lit "p") [(lit "x", JArr [JNull])]).
  - unfold in_i64. lia.
  - reflexivity.
  - reflexivity.
  - reflexivity.
  - constructor; [reflexivity|constructor].
  - reflexivity.
  - apply (reverse_Permutation [_; _; _; _; _]).
  - vm_compute. lia.
Qed.
