(* ===== verification/ServerName.v ===== *)
(** * ServerName: host canonicalization ([core/go/canon.go], [CanonServerName]).

    The definitions follow the Go function statement by statement.  The loop of
    [trimDotsAndSpace] is run on fuel; [trim_loop_enough] shows the fuel
    suffices and equates the loop with a one-pass reference [trim_ref]. *)

From S2P Require Import Prelude GoStrings.
Import strings.

Definition asciiSpace : bytes :=
  Eval vm_compute in map z2b [32; 9; 10; 11; 12; 13].

Definition asciiLower (s : bytes) : bytes :=
  map (fun b => if (65 <=? b2z b) && (b2z b <=? 90) then z2b (b2z b + 32) else b) s.

(** One iteration: [strings.TrimSuffix(strings.Trim(s, asciiSpace), ".")]. *)
Definition trim_step (s : bytes) : bytes := TrimSuffix (Trim s asciiSpace) (lit ".").

Fixpoint trim_loop (fuel : nat) (s : bytes) : option bytes :=
  match fuel with
  | O => None
  | S f => let t := trim_step s in if decide (t = s) then Some s else trim_loop f t
  end.

Definition trimDotsAndSpace (s : bytes) : bytes :=
  default s (trim_loop (S (length s)) s).

Definition isASCIIDigits (s : bytes) : bool :=
  negb (bool_decide (s = [])) && forallb (fun b => (48 <=? b2z b) && (b2z b <=? 57)) s.

(** Lines 66-70: a bracketed literal delimits its own host. *)
Definition strip_brackets (h : bytes) : bytes :=
  if HasPrefix h (lit "[") then
    match IndexByte h "]"%byte with
    | Some e => trimDotsAndSpace (drop 1 (take e h))
    | None => h
    end
  else h.

(** Lines 82-86: strip a trailing [:port] when there is exactly one colon. *)
Definition strip_port (h : bytes) : bytes :=
  if (Count h ":"%byte =? 1)%nat then
    match LastIndexByte h ":"%byte with
    | Some i => if isASCIIDigits (drop (S i) h) then take i h else h
    | None => h
    end
  else h.

Definition CanonServerName (host : bytes) : bytes :=
  let h := trimDotsAndSpace host in
  let h := strip_brackets h in
  let h := strip_port h in
  asciiLower (trimDotsAndSpace h).

(** ** Trimming *)

Definition is_space (b : byte) : bool := in_cutset asciiSpace b.
Definition is_space_dot (b : byte) : bool := is_space b || bool_decide (b = "."%byte).

(** One-pass reference: spaces from the left, spaces and dots from the right. *)
Definition trim_ref (s : bytes) : bytes := rdrop_while is_space_dot (drop_while is_space s).

Section generic.
Context {A : Type}.
Implicit Types (p q : A -> bool) (l : list A).

Lemma rdrop_while_weaken p q l :
  (forall x, q x = true -> p x = true) ->
  rdrop_while p (rdrop_while q l) = rdrop_while p l.
Proof.
  intros Hqp. induction l as [|x l IH] using rev_ind; [done|].
  rewrite rdrop_while_snoc. destruct (q x) eqn:Hq; [|done].
  rewrite rdrop_while_snoc, Hqp; done.
Qed.

Lemma drop_while_map p (f : A -> A) l :
  (forall x, p (f x) = p x) -> drop_while p (map f l) = map f (drop_while p l).
Proof.
  intros H. induction l as [|x l IH]; simpl; [done|]. rewrite H. by destruct (p x).
Qed.

Lemma rdrop_while_map p (f : A -> A) l :
  (forall x, p (f x) = p x) -> rdrop_while p (map f l) = map f (rdrop_while p l).
Proof.
  intros H. induction l as [|x l IH] using rev_ind; [done|].
  rewrite map_app. simpl. rewrite !rdrop_while_snoc, H.
  destruct (p x); [done|]. by rewrite map_app.
Qed.
End generic.

(** Strings whose first byte is not a space. *)
Definition no_lead (s : bytes) : Prop :=
  match s with [] => True | x :: _ => is_space x = false end.

Lemma no_lead_drop s : no_lead (drop_while is_space s).
Proof. apply drop_while_head. Qed.

Lemma no_lead_app_l s k : no_lead (s ++ k) -> no_lead s.
Proof. by destruct s. Qed.

Lemma trim_ref_no_lead s : no_lead s -> trim_ref s = rdrop_while is_space_dot s.
Proof. intros H. unfold trim_ref. by rewrite drop_while_id. Qed.

Lemma trim_ref_prefix s : no_lead s -> exists k, s = trim_ref s ++ k.
Proof. intros H. rewrite trim_ref_no_lead by done. apply rdrop_while_prefix. Qed.

Lemma trim_ref_lead s : no_lead (trim_ref s).
Proof.
  unfold trim_ref. destruct (rdrop_while_prefix is_space_dot (drop_while is_space s)) as [k Hk].
  apply (no_lead_app_l _ k). rewrite <- Hk. apply no_lead_drop.
Qed.

Lemma trim_ref_idemp s : trim_ref (trim_ref s) = trim_ref s.
Proof.
  rewrite (trim_ref_no_lead (trim_ref s)) by apply trim_ref_lead.
  unfold trim_ref. apply rdrop_while_idemp.
Qed.

Lemma Trim_no_lead s : no_lead (Trim s asciiSpace).
Proof.
  unfold Trim, TrimRight, TrimLeft.
  destruct (rdrop_while_prefix (in_cutset asciiSpace) (drop_while (in_cutset asciiSpace) s)) as [k Hk].
  apply (no_lead_app_l _ k). rewrite <- Hk. apply no_lead_drop.
Qed.

Lemma trim_ref_Trim s : trim_ref (Trim s asciiSpace) = trim_ref s.
Proof.
  rewrite trim_ref_no_lead by apply Trim_no_lead. unfold Trim, TrimRight, TrimLeft, trim_ref.
  apply rdrop_while_weaken. unfold is_space_dot, is_space. intros x ->. done.
Qed.

Lemma trim_ref_TrimSuffix s :
  no_lead s -> trim_ref (TrimSuffix s (lit ".")) = trim_ref s.
Proof.
  intros H. change (lit ".") with ["."%byte].
  destruct s as [|x s _] using rev_ind; [done|].
  destruct (decide (x = "."%byte)) as [->|Hx].
  - rewrite TrimSuffix_snoc. rewrite !trim_ref_no_lead by eauto using no_lead_app_l.
    by rewrite rdrop_while_snoc.
  - by rewrite TrimSuffix_snoc_ne.
Qed.

Lemma trim_ref_step s : trim_ref (trim_step s) = trim_ref s.
Proof.
  unfold trim_step. rewrite trim_ref_TrimSuffix by apply Trim_no_lead. apply trim_ref_Trim.
Qed.

(** A fixpoint of one iteration is a fixpoint of the reference. *)
Lemma trim_step_length s : (length (trim_step s) <= length (Trim s asciiSpace))%nat.
Proof.
  unfold trim_step. change (lit ".") with ["."%byte]. rewrite TrimSuffix_byte.
  destruct (last _); [|done]. case_decide; [|done]. rewrite length_take. lia.
Qed.

Lemma Trim_length s : (length (Trim s asciiSpace) <= length s)%nat.
Proof.
  unfold Trim, TrimRight, TrimLeft. etrans; [apply rdrop_while_length|]. apply drop_while_length.
Qed.

Lemma drop_while_length_eq {A} (p : A -> bool) l :
  length (drop_while p l) = length l -> drop_while p l = l.
Proof.
  intros H. destruct (drop_while_suffix p l) as [k Hk]. rewrite Hk in H at 2.
  rewrite length_app in H. destruct k; simpl in *; [congruence|lia].
Qed.

Lemma rdrop_while_length_eq {A} (p : A -> bool) l :
  length (rdrop_while p l) = length l -> rdrop_while p l = l.
Proof.
  intros H. destruct (rdrop_while_prefix p l) as [k Hk]. rewrite Hk in H at 2.
  rewrite length_app in H. destruct k; simpl in *; [|lia]. by rewrite app_nil_r in Hk.
Qed.

Lemma Trim_fixed s :
  length (Trim s asciiSpace) = length s ->
  Trim s asciiSpace = s /\ drop_while is_space s = s /\ rdrop_while is_space s = s.
Proof.
  unfold Trim, TrimRight, TrimLeft. change (in_cutset asciiSpace) with is_space. intros H.
  pose proof (rdrop_while_length is_space (drop_while is_space s)) as H1.
  pose proof (drop_while_length is_space s) as H2.
  assert (Hd : drop_while is_space s = s) by (apply drop_while_length_eq; lia).
  rewrite Hd in *.
  split; [|split]; [|done|]; by apply rdrop_while_length_eq.
Qed.

Lemma trim_step_fixed s : length (trim_step s) = length s -> trim_step s = s /\ trim_ref s = s.
Proof.
  intros H. pose proof (trim_step_length s). pose proof (Trim_length s).
  destruct (Trim_fixed s) as (HT & Hd & Hr); [lia|].
  unfold trim_step in *. rewrite HT in *. change (lit ".") with ["."%byte] in *.
  unfold trim_ref. rewrite Hd.
  destruct s as [|x s _] using rev_ind; [done|].
  destruct (decide (x = "."%byte)) as [->|Hx].
  { rewrite TrimSuffix_snoc, length_app in H. simpl in H. lia. }
  rewrite TrimSuffix_snoc_ne by done. split; [done|].
  rewrite rdrop_while_snoc in Hr |- *. unfold is_space_dot.
  rewrite bool_decide_eq_false_2, orb_false_r by done.
  destruct (is_space x) eqn:Hs; [|done].
  destruct (rdrop_while_prefix is_space s) as [k Hk].
  apply (f_equal length) in Hr. apply (f_equal length) in Hk.
  rewrite !length_app in *. simpl in *. lia.
Qed.

Lemma trim_loop_enough fuel s :
  (length s < fuel)%nat -> trim_loop fuel s = Some (trim_ref s).
Proof.
  revert s. induction fuel as [|f IH]; intros s Hlen; simpl; [lia|].
  destruct (decide (trim_step s = s)) as [Heq|Hne].
  - f_equal. symmetry. apply trim_step_fixed. by rewrite Heq.
  - rewrite IH, trim_ref_step; [done|].
    assert (length (trim_step s) <> length s) by (intros H; by apply trim_step_fixed in H as [? _]).
    pose proof (trim_step_length s). pose proof (Trim_length s). lia.
Qed.

Lemma trimDotsAndSpace_ref s : trimDotsAndSpace s = trim_ref s.
Proof. unfold trimDotsAndSpace. by rewrite trim_loop_enough by lia. Qed.

(** ** ASCII lower-casing *)

Definition lower1 (b : byte) : byte :=
  if (65 <=? b2z b) && (b2z b <=? 90) then z2b (b2z b + 32) else b.

Lemma asciiLower_map s : asciiLower s = map lower1 s.
Proof. done. Qed.

Lemma lower1_idemp b : lower1 (lower1 b) = lower1 b.
Proof. by destruct b. Qed.
Lemma lower1_space b : is_space (lower1 b) = is_space b.
Proof. by destruct b. Qed.
Lemma lower1_space_dot b : is_space_dot (lower1 b) = is_space_dot b.
Proof. by destruct b. Qed.

(** A byte with no other byte lower-casing onto it. *)
Definition caseless (c : byte) : Prop := forall b, lower1 b = c <-> b = c.
Lemma caseless_colon : caseless ":"%byte.
Proof. intros b. split; [|by intros ->]. by destruct b. Qed.
Lemma caseless_lbrack : caseless "["%byte.
Proof. intros b. split; [|by intros ->]. by destruct b. Qed.
Lemma caseless_rbrack : caseless "]"%byte.
Proof. intros b. split; [|by intros ->]. by destruct b. Qed.
#[export] Hint Resolve caseless_colon caseless_lbrack caseless_rbrack : gobytes.

Lemma lower_elem c s : caseless c -> c ∈ map lower1 s <-> c ∈ s.
Proof.
  intros Hc. rewrite list_elem_of_In, in_map_iff, list_elem_of_In. split.
  - intros (x & Hx%(Hc x) & Hin). by subst.
  - intros Hin. exists c. split; [by apply (Hc c)|done].
Qed.

Lemma Count_cons b s c : Count (b :: s) c = ((if decide (b = c) then 1 else 0) + Count s c)%nat.
Proof.
  unfold Count. destruct (decide (b = c)) as [Hb|Hb].
  - by rewrite filter_cons_True.
  - by rewrite filter_cons_False.
Qed.

Lemma lower_Count c s : caseless c -> Count (map lower1 s) c = Count s c.
Proof.
  intros Hc. induction s as [|b s IH]; [done|]. simpl map. rewrite !Count_cons, IH.
  f_equal. by rewrite (decide_ext _ _ _ _ (Hc b)).
Qed.

Lemma lower_LastIndex c s :
  caseless c -> LastIndexByte (map lower1 s) c = LastIndexByte s c.
Proof.
  intros Hc. unfold LastIndexByte. induction s as [|b s IH]; [done|]. simpl.
  rewrite IH. destruct (LastIndexFunc _ s); [done|].
  by rewrite (bool_decide_ext _ _ (Hc b)).
Qed.

Lemma lower_digits s : isASCIIDigits (map lower1 s) = isASCIIDigits s.
Proof.
  unfold isASCIIDigits. f_equal.
  - f_equal. apply bool_decide_ext. destruct s; split; done.
  - induction s as [|b s IH]; [done|]. simpl. rewrite IH. f_equal. by destruct b.
Qed.

Lemma trim_ref_lower s : trim_ref (map lower1 s) = map lower1 (trim_ref s).
Proof.
  unfold trim_ref. rewrite drop_while_map by apply lower1_space.
  by rewrite rdrop_while_map by apply lower1_space_dot.
Qed.

(** ** The fixpoints of [CanonServerName] *)

Lemma strip_brackets_prefixed h :
  strip_brackets (lit "[" ++ h) =
    if decide ("]"%byte ∈ h) then trim_ref (take (default 0%nat (IndexByte h "]"%byte)) h)
    else lit "[" ++ h.
Proof.
  unfold strip_brackets. rewrite HasPrefix_app. change (lit "[" ++ h) with ("["%byte :: h).
  unfold IndexByte. simpl. destruct (IndexFunc _ h) as [e|] eqn:E.
  - simpl. rewrite decide_True; [by rewrite trimDotsAndSpace_ref, drop_0|].
    destruct (decide ("]"%byte ∈ h)) as [|Hn]; [done|].
    apply IndexByte_None in Hn. unfold IndexByte in Hn. congruence.
  - rewrite decide_False; [done|]. by apply IndexByte_None.
Qed.

Lemma strip_brackets_other h : HasPrefix h (lit "[") = false -> strip_brackets h = h.
Proof. unfold strip_brackets. by intros ->. Qed.

Lemma HasPrefix_lbrack_cases h :
  HasPrefix h (lit "[") = false \/ exists h', h = lit "[" ++ h'.
Proof.
  destruct (HasPrefix h (lit "[")) eqn:E; [right|by left]. by apply HasPrefix_spec in E.
Qed.

(** The bracket-free shape every canonical name has. *)
Definition open_only (h : bytes) : Prop := HasPrefix h (lit "[") = true -> "]"%byte ∉ h.
Definition no_port (h : bytes) : Prop := strip_port h = h.

Record canonical (h : bytes) : Prop := {
  can_trim : trim_ref h = h;
  can_open : open_only h;
  can_port : no_port h;
  can_lower : map lower1 h = h }.

Lemma open_only_strip h : open_only h -> strip_brackets h = h.
Proof.
  intros Ho. destruct (HasPrefix_lbrack_cases h) as [Hf|[h' ->]].
  - by apply strip_brackets_other.
  - rewrite strip_brackets_prefixed, decide_False; [done|].
    intros Hin. apply (Ho (HasPrefix_app _ _)). apply elem_of_app. by right.
Qed.

Lemma canonical_fixed h : canonical h -> CanonServerName h = h.
Proof.
  intros [Ht Ho Hp Hl]. unfold CanonServerName. rewrite !trimDotsAndSpace_ref, Ht.
  rewrite open_only_strip by done. rewrite Hp, Ht, asciiLower_map. done.
Qed.

Lemma open_only_prefix h k : open_only (h ++ k) -> open_only h.
Proof.
  unfold open_only. intros H [h' ->]%HasPrefix_spec Hin.
  apply H; [rewrite <- app_assoc; apply HasPrefix_app|]. apply elem_of_app. by left.
Qed.

Lemma open_only_brackets h : trim_ref h = h -> open_only (strip_brackets h) /\
  trim_ref (strip_brackets h) = strip_brackets h.
Proof.
  intros Ht. destruct (HasPrefix_lbrack_cases h) as [Hf|[h' ->]].
  - rewrite strip_brackets_other by done. split; [|done]. intros H. congruence.
  - rewrite strip_brackets_prefixed. case_decide as Hin.
    + split; [|apply trim_ref_idemp]. intros _ Hc.
      destruct (IndexByte h' "]"%byte) as [e|] eqn:He.
      * apply IndexByte_Some in He as (_ & He & _). simpl in Hc. apply He.
        unfold trim_ref in Hc.
        destruct (rdrop_while_prefix is_space_dot (drop_while is_space (take e h'))) as [k Hk].
        destruct (drop_while_suffix is_space (take e h')) as [k' Hk'].
        rewrite Hk', Hk. apply elem_of_app. right. apply elem_of_app. by left.
      * by apply IndexByte_None in He.
    + split; [|done]. intros _ Hc. apply Hin.
      apply elem_of_app in Hc as [Hc|]; [|done]. by apply list_elem_of_singleton in Hc.
Qed.

(** Splitting a string at its only colon. *)
Lemma Count_one s c :
  Count s c = 1%nat -> exists s1 s2, s = s1 ++ c :: s2 /\ c ∉ s1 /\ c ∉ s2.
Proof.
  intros H. assert (Hin : c ∈ s).
  { destruct (decide (c ∈ s)) as [|Hn]; [done|]. apply Count_zero in Hn. lia. }
  apply (list_elem_of_split_l _) in Hin as (s1 & s2 & -> & H1). exists s1, s2.
  split; [done|]. split; [done|]. rewrite Count_app in H.
  change (c :: s2) with ([c] ++ s2) in H. rewrite Count_app in H.
  assert (Count [c] c = 1%nat) by (unfold Count; by rewrite filter_cons_True).
  apply Count_zero. lia.
Qed.

Lemma strip_port_cases h :
  strip_port h = h \/
  exists h' d, h = h' ++ ":"%byte :: d /\ ":"%byte ∉ h' /\ strip_port h = h'.
Proof.
  unfold strip_port. destruct (Count h ":"%byte =? 1)%nat eqn:E; [|by left].
  apply Nat.eqb_eq, Count_one in E as (s1 & s2 & -> & H1 & H2).
  rewrite LastIndexByte_app_last by done. case_bool; [right|by left].
  exists s1, s2. split; [done|]. split; [done|]. apply take_app_length.
Qed.

Lemma no_port_no_colon h : ":"%byte ∉ h -> no_port h.
Proof. intros H%Count_zero. unfold no_port, strip_port. by rewrite H. Qed.

Lemma trim_ref_elem c s : c ∈ trim_ref s -> c ∈ s.
Proof.
  unfold trim_ref. intros Hc.
  destruct (rdrop_while_prefix is_space_dot (drop_while is_space s)) as [k Hk].
  destruct (drop_while_suffix is_space s) as [k' Hk'].
  rewrite Hk', Hk. apply elem_of_app. right. apply elem_of_app. by left.
Qed.

Lemma strip_port_sound h :
  trim_ref h = h -> open_only h ->
  open_only (trim_ref (strip_port h)) /\ no_port (trim_ref (strip_port h)).
Proof.
  intros Ht Ho. destruct (strip_port_cases h) as [Heq|(h' & d & -> & Hc & ->)].
  - rewrite Heq, Ht. done.
  - assert (Hnl : no_lead h').
    { apply (no_lead_app_l _ (":"%byte :: d)). rewrite <- Ht. apply trim_ref_lead. }
    destruct (trim_ref_prefix h' Hnl) as [k Hk]. split.
    + apply (open_only_prefix _ k). rewrite <- Hk. by eapply open_only_prefix.
    + apply no_port_no_colon. intros Hin. by apply Hc, trim_ref_elem.
Qed.

Lemma strip_port_lower h : strip_port (map lower1 h) = map lower1 (strip_port h).
Proof.
  unfold strip_port. rewrite lower_Count, lower_LastIndex by auto with gobytes.
  case_bool; [|done]. destruct (LastIndexByte h _) as [i|]; [|done].
  rewrite skipn_map, lower_digits. case_bool; [|done]. by rewrite firstn_map.
Qed.

Lemma open_only_lower h : open_only h -> open_only (map lower1 h).
Proof.
  unfold open_only. intros Ho Hp. rewrite lower_elem by auto with gobytes.
  apply Ho. destruct h as [|b h]; [done|].
  apply HasPrefix_spec in Hp as [k Hk]. injection Hk as Hb _.
  apply caseless_lbrack in Hb as ->. apply (HasPrefix_app (lit "[")).
Qed.

Lemma CanonServerName_canonical host : canonical (CanonServerName host).
Proof.
  unfold CanonServerName. rewrite !trimDotsAndSpace_ref, asciiLower_map.
  destruct (open_only_brackets (trim_ref host)) as [Ho Ht]; [apply trim_ref_idemp|].
  destruct (strip_port_sound _ Ht Ho) as [Ho' Hp'].
  constructor.
  - by rewrite trim_ref_lower, trim_ref_idemp.
  - by apply open_only_lower.
  - unfold no_port in *. by rewrite strip_port_lower, Hp'.
  - rewrite map_map. apply map_ext. apply lower1_idemp.
Qed.

(** A canonical name is one its canonicalization does not change. *)
Lemma canonical_iff h : canonical h <-> CanonServerName h = h.
Proof.
  split; [apply canonical_fixed|]. intros <-. apply CanonServerName_canonical.
Qed.

Lemma rdrop_while_app_stop {A} (p : A -> bool) l y r :
  p y = false -> rdrop_while p (l ++ y :: r) = l ++ y :: rdrop_while p r.
Proof.
  intros Hy. induction r as [|x r IH] using rev_ind.
  - rewrite rdrop_while_snoc, Hy. done.
  - change (y :: r ++ [x]) with ((y :: r) ++ [x]). rewrite app_assoc.
    rewrite !rdrop_while_snoc, IH. destruct (p x); [done|]. by rewrite <- app_assoc.
Qed.

Lemma CanonServerName_bracket_eq h suf :
  "]"%byte ∉ h -> CanonServerName (lit "[" ++ h ++ lit "]" ++ suf) = CanonServerName h.
Proof.
  intros Hh. unfold CanonServerName. rewrite !trimDotsAndSpace_ref.
  assert (Ht : trim_ref (lit "[" ++ h ++ lit "]" ++ suf) =
               lit "[" ++ h ++ "]"%byte :: rdrop_while is_space_dot suf).
  { rewrite trim_ref_no_lead by done. rewrite app_assoc.
    change (lit "]" ++ suf) with ("]"%byte :: suf).
    rewrite rdrop_while_app_stop by done. by rewrite <- app_assoc. }
  rewrite Ht, strip_brackets_prefixed, decide_True by (apply elem_of_app; right; left).
  rewrite IndexByte_app_first by done. simpl default. rewrite take_app_length.
  rewrite (open_only_strip (trim_ref h)); [done|].
  intros _ Hin. by apply Hh, trim_ref_elem.
Qed.

Lemma strip_port_many h : (2 <= Count h ":"%byte)%nat -> strip_port h = h.
Proof.
  intros H. unfold strip_port. destruct (Nat.eqb_spec (Count h ":"%byte) 1); [lia|done].
Qed.

Lemma CanonServerName_simple h :
  trim_ref h = h -> "]"%byte ∉ h -> (2 <= Count h ":"%byte)%nat ->
  CanonServerName h = asciiLower h.
Proof.
  intros Ht Hb Hc. unfold CanonServerName. rewrite !trimDotsAndSpace_ref, Ht.
  rewrite open_only_strip by (by intros _). by rewrite strip_port_many, Ht.
Qed.

Lemma length_CanonServerName_le host : (length (CanonServerName host) <= length host)%nat.
Proof.
  assert (Ht : forall s, (length (trim_ref s) <= length s)%nat).
  { intros s. unfold trim_ref. etrans; [apply rdrop_while_length|]. apply drop_while_length. }
  assert (Hb : forall s, (length (strip_brackets s) <= length s)%nat).
  { intros s. unfold strip_brackets. case_bool; [|done]. destruct (IndexByte _ _); [|done].
    rewrite trimDotsAndSpace_ref. etrans; [apply Ht|]. rewrite length_drop, length_take. lia. }
  assert (Hp : forall s, (length (strip_port s) <= length s)%nat).
  { intros s. destruct (strip_port_cases s) as [->|(h & d & -> & _ & ->)]; [done|].
    rewrite length_app. lia. }
  unfold CanonServerName.   rewrite asciiLower_map, length_map, !trimDotsAndSpace_ref.
  etrans; [apply Ht|]. etrans; [apply Hp|]. etrans; [apply Hb|]. apply Ht.
Qed.

(** ** Properties *)

(** Canonicalizing a Host any number of times gives the same name as
    canonicalizing it once, so two layers that canonicalize the same Host
    always hold the same service name. *)
Theorem CanonServerName_idempotent host :
  CanonServerName (CanonServerName host) = CanonServerName host.
Proof. apply canonical_fixed, CanonServerName_canonical. Qed.

(** The bracketed spelling of a host, with any port or other suffix after
    the bracket, and the bare spelling have one canonical name. *)
Theorem CanonServerName_bracketed h suf (Hh : "]"%byte ∉ h) :
  CanonServerName (lit "[" ++ h ++ lit "]" ++ suf) = CanonServerName h.
Proof. by apply CanonServerName_bracket_eq. Qed.

Lemma CanonServerName_bracketed_witness :
  CanonServerName (lit "[" ++ lit "2001:DB8::1" ++ lit "]" ++ lit ":8443") =
  CanonServerName (lit "2001:DB8::1").
Proof. apply CanonServerName_bracketed. decide_closed. Defined.

(** An unbracketed host with two or more colons (an IPv6 literal) keeps
    every byte: two of them are one service only when they are equal up to
    ASCII case, so no port strip can merge two addresses. *)
Theorem CanonServerName_ipv6_separate h1 h2
    (Ht1 : trimDotsAndSpace h1 = h1) (Ht2 : trimDotsAndSpace h2 = h2)
    (Hb1 : "]"%byte ∉ h1) (Hb2 : "]"%byte ∉ h2)
    (Hc1 : (2 <= Count h1 ":"%byte)%nat) (Hc2 : (2 <= Count h2 ":"%byte)%nat) :
  CanonServerName h1 = CanonServerName h2 <-> asciiLower h1 = asciiLower h2.
Proof.
  rewrite trimDotsAndSpace_ref in *. by rewrite !CanonServerName_simple by done.
Qed.

Lemma CanonServerName_ipv6_separate_witness :
  CanonServerName (lit "2001:db8::1") <> CanonServerName (lit "2001:db8::2").
Proof.
  rewrite CanonServerName_ipv6_separate by decide_closed. vm_compute. discriminate.
Defined.

(** C40: the trimming loop terminates on every input, within one iteration
    per byte plus one, and computes the one-pass reference: white space off the
    left, white space and dots off the right. *)
Theorem trimDotsAndSpace_terminates s :
  trim_loop (S (length s)) s = Some (trim_ref s) /\ trimDotsAndSpace s = trim_ref s.
Proof. split; [apply trim_loop_enough; lia|apply trimDotsAndSpace_ref]. Qed.

#[global] Opaque CanonServerName.
