(* ===== verification/NetIP.v ===== *)
(** * NetIP: Go's [net/netip] and [net.SplitHostPort] as the program uses them.

    An [Addr] is a 32-bit or a 128-bit value, the latter with an optional zone.
    Parsing follows the standard library's scanner; an error is [None]. *)

From S2P Require Import Prelude GoStrings Binary.
Import strings.

Module netip.

Inductive Addr :=
| V4 (v : Z)
| V6 (v : Z) (zone : bytes).

#[export] Instance Addr_eq_dec : EqDecision Addr.
Proof. solve_decision. Defined.

Record Prefix := PrefixFrom' { pip : Addr; pbits : Z }.

Definition Is4 (a : Addr) : bool := match a with V4 _ => true | V6 _ _ => false end.
Definition BitLen (a : Addr) : Z := match a with V4 _ => 32 | V6 _ _ => 128 end.
Definition Zone (a : Addr) : bytes := match a with V4 _ => [] | V6 _ z => z end.
Definition withoutZone (a : Addr) : Addr := match a with V4 v => V4 v | V6 v _ => V6 v [] end.
Definition Is4In6 (v : Z) : bool := v / 2 ^ 32 =? 0xffff.

(** [Unmap] also drops the zone of an IPv4-mapped address. *)
Definition Unmap (a : Addr) : Addr :=
  match a with
  | V6 v z => if Is4In6 v then V4 (v mod 2 ^ 32) else a
  | V4 _ => a
  end.

(** ** Parsing *)

(** [fields] holds the completed octets; [val], [digLen] the current one. *)
Fixpoint fields_loop (s : bytes) (val digLen : Z) (fields : list Z) : option (list Z) :=
  match s with
  | [] => if (length fields <? 3)%nat then None else Some (fields ++ [val])
  | c :: s' =>
      if is_digit c then
        if (digLen =? 1) && (val =? 0) then None
        else
          let val := val * 10 + (b2z c - 48) in
          if 255 <? val then None else fields_loop s' val (digLen + 1) fields
      else if decide (c = "."%byte) then
        if (digLen =? 0) || bool_decide (s' = []) then None
        else if (length fields =? 3)%nat then None
        else fields_loop s' 0 0 (fields ++ [val])
      else None
  end.

Definition fold_base (base : Z) (l : list Z) : Z := fold_left (fun acc d => acc * base + d) l 0.

Definition parseIPv4 (s : bytes) : option Addr :=
  V4 ∘ fold_base 256 <$> fields_loop s 0 0 [].

Definition is_hex (b : byte) : bool :=
  match hex.hexval b with Some _ => true | None => false end.
Definition hexnum (ds : bytes) : Z := fold_base 16 (map (fun b => default 0 (hex.hexval b)) ds).

(** The group loop: 16-bit [groups] so far, position of the ellipsis, and the
    unread input. *)
Fixpoint v6_loop (fuel : nat) (s : bytes) (groups : list Z) (ell : option nat)
    : option (list Z * option nat * bytes) :=
  match fuel with
  | O => None
  | S f =>
      if (8 <=? length groups)%nat then Some (groups, ell, s)
      else
        let ds := take_while is_hex s in
        let rest := drop_while is_hex s in
        if (4 <? length ds)%nat || bool_decide (ds = []) then None
        else
          match rest with
          | [] => Some (groups ++ [hexnum ds], ell, [])
          | c :: s1 =>
              if decide (c = "."%byte) then
                if (bool_decide (ell = None) && negb (length groups =? 6)%nat)
                   || (6 <? length groups)%nat then None
                else
                  match fields_loop s 0 0 [] with
                  | Some [a; b; c; d] => Some (groups ++ [a * 256 + b; c * 256 + d], ell, [])
                  | _ => None
                  end
              else if decide (c = ":"%byte) then
                let groups := groups ++ [hexnum ds] in
                match s1 with
                | [] => None
                | c2 :: s2 =>
                    if decide (c2 = ":"%byte) then
                      if ell then None
                      else if decide (s2 = []) then Some (groups, Some (length groups), [])
                      else v6_loop f s2 groups (Some (length groups))
                    else v6_loop f s1 groups ell
                end
              else None
          end
  end.

(** Expansion of the ellipsis into at least one zero group. *)
Definition v6_finish (r : list Z * option nat * bytes) : option (list Z) :=
  let '(groups, ell, s) := r in
  if decide (s = []) then
    if (length groups <? 8)%nat then
      e ← ell;
      Some (take e groups ++ replicate (8 - length groups) 0 ++ drop e groups)
    else if ell then None else Some groups
  else None.

Definition parse_groups (s : bytes) : option (list Z) :=
  if HasPrefix s (lit "::") then
    let s' := drop 2 s in
    if decide (s' = []) then Some (replicate 8 0)
    else v6_loop 9 s' [] (Some 0%nat) ≫= v6_finish
  else v6_loop 9 s [] None ≫= v6_finish.

Definition parseIPv6 (s : bytes) : option Addr :=
  match IndexByte s "%"%byte with
  | Some i =>
      let zone := drop (S i) s in
      if decide (zone = []) then None
      else (fun gs => V6 (fold_base 65536 gs) zone) <$> parse_groups (take i s)
  | None => (fun gs => V6 (fold_base 65536 gs) []) <$> parse_groups s
  end.

Definition ParseAddr (s : bytes) : option Addr :=
  match List.find (in_cutset (lit ".:%")) s with
  | Some c =>
      if decide (c = "."%byte) then parseIPv4 s
      else if decide (c = ":"%byte) then parseIPv6 s
      else None
  | None => None
  end.

(** ** Formatting *)

Definition digit (d : Z) : byte := z2b (48 + d).
Definition dec8 (x : Z) : bytes :=
  (if 100 <=? x then [digit (x / 100)] else []) ++
  (if 10 <=? x then [digit (x / 10 mod 10)] else []) ++ [digit (x mod 10)].

Definition octets (v : Z) : list Z :=
  [v / 2 ^ 24 mod 256; v / 2 ^ 16 mod 256; v / 2 ^ 8 mod 256; v mod 256].
Definition string4 (v : Z) : bytes := Join (map dec8 (octets v)) (lit ".").

Definition hex16 (x : Z) : bytes :=
  (if 4096 <=? x then [hex.hexdigit (x / 4096)] else []) ++
  (if 256 <=? x then [hex.hexdigit (x / 256 mod 16)] else []) ++
  (if 16 <=? x then [hex.hexdigit (x / 16 mod 16)] else []) ++ [hex.hexdigit (x mod 16)].

Definition groups_of (v : Z) : list Z :=
  map (fun i => v / 2 ^ (16 * i) mod 65536) [7; 6; 5; 4; 3; 2; 1; 0].

Definition zero_run (gs : list Z) (i : nat) : nat :=
  length (take_while (fun g => g =? 0) (drop i gs)).

(** The first longest run of at least two zero groups. *)
Definition best_run (gs : list Z) : option (nat * nat) :=
  fold_left (fun best i =>
      let l := zero_run gs i in
      let cur := match best with Some (a, b) => (b - a)%nat | None => 0%nat end in
      if (2 <=? l)%nat && (cur <? l)%nat then Some (i, (i + l)%nat) else best)
    (seq 0 8) None.

Definition join_hex (gs : list Z) : bytes := Join (map hex16 gs) (lit ":").

Definition string6 (gs : list Z) : bytes :=
  match best_run gs with
  | Some (a, b) => join_hex (take a gs) ++ lit "::" ++ join_hex (drop b gs)
  | None => join_hex gs
  end.

Definition zone_suffix (z : bytes) : bytes := if decide (z = []) then [] else "%"%byte :: z.

Definition String (a : Addr) : bytes :=
  match a with
  | V4 v => string4 v
  | V6 v z =>
      (if Is4In6 v then lit "::ffff:" ++ string4 (v mod 2 ^ 32) else string6 (groups_of v))
      ++ zone_suffix z
  end.

(** ** Prefixes *)

Definition PrefixFrom (ip : Addr) (bits : Z) : Prefix :=
  {| pip := withoutZone ip; pbits := if (bits <? 0) || (BitLen ip <? bits) then -1 else bits |}.

Definition mask_to (w bits v : Z) : Z := Z.shiftl (Z.shiftr v (w - bits)) (w - bits).

(** [Addr.Prefix(b)]: keep the top [b] bits, drop the zone. *)
Definition AddrPrefix (a : Addr) (b : Z) : option Prefix :=
  if (b <? 0) || (BitLen a <? b) then None
  else match a with
       | V4 v => Some (PrefixFrom (V4 (mask_to 32 b v)) b)
       | V6 v _ => Some (PrefixFrom (V6 (mask_to 128 b v) []) b)
       end.

Definition Contains (p : Prefix) (a : Addr) : bool :=
  if (pbits p <? 0) || negb (bool_decide (Zone a = [])) then false
  else match pip p, a with
       | V4 n, V4 v => Z.shiftr (Z.lxor v n) (32 - pbits p) =? 0
       | V6 n _, V6 v _ => Z.shiftr (Z.lxor v n) (128 - pbits p) =? 0
       | _, _ => false
       end.

(** [strconv.Atoi] on a non-empty digit string without a sign. *)
Definition atoi (s : bytes) : option Z :=
  if negb (bool_decide (s = [])) && forallb is_digit s
  then Some (fold_base 10 (map (fun b => b2z b - 48) s)) else None.

Definition ParsePrefix (s : bytes) : option Prefix :=
  i ← LastIndexByte s "/"%byte;
  ip ← ParseAddr (take i s);
  if negb (bool_decide (Zone ip = [])) then None
  else
    let bitsStr := drop (S i) s in
    let bad_lead := match bitsStr with
                    | c :: _ :: _ => (b2z c <? 49) || (57 <? b2z c)
                    | _ => false
                    end in
    if bad_lead then None
    else
      bits ← atoi bitsStr;
      if BitLen ip <? bits then None else Some (PrefixFrom ip bits).

(** [net.SplitHostPort]; an error is [None]. *)
Definition SplitHostPort (hostport : bytes) : option (bytes * bytes) :=
  i ← LastIndexByte hostport ":"%byte;
  r ← (if HasPrefix hostport (lit "[") then
         e ← IndexByte hostport "]"%byte;
         if (S e =? i)%nat then Some (drop 1 (take e hostport), 1%nat, S e) else None
       else
         let host := take i hostport in
         if IndexByte host ":"%byte then None else Some (host, 0%nat, 0%nat));
  let '(host, j, k) := r in
  if IndexByte (drop j hostport) "["%byte then None
  else if IndexByte (drop k hostport) "]"%byte then None
  else Some (host, drop (S i) hostport).

Definition valid (a : Addr) : Prop :=
  match a with V4 v => 0 <= v < 2 ^ 32 | V6 v _ => 0 <= v < 2 ^ 128 end.

Arguments string4 _ : simpl never.
Arguments string6 _ : simpl never.
Arguments groups_of _ : simpl never.
Arguments octets _ : simpl never.
Arguments mask_to _ _ _ : simpl never.
Arguments Is4In6 _ : simpl never.

End netip.
