(* ===== verification/NetIPFacts.v ===== *)
(** * NetIPFacts: parsing inverts formatting, and parsed addresses are in range. *)

From S2P Require Import Prelude GoStrings Binary NetIP.
Import strings netip.

(** ** IPv4 *)

Lemma b2z_digit d : 0 <= d < 10 -> b2z (digit d) = 48 + d.
Proof. intros H. unfold digit. apply b2z_z2b_small. lia. Qed.

Lemma digit_is_digit d : 0 <= d < 10 -> is_digit (digit d) = true.
Proof. intros H. unfold is_digit. rewrite b2z_digit by done. lia. Qed.

Lemma fields_loop_digit d s val n fs :
  0 <= d < 10 -> (n = 1 -> val <> 0) -> val * 10 + d <= 255 ->
  fields_loop (digit d :: s) val n fs = fields_loop s (val * 10 + d) (n + 1) fs.
Proof.
  intros Hd Hz Hle. simpl. rewrite digit_is_digit, b2z_digit by done.
  replace ((n =? 1) && (val =? 0)) with false by lia.
  replace (48 + d - 48) with d by lia.
  by rewrite (proj2 (Z.ltb_ge 255 _)) by lia.
Qed.

Lemma fields_loop_dec8 x s fs :
  0 <= x < 256 ->
  exists n, n <> 0 /\ fields_loop (dec8 x ++ s) 0 0 fs = fields_loop s x n fs.
Proof.
  intros Hx. unfold dec8.
  destruct (100 <=? x) eqn:E100; destruct (10 <=? x) eqn:E10; bool_prop; try lia; simpl app.
  - exists 3. split; [done|].
    rewrite !fields_loop_digit; try (Z.to_euclidean_division_equations; lia).
    f_equal. Z.to_euclidean_division_equations; lia.
  - exists 2. split; [done|].
    rewrite !fields_loop_digit; try (Z.to_euclidean_division_equations; lia).
    f_equal. Z.to_euclidean_division_equations; lia.
  - exists 1. split; [done|].
    rewrite !fields_loop_digit; try (Z.to_euclidean_division_equations; lia).
    f_equal. Z.to_euclidean_division_equations; lia.
Qed.

Lemma fields_loop_dot s val n fs :
  n <> 0 -> s <> [] -> (length fs < 3)%nat ->
  fields_loop ("."%byte :: s) val n fs = fields_loop s 0 0 (fs ++ [val]).
Proof.
  intros Hn Hs Hf. simpl. rewrite (proj2 (Z.eqb_neq n 0)) by done.
  rewrite bool_decide_eq_false_2 by done. simpl.
  by rewrite (proj2 (Nat.eqb_neq _ _)) by lia.
Qed.

Lemma dec8_nonempty x : dec8 x <> [].
Proof. unfold dec8. by intros [_ [_ ?]%app_eq_nil]%app_eq_nil. Qed.

Lemma dec8_app_nonempty x s : dec8 x ++ s <> [].
Proof. intros [H _]%app_eq_nil. by apply dec8_nonempty in H. Qed.

Lemma octets_range v : Forall (fun x => 0 <= x < 256) (octets v).
Proof. unfold octets. repeat constructor; apply Z.mod_pos_bound; lia. Qed.

Lemma fields_loop_string4 v : fields_loop (string4 v) 0 0 [] = Some (octets v).
Proof.
  pose proof (octets_range v) as H. unfold string4.
  destruct (octets v) as [|a [|b [|c [|d [|]]]]] eqn:E; try discriminate E.
  repeat (apply Forall_cons in H as [? H]). cbn [map Join].
  change (lit ".") with ["."%byte]. simpl app.
  edestruct (fields_loop_dec8 a) as (n1 & Hn1 & ->); [done|].
  rewrite fields_loop_dot; [|done|apply dec8_app_nonempty|simpl; lia].
  edestruct (fields_loop_dec8 b) as (n2 & Hn2 & ->); [done|].
  rewrite fields_loop_dot; [|done|apply dec8_app_nonempty|simpl; lia].
  edestruct (fields_loop_dec8 c) as (n3 & Hn3 & ->); [done|].
  rewrite fields_loop_dot; [|done|apply dec8_nonempty|simpl; lia].
  rewrite <- (app_nil_r (dec8 d)).
  edestruct (fields_loop_dec8 d) as (n4 & Hn4 & ->); [done|]. done.
Qed.

Lemma fold_octets v : 0 <= v < 2 ^ 32 -> fold_base 256 (octets v) = v.
Proof.
  intros H. unfold fold_base, octets. simpl fold_left.
  change (2 ^ 24) with 16777216. change (2 ^ 16) with 65536. change (2 ^ 8) with 256.
  change (2 ^ 32) with 4294967296 in H.
  Z.to_euclidean_division_equations; lia.
Qed.

Lemma parseIPv4_string4 v : 0 <= v < 2 ^ 32 -> parseIPv4 (string4 v) = Some (V4 v).
Proof.
  intros H. unfold parseIPv4. rewrite fields_loop_string4. simpl. by rewrite fold_octets.
Qed.

(** ** IPv6 *)

Lemma is_hex_hexdigit d : 0 <= d < 16 -> is_hex (hex.hexdigit d) = true.
Proof. intros H. unfold is_hex. by rewrite hex.hexval_hexdigit. Qed.

Lemma Forall_hex16 x : 0 <= x < 65536 -> Forall (fun b => is_hex b = true) (hex16 x).
Proof.
  intros H. unfold hex16.
  repeat (apply Forall_app; split; [case_bool; bool_prop; repeat constructor|]);
    repeat constructor; apply is_hex_hexdigit; Z.to_euclidean_division_equations; lia.
Qed.

Lemma length_hex16 x : (1 <= length (hex16 x) <= 4)%nat.
Proof. unfold hex16. rewrite !length_app. repeat case_bool; simpl; lia. Qed.

Lemma hexnum_hex16 x : 0 <= x < 65536 -> hexnum (hex16 x) = x.
Proof.
  intros H. unfold hex16, hexnum, fold_base.
  destruct (4096 <=? x) eqn:E1; destruct (256 <=? x) eqn:E2; destruct (16 <=? x) eqn:E3;
    bool_prop; try lia; simpl;
    rewrite !hex.hexval_hexdigit by (Z.to_euclidean_division_equations; lia);
    simpl; Z.to_euclidean_division_equations; lia.
Qed.

Lemma scan_hex16 x rest :
  0 <= x < 65536 ->
  match rest with [] => True | c :: _ => is_hex c = false end ->
  take_while is_hex (hex16 x ++ rest) = hex16 x /\ drop_while is_hex (hex16 x ++ rest) = rest.
Proof.
  intros Hx Hr. pose proof (Forall_hex16 x Hx) as HF.
  rewrite take_while_app_all, drop_while_app_all by done.
  rewrite drop_while_id by done. split; [|done].
  destruct rest as [|c rest]; simpl; [|rewrite Hr]; by rewrite app_nil_r.
Qed.

Definition group (g : Z) : Prop := 0 <= g < 65536.

Lemma join_hex_cons g g2 gs :
  join_hex (g :: g2 :: gs) = hex16 g ++ ":"%byte :: join_hex (g2 :: gs).
Proof. done. Qed.

(** A non-empty group list prints with a hexadecimal digit first. *)
Lemma join_hex_head gs :
  gs <> [] -> Forall group gs ->
  exists c s, join_hex gs = c :: s /\ is_hex c = true.
Proof.
  intros Hne Hg. destruct gs as [|g gs]; [done|].
  apply Forall_cons in Hg as [Hg _]. pose proof (Forall_hex16 g Hg) as HF.
  pose proof (length_hex16 g).
  assert (Hx : exists t, join_hex (g :: gs) = hex16 g ++ t).
  { destruct gs as [|g2 gs]; [exists []; by rewrite app_nil_r|eexists; apply join_hex_cons]. }
  destruct Hx as [t ->].
  destruct (hex16 g) as [|c s]; simpl in *; [lia|].
  apply Forall_cons in HF as [? _]. eauto.
Qed.

Lemma is_hex_colon : is_hex ":"%byte = false.
Proof. done. Qed.
Lemma is_hex_dot : is_hex "."%byte = false.
Proof. done. Qed.

Section loop.
Variables (f : nat) (g : Z) (gs : list Z) (ell : option nat).
Hypothesis (Hg : group g) (Hlen : (length gs < 8)%nat).

(** Unfold one iteration on input that starts with a printed group. *)
Lemma v6_loop_scan rest :
  match rest with [] => True | c :: _ => is_hex c = false end ->
  v6_loop (S f) (hex16 g ++ rest) gs ell =
    match rest with
    | [] => Some (gs ++ [g], ell, [])
    | c :: s1 =>
        if decide (c = "."%byte) then
          if (bool_decide (ell = None) && negb (length gs =? 6)%nat)
             || (6 <? length gs)%nat then None
          else
            match fields_loop (hex16 g ++ rest) 0 0 [] with
            | Some [a; b; c; d] => Some (gs ++ [a * 256 + b; c * 256 + d], ell, [])
            | _ => None
            end
        else if decide (c = ":"%byte) then
          match s1 with
          | [] => None
          | c2 :: s2 =>
              if decide (c2 = ":"%byte) then
                if ell then None
                else if decide (s2 = []) then Some (gs ++ [g], Some (length (gs ++ [g])), [])
                else v6_loop f s2 (gs ++ [g]) (Some (length (gs ++ [g])))
              else v6_loop f s1 (gs ++ [g]) ell
          end
        else None
    end.
Proof.
  intros Hr. destruct (scan_hex16 g rest Hg Hr) as [Ht Hd].
  pose proof (length_hex16 g). cbn [v6_loop].
  rewrite (proj2 (Nat.leb_gt 8 _)) by done. rewrite Ht, Hd, hexnum_hex16 by done.
  rewrite (proj2 (Nat.ltb_ge 4 _)) by lia.
  rewrite bool_decide_eq_false_2 by (intros E; rewrite E in *; simpl in *; lia).
  simpl orb. cbn match. destruct rest as [|c s1]; [done|]. done.
Qed.
End loop.

Lemma v6_loop_join f gs' gs ell :
  gs' <> [] -> Forall group gs' -> (length gs + length gs' <= 8)%nat -> (length gs' <= f)%nat ->
  v6_loop f (join_hex gs') gs ell = Some (gs ++ gs', ell, []).
Proof.
  revert f gs. induction gs' as [|g [|g2 gs'] IH]; intros f gs Hne Hgs Hlen Hf; [done| |].
  - apply Forall_cons in Hgs as [Hg _]. destruct f as [|f]; simpl in Hlen, Hf; [lia|].
    change (join_hex [g]) with (hex16 g). rewrite <- (app_nil_r (hex16 g)).
    rewrite (v6_loop_scan f g gs ell Hg ltac:(lia) []); done.
  - apply Forall_cons in Hgs as [Hg Hgs]. destruct f as [|f]; simpl in Hlen, Hf; [lia|].
    rewrite join_hex_cons.
    rewrite (v6_loop_scan f g gs ell Hg ltac:(lia) (":"%byte :: _)) by done.
    rewrite decide_False, decide_True by done.
    destruct (join_hex_head (g2 :: gs')) as (c & s & Hj & Hc); [done..|].
    rewrite Hj. rewrite decide_False by (intros ->; by rewrite is_hex_colon in Hc).
    rewrite <- Hj, IH; [by rewrite <- app_assoc|done..| |simpl; lia].
    rewrite length_app. simpl. lia.
Qed.

Lemma v6_loop_join_ell f gs' gs t :
  gs' <> [] -> Forall group gs' -> (length gs + length gs' <= 8)%nat -> (length gs' <= f)%nat ->
  v6_loop f (join_hex gs' ++ lit "::" ++ t) gs None =
    if decide (t = []) then Some (gs ++ gs', Some (length (gs ++ gs')), [])
    else v6_loop (f - length gs') t (gs ++ gs') (Some (length (gs ++ gs'))).
Proof.
  revert f gs. induction gs' as [|g [|g2 gs'] IH]; intros f gs Hne Hgs Hlen Hf; [done| |].
  - apply Forall_cons in Hgs as [Hg _]. destruct f as [|f]; simpl in Hlen, Hf; [lia|].
    change (join_hex [g]) with (hex16 g). change (lit "::" ++ t) with (":"%byte :: ":"%byte :: t).
    rewrite (v6_loop_scan f g gs None Hg ltac:(lia) (":"%byte :: _)) by done.
    rewrite decide_False, decide_True, decide_True by done.
    simpl length. by rewrite Nat.sub_succ, Nat.sub_0_r.
  - apply Forall_cons in Hgs as [Hg Hgs]. destruct f as [|f]; simpl in Hlen, Hf; [lia|].
    rewrite join_hex_cons, <- app_assoc. rewrite <- app_comm_cons.
    rewrite (v6_loop_scan f g gs None Hg ltac:(lia) (":"%byte :: _)) by done.
    rewrite decide_False, decide_True by done.
    destruct (join_hex_head (g2 :: gs')) as (c & s & Hj & Hc); [done..|].
    rewrite Hj, <- app_comm_cons.
    rewrite decide_False by (intros ->; by rewrite is_hex_colon in Hc).
    rewrite app_comm_cons, <- Hj, IH; [|done..| |simpl; lia].
    + rewrite <- (app_assoc gs [g]). done.
    + rewrite length_app. simpl. lia.
Qed.

(** ** The zero run the formatter elides *)

Lemma take_while_zero_run gs i :
  take (zero_run gs i) (drop i gs) = replicate (zero_run gs i) 0.
Proof.
  unfold zero_run. generalize (drop i gs) as l. clear. intros l.
  induction l as [|g l IH]; simpl; [done|].
  destruct (g =? 0) eqn:E; simpl; [|done]. apply Z.eqb_eq in E as ->. by rewrite IH.
Qed.

Lemma zero_run_le gs i : (zero_run gs i <= length gs - i)%nat.
Proof.
  unfold zero_run. rewrite <- length_drop. generalize (drop i gs) as l. clear. intros l.
  induction l as [|g l IH]; simpl; [done|]. destruct (g =? 0); simpl; lia.
Qed.

Definition zero_span (gs : list Z) (r : nat * nat) : Prop :=
  let '(a, b) := r in
  (a < b <= length gs)%nat /\ gs = take a gs ++ replicate (b - a) 0 ++ drop b gs.

Lemma zero_run_span gs i :
  (2 <= zero_run gs i)%nat -> zero_span gs (i, (i + zero_run gs i)%nat).
Proof.
  intros H. pose proof (zero_run_le gs i). split; [lia|].
  rewrite Nat.add_comm, Nat.add_sub, <- take_while_zero_run.
  rewrite <- (take_drop i gs) at 1. f_equal.
  rewrite <- (take_drop (zero_run gs i) (drop i gs)) at 1. f_equal.
  rewrite drop_drop. f_equal. lia.
Qed.

Lemma best_run_span gs r : best_run gs = Some r -> zero_span gs r.
Proof.
  unfold best_run. generalize (seq 0 8) as idx.
  assert (Hgen : forall idx best,
    match best with Some r => zero_span gs r | None => True end ->
    fold_left (fun best i =>
      let l := zero_run gs i in
      let cur := match best with Some (a, b) => (b - a)%nat | None => 0%nat end in
      if (2 <=? l)%nat && (cur <? l)%nat then Some (i, (i + l)%nat) else best) idx best = Some r ->
    zero_span gs r).
  { induction idx as [|i idx IH]; intros best Hb; cbn [fold_left].
    - by intros ->.
    - intros H. eapply IH; [|exact H]. cbv zeta.
      destruct ((2 <=? zero_run gs i)%nat && _) eqn:E; [|done].
      apply andb_true_iff in E as [E _]. apply Nat.leb_le in E. by apply zero_run_span. }
  intros idx H. apply (Hgen idx None I H).
Qed.

Lemma Forall_group_take k gs : Forall group gs -> Forall group (take k gs).
Proof. apply Forall_take. Qed.

Lemma join_hex_no_lead gs rest :
  gs <> [] -> Forall group gs -> HasPrefix (join_hex gs ++ rest) (lit "::") = false.
Proof.
  intros Hne Hg. destruct (join_hex_head gs Hne Hg) as (c & s & -> & Hc).
  unfold HasPrefix. apply bool_decide_eq_false. intros [k Hk].
  injection Hk as -> _. by rewrite is_hex_colon in Hc.
Qed.

Lemma join_hex_nonempty gs : gs <> [] -> Forall group gs -> join_hex gs <> [].
Proof. intros Hne Hg. by destruct (join_hex_head gs Hne Hg) as (c & s & -> & _). Qed.

(** What the loop returns is expanded back to the elided groups. *)
Lemma v6_finish_span gs a b :
  length gs = 8%nat -> zero_span gs (a, b) ->
  v6_finish (take a gs ++ drop b gs, Some a, []) = Some gs.
Proof.
  intros Hl [Hab Hgs]. unfold v6_finish. rewrite decide_True by done.
  assert (Hlen : length (take a gs ++ drop b gs) = (8 - (b - a))%nat).
  { rewrite length_app, length_take, length_drop. lia. }
  rewrite Hlen, (proj2 (Nat.ltb_lt _ _)) by lia. simpl. f_equal.
  assert (Hta : length (take a gs) = a) by (rewrite length_take; lia).
  rewrite take_app_length', drop_app_length' by done.
  etrans; [|symmetry; exact Hgs]. do 3 f_equal. lia.
Qed.

Lemma parse_groups_string6 gs :
  length gs = 8%nat -> Forall group gs -> parse_groups (string6 gs) = Some gs.
Proof.
  intros Hl Hg. assert (Hne : gs <> []) by (by destruct gs).
  unfold string6, parse_groups. destruct (best_run gs) as [[a b]|] eqn:E.
  - apply best_run_span in E as Hs. destruct Hs as [Hab Hgs].
    destruct (decide (a = 0%nat)) as [->|Ha].
    + rewrite take_0. change (join_hex [] ++ lit "::" ++ join_hex (drop b gs))
        with (lit "::" ++ join_hex (drop b gs)).
      rewrite HasPrefix_app. change (drop 2 (lit "::" ++ join_hex (drop b gs)))
        with (join_hex (drop b gs)).
      destruct (decide (drop b gs = [])) as [Hb|Hb].
      * rewrite Hb. simpl. rewrite Hgs, Hb, take_0, app_nil_r. simpl.
        assert (b = 8%nat) as ->.
        { apply (f_equal length) in Hb. rewrite length_drop in Hb. simpl in Hb. lia. }
        done.
      * rewrite decide_False by (apply join_hex_nonempty; [done|by apply Forall_drop]).
        rewrite v6_loop_join; [|done|by apply Forall_drop|..]; rewrite ?length_drop; simpl; try lia.
        rewrite <- (v6_finish_span gs 0 b Hl); [by rewrite take_0|done].
    + assert (Hta : length (take a gs) = a) by (rewrite length_take; lia).
      assert (Hne' : take a gs <> []) by (intros H0; rewrite H0 in Hta; simpl in Hta; lia).
      rewrite join_hex_no_lead by (done || by apply Forall_take).
      rewrite v6_loop_join_ell; [|done|by apply Forall_take|..]; rewrite ?Hta; simpl; try lia.
      destruct (decide (drop b gs = [])) as [Hb|Hb].
      * rewrite Hb, decide_True by done. cbn [mbind option_bind app]. rewrite Hta.
        rewrite <- (v6_finish_span gs a b Hl) by done. by rewrite Hb, app_nil_r.
      * rewrite decide_False by (apply join_hex_nonempty; [done|by apply Forall_drop]).
        rewrite Hta. rewrite v6_loop_join; [|done|by apply Forall_drop|..];
          rewrite ?Hta, ?length_drop; try lia.
        cbn [mbind option_bind]. by apply v6_finish_span.
  - rewrite <- (app_nil_r (join_hex gs)), join_hex_no_lead, app_nil_r by done.
    rewrite v6_loop_join by (done || simpl; lia). cbn [mbind option_bind app]. unfold v6_finish. rewrite decide_True by done.
    by rewrite Hl.
Qed.

(** ** 128-bit values *)

Lemma length_groups_of v : length (groups_of v) = 8%nat.
Proof. done. Qed.

Lemma groups_of_group v : Forall group (groups_of v).
Proof. unfold groups_of. repeat constructor; apply Z.mod_pos_bound; lia. Qed.

Lemma fold_base_snoc base l d : fold_base base (l ++ [d]) = fold_base base l * base + d.
Proof. unfold fold_base. by rewrite fold_left_app. Qed.

Lemma fold_groups_of v : 0 <= v < 2 ^ 128 -> fold_base 65536 (groups_of v) = v.
Proof.
  intros H.
  assert (Hk : forall k j, 0 <= k -> j = k + 1 ->
    v / 2 ^ (16 * j) * 65536 + v / 2 ^ (16 * k) mod 65536 = v / 2 ^ (16 * k)).
  { intros k j Hk ->. replace (16 * (k + 1)) with (16 * k + 16) by lia.
    rewrite Z.pow_add_r by lia. change (2 ^ 16) with 65536.
    rewrite <- Z.div_div by lia.
    rewrite Z.mul_comm. symmetry. apply Z_div_mod_eq_full. }
  unfold fold_base, groups_of. cbn [map fold_left].
  assert (H7 : v / 2 ^ (16 * 7) < 65536).
  { apply Z.div_lt_upper_bound; [lia|]. change (2 ^ (16 * 7) * 65536) with (2 ^ 128). lia. }
  assert (0 <= v / 2 ^ (16 * 7)) by (apply Z.div_pos; lia).
  rewrite (Z.mod_small (v / 2 ^ (16 * 7))) by lia. rewrite Z.mul_0_l, Z.add_0_l.
  rewrite (Hk 6 7), (Hk 5 6), (Hk 4 5), (Hk 3 4), (Hk 2 3), (Hk 1 2), (Hk 0 1) by lia.
  change (2 ^ (16 * 0)) with 1. apply Z.div_1_r.
Qed.

(** ** Round trip *)

Lemma Is4In6_iff v : 0 <= v -> Is4In6 v = true <-> v = 0xffff * 2 ^ 32 + v mod 2 ^ 32.
Proof.
  intros Hv. unfold Is4In6. rewrite Z.eqb_eq.
  pose proof (Z_div_mod_eq_full v (2 ^ 32)). pose proof (Z.mod_pos_bound v (2 ^ 32) ltac:(lia)).
  change (2 ^ 32) with 4294967296 in *. lia.
Qed.

Lemma string4_head v : exists c s, string4 v = c :: s /\ is_digit c = true.
Proof.
  pose proof (octets_range v) as H. unfold string4.
  destruct (octets v) as [|a [|b [|c [|d [|]]]]] eqn:E; try discriminate E.
  apply Forall_cons in H as [Ha _]. cbn [map Join]. unfold dec8 at 1.
  destruct (100 <=? a) eqn:E1; [|destruct (10 <=? a) eqn:E2]; bool_prop; simpl app;
    eexists _, _; (split; [reflexivity|]); apply digit_is_digit;
    Z.to_euclidean_division_equations; lia.
Qed.

Lemma digit_hex c : is_digit c = true -> is_hex c = true.
Proof. by destruct c. Qed.

(** The hexadecimal digits an IPv4 string starts with stop at its first dot. *)
Lemma dec8_digits x : 0 <= x < 256 -> Forall (fun c => is_digit c = true) (dec8 x).
Proof.
  intros H. unfold dec8.
  repeat (apply Forall_app; split; [case_bool; bool_prop; repeat constructor|]);
    repeat constructor; apply digit_is_digit; Z.to_euclidean_division_equations; lia.
Qed.

Lemma length_dec8 x : (1 <= length (dec8 x) <= 3)%nat.
Proof. unfold dec8. rewrite !length_app. repeat case_bool; simpl; lia. Qed.

Lemma v6_loop_string4 f v gs :
  (1 <= length gs <= 6)%nat ->
  v6_loop (S f) (string4 v) gs (Some 0%nat) =
    match octets v with
    | [a; b; c; d] => Some (gs ++ [a * 256 + b; c * 256 + d], Some 0%nat, [])
    | _ => None
    end.
Proof.
  intros Hl. pose proof (fields_loop_string4 v) as Hf. revert Hf.
  pose proof (octets_range v) as H. unfold string4.
  destruct (octets v) as [|a [|b [|c [|d [|]]]]] eqn:E; try discriminate E.
  apply Forall_cons in H as [Ha _]. cbn [map Join]. change (lit ".") with ["."%byte].
  simpl app. set (rest := dec8 b ++ _). intros Hf.
  pose proof (length_dec8 a) as Hla. pose proof (dec8_digits a Ha) as Hda.
  assert (Hxa : Forall (fun c => is_hex c = true) (dec8 a)).
  { eapply Forall_impl; [exact Hda|]. apply digit_hex. }
  cbn [v6_loop]. rewrite (proj2 (Nat.leb_gt 8 _)) by lia.
  rewrite take_while_app_all, drop_while_app_all by done. simpl.
  rewrite app_nil_r. rewrite (proj2 (Nat.ltb_ge 4 _)) by lia.
  rewrite bool_decide_eq_false_2 by apply dec8_nonempty. simpl.
  rewrite (proj2 (Nat.ltb_ge 6 _)) by lia. by rewrite Hf.
Qed.

Lemma parse_groups_4in6 v :
  parse_groups (lit "::ffff:" ++ string4 v) =
    match octets v with
    | [a; b; c; d] => Some (replicate 5 0 ++ [65535; a * 256 + b; c * 256 + d])
    | _ => None
    end.
Proof.
  unfold parse_groups. change (HasPrefix (lit "::ffff:" ++ string4 v) (lit "::")) with true.
  change (drop 2 (lit "::ffff:" ++ string4 v)) with (hex16 65535 ++ ":"%byte :: string4 v).
  rewrite decide_False by done.
  destruct (string4_head v) as (c & s & Hs & Hc). rewrite Hs.
  rewrite (v6_loop_scan 8 65535 [] (Some 0%nat) ltac:(unfold group; lia) ltac:(simpl; lia)
            (":"%byte :: _)) by done.
  rewrite decide_False, decide_True by done.
  rewrite decide_False by (intros ->; done).
  rewrite <- Hs. simpl app. rewrite v6_loop_string4 by (simpl; lia).
  destruct (octets v) as [|? [|? [|? [|? [|]]]]]; done.
Qed.

(** ** Characters of a formatted address *)

Lemma Forall_Join (P : byte -> Prop) ps sep :
  Forall P sep -> Forall (Forall P) ps -> Forall P (Join ps sep).
Proof.
  intros Hsep. induction 1 as [|p ps Hp Hps IH]; simpl; [done|].
  destruct ps as [|p2 ps]; [done|]. by repeat (apply Forall_app; split).
Qed.

(** Hexadecimal digits, colons and dots. *)
Definition addr_char (c : byte) : bool := is_hex c || in_cutset (lit ":.") c.

Lemma addr_char_hex c : is_hex c = true -> addr_char c = true.
Proof. unfold addr_char. by intros ->. Qed.
Lemma addr_char_not_percent c : addr_char c = true -> c <> "%"%byte.
Proof. intros H ->. vm_compute in H. done. Qed.

Lemma addr_chars_join gs : Forall group gs -> Forall (fun c => addr_char c = true) (join_hex gs).
Proof.
  intros Hg. apply Forall_Join; [by repeat constructor|].
  apply Forall_map. eapply Forall_impl; [exact Hg|]. intros g H.
  eapply Forall_impl; [by apply Forall_hex16|]. apply addr_char_hex.
Qed.

Lemma addr_chars_string4 v : Forall (fun c => addr_char c = true) (string4 v).
Proof.
  apply Forall_Join; [by repeat constructor|]. apply Forall_map.
  eapply Forall_impl; [apply octets_range|]. intros x H. simpl.
  eapply Forall_impl; [by apply dec8_digits|]. intros c Hc. by apply addr_char_hex, digit_hex.
Qed.

Lemma addr_chars_string6 gs : Forall group gs -> Forall (fun c => addr_char c = true) (string6 gs).
Proof.
  intros Hg. unfold string6. destruct (best_run gs) as [[a b]|].
  - apply Forall_app; split; [by apply addr_chars_join, Forall_take|].
    apply Forall_app; split; [by repeat constructor|]. by apply addr_chars_join, Forall_drop.
  - by apply addr_chars_join.
Qed.

(** The text before any zone. *)
Definition body (a : Addr) : bytes :=
  match a with
  | V4 v => string4 v
  | V6 v _ => if Is4In6 v then lit "::ffff:" ++ string4 (v mod 2 ^ 32) else string6 (groups_of v)
  end.

Lemma String_body a :
  String a = body a ++ match a with V4 _ => [] | V6 _ z => zone_suffix z end.
Proof. destruct a; cbn [String body]; [by rewrite app_nil_r|reflexivity]. Qed.

Lemma addr_chars_body a : Forall (fun c => addr_char c = true) (body a).
Proof.
  destruct a as [v|v z]; cbn [body]; [apply addr_chars_string4|]. destruct (Is4In6 v).
  - apply Forall_app; split; [by repeat constructor|apply addr_chars_string4].
  - apply addr_chars_string6, groups_of_group.
Qed.

Lemma body_no_percent a : "%"%byte ∉ body a.
Proof.
  intros H. pose proof (addr_chars_body a) as HF. rewrite Forall_forall in HF.
  by apply (addr_char_not_percent _ (HF _ H)).
Qed.

Lemma find_first (p : byte -> bool) l c r :
  Forall (fun x => p x = false) l -> p c = true -> List.find p (l ++ c :: r) = Some c.
Proof.
  induction 1 as [|x l Hx _ IH]; simpl; intros Hc; [by rewrite Hc|]. by rewrite Hx, IH.
Qed.

Lemma hex_not_sep c : is_hex c = true -> in_cutset (lit ".:%") c = false.
Proof. destruct c; vm_compute; congruence. Qed.

(** An IPv6 text has a colon before any other separator. *)
Definition colon_first (s : bytes) : Prop :=
  exists l r, s = l ++ ":"%byte :: r /\ Forall (fun c => is_hex c = true) l.

Lemma colon_first_app s t : colon_first s -> colon_first (s ++ t).
Proof. intros (l & r & -> & H). exists l, (r ++ t). by rewrite <- app_assoc. Qed.

Lemma colon_first_join g gs t : group g -> colon_first (join_hex (g :: gs) ++ lit "::" ++ t).
Proof.
  intros Hg. destruct gs as [|g2 gs].
  - exists (hex16 g), (":"%byte :: t). split; [done|by apply Forall_hex16].
  - rewrite join_hex_cons, <- app_assoc. eexists (hex16 g), _.
    split; [reflexivity|by apply Forall_hex16].
Qed.

Lemma colon_first_string6 gs : length gs = 8%nat -> Forall group gs -> colon_first (string6 gs).
Proof.
  intros Hl Hg. unfold string6. destruct (best_run gs) as [[a b]|].
  - destruct (take a gs) as [|g gs'] eqn:E.
    + by exists [], (":"%byte :: join_hex (drop b gs)).
    + apply colon_first_join. apply (Forall_take _ a) in Hg. rewrite E in Hg. by apply Forall_inv in Hg.
  - destruct gs as [|g [|g2 gs]]; try discriminate Hl. rewrite join_hex_cons.
    eexists (hex16 g), _. split; [reflexivity|]. apply Forall_hex16. by apply Forall_inv in Hg.
Qed.

Lemma ParseAddr_colon s : colon_first s -> ParseAddr s = parseIPv6 s.
Proof.
  intros (l & r & -> & H). unfold ParseAddr. rewrite (find_first _ l ":"%byte r); [|..].
  - by rewrite decide_False, decide_True.
  - eapply Forall_impl; [exact H|]. apply hex_not_sep.
  - done.
Qed.

Lemma ParseAddr_string4 v : 0 <= v < 2 ^ 32 -> ParseAddr (string4 v) = Some (V4 v).
Proof.
  intros Hv. rewrite <- parseIPv4_string4 by done. unfold ParseAddr, string4.
  pose proof (octets_range v) as H.
  destruct (octets v) as [|a [|b [|c [|d [|]]]]] eqn:E; try discriminate E.
  apply Forall_cons in H as [Ha _]. cbn [map Join]. change (lit ".") with ["."%byte]. simpl app.
  rewrite find_first; [by rewrite decide_True| |done].
  eapply Forall_impl; [by apply dec8_digits|]. intros x Hx. by apply hex_not_sep, digit_hex.
Qed.

Lemma fold_v4_groups v :
  0 <= v -> Is4In6 v = true ->
  match octets (v mod 2 ^ 32) with
  | [a; b; c; d] => fold_base 65536 (replicate 5 0 ++ [65535; a * 256 + b; c * 256 + d])
  | _ => 0
  end = v.
Proof.
  intros Hv H. apply Is4In6_iff in H; [|done].
  pose proof (Z.mod_pos_bound v (2 ^ 32) ltac:(lia)) as Hm.
  set (w := v mod 2 ^ 32) in *. rewrite H. unfold fold_base, octets. simpl fold_left.
  change (2 ^ 24) with 16777216. change (2 ^ 16) with 65536. change (2 ^ 8) with 256.
  change (2 ^ 32) with 4294967296 in *. clearbody w. clear H Hv.
  Z.to_euclidean_division_equations; lia.
Qed.

Lemma parse_groups_body v z :
  0 <= v < 2 ^ 128 ->
  exists gs, parse_groups (body (V6 v z)) = Some gs /\ fold_base 65536 gs = v.
Proof.
  intros Hv. cbn [body]. destruct (Is4In6 v) eqn:E.
  - rewrite parse_groups_4in6. pose proof (fold_v4_groups v ltac:(lia) E) as Hf.
    pose proof (octets_range (v mod 2 ^ 32)).
    destruct (octets (v mod 2 ^ 32)) as [|a [|b [|c [|d [|]]]]] eqn:E'; try discriminate E'.
    eauto.
  - exists (groups_of v). split; [|by apply fold_groups_of].
    apply parse_groups_string6; [done|apply groups_of_group].
Qed.

Lemma ParseAddr_String_eq a : valid a -> ParseAddr (String a) = Some a.
Proof.
  destruct a as [v|v z]; intros Hv; [by apply ParseAddr_string4|].
  assert (Hc : colon_first (body (V6 v z))).
  { cbn [body]. destruct (Is4In6 v).
    - eexists [], _. split; [reflexivity|constructor].
    - apply colon_first_string6; [done|apply groups_of_group]. }
  rewrite String_body, ParseAddr_colon by (by apply colon_first_app).
  destruct (parse_groups_body v z Hv) as (gs & Hp & Hf).
  unfold parseIPv6, zone_suffix. destruct (decide (z = [])) as [->|Hz].
  - rewrite app_nil_r, (proj2 (IndexByte_None _ _)) by apply body_no_percent.
    rewrite Hp. simpl. by rewrite Hf.
  - rewrite IndexByte_app_first by apply body_no_percent.
    rewrite take_app_length, Hp.
    rewrite <- (Nat.add_1_r (length _)), drop_app_add. simpl. rewrite drop_0.
    rewrite decide_False by done. simpl. by rewrite Hf.
Qed.

(** ** Parsed addresses are in range *)

Lemma fold_base_range base l :
  0 < base -> Forall (fun d => 0 <= d < base) l ->
  0 <= fold_base base l < base ^ Z.of_nat (length l).
Proof.
  intros Hb. induction l as [|d l IH] using rev_ind; intros H; [unfold fold_base; simpl; lia|].
  apply Forall_app in H as [Hl Hd%Forall_inv]. specialize (IH Hl).
  rewrite fold_base_snoc, length_app. simpl length.
  rewrite Nat2Z.inj_add, Z.pow_add_r by lia. change (Z.of_nat 1) with 1. nia.
Qed.

Lemma Forall_snoc_2 {A} (P : A -> Prop) l x : Forall P l -> P x -> Forall P (l ++ [x]).
Proof. intros. apply Forall_app. split; [done|by repeat constructor]. Qed.

Lemma fields_loop_range s val n fs r :
  0 <= val < 256 -> Forall (fun d => 0 <= d < 256) fs -> (length fs <= 3)%nat ->
  fields_loop s val n fs = Some r ->
  Forall (fun d => 0 <= d < 256) r /\ length r = 4%nat.
Proof.
  revert val n fs. induction s as [|c s IH]; intros val n fs Hv Hf Hl; simpl.
  - destruct (Nat.ltb_spec (length fs) 3); [done|]. intros [= <-].
    split; [by apply Forall_snoc_2|]. rewrite length_app. simpl. lia.
  - pose proof (b2z_range c). destruct (is_digit c) eqn:Hd.
    + unfold is_digit in Hd. bool_prop. case_bool; [done|].
      destruct (255 <? _) eqn:E; bool_prop; [done|]. apply IH; try done. lia.
    + case_decide; [|done]. case_bool; [done|].
      destruct (Nat.eqb_spec (length fs) 3); [done|]. apply IH; [lia| |].
      * by apply Forall_snoc_2.
      * rewrite length_app. simpl. lia.
Qed.

Lemma hexval_range b : 0 <= default 0 (hex.hexval b) < 16.
Proof.
  destruct b; vm_compute; split; congruence.
Qed.

Lemma hexnum_range ds : (length ds <= 4)%nat -> group (hexnum ds).
Proof.
  intros H. unfold hexnum, group.
  pose proof (fold_base_range 16 (map (fun b => default 0 (hex.hexval b)) ds) ltac:(lia)) as Hr.
  rewrite length_map in Hr.
  assert (16 ^ Z.of_nat (length ds) <= 16 ^ 4) by (apply Z.pow_le_mono_r; lia).
  change (16 ^ 4) with 65536 in *. enough (0 <= fold_base 16 (map (fun b => default 0 (hex.hexval b)) ds)
    < 16 ^ Z.of_nat (length ds)) by lia.
  apply Hr. apply Forall_map, Forall_true. intros b. apply hexval_range.
Qed.

Lemma group_pair a b : 0 <= a < 256 -> 0 <= b < 256 -> group (a * 256 + b).
Proof. unfold group. lia. Qed.

Lemma v6_loop_range f s gs ell gs' ell' s' :
  Forall group gs -> (length gs <= 8)%nat ->
  v6_loop f s gs ell = Some (gs', ell', s') ->
  Forall group gs' /\ (length gs' <= 8)%nat.
Proof.
  revert s gs ell. induction f as [|f IH]; intros s gs ell Hg Hl; cbn [v6_loop]; [done|].
  destruct (Nat.leb_spec 8 (length gs)); [by intros [= <- <- <-]|].
  destruct (Nat.ltb_spec 4 (length (take_while is_hex s))); [done|]. simpl orb.
  case_bool; [done|].
  assert (Hx : Forall group (gs ++ [hexnum (take_while is_hex s)])).
  { apply Forall_snoc_2; [done|]. by apply hexnum_range. }
  assert (Hx' : (length (gs ++ [hexnum (take_while is_hex s)]) <= 8)%nat).
  { rewrite length_app. simpl. lia. }
  destruct (drop_while is_hex s) as [|c s1]; [by intros [= <- <- <-]|].
  case_decide.
  - destruct (_ || (6 <? length gs)%nat) eqn:E; [done|]. bool_prop.
    destruct (fields_loop s 0 0 []) as [r|] eqn:Hf; [|done].
    apply fields_loop_range in Hf as [Hr Hlr]; [|lia|done|simpl; lia].
    destruct r as [|a [|b [|c' [|d [|]]]]]; try done. intros [= <- <- <-].
    repeat (apply Forall_cons in Hr as [? Hr]).
    match goal with H : (6 <? _)%nat = false |- _ => apply Nat.ltb_ge in H end.
    split; [|rewrite length_app; simpl; lia].
    apply Forall_app; split; [done|]. repeat constructor; by apply group_pair.
  - case_decide; [|done]. destruct s1 as [|c2 s2]; [done|]. case_decide.
    + destruct ell; [done|]. case_decide; [by intros [= <- <- <-]|]. by apply IH.
    + by apply IH.
Qed.

Lemma parse_groups_range s gs :
  parse_groups s = Some gs -> Forall group gs /\ length gs = 8%nat.
Proof.
  assert (Hfin : forall t ell, v6_loop 9 t [] ell ≫= v6_finish = Some gs ->
            Forall group gs /\ length gs = 8%nat).
  { intros t ell (r & Hr & Hf)%bind_Some. destruct r as [[gs1 e] s1].
    apply v6_loop_range in Hr as [Hg Hl]; [|done|simpl; lia].
    unfold v6_finish in Hf. case_decide; [|done].
    destruct (Nat.ltb_spec (length gs1) 8).
    - destruct e as [e|]; [|done]. injection Hf as <-. split.
      + apply Forall_app; split; [by apply Forall_take|].
        apply Forall_app; split; [|by apply Forall_drop]. apply Forall_replicate. unfold group; lia.
      + rewrite !length_app, length_take, length_drop, length_replicate. lia.
    - destruct e; [done|]. injection Hf as <-. split; [done|lia]. }
  unfold parse_groups. case_bool; [|apply Hfin].
  case_decide; [|apply Hfin]. intros [= <-]. split; [|done].
  repeat (apply Forall_cons; split; [unfold group; lia|]). constructor.
Qed.

Lemma fold_groups_range gs :
  Forall group gs -> length gs = 8%nat -> 0 <= fold_base 65536 gs < 2 ^ 128.
Proof.
  intros Hg Hl. pose proof (fold_base_range 65536 gs ltac:(lia) Hg) as H. by rewrite Hl in H.
Qed.

Lemma ParseAddr_valid s a : ParseAddr s = Some a -> valid a.
Proof.
  unfold ParseAddr. destruct (List.find _ s) as [c|]; [|done]. case_decide.
  - unfold parseIPv4. intros (r & Hr & ->)%fmap_Some.
    apply fields_loop_range in Hr as [Hr Hl]; [|lia|done|simpl; lia]. cbn [valid compose].
    pose proof (fold_base_range 256 r ltac:(lia) Hr) as H0. by rewrite Hl in H0.
  - case_decide; [|done]. unfold parseIPv6. destruct (IndexByte s _).
    + case_decide; [done|]. intros (gs & Hp & ->)%fmap_Some.
      apply parse_groups_range in Hp as [? ?]. by apply fold_groups_range.
    + intros (gs & Hp & ->)%fmap_Some. apply parse_groups_range in Hp as [? ?].
      by apply fold_groups_range.
Qed.

(** ** Length of a formatted address *)

Lemma length_Join_le ps sep m :
  Forall (fun p : bytes => (length p <= m)%nat) ps ->
  (length (Join ps sep) <= length ps * (m + length sep))%nat.
Proof.
  induction 1 as [|p ps Hp Hps IH]; simpl; [done|].
  destruct ps as [|p2 ps]; [simpl in *; lia|].
  rewrite !length_app. cbn [length] in *. lia.
Qed.

Lemma length_string4 v : (length (string4 v) <= 16)%nat.
Proof.
  unfold string4. etrans; [apply (length_Join_le _ _ 3)|done].
  apply Forall_map, Forall_true. intros x. apply length_dec8.
Qed.

Lemma length_join_hex gs : (length (join_hex gs) <= 5 * length gs)%nat.
Proof.
  unfold join_hex. etrans; [apply (length_Join_le _ _ 4)|].
  - apply Forall_map, Forall_true. intros x. apply length_hex16.
  - rewrite length_map. simpl. lia.
Qed.

Lemma length_body a : (length (body a) <= 63)%nat.
Proof.
  destruct a as [v|v z]; cbn [body]; [pose proof (length_string4 v); lia|].
  destruct (Is4In6 v).
  - rewrite length_app. pose proof (length_string4 (v mod 2 ^ 32)). simpl. lia.
  - unfold string6. destruct (best_run _) as [[i j]|] eqn:E.
    + apply best_run_span in E as [Hij _].
      rewrite !length_app. pose proof (length_join_hex (take i (groups_of v))).
      pose proof (length_join_hex (drop j (groups_of v))).
      rewrite length_take in *. rewrite length_drop in *.
      change (length (groups_of v)) with 8%nat in *. simpl. lia.
    + pose proof (length_join_hex (groups_of v)). change (length (groups_of v)) with 8%nat in *. lia.
Qed.

Lemma length_String a : Zone a = [] -> (length (String a) <= 63)%nat.
Proof.
  intros Hz. rewrite String_body. destruct a as [v|v z]; [|simpl in Hz; subst z];
    rewrite app_nil_r; apply length_body.
Qed.
