(* ===== verification/CanonIP.v ===== *)
(** * CanonIP: client address canonicalization ([core/go/canon.go], [CanonIP]). *)

From S2P Require Import Prelude GoStrings NetIP NetIPFacts.
Import netip.

Inductive canon_err := ErrParse | ErrZoned | ErrPrefixRange | ErrPrefix.

#[export] Instance canon_err_eq_dec : EqDecision canon_err.
Proof. solve_decision. Defined.

Definition CanonIP (addr : bytes) (v6Prefix v4Prefix : Z) : result canon_err bytes :=
  a ← of_option ErrParse (ParseAddr addr);
  if negb (bool_decide (Zone a = [])) then Err ErrZoned
  else
    let a := Unmap a in
    if (v6Prefix <? 0) || (128 <? v6Prefix) || (v4Prefix <? 0) || (32 <? v4Prefix)
    then Err ErrPrefixRange
    else
      let prefix := if Is4 a then v4Prefix else v6Prefix in
      let full := if Is4 a then 32 else 128 in
      if full <=? prefix then Ok (String a)
      else
        p ← of_option ErrPrefix (AddrPrefix a prefix);
        Ok (String (pip p)).

(** ** Reference: the address a canonical string stands for *)

Definition prefixes_ok (p6 p4 : Z) : Prop := 0 <= p6 <= 128 /\ 0 <= p4 <= 32.

(** Keep the configured number of leading bits. *)
Definition mask (p6 p4 : Z) (a : Addr) : Addr :=
  match a with
  | V4 v => V4 (mask_to 32 p4 v)
  | V6 v z => V6 (mask_to 128 p6 v) z
  end.

Lemma mask_to_sub w b v : 0 <= b <= w -> mask_to w b v = v - v mod 2 ^ (w - b).
Proof.
  intros H. unfold mask_to. rewrite Z.shiftl_mul_pow2, Z.shiftr_div_pow2 by lia.
  pose proof (Z_div_mod_eq_full v (2 ^ (w - b))). lia.
Qed.

Lemma mask_to_full w v : mask_to w w v = v.
Proof. unfold mask_to. by rewrite Z.sub_diag, Z.shiftr_0_r, Z.shiftl_0_r. Qed.

Lemma mask_to_idemp w b v : 0 <= b <= w -> mask_to w b (mask_to w b v) = mask_to w b v.
Proof.
  intros H. unfold mask_to. rewrite Z.shiftr_shiftl_l by lia.
  by rewrite Z.sub_diag, Z.shiftl_0_r.
Qed.

Lemma mask_to_range w b v m : 0 <= b <= w -> 0 <= v < m -> 0 <= mask_to w b v < m.
Proof.
  intros H Hv. assert (0 <= v mod 2 ^ (w - b)) by (apply Z.mod_pos_bound; lia).
  assert (v mod 2 ^ (w - b) <= v) by (apply Z.mod_le; lia).
  rewrite mask_to_sub by done. lia.
Qed.

(** Masking cannot produce an IPv4-mapped address from one that is not. *)
Lemma mask_to_not_4in6 b v :
  0 <= b <= 128 -> Is4In6 v = false -> Is4In6 (mask_to 128 b v) = false.
Proof.
  intros Hb H. apply not_true_iff_false. intros Hm. apply not_true_iff_false in H. apply H.
  clear H. unfold Is4In6, mask_to in *. rewrite <- Z.shiftr_div_pow2 in * by lia. apply Z.eqb_eq in Hm. apply Z.eqb_eq.
  destruct (decide (128 - b <= 32)) as [Hle|Hgt].
  - rewrite Z.shiftr_shiftl_r, Z.shiftr_shiftr in Hm by lia.
    by replace (128 - b + (32 - (128 - b))) with 32 in Hm by lia.
  - rewrite Z.shiftr_shiftl_l in Hm by lia. exfalso.
    apply (f_equal (fun z => Z.testbit z 0)) in Hm.
    rewrite Z.shiftl_spec_low in Hm by lia. done.
Qed.

Lemma Unmap_valid a : valid a -> valid (Unmap a).
Proof.
  intros Hv. destruct a as [v|v z]; [exact Hv|]. unfold Unmap.
  destruct (Is4In6 v); [|exact Hv]. apply Z.mod_pos_bound. lia.
Qed.

(** A value [Unmap] leaves alone. *)
Definition unmapped (a : Addr) : Prop := Unmap a = a.

Lemma Unmap_unmapped a : unmapped (Unmap a).
Proof.
  destruct a as [v|v z]; [done|]. unfold unmapped, Unmap at 2 3.
  destruct (Is4In6 v) eqn:E; [done|]. simpl. by rewrite E.
Qed.

Lemma mask_unmapped p6 p4 a : prefixes_ok p6 p4 -> unmapped a -> unmapped (mask p6 p4 a).
Proof.
  intros [Hp _]. destruct a as [v|v z]; [done|]. unfold unmapped, mask, Unmap. intros H.
  destruct (Is4In6 v) eqn:E; [discriminate H|]. by rewrite mask_to_not_4in6.
Qed.

Lemma mask_valid p6 p4 a : prefixes_ok p6 p4 -> valid a -> valid (mask p6 p4 a).
Proof. intros [? ?]. destruct a; intros Hv; apply mask_to_range; (exact Hv || lia). Qed.

Lemma mask_idemp p6 p4 a : prefixes_ok p6 p4 -> mask p6 p4 (mask p6 p4 a) = mask p6 p4 a.
Proof. intros [? ?]. destruct a; simpl; by rewrite mask_to_idemp. Qed.

Lemma mask_Zone p6 p4 a : Zone (mask p6 p4 a) = Zone a.
Proof. by destruct a. Qed.

Lemma Unmap_Zone a : Zone a = [] -> Zone (Unmap a) = [].
Proof. destruct a as [v|v z]; simpl; [done|]. by destruct (Is4In6 v). Qed.

(** [CanonIP] on a parsed, zoneless address. *)
Lemma CanonIP_parsed s a p6 p4 :
  ParseAddr s = Some a -> Zone a = [] ->
  CanonIP s p6 p4 =
    if (p6 <? 0) || (128 <? p6) || (p4 <? 0) || (32 <? p4) then Err ErrPrefixRange
    else Ok (String (mask p6 p4 (Unmap a))).
Proof.
  intros Hp Hz. unfold CanonIP. rewrite Hp. simpl mbind.
  rewrite bool_decide_eq_true_2 by done. cbn [negb].
  destruct ((p6 <? 0) || _ || _ || _) eqn:E; [done|]. bool_prop.
  apply Unmap_Zone in Hz. destruct (Unmap a) as [v|v z]; cbn [Is4 mask].
  - destruct (32 <=? p4) eqn:E4; bool_prop.
    + replace p4 with 32 by lia. by rewrite mask_to_full.
    + unfold AddrPrefix. cbn [BitLen]. rewrite (proj2 (Z.ltb_ge p4 0)), (proj2 (Z.ltb_ge 32 p4)) by lia.
      done.
  - simpl in Hz. subst z. destruct (128 <=? p6) eqn:E6; bool_prop.
    + replace p6 with 128 by lia. by rewrite mask_to_full.
    + unfold AddrPrefix. cbn [BitLen]. rewrite (proj2 (Z.ltb_ge p6 0)), (proj2 (Z.ltb_ge 128 p6)) by lia.
      done.
Qed.

Lemma prefixes_ok_test p6 p4 :
  (p6 <? 0) || (128 <? p6) || (p4 <? 0) || (32 <? p4) = false <-> prefixes_ok p6 p4.
Proof. unfold prefixes_ok. rewrite !orb_false_iff, !Z.ltb_ge. lia. Qed.

Lemma CanonIP_Ok s p6 p4 c :
  CanonIP s p6 p4 = Ok c <->
  exists a, ParseAddr s = Some a /\ Zone a = [] /\ prefixes_ok p6 p4 /\
            c = String (mask p6 p4 (Unmap a)).
Proof.
  split.
  - intros H. destruct (ParseAddr s) as [a|] eqn:Hp; [|by unfold CanonIP in H; rewrite Hp in H].
    destruct (decide (Zone a = [])) as [Hz|Hz].
    + rewrite (CanonIP_parsed _ _ _ _ Hp Hz) in H. case_bool; [done|].
      injection H as <-. exists a. by rewrite <- prefixes_ok_test.
    + unfold CanonIP in H. rewrite Hp in H. simpl in H.
      by rewrite bool_decide_eq_false_2 in H.
  - intros (a & Hp & Hz & Hr & ->). rewrite (CanonIP_parsed _ _ _ _ Hp Hz).
    by rewrite (proj2 (prefixes_ok_test _ _) Hr).
Qed.

(** Canonical addresses are a fixed point. *)
Lemma CanonIP_fixed s p6 p4 c : CanonIP s p6 p4 = Ok c -> CanonIP c p6 p4 = Ok c.
Proof.
  intros (a & Hp & Hz & Hr & ->)%CanonIP_Ok.
  assert (Hv : valid (mask p6 p4 (Unmap a))).
  { apply mask_valid; [done|]. by eapply Unmap_valid, ParseAddr_valid. }
  apply CanonIP_Ok. exists (mask p6 p4 (Unmap a)). split; [by apply ParseAddr_String_eq|].
  split; [by rewrite mask_Zone; apply Unmap_Zone|]. split; [done|].
  rewrite (mask_unmapped p6 p4 (Unmap a)), mask_idemp by (done || apply Unmap_unmapped). done.
Qed.

(** An answer is canonical whatever the prefix it was masked to. *)
Lemma CanonIP_fixed_full s p6 c : CanonIP s p6 32 = Ok c -> CanonIP c 128 32 = Ok c.
Proof.
  intros (a & Hp & Hz & Hr & ->)%CanonIP_Ok.
  assert (Hv : valid (mask p6 32 (Unmap a))).
  { apply mask_valid; [done|]. by eapply Unmap_valid, ParseAddr_valid. }
  apply CanonIP_Ok. exists (mask p6 32 (Unmap a)). split; [by apply ParseAddr_String_eq|].
  split; [by rewrite mask_Zone; apply Unmap_Zone|]. split; [by unfold prefixes_ok|].
  rewrite (mask_unmapped p6 32 (Unmap a)) by (done || apply Unmap_unmapped).
  destruct (mask p6 32 (Unmap a)); cbn [mask]; by rewrite mask_to_full.
Qed.

Lemma String_inj a b : valid a -> valid b -> String a = String b -> a = b.
Proof.
  intros Ha Hb H. apply (f_equal ParseAddr) in H. rewrite !ParseAddr_String_eq in H by done.
  congruence.
Qed.

Lemma String_nonempty a : valid a -> String a <> [].
Proof. intros Ha H. apply ParseAddr_String_eq in Ha. rewrite H in Ha. done. Qed.

Lemma CanonIP_nonempty s p6 p4 c : CanonIP s p6 p4 = Ok c -> c <> [].
Proof.
  intros (a & Hp & Hz & Hr & ->)%CanonIP_Ok. apply String_nonempty, mask_valid; [done|].
  by eapply Unmap_valid, ParseAddr_valid.
Qed.

Lemma CanonIP_length s p6 p4 c : CanonIP s p6 p4 = Ok c -> (length c <= 63)%nat.
Proof.
  intros (a & Hp & Hz & Hr & ->)%CanonIP_Ok. apply length_String.
  rewrite mask_Zone. by apply Unmap_Zone.
Qed.

(** ** Properties *)

(** C35: the text a grant is keyed by names exactly one address: it parses back
    to the client's address, unmapped and masked, and prints that address. *)
Theorem CanonIP_parses_back s p6 p4 c (H : CanonIP s p6 p4 = Ok c) :
  exists a, ParseAddr s = Some a /\ ParseAddr c = Some (mask p6 p4 (Unmap a)) /\
    c = String (mask p6 p4 (Unmap a)).
Proof.
  apply CanonIP_Ok in H as (a & Hp & Hz & Hr & ->). exists a. split; [done|]. split; [|done].
  apply ParseAddr_String_eq, mask_valid; [done|]. by eapply Unmap_valid, ParseAddr_valid.
Qed.

Lemma CanonIP_parses_back_witness : exists a, ParseAddr (lit "2001:db8::") = Some a.
Proof.
  assert (H : CanonIP (lit "2001:DB8:0:0:7::9") 64 32 = Ok (lit "2001:db8::"))
    by (vm_compute; reflexivity).
  destruct (CanonIP_parses_back _ _ _ _ H) as (a & _ & Hc & _). by eexists.
Defined.

(** Canonicalizing an address that is already canonical returns it
    unchanged, whatever the configured prefixes. *)
Theorem CanonIP_idempotent s p6 p4 c (H : CanonIP s p6 p4 = Ok c) : CanonIP c p6 p4 = Ok c.
Proof. by eapply CanonIP_fixed. Qed.

Lemma CanonIP_idempotent_witness :
  CanonIP (lit "2001:db8:abcd:1234::") 64 32 = Ok (lit "2001:db8:abcd:1234::").
Proof.
  apply (CanonIP_idempotent (lit "2001:0DB8:abcd:1234:5678::9")). vm_compute. reflexivity.
Defined.

(** C34: exactly when two clients share a canonical address (and so a grant
    key): both parse without a zone, and after unmapping IPv4-in-IPv6 they are of
    one family and agree on the leading bits the configuration keeps. *)
Theorem CanonIP_same_key s1 s2 p6 p4 a1 a2
    (Hr : prefixes_ok p6 p4)
    (H1 : ParseAddr s1 = Some a1) (Hz1 : Zone a1 = [])
    (H2 : ParseAddr s2 = Some a2) (Hz2 : Zone a2 = []) :
  CanonIP s1 p6 p4 = CanonIP s2 p6 p4 <-> mask p6 p4 (Unmap a1) = mask p6 p4 (Unmap a2).
Proof.
  rewrite (CanonIP_parsed _ _ _ _ H1 Hz1), (CanonIP_parsed _ _ _ _ H2 Hz2).
  rewrite (proj2 (prefixes_ok_test _ _) Hr). split; [|by intros ->].
  intros [= H]. by apply String_inj in H;
    [|apply mask_valid; [done|by eapply Unmap_valid, ParseAddr_valid]..].
Qed.

Lemma CanonIP_same_key_witness :
  CanonIP (lit "::ffff:192.168.5.77") 128 24 = CanonIP (lit "192.168.5.1") 128 24.
Proof.
  apply (CanonIP_same_key _ _ 128 24 (V6 (0xffffc0a8054d) []) (V4 0xc0a80501));
    vm_compute; (reflexivity || (repeat split; congruence)).
Defined.

(** A prefix outside [0..128] (IPv6) or [0..32] (IPv4) is an error for
    every address of either family, and so is a zoned or unparseable address:
    [CanonIP] fails closed on a misconfiguration. *)
Theorem CanonIP_fails_closed s p6 p4 :
  is_ok (CanonIP s p6 p4) = true <->
  prefixes_ok p6 p4 /\ exists a, ParseAddr s = Some a /\ Zone a = [].
Proof.
  destruct (CanonIP s p6 p4) as [c|e] eqn:E; simpl.
  - apply CanonIP_Ok in E as (a & ? & ? & ? & _). split; [|done]. eauto.
  - split; [done|]. intros (Hr & a & Hp & Hz).
    rewrite (CanonIP_parsed _ _ _ _ Hp Hz), (proj2 (prefixes_ok_test _ _) Hr) in E. done.
Qed.

#[global] Opaque CanonIP.
