(* ===== verification/Probe.v ===== *)
(** * Probe: the canonicalizers on a file of cases ([core/go/canonprobe/main.go]).

    The program reads its one argument, decodes it, and prints the canonical
    names and addresses; [raw] is the content of the file, or the failure to
    read it. *)

From S2P Require Import Prelude GoStrings Json JsonFacts Wire ServerName CanonIP.
Import strings.

Record ipCase := mkIPCase { Addr : bytes; V6 : Z; V4 : Z }.

Definition ip_names : list bytes := [lit "addr"; lit "v6"; lit "v4"].

Definition ipCase_into : json -> ipCase -> option ipCase :=
  struct_into false ip_names (fun kvs o =>
    addr ← get_field ip_names kvs "addr" str_into (Addr o);
    v6 ← get_field ip_names kvs "v6" int_into (V6 o);
    v4 ← get_field ip_names kvs "v4" int_into (V4 o);
    Some (mkIPCase addr v6 v4)).

Record cases := mkCases { ServerNames : slice bytes; IPs : slice ipCase }.

Definition case_names : list bytes := [lit "server_names"; lit "ips"].

Definition cases_into : json -> cases -> option cases :=
  struct_into false case_names (fun kvs o =>
    ns ← get_field case_names kvs "server_names" (slice_into str_into []) (ServerNames o);
    ips ← get_field case_names kvs "ips" (slice_into ipCase_into (mkIPCase [] 0 0)) (IPs o);
    Some (mkCases ns ips)).

(** The [results] of the cases. *)
Definition canon_ip_json (c : ipCase) : json :=
  match CanonIP (Addr c) (V6 c) (V4 c) with Ok s => JStr s | Err _ => JNull end.

Definition results (c : cases) : json :=
  JObj [(lit "server_names", JArr (map (fun s => JStr (CanonServerName s)) (slice_list (ServerNames c))));
        (lit "ips", JArr (map canon_ip_json (slice_list (IPs c))))].

Inductive outcome :=
| Exit (code : Z)
| Printed (text : bytes).

(** [nargs]: the number of arguments of the command. *)
Definition main (nargs : nat) (raw : option bytes) : outcome :=
  if negb (nargs =? 1)%nat then Exit 2
  else
    match raw with
    | None => Exit 1
    | Some raw =>
        match v ← Unmarshal raw; cases_into v (mkCases None None) with
        | None => Exit 1
        | Some c => Printed (Encode (results c))
        end
    end.

Example probe_case : main 1 (Some (quoted
  "{'ips': [{'addr': '::ffff:1.2.3.4', 'v6': 64, 'v4': 24}, {'addr': 'x', 'v6': 64, 'v4': 24}], 'server_names': ['A.b.:80']}")) =
  Printed (quoted "{'server_names':['a.b'],'ips':['1.2.3.0',null]}" ++ [x0a]).
Proof. vm_compute. reflexivity. Qed.

Example probe_trailing : main 1 (Some (quoted "{} {}")) = Exit 1.
Proof. vm_compute. reflexivity. Qed.

(** ** The cases as a harness writes them *)

Definition ipCase_json (c : ipCase) : json :=
  JObj [(lit "addr", JStr (Addr c)); (lit "v6", JInt (V6 c)); (lit "v4", JInt (V4 c))].

Definition cases_json (names : list bytes) (ips : list ipCase) : json :=
  JObj [(lit "server_names", JArr (map JStr names)); (lit "ips", JArr (map ipCase_json ips))].

Definition ip_text (c : ipCase) : Prop := text (Addr c) /\ in_i64 (V6 c) /\ in_i64 (V4 c).

Lemma ipCase_reads c old : ip_text c -> ipCase_into (ipCase_json c) old = Some c.
Proof.
  intros (_ & H6 & H4). unfold ipCase_into, ipCase_json. cbn [struct_into andb].
  match goal with |- context [get_field _ ?l] => pose proof (reflexivity (R := (≡ₚ)) l) as Hp end.
  field Hp "addr"%string. field Hp "v6"%string. field Hp "v4"%string. by destruct c.
Qed.

Lemma writable_cases names ips :
  Forall text names -> Forall ip_text ips -> writable maxNestingDepth (cases_json names ips) = true.
Proof.
  intros Hn Hi. apply writable_obj; [done|]. members; cbn [snd]; [by apply writable_strs|].
  apply writable_arr; [done|]. rewrite Forall_map. eapply Forall_impl; [exact Hi|].
  intros c (Ha & _). apply writable_obj; [done|]. members; cbn [snd]; first [apply writable_int | done].
Qed.

(** ** Property *)

(** What the probe prints is what the canonicalizers answer, case by case and
    in the order of the file: names as they come out, [null] for the addresses
    that are refused. *)
Theorem probe_answers names ips (Hn : Forall text names) (Hi : Forall ip_text ips) :
  main 1 (Some (Encode (cases_json names ips))) =
    Printed (Encode (JObj
      [(lit "server_names", strs (map CanonServerName names));
       (lit "ips", JArr (map (fun c => match CanonIP (Addr c) (V6 c) (V4 c) with
                                       | Ok s => JStr s | Err _ => JNull end) ips))])).
Proof.
  unfold main. cbn [Nat.eqb negb]. rewrite Unmarshal_Encode by (by apply writable_cases).
  cbn [mbind option_bind]. unfold cases_into, cases_json. cbn [struct_into andb].
  match goal with |- context [get_field _ ?l] => pose proof (reflexivity (R := (≡ₚ)) l) as Hp end.
  field Hp "server_names"%string. cbn [ServerNames IPs].
  destruct (strs_into names None) as [b1 Hb1]. unfold strs in Hb1. rewrite Hb1. cbn [mbind option_bind].
  field Hp "ips"%string.
  destruct (slice_into_all ipCase_into (mkIPCase [] 0 0) ipCase_json ips None) as [b2 ->].
  { intros c o Hc. apply ipCase_reads. rewrite Forall_forall in Hi. by apply Hi. }
  cbn [mbind option_bind]. unfold results, strs. cbn [ServerNames IPs slice_list]. by rewrite map_map.
Qed.

Lemma probe_answers_witness :
  main 1 (Some (Encode (cases_json [lit "A.b.:80"] [mkIPCase (lit "1.2.3.4") 64 24]))) =
  Printed (quoted "{'server_names':['a.b'],'ips':['1.2.3.0']}" ++ [x0a]).
Proof.
  rewrite probe_answers.
  - vm_compute. reflexivity.
  - apply (bool_decide_unpack _). vm_compute. exact I.
  - constructor; [|constructor]. split; [reflexivity|]. unfold in_i64. cbn. lia.
Defined.
