(* ===== verification/Crypto.v ===== *)
(** * Crypto: the knock proof and the stateless nonce ([core/go/crypto.go]). *)

From S2P Require Import Prelude Binary Pae Sha256 ServerName CanonIP.
Import binary hmac.

Definition ProofDomain : bytes := Eval vm_compute in lit "jitaccess-v1".
Definition NonceDomain : bytes := Eval vm_compute in lit "jitaccess-nonce-v1".
Definition NonceLen : nat := 56.

(** [hmac.New(sha256.New, key)]; [Write]; [Sum]. *)
Definition hmacSHA256 (key data : bytes) : bytes := HMAC_SHA256 key data.

(** [RandomBytes]: the operating system's generator, or an error. *)
Definition RandomBytes (rand : nat -> option bytes) (n : nat) : option bytes := rand n.

(** ** The knock proof *)

Definition ProofCanonical (serverName kid nonceRaw : bytes) : bytes :=
  PAE [ProofDomain; CanonServerName serverName; kid; nonceRaw].

Definition BuildProof (secret serverName kid nonceRaw : bytes) : bytes :=
  hmacSHA256 secret (ProofCanonical serverName kid nonceRaw).

Definition VerifyProof (secret serverName kid nonceRaw tag : bytes) : bool :=
  Equal (BuildProof secret serverName kid nonceRaw) tag.

(** ** The nonce *)

Inductive nonce_err := ErrRandLen | ErrNonceIP (e : canon_err).

Definition nonceMACInput (ts : Z) (rand16 serverName ip : bytes) (v6Prefix : Z)
    : result canon_err bytes :=
  ipc ← CanonIP ip v6Prefix 32;
  Ok (PAE [NonceDomain; BigEndian_PutUint64 ts; rand16; CanonServerName serverName; ipc]).

Definition IssueNonce (nonceKey : bytes) (ts : Z) (rand16 serverName ip : bytes) (v6Prefix : Z)
    : result nonce_err bytes :=
  if negb (length rand16 =? 16)%nat then Err ErrRandLen
  else
    match nonceMACInput ts rand16 serverName ip v6Prefix with
    | Err e => Err (ErrNonceIP e)
    | Ok inp => Ok (BigEndian_PutUint64 ts ++ rand16 ++ hmacSHA256 nonceKey inp)
    end.

(** [(true, rand16)] is [Some rand16], [(false, nil)] is [None].  [ts] is
    unsigned on the wire; [int64(ts)] and the subtraction wrap. *)
Definition VerifyNonce (nonceKey nonce serverName ip : bytes) (now ttl v6Prefix : Z)
    : option bytes :=
  if negb (length nonce =? NonceLen)%nat then None
  else
    let ts := BigEndian_Uint64 (take 8 nonce) in
    let rand16 := take 16 (drop 8 nonce) in
    let mac := drop 24 nonce in
    match nonceMACInput ts rand16 serverName ip v6Prefix with
    | Err _ => None
    | Ok inp =>
        if negb (Equal (hmacSHA256 nonceKey inp) mac) then None
        else if (MaxInt64 <? ts) || (now <? i64 ts) || (ttl <=? i64 (now - i64 ts)) then None
        else Some rand16
    end.

(** ** Facts *)

Lemma fits_le {A B} (l : list A) (k : list B) :
  (length l <= length k)%nat -> fits k -> fits l.
Proof. unfold fits. lia. Qed.

Lemma fits_len {A} (l : list A) n : length l = n -> Z.of_nat n < 2 ^ 63 -> fits l.
Proof. unfold fits. by intros ->. Qed.

Lemma fits_CanonServerName s : fits s -> fits (CanonServerName s).
Proof. apply fits_le, length_CanonServerName_le. Qed.

Lemma proof_pieces_fit s kid n :
  fits s -> fits kid -> fits n -> pieces_fit [ProofDomain; CanonServerName s; kid; n].
Proof.
  intros Hs Hk Hn. split; [done|].
  repeat (apply Forall_cons; split); auto using fits_CanonServerName. done.
Qed.

Lemma ProofCanonical_eq s1 k1 n1 s2 k2 n2 :
  fits s1 -> fits k1 -> fits n1 -> fits s2 -> fits k2 -> fits n2 ->
  ProofCanonical s1 k1 n1 = ProofCanonical s2 k2 n2 ->
  CanonServerName s1 = CanonServerName s2 /\ k1 = k2 /\ n1 = n2.
Proof.
  intros ?????? H. apply PAE_inj in H; [|by apply proof_pieces_fit..].
  assert (Hn : forall i, nth i [ProofDomain; CanonServerName s1; k1; n1] [] =
                    nth i [ProofDomain; CanonServerName s2; k2; n2] []) by (intros; by rewrite H).
  pose proof (Hn 1%nat) as E1. pose proof (Hn 2%nat) as E2. pose proof (Hn 3%nat) as E3.
  cbn [nth] in E1, E2, E3. done.
Qed.

Lemma nonce_pieces_fit ts r s ip p6 c :
  fits s -> length r = 16%nat -> CanonIP ip p6 32 = Ok c ->
  pieces_fit [NonceDomain; BigEndian_PutUint64 ts; r; CanonServerName s; c].
Proof.
  intros Hs Hr Hc%CanonIP_length. split; [done|].
  repeat (apply Forall_cons; split); auto using fits_CanonServerName.
  - done.
  - apply (fits_len _ 8); [apply length_BigEndian_PutUint64|done].
  - apply (fits_len _ 16); done.
  - unfold fits. lia.
Qed.

Lemma nonceMACInput_Ok ts r s ip p6 inp :
  nonceMACInput ts r s ip p6 = Ok inp <->
  exists c, CanonIP ip p6 32 = Ok c /\
    inp = PAE [NonceDomain; BigEndian_PutUint64 ts; r; CanonServerName s; c].
Proof.
  unfold nonceMACInput. rewrite result_bind_Ok. split.
  - intros (c & Hc & [= <-]). eauto.
  - intros (c & Hc & ->). eauto.
Qed.

Lemma freshness_exact ts now ttl :
  0 <= ts < 2 ^ 64 -> in_i64 now ->
  (MaxInt64 <? ts) || (now <? i64 ts) || (ttl <=? i64 (now - i64 ts)) = false <->
  ts <= now /\ now - ts < ttl.
Proof.
  unfold MaxInt64, in_i64. intros Hts Hnow. rewrite !orb_false_iff, !Z.ltb_ge, Z.leb_gt.
  destruct (decide (ts <= 9223372036854775807)) as [Hle|Hgt].
  - rewrite (i64_small ts) by (unfold in_i64; lia). split.
    + intros [[_ ?] Hw]. rewrite i64_small in Hw by (unfold in_i64; lia). lia.
    + intros [? ?]. rewrite i64_small by (unfold in_i64; lia). lia.
  - split; lia.
Qed.

Section split_nonce.
Variables (a r m : bytes).
Hypotheses (Ha : length a = 8%nat) (Hr : length r = 16%nat).

Lemma nonce_take8 : take 8 (a ++ r ++ m) = a.
Proof. by apply take_app_length'. Qed.
Lemma nonce_rand : take 16 (drop 8 (a ++ r ++ m)) = r.
Proof. rewrite drop_app_length' by done. by apply take_app_length'. Qed.
Lemma nonce_mac : drop 24 (a ++ r ++ m) = m.
Proof.
  change 24%nat with (8 + 16)%nat. rewrite <- drop_drop.
  rewrite drop_app_length' by done. by apply drop_app_length'.
Qed.
End split_nonce.

(** [VerifyNonce] accepts exactly the fresh nonces [IssueNonce] mints for the
    same service and client. *)
Lemma neq_len (l : bytes) n : negb (length l =? n)%nat = false <-> length l = n.
Proof. by rewrite negb_false_iff, Nat.eqb_eq. Qed.

Lemma IssueNonce_Ok nk ts r s ip p6 n :
  IssueNonce nk ts r s ip p6 = Ok n <->
  length r = 16%nat /\ exists c, CanonIP ip p6 32 = Ok c /\
    n = BigEndian_PutUint64 ts ++ r ++
        hmacSHA256 nk (PAE [NonceDomain; BigEndian_PutUint64 ts; r; CanonServerName s; c]).
Proof.
  unfold IssueNonce. destruct (negb (length r =? 16)%nat) eqn:El.
  { split; [done|]. intros [Hl _]. by rewrite (proj2 (neq_len r 16) Hl) in El. }
  apply neq_len in El. destruct (nonceMACInput ts r s ip p6) as [inp|e] eqn:E.
  - apply nonceMACInput_Ok in E as (c & Hc & ->). split.
    + intros [= <-]. eauto.
    + intros (_ & c' & Hc' & ->). congruence.
  - split; [done|]. intros (_ & c & Hc & _). exfalso.
    assert (nonceMACInput ts r s ip p6 =
            Ok (PAE [NonceDomain; BigEndian_PutUint64 ts; r; CanonServerName s; c]))
      by (apply nonceMACInput_Ok; eauto).
    congruence.
Qed.

Lemma VerifyNonce_mac nk n s ip now ttl p6 r :
  VerifyNonce nk n s ip now ttl p6 = Some r <->
  length n = NonceLen /\ r = take 16 (drop 8 n) /\
  (exists inp, nonceMACInput (BigEndian_Uint64 (take 8 n)) (take 16 (drop 8 n)) s ip p6 = Ok inp /\
               hmacSHA256 nk inp = drop 24 n) /\
  (let ts := BigEndian_Uint64 (take 8 n) in
   (MaxInt64 <? ts) || (now <? i64 ts) || (ttl <=? i64 (now - i64 ts)) = false).
Proof.
  unfold VerifyNonce. destruct (negb (length n =? NonceLen)%nat) eqn:El.
  { split; [done|]. intros [Hl _]. by rewrite (proj2 (neq_len n NonceLen) Hl) in El. }
  apply neq_len in El. cbv zeta. destruct (nonceMACInput _ _ _ _ _) as [inp|e].
  - destruct (negb (Equal (hmacSHA256 nk inp) (drop 24 n))) eqn:Em.
    { split; [done|]. intros (_ & _ & (inp' & [= <-] & Hm) & _).
      rewrite Hm, Equal_refl in Em. done. }
    apply negb_false_iff, Equal_true in Em.
    destruct (_ || _ || _); split; try done.
    + by intros (_ & _ & _ & ?).
    + intros [= <-]. eauto 6.
    + by intros (_ & -> & _).
  - split; [done|]. by intros (_ & _ & (? & ? & _) & _).
Qed.

(** [VerifyNonce] accepts exactly the fresh nonces [IssueNonce] mints for the
    same service and client. *)
Lemma VerifyNonce_Some nk n s ip now ttl p6 r :
  in_i64 now ->
  VerifyNonce nk n s ip now ttl p6 = Some r <->
  exists ts, 0 <= ts < 2 ^ 64 /\ IssueNonce nk ts r s ip p6 = Ok n /\
             ts <= now /\ now - ts < ttl.
Proof.
  intros Hnow. rewrite VerifyNonce_mac. cbv zeta. split.
  - intros (Hl & -> & (inp & Hi & Hm) & Hf). exists (BigEndian_Uint64 (take 8 n)).
    assert (Ht : length (take 8 n) = 8%nat) by (rewrite length_take, Hl; done).
    pose proof (BigEndian_Uint64_range _ Ht). split; [done|].
    apply freshness_exact in Hf; [|done..]. split; [|done].
    apply nonceMACInput_Ok in Hi as (c & Hc & ->). apply IssueNonce_Ok.
    split; [by rewrite length_take, length_drop, Hl|]. exists c. split; [done|].
    rewrite Hm, BigEndian_roundtrip_l by done.
    rewrite <- (take_drop 8 n) at 1. f_equal.
    rewrite <- (take_drop 16 (drop 8 n)) at 1. f_equal. by rewrite drop_drop.
  - intros (ts & Hts & (Hr & c & Hc & ->)%IssueNonce_Ok & Hle & Hlt).
    pose proof (length_BigEndian_PutUint64 ts) as H8.
    rewrite nonce_take8, nonce_rand, nonce_mac, BigEndian_roundtrip by done.
    split; [|split; [done|split; [|by apply freshness_exact]]].
    + rewrite !length_app, H8, Hr. unfold hmacSHA256. by rewrite length_HMAC_SHA256.
    + eexists. rewrite nonceMACInput_Ok. eauto.
Qed.

Lemma nonce_input_eq ts r s1 c1 s2 c2 ip1 ip2 p1 p2 :
  fits s1 -> fits s2 -> length r = 16%nat ->
  CanonIP ip1 p1 32 = Ok c1 -> CanonIP ip2 p2 32 = Ok c2 ->
  PAE [NonceDomain; BigEndian_PutUint64 ts; r; CanonServerName s1; c1] =
  PAE [NonceDomain; BigEndian_PutUint64 ts; r; CanonServerName s2; c2] ->
  CanonServerName s1 = CanonServerName s2 /\ c1 = c2.
Proof.
  intros ????? H. apply PAE_inj in H; [|by eapply nonce_pieces_fit..].
  assert (Hn : forall i,
    nth i [NonceDomain; BigEndian_PutUint64 ts; r; CanonServerName s1; c1] [] =
    nth i [NonceDomain; BigEndian_PutUint64 ts; r; CanonServerName s2; c2] [])
    by (intros; by rewrite H).
  pose proof (Hn 3%nat) as E3. pose proof (Hn 4%nat) as E4. cbn [nth] in E3, E4. done.
Qed.

(** ** Properties *)

(** C20: [VerifyNonce] accepts a nonce exactly when it is one [IssueNonce]
    mints under the same key for the same service and client, no older than the
    time to live and not from the future: the wrap-around of [int64(ts)] and of
    the subtraction never widens the window. *)
Theorem VerifyNonce_exact nk n s ip now ttl p6 r (Hnow : in_i64 now) :
  VerifyNonce nk n s ip now ttl p6 = Some r <->
  exists ts, 0 <= ts < 2 ^ 64 /\ IssueNonce nk ts r s ip p6 = Ok n /\
             ts <= now /\ now - ts < ttl.
Proof. by apply VerifyNonce_Some. Qed.

(** C21: a nonce minted for one service and client verifies for another only
    if the two have the same canonical name and the same canonical address, as
    long as HMAC does not collide on the two MAC inputs. *)
Theorem VerifyNonce_bound nk ts r s1 ip1 p1 n s2 ip2 p2 now ttl r2
    (Hs1 : fits s1) (Hs2 : fits s2) (Hts : 0 <= ts < 2 ^ 64)
    (Hissue : IssueNonce nk ts r s1 ip1 p1 = Ok n)
    (Hverify : VerifyNonce nk n s2 ip2 now ttl p2 = Some r2)
    (Hnocoll : forall m1 m2,
        nonceMACInput ts r s1 ip1 p1 = Ok m1 -> nonceMACInput ts r s2 ip2 p2 = Ok m2 ->
        hmacSHA256 nk m1 = hmacSHA256 nk m2 -> m1 = m2) :
  r2 = r /\ CanonServerName s1 = CanonServerName s2 /\ CanonIP ip1 p1 32 = CanonIP ip2 p2 32.
Proof.
  apply IssueNonce_Ok in Hissue as (Hr & c1 & Hc1 & ->).
  apply VerifyNonce_mac in Hverify as (_ & -> & (m2 & Hm2 & Hmac) & _).
  pose proof (length_BigEndian_PutUint64 ts) as H8.
  rewrite nonce_take8, nonce_rand, nonce_mac, BigEndian_roundtrip in * by done.
  split; [done|]. apply nonceMACInput_Ok in Hm2 as Hm2'. destruct Hm2' as (c2 & Hc2 & ->).
  assert (Hin : PAE [NonceDomain; BigEndian_PutUint64 ts; r; CanonServerName s1; c1] =
                PAE [NonceDomain; BigEndian_PutUint64 ts; r; CanonServerName s2; c2]).
  { apply Hnocoll; [apply nonceMACInput_Ok; eauto|done|done]. }
  apply (nonce_input_eq ts r s1 c1 s2 c2 ip1 ip2 p1 p2) in Hin as [? ->]; [|done..].
  by rewrite Hc1, Hc2.
Qed.

(** The string a knock proof authenticates determines the canonical
    service, the kid and the nonce: no two of those triples share MAC input. *)
Theorem ProofCanonical_injective s1 k1 n1 s2 k2 n2
    (Hs1 : fits s1) (Hk1 : fits k1) (Hn1 : fits n1)
    (Hs2 : fits s2) (Hk2 : fits k2) (Hn2 : fits n2) :
  ProofCanonical s1 k1 n1 = ProofCanonical s2 k2 n2 <->
  CanonServerName s1 = CanonServerName s2 /\ k1 = k2 /\ n1 = n2.
Proof.
  split; [by apply ProofCanonical_eq|]. unfold ProofCanonical. by intros (-> & -> & ->).
Qed.

(** Knock proofs and nonce MACs never cover the same bytes, so neither
    can be replayed as the other, whatever the service, kid and nonce. *)
Theorem proof_nonce_separated s k nonce ts r s' ip p6 m
    (Hs : fits s) (Hk : fits k) (Hn : fits nonce) (Hs' : fits s') (Hr : length r = 16%nat)
    (Hm : nonceMACInput ts r s' ip p6 = Ok m) :
  ProofCanonical s k nonce <> m.
Proof.
  apply nonceMACInput_Ok in Hm as (c & Hc & ->). intros H.
  apply PAE_inj in H; [|by apply proof_pieces_fit|by eapply nonce_pieces_fit].
  apply (f_equal length) in H. done.
Qed.

(** Witnesses, at the values of the shared vectors. *)
Definition ex_key : bytes := replicate 32 Byte.x07.
Definition ex_rand : bytes := lit "0123456789abcdef".
Definition ex_nonce : bytes :=
  match IssueNonce ex_key 1700000000 ex_rand (lit "Grafana.example.com:443") (lit "203.0.113.9") 128 with
  | Ok n => n
  | Err _ => []
  end.

Lemma fits_dec {A} (l : list A) : (Z.of_nat (length l) <? 2 ^ 63) = true -> fits l.
Proof. apply Z.ltb_lt. Qed.

Lemma VerifyNonce_exact_witness :
  VerifyNonce ex_key ex_nonce (lit "grafana.example.com") (lit "203.0.113.9") 1700000059 60 128
    = Some ex_rand.
Proof.
  apply VerifyNonce_exact; [split; vm_compute; congruence|].
  exists 1700000000. split; [split; vm_compute; congruence|].
  split; [vm_compute; reflexivity|]. split; vm_compute; congruence.
Defined.

Lemma VerifyNonce_bound_witness :
  ex_rand = ex_rand /\
  CanonServerName (lit "Grafana.example.com:443") = CanonServerName (lit "grafana.example.com") /\
  CanonIP (lit "203.0.113.9") 128 32 = CanonIP (lit "::ffff:203.0.113.9") 128 32.
Proof.
  apply (VerifyNonce_bound ex_key 1700000000 ex_rand _ _ _ ex_nonce _ _ _ 1700000059 60);
    try (apply fits_dec; vm_compute; reflexivity).
  - split; vm_compute; congruence.
  - vm_compute; reflexivity.
  - vm_compute; reflexivity.
  - intros m1 m2 H1 H2 _. revert H1 H2. vm_compute. congruence.
Defined.

Lemma ProofCanonical_injective_witness :
  ProofCanonical (lit "Wiki.internal.:443") (lit "kid_A") ex_nonce =
  ProofCanonical (lit "wiki.internal") (lit "kid_A") ex_nonce.
Proof.
  apply ProofCanonical_injective; try (apply fits_dec; vm_compute; reflexivity).
  split; [vm_compute; reflexivity|done].
Defined.

Lemma proof_nonce_separated_witness :
  exists m, nonceMACInput 1700000000 ex_rand (lit "a") (lit "1.2.3.4") 128 = Ok m /\
    ProofCanonical (lit "a") (lit "k") ex_nonce <> m.
Proof.
  eexists. split; [vm_compute; reflexivity|].
  eapply (proof_nonce_separated (lit "a") (lit "k") ex_nonce 1700000000 ex_rand (lit "a") (lit "1.2.3.4") 128);
    try (apply fits_dec; vm_compute; reflexivity).
  - reflexivity.
  - vm_compute. reflexivity.
Defined.
