(* ===== verification/Vectors.v ===== *)
(** * Vectors: the model against the shared conformance vectors
    ([core/testdata/vectors.json]), which every implementation of the core must
    reproduce byte for byte. *)

From S2P Require Import Prelude GoStrings Binary Base64 Pae ServerName CanonIP Crypto.

(** The bytes a hexadecimal text stands for. *)
Notation h x := (default [] (hex.decode (lit x))).

Definition pae_vectors : list (list string * bytes) := [
  ([], h "0000000000000000");
  ([""], h "01000000000000000000000000000000");
  ([""; ""], h "020000000000000000000000000000000000000000000000");
  (["aml0YWNjZXNzLXYx"], h "01000000000000000c000000000000006a69746163636573732d7631");
  (["YQ"; "YmI"; "Y2Nj"], h "0300000000000000010000000000000061020000000000000062620300000000000000636363");
  (["YWE"; "YmI"], h "02000000000000000200000000000000616102000000000000006262");
  (["YWFi"; "Yg"], h "02000000000000000300000000000000616162010000000000000062")].

(** The pieces are in base64url. *)
Example pae_conforms :
  forallb (fun '(ps, out) =>
    bool_decide (PAE <$> mapM B64uDecode (map lit ps) = Some out)) pae_vectors = true.
Proof. vm_compute. reflexivity. Qed.

(** Names outside ASCII, or with a line break, are in hexadecimal. *)
Definition server_name_vectors : list (bytes * bytes) := [
  (lit "grafana.example.com", lit "grafana.example.com");
  (lit "Grafana.Example.COM", lit "grafana.example.com");
  (lit "grafana.example.com.", lit "grafana.example.com");
  (lit "grafana.example.com:8443", lit "grafana.example.com");
  (lit "GRAFANA.example.com.:443", lit "grafana.example.com");
  (lit "wiki.internal", lit "wiki.internal");
  (lit "xn--caf-dma.example.com", lit "xn--caf-dma.example.com");
  (lit "9wiki.internal", lit "9wiki.internal");
  (lit "[2001:db8::1]", lit "2001:db8::1");
  (lit "[2001:DB8::1]:8443", lit "2001:db8::1");
  (lit "[ ::1 ]", lit "::1");
  (lit "[::1]", lit "::1");
  (lit "  grafana.example.com  ", lit "grafana.example.com");
  (lit "2001:db8::1", lit "2001:db8::1");
  (lit "2001:db8::2", lit "2001:db8::2");
  (lit "::1", lit "::1");
  (lit "fe80::1", lit "fe80::1");
  (lit "[a:80]", lit "a");
  (lit "..", lit "");
  (lit "...", lit "");
  (lit "example.com..", lit "example.com");
  (lit "example.com:443.", lit "example.com");
  (lit "[:0.", lit "[");
  (lit "host :80", lit "host");
  (lit "[]", lit "");
  (lit "[]:80", lit "");
  (lit "[example.com.]", lit "example.com");
  (lit "[example.com.]:443", lit "example.com");
  (h "686f73743ad9a4d9a4d9a3", h "686f73743ad9a4d9a4d9a3");
  (h "434146c3892e6578616d706c652e636f6d", h "636166c3892e6578616d706c652e636f6d");
  (h "686f7374c2a0", h "686f7374c2a0");
  (h "61620a63643a3830", h "61620a6364");
  (h "6162e280a863643a343433", h "6162e280a86364")].

Example server_names_conform :
  forallb (fun '(i, out) => bool_decide (CanonServerName i = out)) server_name_vectors = true.
Proof. vm_compute. reflexivity. Qed.

(** Address, prefixes for IPv6 and IPv4, and the answer, if there is one. *)
Definition ip_vectors : list (string * Z * Z * option string) := [
  ("1.2.3.4", 128, 32, Some "1.2.3.4");
  ("192.168.001.005", 128, 32, None);
  ("2001:db8:0:0:0:0:0:1", 128, 32, Some "2001:db8::1");
  ("2001:0DB8::1", 128, 32, Some "2001:db8::1");
  ("::ffff:1.2.3.4", 128, 32, Some "1.2.3.4");
  ("2001:db8:abcd:1234::1", 64, 32, Some "2001:db8:abcd:1234::");
  ("2001:db8:abcd:1234:5678::9", 64, 32, Some "2001:db8:abcd:1234::");
  ("::ffff:01.2.3.4", 128, 32, None);
  ("1::2::3", 128, 32, None);
  ("2001:db8:::1", 128, 32, None);
  (":2001:db8::1", 128, 32, None);
  ("2001:db8::1:", 128, 32, None);
  ("192.168.1.256", 128, 32, None);
  ("", 128, 32, None);
  ("::ffff:192.168.5.77", 128, 24, Some "192.168.5.0");
  ("192.168.5.77", 128, 24, Some "192.168.5.0");
  ("fe80::1%eth0", 128, 32, None);
  ("2001:db8::1", 200, 32, None);
  ("1.2.3.4", 128, 64, None)].

Example ips_conform :
  forallb (fun '(i, p6, p4, out) =>
    bool_decide (match CanonIP (lit i) p6 p4 with Ok c => Some c | Err _ => None end = lit <$> out))
    ip_vectors = true.
Proof. vm_compute. reflexivity. Qed.

(** Secret, service, kid, nonce; the string to authenticate and the proof. *)
Definition proof_vectors : list (bytes * string * string * bytes * bytes * string) := [
  (h "000102030405060708090a0b0c0d0e0f101112131415161718191a1b1c1d1e1f", "grafana.example.com", "kid_AAAAAAAAAAAAAAAAAAAA",
   h "000102030405060708090a0b0c0d0e0f101112131415161718191a1b1c1d1e1f202122232425262728292a2b2c2d2e2f3031323334353637",
   h "04000000000000000c000000000000006a69746163636573732d7631130000000000000067726166616e612e6578616d706c652e636f6d18000000000000006b69645f41414141414141414141414141414141414141413800000000000000000102030405060708090a0b0c0d0e0f101112131415161718191a1b1c1d1e1f202122232425262728292a2b2c2d2e2f3031323334353637",
   "2GhsgrW5-HOCAIKENTprgmVaI9ZePUtmfYS-FH0dS-I");
  (h "000102030405060708090a0b0c0d0e0f101112131415161718191a1b1c1d1e1f", "wiki.internal", "kid_BBBBBBBBBBBBBBBBBBBB",
   h "1111111111111111111111111111111111111111111111111111111111111111111111111111111111111111111111111111111111111111",
   h "04000000000000000c000000000000006a69746163636573732d76310d0000000000000077696b692e696e7465726e616c18000000000000006b69645f424242424242424242424242424242424242424238000000000000001111111111111111111111111111111111111111111111111111111111111111111111111111111111111111111111111111111111111111",
   "yYoLwOWQtgCdqJO5CvSw-RUagNQ70HELZEwkXfASZhY");
  (h "000102030405060708090a0b0c0d0e0f101112131415161718191a1b1c1d1e1f", "grafana.example.com", "kid_shared",
   h "2222222222222222222222222222222222222222222222222222222222222222222222222222222222222222222222222222222222222222",
   h "04000000000000000c000000000000006a69746163636573732d7631130000000000000067726166616e612e6578616d706c652e636f6d0a000000000000006b69645f73686172656438000000000000002222222222222222222222222222222222222222222222222222222222222222222222222222222222222222222222222222222222222222",
   "ZoeOjTuhcrYrUOkJhmSYBq80879Aaz-8msJOKuaGrmk");
  (h "000102030405060708090a0b0c0d0e0f101112131415161718191a1b1c1d1e1f", "9wiki.internal", "kid_shared",
   h "2222222222222222222222222222222222222222222222222222222222222222222222222222222222222222222222222222222222222222",
   h "04000000000000000c000000000000006a69746163636573732d76310e000000000000003977696b692e696e7465726e616c0a000000000000006b69645f73686172656438000000000000002222222222222222222222222222222222222222222222222222222222222222222222222222222222222222222222222222222222222222",
   "3bYBI6Pu4SoP3OBRf7lulBtsNp1Y5Gu0d-jomSmIYdY")].

Example proofs_conform :
  forallb (fun '(secret, host, kid, nonce, canonical, proof) =>
    bool_decide (ProofCanonical (lit host) (lit kid) nonce = canonical) &&
    bool_decide (B64u (BuildProof secret (lit host) (lit kid) nonce) = lit proof))
    proof_vectors = true.
Proof. vm_compute. reflexivity. Qed.

(** Key, time, random part, service, address and IPv6 prefix; the nonce. *)
Definition nonce_vectors : list (bytes * Z * bytes * string * string * Z * bytes) := [
  (h "abababababababababababababababababababababababababababababababab", 1700000000, h "000102030405060708090a0b0c0d0e0f",
   "grafana.example.com", "1.2.3.4", 128,
   h "000000006553f100000102030405060708090a0b0c0d0e0f692ea3264b3dedc2b248711ab3ba9ecc27d7eaa8d9fcca28ce8a8e2fa3e6fc5e");
  (h "abababababababababababababababababababababababababababababababab", 1700000000, h "cdcdcdcdcdcdcdcdcdcdcdcdcdcdcdcd",
   "wiki.internal", "2001:db8::1", 128,
   h "000000006553f100cdcdcdcdcdcdcdcdcdcdcdcdcdcdcdcdf5eb7117ba9d136f961db7bbcf9956d25bd000cc5bfaf6986197a882307d2bba");
  (h "abababababababababababababababababababababababababababababababab", 1700000000, h "efefefefefefefefefefefefefefefef",
   "app.example.com", "2001:db8:abcd:1234::99", 64,
   h "000000006553f100efefefefefefefefefefefefefefefefc09eb1fb1070fff7c99bc623427016f7e02482c59c207f0142e0392f23191225")].

Example nonces_conform :
  forallb (fun '(key, ts, rnd, host, ip, p6, nonce) =>
    bool_decide (VerifyNonce key nonce (lit host) (lit ip) (ts + 5) 60 p6 = Some rnd))
    nonce_vectors = true.
Proof. vm_compute. reflexivity. Qed.
