(* ===== verification/Registry.v ===== *)
(** * Registry: tokens, allow-lists and the knock policy ([core/go/registry.go]).

    A [*Registry] may be nil; the methods that accept nil take an option.  A Go
    [map[string]bool] is a map to booleans, absent keys reading as [false]. *)

From S2P Require Import Prelude Binary Sha256.

Definition AlgHMACSHA256 : bytes := Eval vm_compute in lit "HMAC-SHA256".
Definition star : bytes := Eval vm_compute in lit "*".

Record Token := mkToken {
  Secret : bytes;
  Alg : bytes;
  Label : bytes;
  Expires : Z }.

Record Registry := mkRegistry {
  Tokens : gmap bytes Token;
  Services : gmap bytes (gmap bytes bool) }.

(** nil maps are replaced by empty ones. *)
Definition NewRegistry (tokens : option (gmap bytes Token))
    (services : option (gmap bytes (gmap bytes bool))) : Registry :=
  {| Tokens := default ∅ tokens; Services := default ∅ services |}.

Definition Lookup (r : option Registry) (kid : bytes) : option Token :=
  match r with None => None | Some r => Tokens r !! kid end.

Definition IsExpired (t : option Token) (now : Z) : bool :=
  match t with
  | None => false
  | Some t => negb (Expires t =? 0) && (Expires t <=? now)
  end.

Definition Fingerprint (t : option Token) : bytes :=
  match t with
  | None => []
  | Some t => hex.EncodeToString (sha256.Sum256 (Secret t))
  end.

Definition allowKey (r : Registry) (serviceCanon : bytes) : bytes :=
  match Services r !! serviceCanon with
  | Some _ => serviceCanon
  | None =>
      match Services r !! star with
      | Some _ => if (size (Services r) =? 1)%nat then star else serviceCanon
      | None => serviceCanon
      end
  end.

Definition flag (m : gmap bytes bool) (k : bytes) : bool := default false (m !! k).

Definition AllowedForService (r : option Registry) (kid serviceCanon : bytes) : bool :=
  match r with
  | None => false
  | Some r =>
      match Services r !! allowKey r serviceCanon with
      | None => false
      | Some svc => flag svc star || flag svc kid
      end
  end.

Inductive auth_err := ErrUnknownKid | ErrTokenExpired | ErrNotAllowed | ErrBadAlg.

#[export] Instance auth_err_eq_dec : EqDecision auth_err.
Proof. solve_decision. Defined.

Definition Authorize (r : option Registry) (kid serviceCanon : bytes) (now : Z)
    : result auth_err Token :=
  match Lookup r kid with
  | None => Err ErrUnknownKid
  | Some t =>
      if negb (bool_decide (Alg t = AlgHMACSHA256)) then Err ErrBadAlg
      else if IsExpired (Some t) now then Err ErrTokenExpired
      else if negb (AllowedForService r kid serviceCanon) then Err ErrNotAllowed
      else Ok t
  end.

(** ** Specification *)

(** Who may open a service, independently of the order of the checks. *)
Record authorized (r : option Registry) (kid svc : bytes) (now : Z) (t : Token) : Prop := {
  auth_known : Lookup r kid = Some t;
  auth_alg : Alg t = AlgHMACSHA256;
  auth_live : Expires t = 0 \/ now < Expires t;
  auth_allowed : AllowedForService r kid svc = true }.

Lemma IsExpired_false t now : IsExpired (Some t) now = false <-> Expires t = 0 \/ now < Expires t.
Proof.
  simpl. rewrite andb_false_iff, negb_false_iff, Z.eqb_eq, Z.leb_gt. done.
Qed.

Lemma Authorize_Ok_iff r kid svc now t :
  Authorize r kid svc now = Ok t <-> authorized r kid svc now t.
Proof.
  unfold Authorize. split.
  - destruct (Lookup r kid) as [t'|] eqn:El; [|done].
    destruct (negb (bool_decide _)) eqn:Ea; [done|].
    destruct (IsExpired (Some t') now) eqn:Ee; [done|].
    destruct (negb (AllowedForService r kid svc)) eqn:Ew; [done|].
    intros [= <-]. bool_prop. split; try done. by apply IsExpired_false.
  - intros [-> Ha He Hw]. rewrite bool_decide_eq_true_2 by done.
    by rewrite (proj2 (IsExpired_false _ _) He), Hw.
Qed.

(** The allow-list a service name resolves to. *)
Definition allow_list (r : Registry) (svc : bytes) : option (gmap bytes bool) :=
  match Services r !! svc with
  | Some l => Some l
  | None => if (size (Services r) =? 1)%nat then Services r !! star else None
  end.

Lemma AllowedForService_list r kid svc :
  AllowedForService (Some r) kid svc =
    match allow_list r svc with Some l => flag l star || flag l kid | None => false end.
Proof.
  unfold AllowedForService, allowKey, allow_list.
  destruct (Services r !! svc) as [l|] eqn:Es; [by rewrite Es|].
  destruct (Services r !! star) as [l|] eqn:Est.
  - case_bool; [by rewrite Est|by rewrite Es].
  - rewrite Es. by case_bool.
Qed.

(** ** Properties *)

(** [Authorize] returns a token exactly when the kid is registered under
    the pinned algorithm, has not expired and is on the service's allow-list. *)
Theorem Authorize_exact r kid svc now t :
  Authorize r kid svc now = Ok t <-> authorized r kid svc now t.
Proof. apply Authorize_Ok_iff. Qed.

(** In a registry that holds two or more services, a service without an
    entry of its own admits no device at all: the site-scoped ["*"] list is used
    only by a registry whose single entry it is. *)
Theorem AllowedForService_multi r kid svc
    (Hsize : (2 <= size (Services r))%nat) (Hnone : Services r !! svc = None) :
  AllowedForService (Some r) kid svc = false.
Proof.
  rewrite AllowedForService_list. unfold allow_list. rewrite Hnone.
  by rewrite (proj2 (Nat.eqb_neq _ _)) by lia.
Qed.

Definition ex_multi : Registry :=
  {| Tokens := ∅;
     Services := {[ lit "*" := {[ lit "*" := true ]}; lit "wiki" := {[ lit "k" := true ]} ]} |}.

Lemma AllowedForService_multi_witness :
  AllowedForService (Some ex_multi) (lit "k") (lit "grafana") = false.
Proof.
  apply AllowedForService_multi.
  - apply Nat.leb_le. vm_compute. reflexivity.
  - vm_compute. reflexivity.
Defined.
