(* ===== verification/RateLimit.v ===== *)
(** * RateLimit: the knock throttle ([core/go/ratelimit.go]).

    A fixed one-minute window per key in a table of bounded size.  The mutex
    makes every method atomic, so a run is a sequence of calls. *)

From S2P Require Import Prelude ServerName CanonIP.

Record rlEntry := { start : Z; n : Z }.

Record RateLimiter := mkRL {
  window : gmap bytes rlEntry;
  max : Z }.

Definition DefaultRateLimitEntries : Z := 100000.

Definition NewRateLimiter (maxEntries : Z) : RateLimiter :=
  {| window := ∅; max := if maxEntries <=? 0 then DefaultRateLimitEntries else maxEntries |}.

Definition RateKey (scope ipCanon : bytes) : bytes :=
  let ipCanon := match CanonIP ipCanon 64 32 with Ok c => c | Err _ => ipCanon end in
  scope ++ lit "|" ++ ipCanon.

Definition finished (now : Z) (e : rlEntry) : bool := 60 <=? i64 (now - start e).

Definition sweepLocked (l : RateLimiter) (now : Z) : Z * RateLimiter :=
  let w := filter (fun kv => finished now kv.2 = false) (window l) in
  (Z.of_nat (size (window l)) - Z.of_nat (size w), {| window := w; max := max l |}).

Definition len (l : RateLimiter) : Z := Z.of_nat (size (window l)).

Definition set_window (l : RateLimiter) (w : gmap bytes rlEntry) : RateLimiter :=
  {| window := w; max := max l |}.

Definition Allow (l : RateLimiter) (key : bytes) (perMin now : Z) : bool * RateLimiter :=
  if perMin <=? 0 then (true, l)
  else
    match window l !! key with
    | Some e =>
        if i64 (now - start e) <? 60 then
          let e' := {| start := start e; n := i64 (n e + 1) |} in
          (n e' <=? perMin, set_window l (<[key := e']> (window l)))
        else (true, set_window l (<[key := {| start := now; n := 1 |}]> (window l)))
    | None =>
        let l' := if max l <=? len l then (sweepLocked l now).2 else l in
        if (max l <=? len l) && (max l' <=? len l') then (false, l')
        else (true, set_window l' (<[key := {| start := now; n := 1 |}]> (window l')))
    end.

Definition Sweep (l : RateLimiter) (now : Z) : Z * RateLimiter := sweepLocked l now.
Definition Len (l : RateLimiter) : Z := len l.

(** ** Runs *)

Inductive rl_op :=
| OpAllow (key : bytes) (perMin : Z)
| OpSweep.

(** One call at time [now]; the answer of an [Allow]. *)
Definition rl_step (l : RateLimiter) (op : rl_op) (now : Z) : bool * RateLimiter :=
  match op with
  | OpAllow k p => Allow l k p now
  | OpSweep => (false, (Sweep l now).2)
  end.

(** The number of attempts admitted for [key], and the final table. *)
Fixpoint rl_run (key : bytes) (l : RateLimiter) (ops : list (Z * rl_op)) : Z * RateLimiter :=
  match ops with
  | [] => (0, l)
  | (now, op) :: ops' =>
      let '(ok, l') := rl_step l op now in
      let '(c, l'') := rl_run key l' ops' in
      ((match op with
        | OpAllow k _ => if ok && bool_decide (k = key) then 1 else 0
        | OpSweep => 0
        end) + c, l'')
  end.

(** ** Facts *)

Lemma len_insert_le (w : gmap bytes rlEntry) k e :
  Z.of_nat (size (<[k := e]> w)) <= Z.of_nat (size w) + (if w !! k then 0 else 1).
Proof.
  destruct (w !! k) eqn:E.
  - rewrite map_size_insert_Some by eauto. lia.
  - rewrite map_size_insert_None by done. lia.
Qed.

Lemma sweep_lookup l now k e :
  window (sweepLocked l now).2 !! k = Some e <->
  window l !! k = Some e /\ finished now e = false.
Proof. simpl. by rewrite map_lookup_filter_Some. Qed.

Lemma sweep_size l now : len (sweepLocked l now).2 <= len l.
Proof. unfold len. simpl. apply Nat2Z.inj_le, map_size_filter. Qed.

Lemma sweep_max l now : max (sweepLocked l now).2 = max l.
Proof. done. Qed.

(** The bound of the table is an invariant of both operations. *)
Lemma Allow_bounded l key p now :
  1 <= max l -> len l <= max l ->
  len (Allow l key p now).2 <= max (Allow l key p now).2 /\ max (Allow l key p now).2 = max l.
Proof.
  intros Hm Hl. unfold Allow. destruct (p <=? 0); [done|].
  destruct (window l !! key) as [e|] eqn:E.
  - case_bool; simpl; unfold len in *; simpl; (split; [|done]);
      rewrite map_size_insert_Some by eauto; done.
  - destruct (max l <=? len l) eqn:Ef; cbn [andb]; bool_prop.
    + pose proof (sweep_size l now) as Hs.
      destruct (max (sweepLocked l now).2 <=? len (sweepLocked l now).2) eqn:Ef'; bool_prop.
      * split; [|done]. cbn [snd]. rewrite sweep_max. lia.
      * split; [|done]. rewrite sweep_max in Ef'. unfold len in *. cbn [snd set_window window max].
        pose proof (len_insert_le (window (sweepLocked l now).2) key {| start := now; n := 1 |}) as Hi.
        destruct (window (sweepLocked l now).2 !! key); simpl in *; lia.
    + split; [|done]. unfold len in *. cbn [snd set_window window max].
      pose proof (len_insert_le (window l) key {| start := now; n := 1 |}) as Hi.
      rewrite E in Hi. lia.
Qed.

(** ** The admission bound *)

Section bound.
Variables (key : bytes) (p : Z) (t0 : Z).
Hypothesis (Hp : 0 < p).

(** Attempts the current table can still admit for [key] during [t0, t0+60):
    what is left of a window opened inside the interval, or what is left of an
    older one plus one whole new window. *)
Definition budget (l : RateLimiter) : Z :=
  match window l !! key with
  | Some e =>
      if t0 <=? start e then Z.max 0 (p - n e) else Z.max 0 (p - n e) + p
  | None => p
  end.

Definition entry_ok (k : Z) (e : rlEntry) : Prop :=
  0 <= start e < t0 + 60 /\ 1 <= n e <= k.

Definition key_ok (k : Z) (l : RateLimiter) : Prop :=
  match window l !! key with Some e => entry_ok k e | None => True end.

Definition op_ok (x : Z * rl_op) : Prop :=
  t0 <= x.1 < t0 + 60 /\
  match x.2 with OpAllow k q => k = key -> q = p | OpSweep => True end.

Hypothesis (Ht0 : 0 <= t0 < 2 ^ 62).

Lemma i64_age now e k :
  t0 <= now < t0 + 60 -> entry_ok k e -> i64 (now - start e) = now - start e.
Proof. intros ? [? _]. apply i64_small. unfold in_i64. lia. Qed.

Definition hit (x : Z * rl_op) (ok : bool) : Z :=
  match x.2 with
  | OpAllow k _ => if ok && bool_decide (k = key) then 1 else 0
  | OpSweep => 0
  end.

Lemma sweep_budget l now k :
  t0 <= now < t0 + 60 -> key_ok k l ->
  key_ok k (sweepLocked l now).2 /\ budget (sweepLocked l now).2 <= budget l.
Proof.
  intros Hnow Hk. unfold key_ok, budget in *.
  destruct (window (sweepLocked l now).2 !! key) as [e|] eqn:E.
  - apply sweep_lookup in E as [E' _]. rewrite E' in *. split; [exact Hk|lia].
  - split; [done|]. destruct (window l !! key) as [e|] eqn:E'; [|done].
    assert (Hf : finished now e = true).
    { apply not_false_iff_true. intros Hf.
      assert (window (sweepLocked l now).2 !! key = Some e) by (by apply sweep_lookup).
      congruence. }
    unfold finished in Hf. rewrite (i64_age now e k) in Hf by done. bool_prop.
    rewrite (proj2 (Z.leb_gt t0 (start e))) by lia. destruct Hk as [_ ?]. lia.
Qed.

(** Only the entry of [key] matters, and every admitted attempt spends one
    unit of the budget. *)
Lemma Allow_other l k q now :
  k <> key -> window (Allow l k q now).2 !! key = window l !! key \/
              window (Allow l k q now).2 !! key = window (sweepLocked l now).2 !! key.
Proof.
  intros Hk. unfold Allow. destruct (q <=? 0); [by left|].
  destruct (window l !! k).
  - case_bool; left; cbn [snd set_window window]; by rewrite lookup_insert_ne.
  - destruct (max l <=? len l); cbn [andb]; [|left; cbn [snd set_window window]; by rewrite lookup_insert_ne].
    case_bool; cbn [snd set_window window]; right; [done|]. by rewrite lookup_insert_ne.
Qed.

Lemma budget_entry l l' : window l' !! key = window l !! key -> budget l' = budget l.
Proof. unfold budget. by intros ->. Qed.

Lemma key_ok_mono k k' l : k <= k' -> key_ok k l -> key_ok k' l.
Proof. unfold key_ok, entry_ok. intros ?. destruct (window l !! key); [lia|done]. Qed.

Lemma Allow_key l now k :
  t0 <= now < t0 + 60 -> 0 <= k < 2 ^ 62 -> key_ok k l ->
  let '(ok, l') := Allow l key p now in
  key_ok (k + 1) l' /\ (if ok then 1 else 0) + budget l' <= budget l.
Proof.
  intros Hnow Hk Hok. unfold Allow. rewrite (proj2 (Z.leb_gt p 0)) by done.
  pose proof (sweep_budget l now k Hnow Hok) as [Hsk Hsb].
  unfold key_ok in Hok. destruct (window l !! key) as [e|] eqn:E.
  - rewrite (i64_age now e k) by done. destruct Hok as [Hs Hn].
    destruct (now - start e <? 60) eqn:Ea; bool_prop.
    + rewrite i64_small by (unfold in_i64; lia). unfold key_ok, budget, entry_ok.
      cbn [set_window window n start]. rewrite lookup_insert_eq, E. cbn [n start].
      split; [lia|]. destruct (n e + 1 <=? p) eqn:Ele; bool_prop; case_bool; bool_prop; lia.
    + unfold key_ok, budget, entry_ok. cbn [set_window window n start].
      rewrite lookup_insert_eq, E. cbn [n start]. split; [lia|].
      rewrite (proj2 (Z.leb_le t0 now)), (proj2 (Z.leb_gt t0 (start e))) by lia. lia.
  - assert (Hins : forall w m, let l' := {| window := <[key := {| start := now; n := 1 |}]> w; max := m |} in
      key_ok (k + 1) l' /\ 1 + budget l' <= budget l).
    { intros w m. unfold key_ok, budget, entry_ok. cbn [window]. rewrite lookup_insert_eq, E.
      cbn [n start]. rewrite (proj2 (Z.leb_le t0 now)) by lia. lia. }
    destruct (max l <=? len l); cbn [andb]; [|apply Hins].
    case_bool; [|apply Hins]. split; [by apply (key_ok_mono k); [lia|]|lia].
Qed.

Lemma step_budget l now op k :
  op_ok (now, op) -> 0 <= k < 2 ^ 62 -> key_ok k l ->
  key_ok (k + 1) (rl_step l op now).2 /\
  hit (now, op) (rl_step l op now).1 + budget (rl_step l op now).2 <= budget l.
Proof.
  intros [Hnow Hop] Hk Hok. pose proof (sweep_budget l now k Hnow Hok) as [Hsk Hsb].
  destruct op as [k' q|]; simpl in Hnow, Hop.
  - cbn [rl_step]. destruct (decide (k' = key)) as [->|Hne].
    + rewrite Hop by done. pose proof (Allow_key l now k Hnow Hk Hok) as H.
      destruct (Allow l key p now) as [ok l']. destruct H as [? ?]. split; [done|].
      unfold hit. cbn [fst snd]. rewrite bool_decide_eq_true_2, andb_true_r by done. done.
    + unfold hit. cbn [fst snd]. rewrite bool_decide_eq_false_2, andb_false_r by done.
      destruct (Allow_other l k' q now Hne) as [He|He].
      * split; [|by rewrite (budget_entry l _ He)].
        apply (key_ok_mono k); [lia|]. unfold key_ok in *. by rewrite He.
      * split; [|by rewrite (budget_entry _ _ He)].
        apply (key_ok_mono k); [lia|]. unfold key_ok in *. by rewrite He.
  - split; [by apply (key_ok_mono k); [lia|]|].
    change (0 + budget (sweepLocked l now).2 <= budget l). lia.
Qed.

Lemma budget_nonneg l : 0 <= budget l.
Proof. unfold budget. destruct (window l !! key); [case_bool; lia|lia]. Qed.

Lemma run_budget ops l k :
  Forall op_ok ops -> 0 <= k -> k + Z.of_nat (length ops) < 2 ^ 62 -> key_ok k l ->
  (rl_run key l ops).1 <= budget l.
Proof.
  revert l k. induction ops as [|[now op] ops IH]; intros l k Hops Hk Hlen Hok.
  - apply budget_nonneg.
  - apply Forall_cons in Hops as [Hop Hops]. cbn [length] in Hlen.
    destruct (step_budget l now op k Hop ltac:(lia) Hok) as [Hok' Hb].
    cbn [rl_run]. destruct (rl_step l op now) as [ok l']. cbn [fst snd] in *.
    specialize (IH l' (k + 1) Hops ltac:(lia) ltac:(lia) Hok').
    destruct (rl_run key l' ops) as [c l'']. cbn [fst snd] in *. unfold hit in Hb. cbn [fst snd] in Hb.
    destruct op; lia.
Qed.
End bound.

(** Every table reached from a fresh limiter respects its bound. *)
Lemma rl_run_bounded key ops l :
  1 <= max l -> len l <= max l ->
  len (rl_run key l ops).2 <= max l /\ max (rl_run key l ops).2 = max l.
Proof.
  revert l. induction ops as [|[now op] ops IH]; intros l Hm Hl; [done|].
  assert (Hs : len (rl_step l op now).2 <= max l /\ max (rl_step l op now).2 = max l).
  { destruct op as [k q|]; cbn [rl_step].
    - destruct (Allow_bounded l k q now Hm Hl) as [H1 H2]. by rewrite H2 in H1.
    - split; [|done]. pose proof (sweep_size l now). unfold Sweep. simpl snd in *. lia. }
  cbn [rl_run]. destruct (rl_step l op now) as [ok l']. cbn [fst snd] in *.
  destruct Hs as [Hs1 Hs2]. specialize (IH l'). rewrite Hs2 in IH.
  destruct (rl_run key l' ops). simpl in *. auto.
Qed.

Lemma NewRateLimiter_max m : 1 <= max (NewRateLimiter m).
Proof. unfold NewRateLimiter, DefaultRateLimitEntries. simpl. case_bool; bool_prop; lia. Qed.

(** ** Properties *)

(** C26: whatever the interleaving of attempts (on any keys) and sweeps, one
    key is admitted at most twice its limit in any sixty-second interval. *)
Theorem RateLimiter_bound key p t0 l k ops
    (Hp : 0 < p) (Ht0 : 0 <= t0 < 2 ^ 62)
    (Hok : key_ok key t0 k l) (Hk : 0 <= k) (Hlen : k + Z.of_nat (length ops) < 2 ^ 62)
    (Hops : Forall (op_ok key p t0) ops) :
  (rl_run key l ops).1 <= 2 * p.
Proof.
  etrans; [by eapply run_budget|].
  unfold key_ok, budget, entry_ok in *.
  destruct (window l !! key) as [e|]; [|lia]. case_bool; lia.
Qed.

(** The table of windows never outgrows its configured maximum, however
    many distinct sources are thrown at it, in any sequence of calls. *)
Theorem RateLimiter_table_bounded m key ops :
  len (rl_run key (NewRateLimiter m) ops).2 <= max (NewRateLimiter m).
Proof.
  pose proof (NewRateLimiter_max m). apply rl_run_bounded; [done|].
  change (0 <= max (NewRateLimiter m)). lia.
Qed.

(** An attempt is refused only when its window is used up or the table is
    full of unfinished windows; so a source inside its limit is admitted. *)
Theorem Allow_refuses_only_when l key p now
    (Hrefused : (Allow l key p now).1 = false) :
  0 < p /\
  ((exists e, window l !! key = Some e /\ i64 (now - start e) < 60 /\ p < i64 (n e + 1)) \/
   (window l !! key = None /\ max l <= len l /\ max l <= len (sweepLocked l now).2)).
Proof.
  revert Hrefused. unfold Allow. destruct (p <=? 0) eqn:Ep; [done|]. bool_prop.
  destruct (window l !! key) as [e|].
  - case_bool; [|done]. cbn [fst n]. intros H. bool_prop. split; [done|]. left. eauto.
  - destruct (max l <=? len l) eqn:Ef; cbn [andb]; [|done]. case_bool; [|done]. intros _.
    bool_prop. split; [done|]. right. done.
Qed.

Definition ex_flood : list (Z * rl_op) :=
  map (fun i => (1000 + Z.of_nat i, OpAllow (lit "a|1.2.3.4") 3)) (seq 0 59).

Lemma RateLimiter_bound_witness :
  (rl_run (lit "a|1.2.3.4") (NewRateLimiter 0) ex_flood).1 <= 2 * 3.
Proof.
  apply (RateLimiter_bound _ 3 1000 _ 0); try (vm_compute; done).
  - apply Forall_forall. intros x Hx. unfold ex_flood in Hx.
    apply list_elem_of_In, in_map_iff in Hx as (i & <- & Hi%in_seq).
    split; [cbn [fst]; lia|done].
Defined.

Lemma Allow_refuses_only_when_witness :
  (Allow (rl_run (lit "a") (NewRateLimiter 0)
            [(5, OpAllow (lit "a") 1)]).2 (lit "a") 1 6).1 = false /\ 0 < 1.
Proof.
  split; [vm_compute; reflexivity|].
  eapply (Allow_refuses_only_when
    (rl_run (lit "a") (NewRateLimiter 0) [(5, OpAllow (lit "a") 1)]).2 (lit "a") 1 6).
  vm_compute. reflexivity.
Defined.
