(* ===== verification/Store.v ===== *)
(** * Store: the grant store ([core/go/store.go], [GrantStore]).

    The mutex makes every method atomic, so a run of the store is a sequence of
    calls.  A [map[string]map[string]bool] whose inner maps only ever hold
    [true] is a map to sets.  A [range] over a map visits its entries once each
    in an unspecified order: the loops take the order as an argument, and the
    lemmas about them hold for every order.

    The component's contract is [GrantBackend]: the store behaves as a plain
    finite map from keys to grants, without the index by kid. *)

From S2P Require Import Prelude Binary Sha256 Registry.

Definition BindingIP : bytes := Eval vm_compute in lit "ip".
Definition BindingIPCookie : bytes := Eval vm_compute in lit "ip+cookie".

Record Grant := mkGrant {
  gV : Z;
  gKid : bytes;
  gService : bytes;
  gIP : bytes;
  gBinding : bytes;
  gCookieHash : bytes;
  gIssued : Z;
  gExp : Z;
  gManual : bool;
  gSecretFP : bytes }.

#[export] Instance Grant_eq_dec : EqDecision Grant.
Proof. solve_decision. Defined.

Definition CookieHash (v : bytes) : bytes := hex.EncodeToString (sha256.Sum256 v).

Definition GrantKey (serviceCanon ipCanon : bytes) : bytes :=
  lit "jit:grant:" ++ serviceCanon ++ lit ":" ++ ipCanon.

Definition GrantKeyCookie (serviceCanon ipCanon cookieHash : bytes) : bytes :=
  GrantKey serviceCanon ipCanon ++ lit ":" ++ cookieHash.

Definition keyFor (g : Grant) : bytes :=
  if bool_decide (gBinding g = BindingIPCookie) && negb (bool_decide (gCookieHash g = []))
  then GrantKeyCookie (gService g) (gIP g) (gCookieHash g)
  else GrantKey (gService g) (gIP g).

Record GrantStore := mkStore {
  grants : gmap bytes Grant;
  byKid : gmap bytes (gset bytes) }.

Definition NewGrantStore : GrantStore := {| grants := ∅; byKid := ∅ |}.

Definition unindexLocked (s : GrantStore) (kid key : bytes) : GrantStore :=
  match byKid s !! kid with
  | None => s
  | Some m =>
      let m' := m ∖ {[ key ]} in
      {| grants := grants s;
         byKid := if decide (m' = ∅) then delete kid (byKid s) else <[kid := m']> (byKid s) |}
  end.

(** [delete(s.grants, k)] *)
Definition drop_grant (s : GrantStore) (k : bytes) : GrantStore :=
  {| grants := delete k (grants s); byKid := byKid s |}.

(** The body of the loop over [oldCookieHash]. *)
Definition retire (g : Grant) (s : GrantStore) (oh : bytes) : GrantStore :=
  if bool_decide (oh = []) || bool_decide (oh = gCookieHash g) then s
  else
    let ok := GrantKeyCookie (gService g) (gIP g) oh in
    match grants s !! ok with
    | Some prev => drop_grant (unindexLocked s (gKid prev) ok) ok
    | None => s
    end.

Definition Put (s : GrantStore) (g : option Grant) (oldCookieHash : list bytes) : GrantStore :=
  match g with
  | None => s
  | Some g =>
      let k := keyFor g in
      let s := foldl (retire g) s oldCookieHash in
      let s := match grants s !! k with
               | Some old => unindexLocked s (gKid old) k
               | None => s
               end in
      {| grants := <[k := g]> (grants s);
         byKid := <[gKid g := default ∅ (byKid s !! gKid g) ∪ {[ k ]}]> (byKid s) |}
  end.

Definition IsAllowed (s : GrantStore) (serviceCanon ipCanon : bytes) (reg : option Registry)
    (now : Z) (cookie : bytes) : option Grant :=
  let g := if bool_decide (cookie = []) then None
           else grants s !! GrantKeyCookie serviceCanon ipCanon (CookieHash cookie) in
  let g := match g with
           | None => grants s !! GrantKey serviceCanon ipCanon
           | Some _ => g
           end in
  g ← g;
  if gExp g <=? now then None
  else if negb (bool_decide (gService g = serviceCanon)) || negb (bool_decide (gIP g = ipCanon))
  then None
  else
    _ ← (
      if gManual g then Some tt
      else
        let t := Lookup reg (gKid g) in
        if match t with
           | None => true
           | Some t => negb (bool_decide (Alg t = AlgHMACSHA256)) || IsExpired (Some t) now
           end then None
        else if negb (AllowedForService reg (gKid g) serviceCanon) then None
        else if negb (bool_decide (gSecretFP g = Fingerprint t)) then None
        else Some tt);
    if bool_decide (gBinding g = BindingIPCookie) then
      if bool_decide (cookie = []) || bool_decide (gCookieHash g = []) then None
      else if negb (bool_decide (CookieHash cookie = gCookieHash g)) then None
      else Some g
    else Some g.

Definition same_client (serviceCanon ipCanon : bytes) (g : Grant) : bool :=
  bool_decide (gService g = serviceCanon) && bool_decide (gIP g = ipCanon).

Definition Get_in (order : list (bytes * Grant)) (s : GrantStore) (serviceCanon ipCanon : bytes)
    : option Grant :=
  match grants s !! GrantKey serviceCanon ipCanon with
  | Some g => Some g
  | None => snd <$> (snd <$> list_find (fun kg => same_client serviceCanon ipCanon kg.2) order)
  end.

Definition Get (s : GrantStore) (serviceCanon ipCanon : bytes) : option Grant :=
  Get_in (map_to_list (grants s)) s serviceCanon ipCanon.

Definition Revoke_in (order : list (bytes * Grant)) (s : GrantStore) (serviceCanon ipCanon : bytes)
    : bool * GrantStore :=
  foldl (fun '(removed, s) '(k, g) =>
    if same_client serviceCanon ipCanon g
    then (true, drop_grant (unindexLocked s (gKid g) k) k)
    else (removed, s)) (false, s) order.

Definition Revoke (s : GrantStore) (serviceCanon ipCanon : bytes) : bool * GrantStore :=
  Revoke_in (map_to_list (grants s)) s serviceCanon ipCanon.

Definition RevokeToken_in (keys : list bytes) (s : GrantStore) (kid : bytes) : Z * GrantStore :=
  let '(n, s) :=
    foldl (fun '(n, s) k =>
      match grants s !! k with
      | Some _ => (n + 1, drop_grant s k)
      | None => (n, s)
      end) (0, s) keys in
  (n, {| grants := grants s; byKid := delete kid (byKid s) |}).

Definition RevokeToken (s : GrantStore) (kid : bytes) : Z * GrantStore :=
  RevokeToken_in (elements (default ∅ (byKid s !! kid))) s kid.

Definition List (s : GrantStore) (now : Z) : list Grant :=
  filter (fun g => now < gExp g) (snd <$> map_to_list (grants s)).

Definition Sweep_in (order : list (bytes * Grant)) (s : GrantStore) (now : Z) : Z * GrantStore :=
  foldl (fun '(n, s) '(k, g) =>
    if gExp g <=? now
    then (n + 1, drop_grant (unindexLocked s (gKid g) k) k)
    else (n, s)) (0, s) order.

Definition Sweep (s : GrantStore) (now : Z) : Z * GrantStore :=
  Sweep_in (map_to_list (grants s)) s now.

(** ** The index *)

Definition keys_of (kid : bytes) (m : gmap bytes Grant) : gset bytes :=
  dom (filter (fun kg => gKid kg.2 = kid) m).

Definition nonempty (ks : gset bytes) : option (gset bytes) :=
  if decide (ks = ∅) then None else Some ks.

(** The well-formed stores: every grant is filed under its own key, and the
    index holds, for each kid that has a grant, exactly the keys of its grants. *)
Record wf (s : GrantStore) : Prop := {
  wf_key : forall k g, grants s !! k = Some g -> k = keyFor g;
  wf_index : forall kid, byKid s !! kid = nonempty (keys_of kid (grants s)) }.

Lemma elem_of_keys_of kid m k :
  k ∈ keys_of kid m <-> exists g, m !! k = Some g /\ gKid g = kid.
Proof.
  unfold keys_of. rewrite elem_of_dom. unfold is_Some.
  setoid_rewrite map_lookup_filter_Some. done.
Qed.

(** A well-formed store is determined by its grants. *)
Lemma wf_ext s s' : wf s -> wf s' -> grants s = grants s' -> s = s'.
Proof.
  destruct s as [m i], s' as [m' i']. intros [_ H] [_ H'] E. simpl in *. subst m'.
  f_equal. apply map_eq. intros kid. by rewrite H, H'.
Qed.

Lemma wf_NewGrantStore : wf NewGrantStore.
Proof.
  split; simpl; [done|]. intros kid. rewrite lookup_empty. unfold nonempty.
  case_decide as E; [done|]. destruct E. apply set_eq. intros k.
  rewrite elem_of_keys_of. setoid_rewrite lookup_empty. set_solver.
Qed.

Lemma keys_of_delete kid m k : keys_of kid (delete k m) = keys_of kid m ∖ {[ k ]}.
Proof.
  apply set_eq. intros k'. rewrite elem_of_difference, elem_of_singleton, !elem_of_keys_of.
  destruct (decide (k' = k)) as [->|Hne].
  - rewrite lookup_delete_eq. naive_solver.
  - rewrite lookup_delete_ne by done. naive_solver.
Qed.

Lemma keys_of_insert kid m k g :
  m !! k = None ->
  keys_of kid (<[k := g]> m) = if decide (gKid g = kid) then keys_of kid m ∪ {[ k ]} else keys_of kid m.
Proof.
  intros Hn. apply set_eq. intros k'. rewrite elem_of_keys_of.
  destruct (decide (k' = k)) as [->|Hne].
  - rewrite lookup_insert_eq. case_decide; rewrite ?elem_of_union, elem_of_keys_of, Hn; set_solver.
  - rewrite lookup_insert_ne by done.
    case_decide; rewrite ?elem_of_union, elem_of_keys_of; set_solver.
Qed.

Lemma nonempty_default ks : default ∅ (nonempty ks) = ks.
Proof. unfold nonempty. by case_decide. Qed.

Lemma nonempty_Some ks : ks <> ∅ -> nonempty ks = Some ks.
Proof. unfold nonempty. by case_decide. Qed.

(** Unindexing a stored key and deleting it keeps the index exact. *)
Lemma unindex_grants s kid k : grants (unindexLocked s kid k) = grants s.
Proof. unfold unindexLocked. by destruct (byKid s !! kid). Qed.

Lemma unindex_lookup s kid k kid' :
  wf s ->
  byKid (unindexLocked s kid k) !! kid' =
    nonempty (if decide (kid' = kid) then keys_of kid' (grants s) ∖ {[ k ]}
              else keys_of kid' (grants s)).
Proof.
  intros [_ Hi]. unfold unindexLocked. rewrite Hi.
  destruct (decide (kid' = kid)) as [->|Hne].
  - unfold nonempty at 1. case_decide as E.
    + rewrite Hi, E. f_equal. set_solver.
    + cbn [byKid]. case_decide as E'.
      * rewrite lookup_delete_eq. unfold nonempty. by case_decide.
      * rewrite lookup_insert_eq. by rewrite nonempty_Some.
  - rewrite <- (Hi kid'). destruct (nonempty (keys_of kid (grants s))); [|done].
    cbn [byKid]. case_decide; [by rewrite lookup_delete_ne|by rewrite lookup_insert_ne].
Qed.

Lemma drop_wf s k g :
  wf s -> grants s !! k = Some g -> wf (drop_grant (unindexLocked s (gKid g) k) k).
Proof.
  intros Hwf Hg. split.
  - intros k' g'. cbn [drop_grant grants]. rewrite unindex_grants.
    intros [_ H]%lookup_delete_Some. by apply Hwf.
  - intros kid. cbn [drop_grant grants byKid].
    rewrite unindex_lookup, unindex_grants, keys_of_delete by done.
    case_decide as E; [done|]. f_equal. apply set_eq. intros k'.
    rewrite elem_of_difference, elem_of_keys_of, elem_of_singleton. naive_solver.
Qed.

Lemma drop_grants s kid k : grants (drop_grant (unindexLocked s kid k) k) = delete k (grants s).
Proof. cbn [drop_grant grants]. by rewrite unindex_grants. Qed.

Lemma Put_index_wf s k g :
  wf s -> k = keyFor g -> grants s !! k = None ->
  wf {| grants := <[k := g]> (grants s);
        byKid := <[gKid g := default ∅ (byKid s !! gKid g) ∪ {[ k ]}]> (byKid s) |}.
Proof.
  intros [Hk Hi] -> Hn. split; cbn [grants byKid].
  - intros k' g' [[<- <-]|[_ H]]%lookup_insert_Some; [done|by apply Hk].
  - intros kid. rewrite keys_of_insert by done. rewrite Hi, nonempty_default.
    destruct (decide (gKid g = kid)) as [->|Hne].
    + rewrite lookup_insert_eq. symmetry. apply nonempty_Some. set_solver.
    + rewrite lookup_insert_ne by done. apply Hi.
Qed.

(** ** The abstract store *)

(** What the store promises: a finite map from keys to grants. *)
Notation agrants := (gmap bytes Grant).

Definition retired_keys (g : Grant) (old : list bytes) : list bytes :=
  GrantKeyCookie (gService g) (gIP g) <$> filter (fun oh => oh <> [] /\ oh <> gCookieHash g) old.

Definition aPut (m : agrants) (g : Grant) (old : list bytes) : agrants :=
  <[keyFor g := g]> (foldl (fun m k => delete k m) m (retired_keys g old)).

Definition aRevoke (m : agrants) (svc ip : bytes) : agrants :=
  filter (fun kg => same_client svc ip kg.2 = false) m.

Definition aRevokeToken (m : agrants) (kid : bytes) : agrants :=
  filter (fun kg => gKid kg.2 <> kid) m.

Definition aSweep (m : agrants) (now : Z) : agrants :=
  filter (fun kg => now < gExp kg.2) m.

(** The decision on a candidate grant, as one predicate: what the code checks
    branch by branch. *)
Record admits (g : Grant) (svc ip : bytes) (reg : option Registry) (now : Z) (cookie : bytes)
    : Prop := {
  adm_live : now < gExp g;
  adm_service : gService g = svc;
  adm_ip : gIP g = ip;
  adm_token : gManual g = true \/
    exists t, authorized reg (gKid g) svc now t /\ gSecretFP g = Fingerprint (Some t);
  adm_cookie : gBinding g = BindingIPCookie ->
    cookie <> [] /\ gCookieHash g <> [] /\ CookieHash cookie = gCookieHash g }.

Definition candidate (m : agrants) (svc ip cookie : bytes) : option Grant :=
  let g := if bool_decide (cookie = []) then None
           else m !! GrantKeyCookie svc ip (CookieHash cookie) in
  match g with None => m !! GrantKey svc ip | Some _ => g end.

(** The registry re-check of [IsAllowed], on a grant that is not break-glass. *)
Lemma recheck_iff g svc reg now :
  (let t := Lookup reg (gKid g) in
   if match t with
      | None => true
      | Some t => negb (bool_decide (Alg t = AlgHMACSHA256)) || IsExpired (Some t) now
      end then None
   else if negb (AllowedForService reg (gKid g) svc) then None
   else if negb (bool_decide (gSecretFP g = Fingerprint t)) then None
   else Some tt) = Some tt <->
  exists t, authorized reg (gKid g) svc now t /\ gSecretFP g = Fingerprint (Some t).
Proof.
  cbn zeta. split.
  - destruct (Lookup reg (gKid g)) as [t|] eqn:El; [|done].
    destruct (negb _ || IsExpired _ _) eqn:Ea; [done|]. bool_prop.
    destruct (negb (AllowedForService _ _ _)) eqn:Ew; [done|].
    destruct (negb (bool_decide (gSecretFP g = _))) eqn:Ef; [done|]. intros _. bool_prop.
    exists t. split; [|done]. apply IsExpired_false in H0. by split.
  - intros (t & [El Ha Hl Hw] & Hf). rewrite El, bool_decide_eq_true_2 by done.
    rewrite (proj2 (IsExpired_false _ _) Hl), Hw. cbn [negb orb].
    by rewrite bool_decide_eq_true_2.
Qed.

Lemma IsAllowed_iff s svc ip reg now cookie g :
  IsAllowed s svc ip reg now cookie = Some g <->
  candidate (grants s) svc ip cookie = Some g /\ admits g svc ip reg now cookie.
Proof.
  unfold IsAllowed, candidate. cbv zeta.
  match goal with |- _ <-> ?c = _ /\ _ => destruct c as [g'|] end; cbn [mbind option_bind];
    [|split; [done|by intros [? _]]].
  split.
  - destruct (gExp g' <=? now) eqn:Ee; [done|].
    destruct (negb _ || negb _) eqn:Es; [done|]. bool_prop.
    intros Hg. apply bind_Some in Hg as ([] & Hr & Hc).
    assert (g' = g /\ (gBinding g = BindingIPCookie ->
      cookie <> [] /\ gCookieHash g <> [] /\ CookieHash cookie = gCookieHash g)) as [<- Hcc].
    { revert Hc. destruct (bool_decide (gBinding g' = _)) eqn:Eb; [|by intros [= ->]; bool_prop].
      destruct (bool_decide _ || bool_decide _) eqn:Eo; [done|].
      destruct (negb (bool_decide (CookieHash _ = _))) eqn:Eh; [done|].
      intros [= ->]. bool_prop. auto. }
    split; [done|]. split; auto.
    destruct (gManual g'); [by left|right]. by apply recheck_iff.
  - intros [[= ->] [Hl Hs Hi Ht Hc]].
    rewrite (proj2 (Z.leb_gt _ _)), !bool_decide_eq_true_2 by done. cbn [negb orb].
    assert (Hr : (if gManual g then Some tt else _) = Some tt) by
      (destruct (gManual g) eqn:Em; [done|]; apply recheck_iff; destruct Ht; [congruence|done]).
    rewrite Hr. cbn [mbind option_bind].
    case_bool; [|done]. bool_prop. destruct (Hc Heqb) as (H1 & H2 & H3).
    by rewrite !bool_decide_eq_false_2, bool_decide_eq_true_2 by done.
Qed.

(** ** The loops *)

(** [Revoke] and [Sweep] are one loop: drop the grants that satisfy [P], and
    update an accumulator by [f] for each. *)
Definition purge_step {A} (P : Grant -> bool) (f : A -> A) : A * GrantStore -> bytes * Grant -> A * GrantStore :=
  fun '(a, s) '(k, g) =>
    if P g then (f a, drop_grant (unindexLocked s (gKid g) k) k) else (a, s).

Lemma purge_spec {A} P (f : A -> A) order a s :
  wf s -> NoDup order.*1 -> (forall k g, (k, g) ∈ order -> grants s !! k = Some g) ->
  exists s', foldl (purge_step P f) (a, s) order =
               (Nat.iter (length (filter (fun kg => P kg.2 = true) order)) f a, s') /\
    wf s' /\
    forall k g, grants s' !! k = Some g <-> grants s !! k = Some g /\ ~ ((k, g) ∈ order /\ P g = true).
Proof.
  revert a s. induction order as [|[k g] order IH]; intros a s Hwf Hnd Hin.
  - exists s. split; [done|]. split; [done|]. set_solver.
  - apply NoDup_cons in Hnd as [Hk Hnd].
    assert (Hg : grants s !! k = Some g) by (apply Hin; left).
    assert (Hne : forall k' g', (k', g') ∈ order -> k' <> k).
    { intros k' g' Hkg ->. apply Hk. apply list_elem_of_fmap. by exists (k, g'). }
    cbn [foldl]. cbn [purge_step]. destruct (P g) eqn:EP.
    + destruct (IH (f a) (drop_grant (unindexLocked s (gKid g) k) k)) as (s' & -> & Hwf' & Hs').
      { by apply drop_wf. } { done. }
      { intros k' g' Hkg. rewrite drop_grants, lookup_delete_ne by (symmetry; eauto).
        apply Hin. by right. }
      exists s'. rewrite filter_cons_True by done. cbn [length]. rewrite Nat.iter_succ_r.
      split; [done|]. split; [done|]. intros k' g'. rewrite Hs', drop_grants, lookup_delete_Some.
      rewrite elem_of_cons. naive_solver congruence.
    + destruct (IH a s) as (s' & -> & Hwf' & Hs'); [done|done| |].
      { intros k' g' Hkg. apply Hin. by right. }
      exists s'. rewrite filter_cons_False by (cbn [snd]; congruence).
      split; [done|]. split; [done|]. intros k' g'. rewrite Hs', elem_of_cons.
      naive_solver congruence.
Qed.

(** A complete pass over a well-formed store, in any order. *)
Lemma purge_all {A} P (f : A -> A) order a s :
  wf s -> order ≡ₚ map_to_list (grants s) ->
  exists s', foldl (purge_step P f) (a, s) order =
               (Nat.iter (size (filter (fun kg => P kg.2 = true) (grants s))) f a, s') /\
    wf s' /\ grants s' = filter (fun kg => P kg.2 = false) (grants s).
Proof.
  intros Hwf Hp.
  destruct (purge_spec P f order a s Hwf) as (s' & -> & Hwf' & Hs').
  - rewrite Hp. apply NoDup_fst_map_to_list.
  - intros k g. rewrite Hp. apply elem_of_map_to_list.
  - exists s'. split; [|split; [done|]].
    + by rewrite (length_filter_order _ _ _ Hp).
    + apply map_eq. intros k. apply option_eq. intros g.
      rewrite Hs', Hp, elem_of_map_to_list, map_lookup_filter_Some. cbn [snd].
      destruct (P g); naive_solver.
Qed.

Lemma iter_true n a : Nat.iter n (fun _ => true) a = a || negb (n =? 0)%nat.
Proof. destruct n; simpl; by rewrite ?orb_false_r, ?orb_true_r. Qed.

Lemma iter_succ n a : Nat.iter n (fun x => x + 1) a = a + Z.of_nat n.
Proof. induction n as [|n IH]; simpl; lia. Qed.

(** ** Refinement, operation by operation *)

Definition revoked (svc ip : bytes) (m : agrants) : agrants :=
  filter (fun kg => same_client svc ip kg.2 = true) m.

Lemma Revoke_in_spec order s svc ip :
  wf s -> order ≡ₚ map_to_list (grants s) ->
  exists s', Revoke_in order s svc ip = (negb (bool_decide (revoked svc ip (grants s) = ∅)), s') /\
    wf s' /\ grants s' = aRevoke (grants s) svc ip.
Proof.
  intros Hwf Hp.
  destruct (purge_all (same_client svc ip) (fun _ => true) order false s Hwf Hp) as (s' & He & Hs').
  exists s'. split; [|done].
  change (Revoke_in order s svc ip) with
    (foldl (purge_step (same_client svc ip) (fun _ => true)) (false, s) order).
  rewrite He, iter_true. fold (revoked svc ip (grants s)). f_equal. cbn [orb]. f_equal.
  apply eq_true_iff_eq. rewrite Nat.eqb_eq, bool_decide_eq_true. apply map_size_empty_iff.
Qed.

Lemma Sweep_in_spec order s now :
  wf s -> order ≡ₚ map_to_list (grants s) ->
  exists s', Sweep_in order s now =
    (Z.of_nat (size (grants s)) - Z.of_nat (size (aSweep (grants s) now)), s') /\
    wf s' /\ grants s' = aSweep (grants s) now.
Proof.
  intros Hwf Hp.
  destruct (purge_all (fun g => gExp g <=? now) (fun n => n + 1) order 0 s Hwf Hp)
    as (s' & He & Hwf' & Hs').
  assert (Ha : aSweep (grants s) now = filter (fun kg => (gExp kg.2 <=? now) = false) (grants s)).
  { unfold aSweep. apply map_filter_ext. intros k g _. cbn [snd]. by rewrite Z.leb_gt. }
  exists s'. rewrite Ha. split; [|done].
  change (Sweep_in order s now) with
    (foldl (purge_step (fun g => gExp g <=? now) (fun n => n + 1)) (0, s) order).
  rewrite He, iter_succ. f_equal.
  pose proof (map_size_disj_union (filter (fun kg => (gExp kg.2 <=? now) = true) (grants s))
    (filter (fun kg => ~ (gExp kg.2 <=? now) = true) (grants s)) (map_disjoint_filter_complement _ _)) as Hu.
  rewrite map_filter_union_complement in Hu.
  assert (Hc : filter (fun kg => ~ (gExp kg.2 <=? now) = true) (grants s) =
               filter (fun kg => (gExp kg.2 <=? now) = false) (grants s)).
  { apply map_filter_ext. intros k g _. cbn [snd]. by rewrite not_true_iff_false. }
  rewrite Hc in Hu. lia.
Qed.

Lemma revoke_token_loop keys n s :
  NoDup keys -> (forall k, k ∈ keys -> is_Some (grants s !! k)) ->
  foldl (fun '(n, s) k =>
      match grants s !! k with Some _ => (n + 1, drop_grant s k) | None => (n, s) end)
    (n, s) keys =
  (n + Z.of_nat (length keys),
   {| grants := foldl (fun m k => delete k m) (grants s) keys; byKid := byKid s |}).
Proof.
  revert n s. induction keys as [|k keys IH]; intros n s Hnd Hin.
  - cbn. f_equal; [lia|by destruct s].
  - apply NoDup_cons in Hnd as [Hk Hnd].
    destruct (Hin k) as [g Hg]; [left|]. cbn [foldl]. rewrite Hg, IH; [|done|].
    + f_equal. cbn [length]. lia.
    + intros k' Hk'. cbn [drop_grant grants].
      rewrite lookup_delete_ne by (intros ->; done). apply Hin. by right.
Qed.

Lemma foldl_delete_lookup (m : agrants) keys k :
  foldl (fun m k => delete k m) m keys !! k = if decide (k ∈ keys) then None else m !! k.
Proof.
  revert m. induction keys as [|k' keys IH]; intros m; cbn [foldl].
  - case_decide; [set_solver|done].
  - rewrite IH. destruct (decide (k = k')) as [->|Hne].
    + rewrite lookup_delete_eq, (decide_True _ _ (list_elem_of_here k' keys)). by case_decide.
    + rewrite lookup_delete_ne by done. do 2 case_decide; set_solver.
Qed.

Lemma RevokeToken_spec s kid :
  wf s ->
  exists s', RevokeToken s kid =
    (Z.of_nat (size (grants s)) - Z.of_nat (size (aRevokeToken (grants s) kid)), s') /\
    wf s' /\ grants s' = aRevokeToken (grants s) kid.
Proof.
  intros [Hk Hi].
  set (ks := elements (keys_of kid (grants s))).
  assert (Hks : forall k, k ∈ ks <-> exists g, grants s !! k = Some g /\ gKid g = kid)
    by (intros k; unfold ks; rewrite elem_of_elements; apply elem_of_keys_of).
  assert (Hm : foldl (fun m k => delete k m) (grants s) ks = aRevokeToken (grants s) kid).
  { apply map_eq. intros k. rewrite foldl_delete_lookup. apply option_eq. intros g.
    unfold aRevokeToken. rewrite map_lookup_filter_Some. cbn [snd].
    case_decide as E; rewrite Hks in E; naive_solver. }
  exists {| grants := aRevokeToken (grants s) kid; byKid := delete kid (byKid s) |}.
  split; [|split; [|done]].
  - unfold RevokeToken, RevokeToken_in. rewrite Hi, nonempty_default. fold ks.
    rewrite revoke_token_loop.
    + cbn [grants byKid]. rewrite Hm. f_equal.
      pose proof (map_size_disj_union (filter (fun kg => gKid kg.2 = kid) (grants s))
        (filter (fun kg => gKid kg.2 <> kid) (grants s)) (map_disjoint_filter_complement _ _)) as Hu.
      rewrite map_filter_union_complement in Hu. unfold aRevokeToken.
      assert (length ks = size (filter (fun kg => gKid kg.2 = kid) (grants s))) as ->.
      { unfold ks, keys_of. rewrite <- size_dom. done. }
      lia.
    + apply NoDup_elements.
    + intros k Hk'. apply Hks in Hk' as (g & ? & _). eauto.
  - split; cbn [grants byKid].
    + intros k g [H _]%map_lookup_filter_Some. by apply Hk.
    + intros kid'. destruct (decide (kid' = kid)) as [->|Hne].
      * rewrite lookup_delete_eq. unfold nonempty. case_decide as E; [done|]. destruct E.
        apply set_eq. intros k. rewrite elem_of_keys_of. unfold aRevokeToken.
        setoid_rewrite map_lookup_filter_Some. set_solver.
      * rewrite lookup_delete_ne, Hi by done. f_equal. apply set_eq. intros k.
        rewrite !elem_of_keys_of. unfold aRevokeToken. setoid_rewrite map_lookup_filter_Some.
        naive_solver.
Qed.

Lemma retire_spec g s oh :
  wf s ->
  wf (retire g s oh) /\
  grants (retire g s oh) =
    if decide (oh <> [] /\ oh <> gCookieHash g)
    then delete (GrantKeyCookie (gService g) (gIP g) oh) (grants s) else grants s.
Proof.
  intros Hwf. unfold retire.
  destruct (bool_decide _ || bool_decide _) eqn:E.
  - split; [done|]. rewrite decide_False; [done|]. intros [? ?].
    rewrite !bool_decide_eq_false_2 in E by done. done.
  - bool_prop. rewrite decide_True by done.
    destruct (grants s !! _) as [prev|] eqn:Eg.
    + split; [by apply drop_wf|apply drop_grants].
    + split; [done|]. by rewrite delete_id.
Qed.

Lemma Put_spec s g old :
  wf s -> wf (Put s (Some g) old) /\ grants (Put s (Some g) old) = aPut (grants s) g old.
Proof.
  intros Hwf. unfold Put, aPut, retired_keys.
  assert (Hr : wf (foldl (retire g) s old) /\ grants (foldl (retire g) s old) =
    foldl (fun m k => delete k m) (grants s)
      (GrantKeyCookie (gService g) (gIP g) <$> filter (fun oh => oh <> [] /\ oh <> gCookieHash g) old)).
  { revert s Hwf. induction old as [|oh old IH]; intros s Hwf; [done|].
    destruct (retire_spec g s oh Hwf) as [Hwf' He]. cbn [foldl].
    destruct (IH _ Hwf') as [? ->]. split; [done|]. rewrite He, filter_cons. by case_decide. }
  destruct Hr as [Hwf' He]. rewrite <- He.
  set (s1 := foldl (retire g) s old) in *. clearbody s1.
  destruct (grants s1 !! keyFor g) as [o|] eqn:Eo.
  - pose proof (drop_wf s1 _ _ Hwf' Eo) as Hd.
    pose proof (Put_index_wf _ _ g Hd eq_refl) as Hp.
    rewrite drop_grants, lookup_delete_eq in Hp. rewrite insert_delete_eq in Hp.
    cbn [drop_grant byKid] in Hp. rewrite unindex_grants. split; [by apply Hp|done].
  - split; [by apply Put_index_wf|done].
Qed.

(** ** The contract *)

(** The operations of a grant backend, and the laws the engines rely on: it
    represents a finite map, and every operation acts on that map as the
    abstract one.  [repr] is the representation relation. *)
Class GrantBackend (B : Type) := {
  gb_new : B;
  gb_put : B -> Grant -> list bytes -> B;
  gb_allowed : B -> bytes -> bytes -> option Registry -> Z -> bytes -> option Grant;
  gb_revoke : B -> bytes -> bytes -> bool * B;
  gb_revoke_token : B -> bytes -> Z * B;
  gb_sweep : B -> Z -> Z * B }.

Definition decides (m : agrants) (svc ip : bytes) (reg : option Registry) (now : Z)
    (cookie : bytes) (r : option Grant) : Prop :=
  forall g, r = Some g <-> candidate m svc ip cookie = Some g /\ admits g svc ip reg now cookie.

Class GrantBackendLaws (B : Type) `{GrantBackend B} := {
  gb_repr : B -> agrants -> Prop;
  gb_new_law : gb_repr gb_new ∅;
  gb_put_law : forall b m g old, gb_repr b m -> gb_repr (gb_put b g old) (aPut m g old);
  gb_allowed_law : forall b m svc ip reg now cookie, gb_repr b m ->
    decides m svc ip reg now cookie (gb_allowed b svc ip reg now cookie);
  gb_revoke_law : forall b m svc ip, gb_repr b m ->
    gb_repr (gb_revoke b svc ip).2 (aRevoke m svc ip) /\
    ((gb_revoke b svc ip).1 = true <-> revoked svc ip m <> ∅);
  gb_revoke_token_law : forall b m kid, gb_repr b m ->
    gb_repr (gb_revoke_token b kid).2 (aRevokeToken m kid) /\
    (gb_revoke_token b kid).1 = Z.of_nat (size m) - Z.of_nat (size (aRevokeToken m kid));
  gb_sweep_law : forall b m now, gb_repr b m ->
    gb_repr (gb_sweep b now).2 (aSweep m now) /\
    (gb_sweep b now).1 = Z.of_nat (size m) - Z.of_nat (size (aSweep m now)) }.

#[export] Instance GrantStore_backend : GrantBackend GrantStore := {|
  gb_new := NewGrantStore;
  gb_put := fun s g old => Put s (Some g) old;
  gb_allowed := IsAllowed;
  gb_revoke := Revoke;
  gb_revoke_token := RevokeToken;
  gb_sweep := Sweep |}.

#[export, refine] Instance GrantStore_laws : GrantBackendLaws GrantStore := {|
  gb_repr := fun s m => wf s /\ grants s = m |}.
Proof.
  - split; [apply wf_NewGrantStore|done].
  - intros s m g old [Hwf <-]. by apply Put_spec.
  - intros s m svc ip reg now cookie [_ <-] g. apply IsAllowed_iff.
  - intros s m svc ip [Hwf <-]. cbn [gb_revoke GrantStore_backend].
    destruct (Revoke_in_spec _ s svc ip Hwf (reflexivity _)) as (s' & He & Hs').
    unfold Revoke. rewrite He. split; [done|]. cbn [fst].
    by rewrite negb_true_iff, bool_decide_eq_false.
  - intros s m kid [Hwf <-]. cbn [gb_revoke_token GrantStore_backend].
    destruct (RevokeToken_spec s kid Hwf) as (s' & -> & Hs'). done.
  - intros s m now [Hwf <-]. cbn [gb_sweep GrantStore_backend].
    destruct (Sweep_in_spec _ s now Hwf (reflexivity _)) as (s' & He & Hs').
    unfold Sweep. by rewrite He.
Defined.
