(* ===== verification/StoreHistory.v ===== *)
(** * StoreHistory: what a run of the grant store can and cannot answer.

    The theorems on histories are proved once, for every backend that satisfies
    the contract [GrantBackendLaws]; the in-process store is an instance. *)

From S2P Require Import Prelude Binary Sha256 Registry Store.

(** ** Histories *)

Inductive gop :=
| GPut (g : Grant) (old : list bytes)
| GRevoke (svc ip : bytes)
| GRevokeToken (kid : bytes)
| GSweep (now : Z).

(** A mutation that leaves a stored [g] in place. *)
Definition survives (g : Grant) (op : gop) : Prop :=
  match op with
  | GPut g' old => keyFor g <> keyFor g' /\ keyFor g ∉ retired_keys g' old
  | GRevoke svc ip => same_client svc ip g = false
  | GRevokeToken kid => gKid g <> kid
  | GSweep now => now < gExp g
  end.

(** [g] was put, and nothing since then has removed it. *)
Definition standing (g : Grant) (ops : list gop) : Prop :=
  exists before old after,
    ops = before ++ GPut g old :: after /\ Forall (survives g) after.

Definition aStep (m : agrants) (op : gop) : agrants :=
  match op with
  | GPut g old => aPut m g old
  | GRevoke svc ip => aRevoke m svc ip
  | GRevokeToken kid => aRevokeToken m kid
  | GSweep now => aSweep m now
  end.

Definition aRun (ops : list gop) : agrants := foldl aStep ∅ ops.

Lemma aPut_lookup m g old k :
  aPut m g old !! k =
    if decide (k = keyFor g) then Some g
    else if decide (k ∈ retired_keys g old) then None else m !! k.
Proof.
  unfold aPut. case_decide as E.
  - subst. by rewrite lookup_insert_eq.
  - by rewrite lookup_insert_ne, foldl_delete_lookup by done.
Qed.

(** One step, seen from one grant filed under its own key. *)
Lemma aStep_lookup m op g :
  aStep m op !! keyFor g = Some g <->
    (exists old, op = GPut g old) \/ (m !! keyFor g = Some g /\ survives g op).
Proof.
  destruct op as [g' old|svc ip|kid|now]; cbn [aStep survives].
  - rewrite aPut_lookup. split.
    + case_decide; [intros [= ->]; eauto|]. case_decide; [done|auto].
    + intros [[? [= <- <-]]|(Hm & Hne & Hni)]; [by rewrite decide_True|].
      by rewrite !decide_False.
  - unfold aRevoke. rewrite map_lookup_filter_Some. cbn [snd]. split; [by right|].
    by intros [[? [=]]|?].
  - unfold aRevokeToken. rewrite map_lookup_filter_Some. cbn [snd]. split; [by right|].
    by intros [[? [=]]|?].
  - unfold aSweep. rewrite map_lookup_filter_Some. cbn [snd]. split; [by right|].
    by intros [[? [=]]|?].
Qed.

Lemma standing_snoc g ops op :
  standing g (ops ++ [op]) <-> (exists old, op = GPut g old) \/ (standing g ops /\ survives g op).
Proof.
  split.
  - intros (before & old & after & E & Hs). destruct after as [|x after _] using rev_ind.
    + apply app_inj_tail in E as [_ ->]. eauto.
    + rewrite app_comm_cons, app_assoc in E. apply app_inj_tail in E as [-> ->].
      apply Forall_app in Hs as [Hs Hx]. apply Forall_cons in Hx as [Hx _].
      right. split; [by exists before, old, after|done].
  - intros [[old ->]|[(before & old & after & -> & Hs) Hop]].
    + exists ops, old, []. by split.
    + exists before, old, (after ++ [op]). rewrite <- app_assoc. split; [done|].
      apply Forall_app. auto.
Qed.

Lemma aRun_key ops k g : aRun ops !! k = Some g -> k = keyFor g.
Proof.
  revert k g. unfold aRun. induction ops as [|op ops IH] using rev_ind; intros k g; [done|].
  rewrite foldl_app. cbn [foldl]. destruct op as [g' old|svc ip|kid|now]; cbn [aStep].
  - rewrite aPut_lookup. repeat case_decide; naive_solver.
  - intros [H _]%map_lookup_filter_Some. eauto.
  - intros [H _]%map_lookup_filter_Some. eauto.
  - intros [H _]%map_lookup_filter_Some. eauto.
Qed.

(** The content of the store is a function of the history. *)
Lemma aRun_standing ops g : aRun ops !! keyFor g = Some g <-> standing g ops.
Proof.
  unfold aRun. induction ops as [|op ops IH] using rev_ind.
  - split; [done|]. intros (before & old & after & E & _). by destruct before.
  - rewrite foldl_app. cbn [foldl]. by rewrite aStep_lookup, standing_snoc, IH.
Qed.

Section backend.
Context {B : Type} `{GrantBackendLaws B}.

Definition gb_step (b : B) (op : gop) : B :=
  match op with
  | GPut g old => gb_put b g old
  | GRevoke svc ip => (gb_revoke b svc ip).2
  | GRevokeToken kid => (gb_revoke_token b kid).2
  | GSweep now => (gb_sweep b now).2
  end.

Definition gb_run (ops : list gop) : B := foldl gb_step gb_new ops.

Lemma gb_step_repr b m op : gb_repr b m -> gb_repr (gb_step b op) (aStep m op).
Proof.
  intros Hr. destruct op as [g old|svc ip|kid|now]; cbn [gb_step aStep].
  - by apply gb_put_law.
  - by apply gb_revoke_law.
  - by apply gb_revoke_token_law.
  - by apply gb_sweep_law.
Qed.

Lemma gb_run_repr ops : gb_repr (gb_run ops) (aRun ops).
Proof.
  unfold gb_run, aRun. induction ops as [|op ops IH] using rev_ind; [apply gb_new_law|].
  rewrite !foldl_app. by apply gb_step_repr.
Qed.

Lemma gb_allowed_standing ops svc ip reg now cookie g :
  gb_allowed (gb_run ops) svc ip reg now cookie = Some g ->
  standing g ops /\ admits g svc ip reg now cookie.
Proof.
  intros Ha. apply (gb_allowed_law _ _ _ _ _ _ _ (gb_run_repr ops)) in Ha as [Hc Had].
  split; [|done]. apply aRun_standing. unfold candidate in Hc. cbv zeta in Hc.
  destruct (bool_decide (cookie = [])).
  - by rewrite <- (aRun_key _ _ _ Hc).
  - destruct (aRun ops !! GrantKeyCookie _ _ _) as [g'|] eqn:E; [simplify_eq|];
      [by rewrite <- (aRun_key _ _ _ E)|by rewrite <- (aRun_key _ _ _ Hc)].
Qed.
End backend.

(** The in-process store, run by the code's own methods. *)
Definition store_step (s : GrantStore) (op : gop) : GrantStore :=
  match op with
  | GPut g old => Put s (Some g) old
  | GRevoke svc ip => (Revoke s svc ip).2
  | GRevokeToken kid => (RevokeToken s kid).2
  | GSweep now => (Sweep s now).2
  end.

Definition store_run (ops : list gop) : GrantStore := foldl store_step NewGrantStore ops.

Lemma store_run_backend ops : store_run ops = gb_run (B := GrantStore) ops.
Proof. done. Qed.

Lemma store_run_repr ops : wf (store_run ops) /\ grants (store_run ops) = aRun ops.
Proof. exact (gb_run_repr (B := GrantStore) ops). Qed.

Lemma store_run_standing ops k g :
  grants (store_run ops) !! k = Some g <-> k = keyFor g /\ standing g ops.
Proof.
  rewrite (proj2 (store_run_repr ops)), <- aRun_standing. split.
  - intros Hk. pose proof (aRun_key _ _ _ Hk) as ->. done.
  - by intros [-> ?].
Qed.

(** ** Keys *)

Lemma length_CookieHash v : length (CookieHash v) = 64%nat.
Proof. unfold CookieHash. by rewrite hex.length_EncodeToString, sha256.length_Sum256. Qed.

Lemma CookieHash_nonempty v : CookieHash v <> [].
Proof. intros H. apply (f_equal length) in H. by rewrite length_CookieHash in H. Qed.

(** At one address of one service, two device keys differ with their hashes... *)
Lemma GrantKeyCookie_inj svc ip h h' : GrantKeyCookie svc ip h = GrantKeyCookie svc ip h' -> h = h'.
Proof. unfold GrantKeyCookie. intros H. by do 2 apply (inj (app _)) in H. Qed.

(** ...and no device key is the plain key. *)
Lemma GrantKeyCookie_plain svc ip h : GrantKeyCookie svc ip h <> GrantKey svc ip.
Proof.
  unfold GrantKeyCookie. intros H. apply (f_equal length) in H. rewrite length_app in H.
  simpl in H. lia.
Qed.

Lemma keyFor_cookie g :
  gBinding g = BindingIPCookie -> gCookieHash g <> [] ->
  keyFor g = GrantKeyCookie (gService g) (gIP g) (gCookieHash g).
Proof. intros Hb Hh. unfold keyFor. by rewrite bool_decide_eq_true_2, bool_decide_eq_false_2 by done. Qed.

Lemma keyFor_plain g : gBinding g <> BindingIPCookie -> keyFor g = GrantKey (gService g) (gIP g).
Proof. intros Hb. unfold keyFor. by rewrite bool_decide_eq_false_2. Qed.

(** ** Lookups after an operation *)

Lemma candidate_lookup m svc ip cookie g :
  candidate m svc ip cookie = Some g -> exists k, m !! k = Some g.
Proof.
  unfold candidate. cbv zeta. destruct (bool_decide (cookie = [])); [by eauto|].
  destruct (m !! GrantKeyCookie _ _ _) eqn:E; intros; simplify_eq; eauto.
Qed.

(** Removing grants cannot change an answer whose grant is kept, provided a
    candidate filed first is kept when the plain one is used. *)
Lemma candidate_filter (P : bytes * Grant -> Prop) `{forall x, Decision (P x)} m svc ip cookie g :
  candidate m svc ip cookie = Some g -> (forall k, P (k, g)) ->
  candidate (filter P m) svc ip cookie = Some g.
Proof.
  intros Hc HP. unfold candidate in *. cbv zeta in *.
  destruct (bool_decide (cookie = [])) eqn:Ec.
  - by apply map_lookup_filter_Some.
  - destruct (m !! GrantKeyCookie svc ip (CookieHash cookie)) as [g'|] eqn:E.
    + injection Hc as ->. by rewrite (proj2 (map_lookup_filter_Some P m _ g)).
    + rewrite (proj2 (map_lookup_filter_None P m _)) by (left; done).
      by apply map_lookup_filter_Some.
Qed.

(** A grant is found right after it is put. *)
Lemma candidate_put m g old cookie :
  (gBinding g = BindingIPCookie -> gCookieHash g <> [] /\ CookieHash cookie = gCookieHash g /\ cookie <> []) ->
  (gBinding g <> BindingIPCookie ->
     cookie = [] \/ aPut m g old !! GrantKeyCookie (gService g) (gIP g) (CookieHash cookie) = None) ->
  candidate (aPut m g old) (gService g) (gIP g) cookie = Some g.
Proof.
  intros Hc Hp. unfold candidate. cbv zeta.
  assert (Hk : aPut m g old !! keyFor g = Some g) by (rewrite aPut_lookup; by case_decide).
  destruct (decide (gBinding g = BindingIPCookie)) as [Hb|Hb].
  - destruct (Hc Hb) as (Hh & He & Hne). rewrite bool_decide_eq_false_2, He by done.
    rewrite keyFor_cookie in Hk by done. by rewrite Hk.
  - rewrite keyFor_plain in Hk by done.
    destruct (Hp Hb) as [->|Hn]; [by rewrite bool_decide_eq_true_2|].
    case_bool; [done|]. by rewrite Hn.
Qed.

(** The other devices at the same address do not notice a device-bound [Put]. *)
Lemma candidate_other_device m g old cookie :
  gBinding g = BindingIPCookie -> gCookieHash g <> [] ->
  CookieHash cookie <> gCookieHash g -> CookieHash cookie ∉ old ->
  candidate (aPut m g old) (gService g) (gIP g) cookie = candidate m (gService g) (gIP g) cookie.
Proof.
  intros Hb Hh Hne Hold. unfold candidate. cbv zeta.
  assert (Hplain : aPut m g old !! GrantKey (gService g) (gIP g) = m !! GrantKey (gService g) (gIP g)).
  { rewrite aPut_lookup, keyFor_cookie by done.
    rewrite decide_False by (intros H; by eapply GrantKeyCookie_plain).
    rewrite decide_False; [done|]. unfold retired_keys. rewrite list_elem_of_fmap.
    intros (h & H & _). by eapply GrantKeyCookie_plain. }
  assert (Hdev : aPut m g old !! GrantKeyCookie (gService g) (gIP g) (CookieHash cookie) =
                 m !! GrantKeyCookie (gService g) (gIP g) (CookieHash cookie)).
  { rewrite aPut_lookup, keyFor_cookie by done.
    rewrite decide_False by (by intros ?%GrantKeyCookie_inj).
    rewrite decide_False; [done|]. unfold retired_keys. rewrite list_elem_of_fmap.
    intros (h & H%GrantKeyCookie_inj & Hf). apply list_elem_of_filter in Hf as [_ Hf]. congruence. }
  by rewrite Hplain, Hdev.
Qed.

(** ** Effects *)

(** From [s] to [s'] the store stays well formed, and a new grant satisfies [P]. *)
Definition effect (P : Grant -> Prop) (s s' : GrantStore) : Prop :=
  wf s -> wf s' /\ forall k g, Store.grants s' !! k = Some g -> Store.grants s !! k = Some g \/ P g.

Section effects.
Variable (P : Grant -> Prop).

Lemma effect_refl s : effect P s s.
Proof. intros H. split; [done|]. by left. Qed.

Lemma effect_eq s s' : s' = s -> effect P s s'.
Proof. intros ->. apply effect_refl. Qed.

Lemma effect_put s g old : P g -> effect P s (Put s (Some g) old).
Proof.
  intros Hg Hwf. destruct (Put_spec s g old Hwf) as [Hwf' He]. split; [done|].
  intros k g'. rewrite He, aPut_lookup. case_decide; [intros [= <-]; by right|].
  case_decide; [done|by left].
Qed.

Lemma effect_filter s s' (Q : bytes * Grant -> Prop) `{forall x, Decision (Q x)} :
  wf s' -> Store.grants s' = filter Q (Store.grants s) -> effect P s s'.
Proof.
  intros Hwf He _. split; [done|]. intros k g. rewrite He.
  intros [? _]%map_lookup_filter_Some. by left.
Qed.

Lemma effect_revoke s svc ip : effect P s (Revoke s svc ip).2.
Proof.
  intros Hwf. destruct (Revoke_in_spec _ s svc ip Hwf (reflexivity _)) as (s' & He & Hwf' & Hg).
  unfold Revoke. rewrite He. by eapply effect_filter.
Qed.

Lemma effect_revoke_token s kid : effect P s (RevokeToken s kid).2.
Proof.
  intros Hwf. destruct (RevokeToken_spec s kid Hwf) as (s' & -> & Hwf' & Hg).
  by eapply effect_filter.
Qed.

Lemma effect_sweep s t : effect P s (Store.Sweep s t).2.
Proof.
  intros Hwf. destruct (Sweep_in_spec _ s t Hwf (reflexivity _)) as (s' & He & Hwf' & Hg).
  unfold Store.Sweep. rewrite He. by eapply effect_filter.
Qed.
End effects.

Lemma effect_mono (P Q : Grant -> Prop) s s' :
  (forall g, P g -> Q g) -> effect P s s' -> effect Q s s'.
Proof.
  intros HPQ H Hwf. destruct (H Hwf) as [? Hg]. split; [done|].
  intros k g Hk. destruct (Hg k g Hk); auto.
Qed.

Lemma effect_trans P s1 s2 s3 : effect P s1 s2 -> effect P s2 s3 -> effect P s1 s3.
Proof.
  intros H1 H2 Hwf. destruct (H1 Hwf) as [Hwf2 Hg2]. destruct (H2 Hwf2) as [Hwf3 Hg3].
  split; [done|]. intros k g Hk. destruct (Hg3 k g Hk); [by apply (Hg2 k)|by right].
Qed.

(** ** Properties *)

(** C8: the store holds exactly the grants that were put and that nothing has
    removed since: no later put at their key, no retirement of their cookie, no
    revocation of their client or token, no sweep after their expiry.  Its index
    by kid is exact at every point of every run. *)
Theorem GrantStore_history ops k g :
  (grants (store_run ops) !! k = Some g <-> k = keyFor g /\ standing g ops) /\
  forall kid, byKid (store_run ops) !! kid = nonempty (keys_of kid (grants (store_run ops))).
Proof. split; [apply store_run_standing|]. apply wf_index, store_run_repr. Qed.

(** [IsAllowed] answers with a grant exactly when that grant is the one the
    request looks up and passes every check: not expired, filed for this service
    and address, backed by a token that is still registered, unexpired, allowed
    on the service and has the same secret, and holding the presented cookie. *)
Theorem IsAllowed_exact s svc ip reg now cookie g :
  IsAllowed s svc ip reg now cookie = Some g <->
  candidate (grants s) svc ip cookie = Some g /\ admits g svc ip reg now cookie.
Proof. apply IsAllowed_iff. Qed.

(** Access is never granted out of thin air: after any history of the
    store, a client that gets through does so on a grant that was put for that
    very client and that no operation since has removed. *)
Theorem IsAllowed_history ops svc ip reg now cookie g
    (H : IsAllowed (store_run ops) svc ip reg now cookie = Some g) :
  standing g ops /\ admits g svc ip reg now cookie.
Proof. exact (gb_allowed_standing (B := GrantStore) ops svc ip reg now cookie g H). Qed.

(** A successful knock opens the service: in any well-formed store, the grant
    just put is the one the next request of that client is answered with. *)
Theorem Put_IsAllowed s g old reg now cookie
    (Hwf : wf s)
    (Hadm : admits g (gService g) (gIP g) reg now cookie)
    (Hplain : gBinding g <> BindingIPCookie ->
       cookie = [] \/
       grants (Put s (Some g) old) !! GrantKeyCookie (gService g) (gIP g) (CookieHash cookie) = None) :
  IsAllowed (Put s (Some g) old) (gService g) (gIP g) reg now cookie = Some g.
Proof.
  apply IsAllowed_iff. split; [|done].
  destruct (Put_spec s g old Hwf) as [_ He]. rewrite He in *.
  apply candidate_put; [|done]. intros Hb. destruct (adm_cookie _ _ _ _ _ _ Hadm Hb) as (?&?&?). done.
Qed.

(** C22: revoking an address removes its access whatever cookie it presents, and
    takes no access from any other client: whoever was allowed and is not that
    client still is. *)
Theorem Revoke_exact s svc ip (Hwf : wf s) :
  (forall reg now cookie, IsAllowed (Revoke s svc ip).2 svc ip reg now cookie = None) /\
  (forall svc' ip' reg now cookie g,
     (svc', ip') <> (svc, ip) -> IsAllowed s svc' ip' reg now cookie = Some g ->
     IsAllowed (Revoke s svc ip).2 svc' ip' reg now cookie = Some g) /\
  ((Revoke s svc ip).1 = true <->
     exists k g, grants s !! k = Some g /\ gService g = svc /\ gIP g = ip).
Proof.
  destruct (Revoke_in_spec _ s svc ip Hwf (reflexivity _)) as (s' & He & _ & Hg).
  unfold Revoke. rewrite He. cbn [fst snd]. split; [|split].
  - intros reg now cookie. apply eq_None_not_Some. intros [g [Hc [_ Hs Hi _ _]]%IsAllowed_iff].
    rewrite Hg in Hc. apply candidate_lookup in Hc as [k Hk].
    apply map_lookup_filter_Some in Hk as [_ Hk]. cbn [snd] in Hk.
    unfold same_client in Hk. by rewrite !bool_decide_eq_true_2 in Hk.
  - intros svc' ip' reg now cookie g Hne [Hc Ha]%IsAllowed_iff. apply IsAllowed_iff.
    split; [|done]. rewrite Hg. apply candidate_filter; [done|]. intros k. cbn [snd].
    unfold same_client. apply andb_false_iff. rewrite !bool_decide_eq_false.
    destruct (decide (gService g = svc)) as [Es|]; [right|by left].
    intros Ei. apply Hne. destruct Ha. congruence.
  - rewrite negb_true_iff, bool_decide_eq_false. unfold revoked, same_client.
    rewrite map_empty_filter. split.
    + intros Hn. destruct (decide (map_Exists (fun _ g => gService g = svc /\ gIP g = ip) (grants s)))
        as [(k & g & ? & ?)|Hno]; [by eauto|].
      destruct Hn. intros k g Hkg. cbn [snd]. intros Hsc. bool_prop. apply Hno. by exists k, g.
    + intros (k & g & Hk & Hs & Hi) Hf. specialize (Hf k g Hk). cbn [snd] in Hf.
      by rewrite !bool_decide_eq_true_2 in Hf.
Qed.

(** C23: revoking a token evicts every grant minted from it, reports how many
    there were, and evicts nobody else. *)
Theorem RevokeToken_exact s kid (Hwf : wf s) :
  (forall svc ip reg now cookie g,
     IsAllowed (RevokeToken s kid).2 svc ip reg now cookie = Some g -> gKid g <> kid) /\
  (forall svc ip reg now cookie g,
     IsAllowed s svc ip reg now cookie = Some g -> gKid g <> kid ->
     IsAllowed (RevokeToken s kid).2 svc ip reg now cookie = Some g) /\
  (RevokeToken s kid).1 = Z.of_nat (size (keys_of kid (grants s))).
Proof.
  destruct (RevokeToken_spec s kid Hwf) as (s' & -> & _ & Hg). cbn [fst snd]. split; [|split].
  - intros svc ip reg now cookie g [Hc _]%IsAllowed_iff.
    rewrite Hg in Hc. apply candidate_lookup in Hc as [k Hk].
    by apply map_lookup_filter_Some in Hk as [_ Hk].
  - intros svc ip reg now cookie g [Hc Ha]%IsAllowed_iff Hne. apply IsAllowed_iff.
    split; [|done]. rewrite Hg. by apply candidate_filter.
  - unfold keys_of, aRevokeToken. rewrite size_dom.
    pose proof (map_size_disj_union (filter (fun kg => gKid kg.2 = kid) (grants s))
      (filter (fun kg => gKid kg.2 <> kid) (grants s)) (map_disjoint_filter_complement _ _)) as Hu.
    rewrite map_filter_union_complement in Hu. lia.
Qed.

(** With device-bound grants, a knock by one device leaves every other device
    behind the same address exactly as it was: two devices behind one NAT do not
    evict each other. *)
Theorem Put_other_device s g old reg now cookie
    (Hwf : wf s)
    (Hb : gBinding g = BindingIPCookie) (Hh : gCookieHash g <> [])
    (Hother : CookieHash cookie <> gCookieHash g) (Hold : CookieHash cookie ∉ old) :
  IsAllowed (Put s (Some g) old) (gService g) (gIP g) reg now cookie =
  IsAllowed s (gService g) (gIP g) reg now cookie.
Proof.
  destruct (Put_spec s g old Hwf) as [_ He].
  apply option_eq. intros g'. rewrite !IsAllowed_iff, He.
  by rewrite candidate_other_device.
Qed.

(** The sweep only reclaims memory: a grant that is honored now, or will be
    at any later time, is still honored after sweeping now, and the sweep reports
    the number of grants it dropped. *)
Theorem Sweep_keeps_live s now (Hwf : wf s) :
  (forall svc ip reg t cookie g, now <= t ->
     IsAllowed s svc ip reg t cookie = Some g ->
     IsAllowed (Sweep s now).2 svc ip reg t cookie = Some g) /\
  (Sweep s now).1 = Z.of_nat (size (grants s)) - Z.of_nat (size (grants (Sweep s now).2)) /\
  forall k g, grants (Sweep s now).2 !! k = Some g -> now < gExp g.
Proof.
  destruct (Sweep_in_spec _ s now Hwf (reflexivity _)) as (s' & He & _ & Hg).
  unfold Sweep. rewrite He. cbn [fst snd]. rewrite Hg. split; [|split; [done|]].
  - intros svc ip reg t cookie g Ht [Hc Ha]%IsAllowed_iff. apply IsAllowed_iff.
    split; [|done]. rewrite Hg. apply candidate_filter; [done|]. intros k. cbn [snd].
    destruct Ha. lia.
  - by intros k g [_ H]%map_lookup_filter_Some.
Qed.

(** The loops of [Revoke] and [Sweep] range over a map in no fixed order; the
    resulting store and the reported result do not depend on it. *)
Theorem loops_order_independent s svc ip now order
    (Hwf : wf s) (Hp : order ≡ₚ map_to_list (grants s)) :
  Revoke_in order s svc ip = Revoke s svc ip /\ Sweep_in order s now = Sweep s now.
Proof.
  split.
  - destruct (Revoke_in_spec order s svc ip Hwf Hp) as (s1 & -> & Hw1 & H1).
    destruct (Revoke_in_spec _ s svc ip Hwf (reflexivity _)) as (s2 & He & Hw2 & H2).
    unfold Revoke. rewrite He. f_equal. apply wf_ext; congruence.
  - destruct (Sweep_in_spec order s now Hwf Hp) as (s1 & -> & Hw1 & H1).
    destruct (Sweep_in_spec _ s now Hwf (reflexivity _)) as (s2 & He & Hw2 & H2).
    unfold Sweep. rewrite He. f_equal. apply wf_ext; congruence.
Qed.

(** ** Witnesses *)

Definition ex_token : Token :=
  {| Secret := lit "secret"; Alg := AlgHMACSHA256; Label := []; Expires := 0 |}.
Definition ex_reg : option Registry := Some
  {| Tokens := {[ lit "k1" := ex_token ]}; Services := {[ lit "wiki" := {[ lit "k1" := true ]} ]} |}.

Definition ex_grant (binding hash ip : bytes) : Grant :=
  {| gV := 1; gKid := lit "k1"; gService := lit "wiki"; gIP := ip; gBinding := binding;
     gCookieHash := hash; gIssued := 100; gExp := 200; gManual := false;
     gSecretFP := Fingerprint (Some ex_token) |}.

Definition ex_ip : Grant := ex_grant BindingIP [] (lit "10.0.0.1").
Definition ex_dev (cookie : bytes) : Grant :=
  ex_grant BindingIPCookie (CookieHash cookie) (lit "10.0.0.2").

Definition ex_ops : list gop :=
  [GPut ex_ip []; GPut (ex_dev (lit "a")) []; GPut (ex_dev (lit "b")) [CookieHash (lit "z")]].

Lemma ex_ops_wf : wf (store_run ex_ops).
Proof. apply store_run_repr. Qed.

Lemma IsAllowed_history_witness :
  standing (ex_dev (lit "a")) ex_ops /\
  admits (ex_dev (lit "a")) (lit "wiki") (lit "10.0.0.2") ex_reg 150 (lit "a").
Proof. apply IsAllowed_history. vm_compute. reflexivity. Defined.

Lemma ex_admits :
  admits ex_ip (lit "wiki") (lit "10.0.0.1") ex_reg 150 [].
Proof.
  split; [vm_compute; reflexivity|reflexivity|reflexivity| |by intros [=]].
  right. exists ex_token. split; [|reflexivity].
  apply Authorize_Ok_iff. vm_compute. reflexivity.
Qed.

Lemma Put_IsAllowed_witness :
  IsAllowed (Put (store_run ex_ops) (Some ex_ip) []) (lit "wiki") (lit "10.0.0.1") ex_reg 150 [] = Some ex_ip.
Proof.
  apply (Put_IsAllowed _ ex_ip); [apply ex_ops_wf|apply ex_admits|]. intros _. by left.
Defined.

Lemma Revoke_exact_witness :
  IsAllowed (Revoke (store_run ex_ops) (lit "wiki") (lit "10.0.0.1")).2
    (lit "wiki") (lit "10.0.0.2") ex_reg 150 (lit "a") = Some (ex_dev (lit "a")).
Proof.
  apply (Revoke_exact _ _ _ ex_ops_wf); [by intros [=]|]. vm_compute. reflexivity.
Defined.

Lemma RevokeToken_exact_witness : (RevokeToken (store_run ex_ops) (lit "k1")).1 = 3.
Proof.
  rewrite (proj2 (proj2 (RevokeToken_exact _ (lit "k1") ex_ops_wf))). vm_compute. reflexivity.
Defined.

Lemma Put_other_device_witness :
  IsAllowed (Put (store_run ex_ops) (Some (ex_dev (lit "c"))) []) (lit "wiki") (lit "10.0.0.2")
    ex_reg 150 (lit "a") =
  IsAllowed (store_run ex_ops) (lit "wiki") (lit "10.0.0.2") ex_reg 150 (lit "a").
Proof.
  apply (Put_other_device _ (ex_dev (lit "c"))); [apply ex_ops_wf|reflexivity|..].
  - apply CookieHash_nonempty.
  - vm_compute. by intros [=].
  - by intros ?%elem_of_nil.
Defined.

Lemma Sweep_keeps_live_witness :
  IsAllowed (Sweep (store_run ex_ops) 120).2 (lit "wiki") (lit "10.0.0.2") ex_reg 150 (lit "a") =
    Some (ex_dev (lit "a")).
Proof.
  apply (Sweep_keeps_live _ 120 ex_ops_wf); [lia|]. vm_compute. reflexivity.
Defined.

Lemma loops_order_independent_witness :
  Revoke_in (reverse (map_to_list (grants (store_run ex_ops)))) (store_run ex_ops) (lit "wiki") (lit "10.0.0.1")
  = Revoke (store_run ex_ops) (lit "wiki") (lit "10.0.0.1").
Proof.
  apply (loops_order_independent _ _ _ 0); [apply ex_ops_wf|]. apply reverse_Permutation.
Defined.
