(* ===== verification/NonceStore.v ===== *)
(** * NonceStore: single use of a nonce ([core/go/store.go], [NonceStore]).

    [Claim] is the atomic check-and-burn of a verified nonce.  The theorem on
    runs composes it with the freshness window of [VerifyNonce]: the two
    together, not either alone, make a nonce redeemable at most once. *)

From S2P Require Import Prelude Binary Sha256 Base64 ServerName CanonIP Crypto.
Import binary.

Record NonceStore := { spent : gmap bytes Z }.

Definition NewNonceStore : NonceStore := {| spent := ∅ |}.

Definition Claim (n : NonceStore) (id : bytes) (now ttl : Z) : bool * NonceStore :=
  match spent n !! id with
  | Some exp =>
      if now <? exp then (false, n) else (true, {| spent := <[id := i64 (now + ttl)]> (spent n) |})
  | None => (true, {| spent := <[id := i64 (now + ttl)]> (spent n) |})
  end.

Definition Sweep (n : NonceStore) (now : Z) : Z * NonceStore :=
  let m := filter (fun kv => now < kv.2) (spent n) in
  (Z.of_nat (size (spent n)) - Z.of_nat (size m), {| spent := m |}).

(** ** Facts *)

Lemma Claim_true n id now ttl :
  (Claim n id now ttl).1 = true <-> forall exp, spent n !! id = Some exp -> exp <= now.
Proof.
  unfold Claim. destruct (spent n !! id) as [e|]; [|naive_solver].
  case_bool; bool_prop; split; try done.
  - intros H. specialize (H e eq_refl). lia.
  - by intros _ e' [= <-].
Qed.

Lemma Claim_spent n id now ttl id' :
  spent (Claim n id now ttl).2 !! id' =
    if decide (id' = id /\ (Claim n id now ttl).1 = true) then Some (i64 (now + ttl))
    else spent n !! id'.
Proof.
  unfold Claim. destruct (spent n !! id) as [e|] eqn:E; [case_bool|]; cbn [fst snd spent].
  - by rewrite decide_False by (by intros [_ ?]).
  - destruct (decide (id' = id)) as [->|Hne].
    + by rewrite lookup_insert_eq, decide_True.
    + by rewrite lookup_insert_ne, decide_False by (try intros [? _]; done).
  - destruct (decide (id' = id)) as [->|Hne].
    + by rewrite lookup_insert_eq, decide_True.
    + by rewrite lookup_insert_ne, decide_False by (try intros [? _]; done).
Qed.

(** ** Redemption *)

Section run.
Variables (nk : bytes) (ttl p6 : Z).

(** What [handleRespond] and its counterparts do with a nonce once the proof
    is good: verify, then burn, both at the time [now] they read the clock.  The
    verification looks at no shared state, so the step is the call of [Claim],
    however long after [now] it comes. *)
Definition redeem (n : NonceStore) (nonce svc ip : bytes) (now : Z) : bool * NonceStore :=
  match VerifyNonce nk nonce svc ip now ttl p6 with
  | None => (false, n)
  | Some rnd => Claim n (B64u rnd) now ttl
  end.

Inductive nop :=
| NRedeem (nonce svc ip : bytes)
| NSweep.

Definition nop_step (n : NonceStore) (op : nop) (now : Z) : bool * NonceStore :=
  match op with
  | NRedeem nonce svc ip => redeem n nonce svc ip now
  | NSweep => (false, (Sweep n now).2)
  end.

Definition redeems (nonce : bytes) (op : nop) : bool :=
  match op with NRedeem n' _ _ => bool_decide (n' = nonce) | NSweep => false end.

(** The number of times [nonce] is redeemed in a run. *)
Fixpoint redemptions (nonce : bytes) (n : NonceStore) (ops : list (Z * nop)) : Z :=
  match ops with
  | [] => 0
  | (now, op) :: ops' =>
      let '(ok, n') := nop_step n op now in
      (if ok && redeems nonce op then 1 else 0) + redemptions nonce n' ops'
  end.

Variable (nonce : bytes).
Definition issued_at : Z := BigEndian_Uint64 (take 8 nonce).
Definition nonce_id : bytes := B64u (take 16 (drop 8 nonce)).

(** The nonce is burnt: its entry outlives it, or was dropped by a sweep, the
    latest at [swept], when it was too old already. *)
Definition burnt (swept : Z) (n : NonceStore) : Prop :=
  issued_at + ttl <= swept \/ exists exp, spent n !! nonce_id = Some exp /\ issued_at + ttl <= exp.

Definition clock_ok (t : Z) : Prop := in_i64 t /\ in_i64 (t + ttl).

Lemma verify_window n svc ip now r :
  in_i64 now -> length n = NonceLen -> VerifyNonce nk n svc ip now ttl p6 = Some r ->
  r = take 16 (drop 8 n) /\ BigEndian_Uint64 (take 8 n) <= now < BigEndian_Uint64 (take 8 n) + ttl.
Proof.
  intros Hnow Hl H. apply VerifyNonce_mac in H as (_ & -> & _ & Hf). split; [done|].
  apply freshness_exact in Hf; [lia| |done].
  apply BigEndian_Uint64_range. by rewrite length_take, Hl.
Qed.

Lemma verify_length n svc ip now r :
  VerifyNonce nk n svc ip now ttl p6 = Some r -> length n = NonceLen.
Proof. by intros (? & _)%VerifyNonce_mac. Qed.

(** A claim on this nonce does not come after a sweep that found the nonce too
    old, unless the request read its clock after that sweep. *)
Definition timely (swept now : Z) : Prop := swept <= now \/ swept < issued_at + ttl.

Lemma redeem_burnt swept n svc ip now :
  clock_ok now -> timely swept now -> burnt swept n -> (redeem n nonce svc ip now).1 = false.
Proof.
  intros [Hnow _] Ht Hb. unfold redeem. destruct (VerifyNonce _ _ _ _ _ _ _) as [r|] eqn:E; [|done].
  pose proof (verify_length _ _ _ _ _ E) as Hl.
  destruct (verify_window _ _ _ _ _ Hnow Hl E) as [-> Hw]. fold nonce_id issued_at in *.
  destruct Hb as [?|(e & He & ?)]; [destruct Ht; lia|].
  apply not_true_iff_false. rewrite Claim_true. intros Hall. specialize (Hall e He). lia.
Qed.

Lemma redeem_burns swept n svc ip now :
  clock_ok now -> (redeem n nonce svc ip now).1 = true -> burnt swept (redeem n nonce svc ip now).2.
Proof.
  intros [Hnow Hsum]. unfold redeem.
  destruct (VerifyNonce _ _ _ _ _ _ _) as [r|] eqn:E; [|done]. intros Hc.
  pose proof (verify_length _ _ _ _ _ E) as Hl.
  destruct (verify_window _ _ _ _ _ Hnow Hl E) as [-> Hw]. fold nonce_id issued_at in *.
  right. exists (i64 (now + ttl)). split; [by rewrite Claim_spent, decide_True|].
  rewrite i64_small by done. lia.
Qed.

(** The latest sweep after an operation. *)
Definition swept_by (swept now : Z) (op : nop) : Z :=
  match op with NSweep => Z.max swept now | NRedeem _ _ _ => swept end.

Lemma step_burnt swept n op now :
  clock_ok now -> burnt swept n -> burnt (swept_by swept now op) (nop_step n op now).2.
Proof.
  intros [Hnow Hsum] Hb. destruct op as [n' svc ip|]; cbn [nop_step swept_by].
  - destruct Hb as [?|(e & He & Hle)]; [by left|]. right. unfold redeem.
    destruct (VerifyNonce _ _ _ _ _ _ _) as [r|] eqn:E; [|by eauto].
    destruct (decide (nonce_id = B64u r /\ (Claim n (B64u r) now ttl).1 = true)) as [[Hid Hc]|Hn].
    + exists (i64 (now + ttl)). rewrite Claim_spent, decide_True by done. split; [done|].
      rewrite i64_small by done. rewrite Claim_true, <- Hid in Hc. specialize (Hc e He).
      pose proof (verify_window _ _ _ _ _ Hnow (verify_length _ _ _ _ _ E) E). lia.
    + exists e. by rewrite Claim_spent, decide_False.
  - cbn [snd Sweep spent]. destruct Hb as [?|(e & He & Hle)]; [left; lia|].
    destruct (decide (now < e)); [|left; lia].
    right. exists e. split; [|done]. by apply map_lookup_filter_Some.
Qed.

(** The operations in the order in which the store serves them, each with the
    time it read: that order need not be the order of the times. *)
Fixpoint interleaved (swept : Z) (ops : list (Z * nop)) : Prop :=
  match ops with
  | [] => True
  | (now, op) :: ops' =>
      clock_ok now /\ (redeems nonce op = true -> timely swept now) /\
      interleaved (swept_by swept now op) ops'
  end.

Lemma redemptions_burnt swept n ops :
  interleaved swept ops -> burnt swept n -> redemptions nonce n ops = 0.
Proof.
  revert swept n. induction ops as [|[now op] ops IH]; intros swept n; [done|].
  intros (Hc & Ht & Ho) Hb. pose proof (step_burnt swept n op now Hc Hb) as Hb'. cbn [redemptions].
  assert (Hno : (nop_step n op now).1 && redeems nonce op = false).
  { destruct op as [n' svc ip|]; cbn [nop_step redeems] in *; [|done].
    case_bool_decide as E; [|by rewrite andb_false_r]. subst n'.
    by rewrite (redeem_burnt swept) by auto. }
  destruct (nop_step n op now) as [ok n'']. cbn [fst snd] in *. rewrite Hno.
  by rewrite (IH _ n'' Ho).
Qed.

Lemma redemptions_le swept n ops : interleaved swept ops -> 0 <= redemptions nonce n ops <= 1.
Proof.
  revert swept n. induction ops as [|[now op] ops IH]; intros swept n; [cbn; lia|].
  intros (Hc & Ht & Ho). cbn [redemptions].
  pose proof (redeem_burns (swept_by swept now op) n) as Hr.
  destruct (nop_step n op now) as [ok n'] eqn:E. specialize (IH _ n' Ho).
  destruct (ok && redeems nonce op) eqn:Ek; [|lia]. bool_prop.
  destruct op as [n'' svc ip|]; [|done]. cbn [redeems] in *. bool_prop. subst n''.
  cbn [nop_step] in E. specialize (Hr svc ip now Hc). rewrite E in Hr. cbn [fst snd] in Hr.
  rewrite (redemptions_burnt _ _ _ Ho); [lia|auto].
Qed.

(** Times that never run backwards from [t] on are one such order. *)
Fixpoint ordered (t : Z) (ops : list (Z * nop)) : Prop :=
  match ops with
  | [] => True
  | (now, _) :: ops' => t <= now /\ clock_ok now /\ ordered now ops'
  end.

Lemma ordered_interleaved t ops : ordered t ops -> forall swept, swept <= t -> interleaved swept ops.
Proof.
  revert t. induction ops as [|[now op] ops IH]; intros t; [done|]. intros (Ht & Hc & Ho) swept Hs.
  split; [done|]. split; [left; lia|]. apply (IH now Ho). destruct op; cbn [swept_by]; lia.
Qed.
End run.

(** ** Properties *)

(** A nonce is redeemed at most once, in any interleaving of any number of
    concurrent redemptions and sweeps, with one nonce lifetime: each request may
    have read its clock long before its claim is served, as long as it does not
    come after a sweep that ran past the end of the nonce's life. *)
Theorem nonce_single_use nk ttl p6 nonce swept n ops (Hops : interleaved ttl nonce swept ops) :
  redemptions nk ttl p6 nonce n ops <= 1.
Proof. by eapply redemptions_le. Qed.

Definition ex_nonce1 : bytes :=
  match IssueNonce (lit "key") 1000 (lit "0123456789abcdef") (lit "wiki") (lit "10.0.0.1") 64 with
  | Ok n => n | Err _ => [] end.

(** C37: that proviso is needed, whatever the nonce.  Take any nonce that was minted
    and not yet spent, and claim it in the second it was minted.  A request that
    reads its clock in the last second of the nonce's life finds it fresh; its
    claim is refused, unless a sweep of the next second is served first: then the
    very same claim, with the time the request read, succeeds, and the nonce is
    redeemed twice. *)
Theorem nonce_race nk iss rnd svc ip p6 nonce ttl n
    (Hissue : IssueNonce nk iss rnd svc ip p6 = Ok nonce)
    (Hiss : 0 <= iss) (Httl : 0 < ttl) (Hend : iss + ttl < 2 ^ 63)
    (Hnew : spent n !! B64u rnd = None) :
  let id := B64u rnd in
  let late := iss + ttl - 1 in
  let n1 := (Claim n id iss ttl).2 in
  let n2 := (Sweep n1 (iss + ttl)).2 in
  VerifyNonce nk nonce svc ip iss ttl p6 = Some rnd /\ (Claim n id iss ttl).1 = true /\
  VerifyNonce nk nonce svc ip late ttl p6 = Some rnd /\
  (Claim n1 id late ttl).1 = false /\ (Claim n2 id late ttl).1 = true.
Proof.
  cbv zeta. assert (Hv : forall t, iss <= t < iss + ttl -> VerifyNonce nk nonce svc ip t ttl p6 = Some rnd).
  { intros t Ht. apply VerifyNonce_Some; [unfold in_i64; lia|]. exists iss. split; [lia|]. split; [done|lia]. }
  assert (Hc : Claim n (B64u rnd) iss ttl = (true, {| spent := <[B64u rnd := iss + ttl]> (spent n) |})).
  { unfold Claim. rewrite Hnew, i64_small by (unfold in_i64; lia). done. }
  split; [apply Hv; lia|]. rewrite Hc. split; [done|]. split; [apply Hv; lia|]. cbn [snd]. split.
  - apply not_true_iff_false. rewrite Claim_true. cbn [spent]. rewrite lookup_insert_eq.
    intros H. specialize (H _ eq_refl). lia.
  - apply Claim_true. cbn [Sweep snd spent]. intros e [He Hlt]%map_lookup_filter_Some. cbn in Hlt.
    rewrite lookup_insert_eq in He. injection He as <-. lia.
Qed.

(** The lifetime must be the same throughout: if it is raised between two
    redemptions (a configuration reload), the spent entry can expire before the
    nonce does, and one nonce is redeemed twice. *)
Theorem nonce_replay_after_ttl_raise :
  exists nk nonce svc ip n1 n2,
    redeem nk 60 64 NewNonceStore nonce svc ip 1000 = (true, n1) /\
    redeem nk 600 64 n1 nonce svc ip 1100 = (true, n2).
Proof.
  exists (lit "key"),
    (match IssueNonce (lit "key") 1000 (lit "0123456789abcdef") (lit "wiki") (lit "10.0.0.1") 64 with
     | Ok n => n | Err _ => [] end), (lit "wiki"), (lit "10.0.0.1").
  do 2 eexists. split; [vm_compute; reflexivity|]. vm_compute. reflexivity.
Qed.

Lemma nonce_race_witness :
  let n1 := (Claim NewNonceStore (B64u (lit "0123456789abcdef")) 1000 60).2 in
  (Claim n1 (B64u (lit "0123456789abcdef")) 1059 60).1 = false /\
  (Claim (Sweep n1 1060).2 (B64u (lit "0123456789abcdef")) 1059 60).1 = true.
Proof.
  assert (Hissue : IssueNonce (lit "key") 1000 (lit "0123456789abcdef") (lit "wiki") (lit "10.0.0.1") 64 = Ok ex_nonce1)
    by (vm_compute; reflexivity).
  exact (proj2 (proj2 (proj2 (nonce_race (lit "key") 1000 (lit "0123456789abcdef") (lit "wiki") (lit "10.0.0.1") 64
    ex_nonce1 60 NewNonceStore Hissue ltac:(lia) ltac:(lia) ltac:(lia) (lookup_empty _))))).
Defined.

Lemma nonce_single_use_witness :
  redemptions (lit "key") 60 64 ex_nonce1 NewNonceStore
    [(1055, NRedeem ex_nonce1 (lit "wiki") (lit "10.0.0.1")); (1050, NSweep);
     (1020, NRedeem ex_nonce1 (lit "wiki") (lit "10.0.0.1"))] <= 1.
Proof.
  apply (nonce_single_use _ _ _ _ 0). unfold interleaved, clock_ok, in_i64, timely.
  change (issued_at ex_nonce1) with 1000. cbn [swept_by]. repeat split; lia.
Defined.
