(* ===== verification/EnrollStore.v ===== *)
(** * EnrollStore: single-use enrollment codes ([core/go/store.go], [EnrollStore]).

    Each method is atomic, but an enrollment is two calls, [Peek] then
    [Consume], with other requests in between: what follows from their
    interleavings is in [Interleaving] and [Gateways]. *)

From S2P Require Import Prelude.

Record EnrollCode := mkCode {
  ecKid : bytes;
  ecOrigins : list bytes;
  ecExp : Z }.

Record EnrollStore := { codes : gmap bytes EnrollCode }.

Definition NewEnrollStore : EnrollStore := {| codes := ∅ |}.

Definition Put (e : EnrollStore) (code : bytes) (c : EnrollCode) : EnrollStore :=
  {| codes := <[code := c]> (codes e) |}.

Definition Peek (e : EnrollStore) (code : bytes) (now : Z) : option EnrollCode :=
  match codes e !! code with
  | None => None
  | Some c => if ecExp c <=? now then None else Some c
  end.

Definition Consume (e : EnrollStore) (code : bytes) (now : Z) : option EnrollCode * EnrollStore :=
  match codes e !! code with
  | None => (None, e)
  | Some c =>
      let e := {| codes := delete code (codes e) |} in
      if ecExp c <=? now then (None, e) else (Some c, e)
  end.

Definition Sweep (e : EnrollStore) (now : Z) : Z * EnrollStore :=
  let m := filter (fun kv => now < ecExp kv.2) (codes e) in
  (Z.of_nat (size (codes e)) - Z.of_nat (size m), {| codes := m |}).

(** ** Facts *)

Lemma Peek_Some e code now c :
  Peek e code now = Some c <-> codes e !! code = Some c /\ now < ecExp c.
Proof.
  unfold Peek. destruct (codes e !! code) as [c'|]; [|naive_solver].
  case_bool; bool_prop; split; try done.
  - intros [[= ->] ?]. lia.
  - by intros [= ->].
  - by intros [? _].
Qed.

(** [Peek] answers what [Consume] would, and leaves the code in place. *)
Lemma Consume_Peek e code now : (Consume e code now).1 = Peek e code now.
Proof. unfold Consume, Peek. destruct (codes e !! code); [by case_bool|done]. Qed.

Lemma Consume_codes e code now : codes (Consume e code now).2 = delete code (codes e).
Proof.
  unfold Consume. destruct (codes e !! code) as [c|] eqn:E; [by case_bool|].
  cbn [snd]. by rewrite delete_id.
Qed.

Lemma Sweep_lookup e now code c :
  codes (Sweep e now).2 !! code = Some c <-> codes e !! code = Some c /\ now < ecExp c.
Proof. apply map_lookup_filter_Some. Qed.

(** ** Presence of one code *)

Section present.
Variable (code : bytes).

Definition present (s : EnrollStore) : nat := if codes s !! code then 1 else 0.

Lemma Consume_present s now :
  (present (Consume s code now).2 + (if (Consume s code now).1 then 1 else 0) <= present s)%nat.
Proof.
  unfold present. rewrite Consume_codes, lookup_delete_eq. unfold Consume.
  destruct (codes s !! code); [case_bool|]; simpl; lia.
Qed.

Lemma Consume_other s k now : k <> code -> present (Consume s k now).2 = present s.
Proof. intros H. unfold present. by rewrite Consume_codes, lookup_delete_ne. Qed.

Lemma Put_present s k c :
  (present (Put s k c) <= present s + (if bool_decide (k = code) then 1 else 0))%nat.
Proof.
  unfold present. cbn [codes Put]. case_bool_decide as Hk.
  - destruct (_ !! _), (_ !! _); lia.
  - rewrite lookup_insert_ne by done. lia.
Qed.

Lemma Sweep_present s now : (present (Sweep s now).2 <= present s)%nat.
Proof.
  unfold present. destruct (codes (Sweep s now).2 !! code) as [c|] eqn:E; [|lia].
  apply Sweep_lookup in E as [-> _]. lia.
Qed.

End present.
