(* ===== verification/GoPath.v ===== *)
(** * GoPath: [path.Clean] and [url.PathUnescape] of Go's standard library. *)

From S2P Require Import Prelude GoStrings Binary.
Import strings.

Module url.

(** Percent-decoding in path-segment mode: a ['%'] must be followed by two
    hexadecimal digits, and every other byte (['+'] too) stands for itself. *)
Fixpoint PathUnescape (s : bytes) : option bytes :=
  match s with
  | [] => Some []
  | "%"%byte :: rest =>
      match rest with
      | a :: b :: s' =>
          match hex.hexval a, hex.hexval b with
          | Some x, Some y => (fun r => z2b (16 * x + y) :: r) <$> PathUnescape s'
          | _, _ => None
          end
      | _ => None
      end
  | c :: s' => cons c <$> PathUnescape s'
  end.

Lemma PathUnescape_plain s : "%"%byte ∉ s -> PathUnescape s = Some s.
Proof.
  induction s as [|c s IH]; [done|]. intros [Hc Hs]%not_elem_of_cons.
  assert (PathUnescape (c :: s) = cons c <$> PathUnescape s) as ->.
  { destruct c; done. }
  by rewrite IH.
Qed.

End url.

Module path.

(** One path element against the stack of elements kept so far (innermost
    first): [""] and ["."] vanish, [".."] removes the element before it, except
    at the start of a relative path. *)
Definition clean_step (rooted : bool) (out : list bytes) (e : bytes) : list bytes :=
  if bool_decide (e = []) || bool_decide (e = lit ".") then out
  else if bool_decide (e = lit "..") then
    match out with
    | [] => if rooted then [] else [e]
    | top :: out' => if bool_decide (top = lit "..") then e :: out else out'
    end
  else e :: out.

Definition elements (rooted : bool) (p : bytes) : list bytes :=
  reverse (foldl (clean_step rooted) [] (Split p "/")).

Definition Clean (p : bytes) : bytes :=
  if bool_decide (p = []) then lit "."
  else
    let rooted := HasPrefix p (lit "/") in
    let body := Join (elements rooted p) (lit "/") in
    if rooted then "/"%byte :: body
    else if bool_decide (body = []) then lit "." else body.

(** *** Facts on rooted paths *)

(** An element that cleaning leaves alone. *)
Definition plain (e : bytes) : Prop :=
  e <> [] /\ e <> lit "." /\ e <> lit ".." /\ "/"%byte ∉ e.

Definition normal (es : list bytes) : Prop := Forall plain es.

Lemma clean_step_plain rooted out e : plain e -> clean_step rooted out e = e :: out.
Proof.
  intros (H1 & H2 & H3 & _). unfold clean_step.
  by rewrite !bool_decide_eq_false_2 by done.
Qed.

Lemma clean_steps_plain rooted out es :
  normal es -> foldl (clean_step rooted) out es = reverse es ++ out.
Proof.
  intros H. revert out. induction H as [|e es He _ IH]; intros out; [done|].
  cbn [foldl]. rewrite clean_step_plain, IH, reverse_cons, <- app_assoc by done. done.
Qed.

Lemma clean_step_normal out e :
  normal out -> "/"%byte ∉ e -> normal (clean_step true out e).
Proof.
  intros Hout He. unfold clean_step.
  destruct (bool_decide (e = [])) eqn:E1; [done|].
  destruct (bool_decide (e = lit ".")) eqn:E2; [done|].
  destruct (bool_decide (e = lit "..")) eqn:E3; cbn [orb]; bool_prop.
  - destruct out as [|top out']; [done|]. apply Forall_cons in Hout as [Ht Hout'].
    rewrite bool_decide_eq_false_2; [done|]. by destruct Ht as (_ & _ & ? & _).
  - apply Forall_cons. by split.
Qed.

Lemma elements_normal p : normal (elements true p).
Proof.
  unfold elements. apply Forall_reverse.
  assert (H : forall es out, normal out -> Forall (fun e => "/"%byte ∉ e) es ->
                normal (foldl (clean_step true) out es)).
  { induction es as [|e es IH]; intros out Hout Hes; [done|].
    apply Forall_cons in Hes as [He Hes]. cbn [foldl].
    apply IH; [by apply clean_step_normal|done]. }
  apply H; [by constructor|]. apply Split_no_sep.
Qed.

Lemma Split_Join es :
  es <> [] -> Forall (fun e => "/"%byte ∉ e) es -> Split (Join es (lit "/")) "/" = es.
Proof.
  intros Hne H. induction H as [|e es He Hes IH]; [done|].
  destruct es as [|e2 es]; [by apply Split_no_sep_id|].
  change (Join (e :: e2 :: es) (lit "/")) with (e ++ "/"%byte :: Join (e2 :: es) (lit "/")).
  rewrite Split_app, IH by done. done.
Qed.

(** A cleaned rooted path, as a list of plain elements. *)
Lemma Clean_rooted p :
  HasPrefix p (lit "/") = true -> Clean p = "/"%byte :: Join (elements true p) (lit "/").
Proof.
  intros H. unfold Clean. rewrite H. rewrite bool_decide_eq_false_2; [done|]. by intros ->.
Qed.

Lemma normal_no_sep es : normal es -> Forall (fun e => "/"%byte ∉ e) es.
Proof. intros H. eapply Forall_impl; [exact H|]. by intros e (_ & _ & _ & ?). Qed.

Lemma elements_join es : normal es -> elements true ("/"%byte :: Join es (lit "/")) = es.
Proof.
  intros Hn. unfold elements. change ("/"%byte :: ?s) with ([] ++ "/"%byte :: s).
  rewrite Split_app by apply not_elem_of_nil. cbn [foldl].
  change (clean_step true [] []) with (@nil bytes).
  destruct es as [|e es]; [done|].
  rewrite Split_Join by (try apply normal_no_sep; done).
  by rewrite clean_steps_plain, app_nil_r, reverse_involutive by done.
Qed.

Lemma Clean_join es : normal es -> Clean ("/"%byte :: Join es (lit "/")) = "/"%byte :: Join es (lit "/").
Proof. intros Hn. rewrite Clean_rooted by apply (HasPrefix_app (lit "/")). by rewrite elements_join. Qed.

Lemma Clean_idemp p : HasPrefix p (lit "/") = true -> Clean (Clean p) = Clean p.
Proof. intros H. rewrite (Clean_rooted p H). apply Clean_join, elements_normal. Qed.

(** Cleaning introduces no byte but the separator. *)
Lemma Join_elem (b : byte) es : b ∈ Join es (lit "/") -> b = "/"%byte \/ exists e, e ∈ es /\ b ∈ e.
Proof.
  induction es as [|e es IH]; cbn [Join]; [by intros ?%elem_of_nil|].
  destruct es as [|e2 es]; [right; exists e; split; [left|done]|].
  rewrite !elem_of_app. intros [H|[H|H]].
  - right. exists e. split; [left|done].
  - left. by apply list_elem_of_singleton in H.
  - destruct (IH H) as [?|(e' & ? & ?)]; [by left|right]. exists e'. split; [by right|done].
Qed.

Lemma Split_elem (b : byte) e s : e ∈ Split s "/" -> b ∈ e -> b ∈ s.
Proof.
  revert e. induction s as [|c s IH]; intros e; cbn [Split].
  - intros ->%list_elem_of_singleton. done.
  - case_bool_decide.
    + intros [->|H1]%elem_of_cons Hb; [by apply elem_of_nil in Hb|]. right. eauto.
    + destruct (Split s "/") as [|p ps].
      * intros ->%list_elem_of_singleton ->%list_elem_of_singleton. left.
      * intros [->|H1]%elem_of_cons Hb.
        { apply elem_of_cons in Hb as [->|Hb]; [left|right]. eapply IH; [left|done]. }
        right. eapply IH; [by right|done].
Qed.

Lemma elements_elem e p : e ∈ elements true p -> e ∈ Split p "/".
Proof.
  unfold elements. rewrite elem_of_reverse.
  assert (H : forall es out, (forall x, x ∈ out -> x ∈ Split p "/") ->
    (forall x, x ∈ es -> x ∈ Split p "/") ->
    forall x, x ∈ foldl (clean_step true) out es -> x ∈ Split p "/").
  { induction es as [|y es IH]; intros out Ho He x; [by apply Ho|]. cbn [foldl].
    apply IH; [|intros z Hz; apply He; by right]. intros z. unfold clean_step.
    destruct (_ || _); [by apply Ho|]. destruct (bool_decide (y = lit "..")).
    - destruct out as [|top out']; [by intros ?%elem_of_nil|]. destruct (bool_decide _).
      + intros [->|Hz]%elem_of_cons; [apply He; left|by apply Ho].
      + intros Hz. apply Ho. by right.
    - intros [->|Hz]%elem_of_cons; [apply He; left|by apply Ho]. }
  apply H; [|done]. by intros x ?%elem_of_nil.
Qed.

Lemma Clean_elem b p : HasPrefix p (lit "/") = true -> b ∈ Clean p -> b = "/"%byte \/ b ∈ p.
Proof.
  intros H. rewrite (Clean_rooted p H). intros [->|Hb]%elem_of_cons; [by left|].
  apply Join_elem in Hb as [->|(e & He & Hb)]; [by left|right].
  eapply Split_elem; [by apply elements_elem|done].
Qed.

End path.
