(* ===== verification/Http.v ===== *)
(** * Http: the parts of Go's [net/http] the handlers use.

    Requests and responses as records, header keys in canonical form, cookie
    parsing, and the state monad in which the handlers are written. *)

From S2P Require Import Prelude GoStrings.
Import strings.

(** ** Header keys and values *)

(** RFC 9110 token bytes: [textproto.validHeaderFieldByte], [httpguts.isToken]. *)
Definition token_byte (b : byte) : bool :=
  is_upper b || is_lower b || is_digit b || in_cutset (lit "!#$%&'*+-.^_`|~") b.

Fixpoint canon_letters (up : bool) (s : bytes) : bytes :=
  match s with
  | [] => []
  | c :: s' =>
      (if up then (if is_lower c then z2b (b2z c - 32) else c)
       else (if is_upper c then z2b (b2z c + 32) else c))
      :: canon_letters (bool_decide (c = "-"%byte)) s'
  end.

Definition CanonicalHeaderKey (s : bytes) : bytes :=
  if forallb token_byte s then canon_letters true s else s.

Notation Header := (gmap bytes (list bytes)).

Definition Values (h : Header) (k : bytes) : list bytes := default [] (h !! CanonicalHeaderKey k).
Definition HGet (h : Header) (k : bytes) : bytes := default [] (head (Values h k)).
Definition HSet (k v : bytes) (h : Header) : Header := <[CanonicalHeaderKey k := [v]]> h.

(** ** Requests *)

Record Request := {
  Method : bytes;
  Host : bytes;
  RemoteAddr : bytes;
  URLPath : bytes;         (** [r.URL.Path], decoded *)
  EscapedPath : bytes;     (** [r.URL.EscapedPath()] *)
  RHeader : Header;
  Body : bytes }.

(** ** Cookies *)

Definition cookie_value_byte (b : byte) : bool :=
  (32 <=? b2z b) && (b2z b <? 127) &&
  negb (bool_decide (b ∈ [x22; ";"%byte; "\"%byte])).

(** [parseCookieValue] with quotes allowed. *)
Definition parseCookieValue (v : bytes) : option bytes :=
  let quoted := (1 <? length v)%nat && HasPrefix v [x22] && HasSuffix v [x22] in
  let v := if quoted then take (length v - 2) (drop 1 v) else v in
  if forallb cookie_value_byte v then Some v else None.

Definition is_blank (b : byte) : bool := in_cutset [x20; x09; x0a; x0d] b.

(** [textproto.TrimString] *)
Definition TrimString (s : bytes) : bytes := rdrop_while is_blank (drop_while is_blank s).

(** [strings.Cut(s, "=")] *)
Definition CutEq (s : bytes) : bytes * bytes :=
  match IndexByte s "="%byte with
  | Some i => (take i s, drop (S i) s)
  | None => (s, [])
  end.

(** One [name=value] part of a Cookie line; [None] when it is skipped. *)
Definition cookie_part (name part : bytes) : option bytes :=
  let '(n, v) := CutEq (TrimString part) in
  let n := TrimString n in
  if bool_decide (n = []) || negb (forallb token_byte n) || negb (bool_decide (n = name))
  then None else parseCookieValue v.

(** [r.Cookie(name)]: the value of the first usable cookie of that name. *)
Definition RCookie (r : Request) (name : bytes) : option bytes :=
  head (omap (cookie_part name)
    (concat (map (fun line => Split (TrimString line) ";"%byte) (Values (RHeader r) (lit "Cookie"))))).

(** What [http.SetCookie] is given. *)
Record Cookie := {
  ckName : bytes;
  ckValue : bytes;
  ckPath : bytes;
  ckHttpOnly : bool;
  ckSecure : bool;
  ckSameSiteStrict : bool;
  ckMaxAge : Z }.

(** ** Responses *)

Record Response := mkResp {
  status : Z;              (** 0 until [WriteHeader] *)
  RespHeader : Header;
  SetCookies : list Cookie;
  RespBody : bytes }.

Definition fresh : Response := {| status := 0; RespHeader := ∅; SetCookies := []; RespBody := [] |}.

Definition StatusOK : Z := 200.
Definition StatusNoContent : Z := 204.
Definition StatusTemporaryRedirect : Z := 307.
Definition StatusBadRequest : Z := 400.
Definition StatusUnauthorized : Z := 401.
Definition StatusForbidden : Z := 403.
Definition StatusNotFound : Z := 404.
Definition StatusMethodNotAllowed : Z := 405.
Definition StatusInternalServerError : Z := 500.

Definition MethodGet : bytes := Eval vm_compute in lit "GET".
Definition MethodPost : bytes := Eval vm_compute in lit "POST".

Definition r_set (k v : bytes) (w : Response) : Response :=
  {| status := status w; RespHeader := HSet k v (RespHeader w);
     SetCookies := SetCookies w; RespBody := RespBody w |}.

(** The first [WriteHeader] wins. *)
Definition r_status (code : Z) (w : Response) : Response :=
  if status w =? 0
  then {| status := code; RespHeader := RespHeader w; SetCookies := SetCookies w; RespBody := RespBody w |}
  else w.

Definition r_write (b : bytes) (w : Response) : Response :=
  let w := r_status StatusOK w in
  {| status := status w; RespHeader := RespHeader w; SetCookies := SetCookies w;
     RespBody := RespBody w ++ b |}.

(** The first status set is the one that stays. *)
Lemma status_open code w : status w = 0 -> status (r_status code w) = code.
Proof. unfold r_status. by intros ->. Qed.

Lemma status_write b w code : code <> 0 -> status w = code -> status (r_write b w) = code.
Proof. intros Hc Hw. unfold r_write, r_status. cbn. rewrite Hw. by destruct (Z.eqb_spec code 0). Qed.

Definition r_cookie (c : Cookie) (w : Response) : Response :=
  {| status := status w; RespHeader := RespHeader w; SetCookies := SetCookies w ++ [c];
     RespBody := RespBody w |}.

Definition r_del (k : bytes) (w : Response) : Response :=
  {| status := status w; RespHeader := delete (CanonicalHeaderKey k) (RespHeader w);
     SetCookies := SetCookies w; RespBody := RespBody w |}.

(** [http.Error] and [http.NotFound]. *)
Definition r_error (msg : bytes) (code : Z) (w : Response) : Response :=
  r_write (msg ++ [x0a]) (r_status code
    (r_set (lit "X-Content-Type-Options") (lit "nosniff")
      (r_set (lit "Content-Type") (lit "text/plain; charset=utf-8")
        (r_del (lit "Content-Length") w)))).

Definition r_notfound (w : Response) : Response :=
  r_error (lit "404 page not found") StatusNotFound w.

(** ** The handlers' monad *)

Definition ST (S A : Type) : Type := S -> A * S.

#[export] Instance ST_ret S : MRet (ST S) := fun A a s => (a, s).
#[export] Instance ST_bind S : MBind (ST S) := fun A B f m s => let '(a, s') := m s in f a s'.

Definition st_get {S} : ST S S := fun s => (s, s).
Definition st_modify {S} (f : S -> S) : ST S unit := fun s => (tt, f s).

(** Run the steps of a handler whose outcome is already known. *)
Ltac st_run := unfold mbind, mret, ST_bind, ST_ret; cbv beta iota.

Lemma ST_bind_run {S A B} (m : ST S A) (f : A -> ST S B) s :
  (m ≫= f) s = let '(a, s') := m s in f a s'.
Proof. done. Qed.

Lemma ST_ret_run {S A} (a : A) (s : S) : (mret a : ST S A) s = (a, s).
Proof. done. Qed.

(** The same one step at a time, leaving the continuations alone. *)
Ltac bind_run := cbv beta iota; repeat (first [rewrite ST_bind_run | rewrite ST_ret_run]; cbv beta iota).

(** ** Facts *)

Lemma RCookie_none r name :
  Values (RHeader r) (lit "Cookie") = [] -> RCookie r name = None.
Proof. unfold RCookie. by intros ->. Qed.

