(* ===== verification/Threads.v ===== *)
(** * Threads: programs of operations, and many of them at once.

    A handler of the program is a finite tree of atomic operations, each with what
    to do on every answer ([prog]).  [interp] runs one in any monad that has the
    operations; a [machine] says what the operations do to what threads share, and
    [step] interleaves the operations of any number of threads with the actions of
    an environment.  A log determines the shared state ([replay]).  [wlp] proves a
    property of the traces of one program by following its syntax, whatever the
    answers; [reachable_ok] lifts it to every thread of every interleaving. *)

From S2P Require Import Prelude Http.

(** ** Programs *)

Inductive prog (O : Type -> Type) (A : Type) : Type :=
| Ret (a : A)
| Vis {B : Type} (o : O B) (k : B -> prog O A).
Arguments Ret {O A} _.
Arguments Vis {O A B} _ _.

#[export] Instance prog_ret O : MRet (prog O) := @Ret O.

#[export] Instance prog_bind O : MBind (prog O) := fun A B f =>
  fix bind p := match p with Ret a => f a | Vis o k => Vis o (fun b => bind (k b)) end.

(** ** Running one *)

Section interp.
Context {O : Type -> Type} {S : Type}.
Variable (perform : forall B, O B -> ST S B).

Fixpoint interp {A} (p : prog O A) : ST S A :=
  match p with
  | Ret a => mret a
  | Vis o k => b ← perform _ o; interp (k b)
  end.

(** The program runs to what the action does. *)
Definition runs_to {A} (p : prog O A) (m : ST S A) : Prop := forall w, interp p w = m w.

Lemma interp_bind {A B} (p : prog O A) (f : A -> prog O B) w :
  interp (p ≫= f) w = (interp p ≫= fun a => interp (f a)) w.
Proof.
  revert w. induction p as [a|C o k IH]; intros w; [done|].
  change ((perform _ o ≫= fun b => interp (k b ≫= f)) w = (interp (Vis o k) ≫= fun a => interp (f a)) w).
  cbn [interp]. rewrite !ST_bind_run. destruct (perform _ o w) as [b w']. apply IH.
Qed.

Lemma runs_bind {A B} (p : prog O A) (m : ST S A) (f : A -> prog O B) (g : A -> ST S B) :
  runs_to p m -> (forall a, runs_to (f a) (g a)) -> runs_to (p ≫= f) (m ≫= g).
Proof.
  intros Hp Hf w. rewrite interp_bind, !ST_bind_run, Hp. destruct (m w) as [a w']. apply Hf.
Qed.

Lemma runs_ret {A} (a : A) : runs_to (mret a) (mret a).
Proof. done. Qed.

Lemma runs_op {B} (o : O B) : runs_to (Vis o Ret) (perform _ o).
Proof. intros w. cbn [interp]. rewrite ST_bind_run. by destruct (perform _ o w). Qed.
End interp.

Create HintDb runs.
#[export] Hint Resolve runs_ret : runs.

(** Follow the syntax of a program and of the action it should run to. *)
Ltac running :=
  repeat first
  [ solve [auto with runs]
  | match goal with |- runs_to _ (match ?x with _ => _ end) _ => destruct x end
  | apply runs_bind; [|intros ?]
  | match goal with |- runs_to _ ?p _ => let p' := eval hnf in p in
      match p' with Vis ?o Ret => exact (runs_op _ o) end end ].

(** ** Traces of one *)

Section wlp.
Context {O : Type -> Type} {event : Type}.
Variables
  (event_of : forall B, O B -> B -> event)    (** an operation that was served, with its answer *)
  (G : list event -> event -> Prop).          (** what must hold at an event, after a trace *)

(** From the trace [h] on, newest first, every operation [p] performs meets [G],
    and [p] ends with a trace and a result in [Q], whatever the answers. *)
Fixpoint wlp {A} (h : list event) (p : prog O A) (Q : list event -> A -> Prop) : Prop :=
  match p with
  | Ret a => Q h a
  | Vis o k => forall b, G h (event_of _ o b) /\ wlp (event_of _ o b :: h) (k b) Q
  end.

Lemma wlp_bind {A B} (p : prog O A) (f : A -> prog O B) h Q :
  wlp h p (fun h' a => wlp h' (f a) Q) -> wlp h (p ≫= f) Q.
Proof.
  revert h. induction p as [a|C o k IH]; intros h H; [done|].
  intros b. destruct (H b) as [Hg Hk]. split; [done|]. by apply IH.
Qed.

Lemma wlp_mono {A} (p : prog O A) h (Q R : list event -> A -> Prop) :
  (forall h' a, Q h' a -> R h' a) -> wlp h p Q -> wlp h p R.
Proof.
  intros HQR. revert h. induction p as [a|C o k IH]; intros h H; [by apply HQR|].
  intros b. destruct (H b). split; [done|]. by apply IH.
Qed.

(** A trace only grows. *)
Lemma wlp_suffix {A} (p : prog O A) h Q : wlp h p Q -> wlp h p (fun h' a => Q h' a /\ h `suffix_of` h').
Proof.
  revert h. induction p as [a|C o k IH]; intros h H; [by split|].
  intros b. destruct (H b) as [Hg Hk]. split; [done|].
  eapply wlp_mono; [|apply (IH b _ Hk)]. cbn. intros h' a [? Hs]. split; [done|].
  etrans; [|exact Hs]. by apply suffix_cons_r.
Qed.

Lemma wlp_op {A B} (o : O B) (f : B -> prog O A) h Q :
  (forall b, G h (event_of _ o b) /\ wlp (event_of _ o b :: h) (f b) Q) -> wlp h (Vis o Ret ≫= f) Q.
Proof. done. Qed.

(** *** Programs that meet the guard whatever came before *)

Definition calm {A} (p : prog O A) : Prop := forall h, wlp h p (fun _ _ => True).

Lemma calm_wlp {A} (p : prog O A) h : calm p -> wlp h p (fun _ _ => True).
Proof. intros H. apply H. Qed.

Lemma calm_bind {A B} (p : prog O A) (f : A -> prog O B) : calm p -> (forall a, calm (f a)) -> calm (p ≫= f).
Proof. intros Hp Hf h. apply wlp_bind. eapply wlp_mono; [|apply Hp]. intros h' a _. apply Hf. Qed.

Lemma calm_ret {A} (a : A) : calm (mret a).
Proof. done. Qed.

Lemma calm_op {B} (o : O B) : (forall h b, G h (event_of _ o b)) -> calm (Vis o Ret).
Proof. by intros H h b. Qed.
End wlp.

Create HintDb calm.
#[export] Hint Resolve calm_ret : calm.

Ltac calming :=
  repeat first
  [ solve [auto with calm]
  | match goal with |- calm _ _ (match ?x with _ => _ end) => destruct x end
  | apply calm_bind; [|intros ?]
  | match goal with |- calm _ _ ?p => let p' := eval hnf in p in
      match p' with Vis ?o Ret => apply (calm_op _ _ o); by intros ? ? end end ].

(** A fact is among the latest of a trace. *)
Ltac recent := repeat first [apply list_elem_of_here | apply list_elem_of_further].

(** ** Machines *)

(** What the operations of some threads do, and the actions of their environment:
    [m_exec] is an operation at a time and with a source of randomness, on the
    shared state and the thread's own output; an event holds in a state when its
    answer is the state's, and is applied to state and output. *)
Record machine (O : Type -> Type) (event state output request result plan choice act : Type) := mkMachine {
  m_blank : output;
  m_code : request -> prog O result;
  m_event : forall B, O B -> B -> event;
  m_exec : forall B, O B -> Z -> (nat -> option bytes) -> state -> output -> B * state * output;
  m_holds : event -> state -> Prop;
  m_apply : event -> state -> state;
  m_answer : event -> output -> output;
  m_exec_event : forall B (o : O B) t rnd s w,
    let '(b, s', w') := m_exec B o t rnd s w in
    m_holds (m_event B o b) s /\ s' = m_apply (m_event B o b) s /\ w' = m_answer (m_event B o b) w;
  m_go : choice -> plan -> option (option act * plan);
  m_act : act -> state -> state }.
Arguments mkMachine {O event state output request result plan choice act}.
Arguments m_blank {O event state output request result plan choice act} _.
Arguments m_code {O event state output request result plan choice act} _ _.
Arguments m_event {O event state output request result plan choice act} _ _ _ _.
Arguments m_exec {O event state output request result plan choice act} _ {B} _ _ _ _ _.
Arguments m_holds {O event state output request result plan choice act} _ _ _.
Arguments m_apply {O event state output request result plan choice act} _ _ _.
Arguments m_answer {O event state output request result plan choice act} _ _ _.
Arguments m_exec_event {O event state output request result plan choice act} _ {B} _ _ _ _ _.
Arguments m_go {O event state output request result plan choice act} _ _ _.
Arguments m_act {O event state output request result plan choice act} _ _ _.

(** A request in flight: what is left of its program, and its output so far. *)
Record thread (O : Type -> Type) (output request result : Type) := mkThread {
  treq : request;
  tcode : prog O result;
  tout : output }.
Arguments mkThread {O output request result} _ _ _.
Arguments treq {O output request result} _.
Arguments tcode {O output request result} _.
Arguments tout {O output request result} _.

Inductive entry (event act : Type) :=
| LOp (i : nat) (e : event)
| LAct (a : act).
Arguments LOp {event act} _ _.
Arguments LAct {event act} _.

Record system (O : Type -> Type) (event state output request result plan act : Type) := mkSystem {
  shared : state;
  threads : list (thread O output request result);
  planned : plan;
  log : list (entry event act) }.     (** newest first *)
Arguments mkSystem {O event state output request result plan act} _ _ _ _.
Arguments shared {O event state output request result plan act} _.
Arguments threads {O event state output request result plan act} _.
Arguments planned {O event state output request result plan act} _.
Arguments log {O event state output request result plan act} _.

(** What the thread [i] did. *)
Definition trace {event act} (i : nat) (l : list (entry event act)) : list event :=
  omap (fun x => match x with LOp j e => if decide (j = i) then Some e else None | _ => None end) l.

Lemma forallb_elem {A} (f : A -> bool) (l : list A) x : forallb f l = true -> x ∈ l -> f x = true.
Proof. rewrite forallb_forall. intros H Hx. by apply H, list_elem_of_In. Qed.

Section trace.
Context {event act : Type}.
Implicit Types (e : event) (l : list (entry event act)).

Lemma trace_same i e l : trace i (LOp i e :: l) = e :: trace i l.
Proof. unfold trace. cbn. by rewrite decide_True. Qed.

Lemma trace_other i j e l : j <> i -> trace i (LOp j e :: l) = trace i l.
Proof. intros H. unfold trace. cbn. by rewrite decide_False. Qed.

Lemma trace_in i e l : e ∈ trace i l <-> LOp i e ∈ l.
Proof.
  unfold trace. rewrite list_elem_of_omap. split.
  - intros ([j e'|a] & Hin & He); [|done]. case_decide; [|done]. by simplify_eq.
  - intros H. exists (LOp i e). by rewrite decide_True.
Qed.

(** How many entries of a log are of a kind. *)
Definition tally (P : entry event act -> bool) (l : list (entry event act)) : nat :=
  length (filter (fun x => P x = true) l).

Lemma tally_cons P x l : tally P (x :: l) = ((if P x then 1 else 0) + tally P l)%nat.
Proof. unfold tally. rewrite filter_cons. by destruct (P x). Qed.

(** Threads that each performed some operation of a kind performed as many. *)
Lemma tally_requests P (reqs : list nat) l :
  NoDup reqs -> (forall i, i ∈ reqs -> exists e, LOp i e ∈ l /\ P (LOp i e) = true) ->
  (length reqs <= tally P l)%nat.
Proof.
  intros Hnd Hall. unfold tally.
  transitivity (length (omap (fun x => match x with LOp i _ => Some i | _ => None end)
    (filter (fun x => P x = true) l))).
  - apply submseteq_length, NoDup_submseteq; [done|]. intros i Hi. destruct (Hall i Hi) as (e & Hin & He).
    apply list_elem_of_omap. exists (LOp i e). split; [|done]. by apply list_elem_of_filter.
  - induction (filter _ l) as [|x m IH]; [done|]. cbn. destruct x; cbn; lia.
Qed.
End trace.

(** A schedule: who goes next; an operation finds the time and the randomness given. *)
Inductive sched (request choice : Type) :=
| SArrive (q : request)
| SOp (i : nat) (t : Z) (rnd : nat -> option bytes)
| SEnv (c : choice).
Arguments SArrive {request choice} _.
Arguments SOp {request choice} _ _ _.
Arguments SEnv {request choice} _.

(** The requests of a schedule, in order. *)
Definition arrivals {request choice} (l : list (sched request choice)) : list request :=
  omap (fun a => match a with SArrive q => Some q | _ => None end) l.

(** ** Steps *)

Section machine.
Context {O : Type -> Type} {event state output request result plan choice act : Type}.
Variable (m : machine O event state output request result plan choice act).

Notation thread := (thread O output request result).
Notation entry := (entry event act).
Notation system := (system O event state output request result plan act).
Notation sched := (sched request choice).

Definition arrive (q : request) : thread := mkThread q (m_code m q) (m_blank m).

Inductive step : system -> system -> Prop :=
| step_arrive s ths p l q :
    step (mkSystem s ths p l) (mkSystem s (ths ++ [arrive q]) p l)
| step_op s ths p l i (th : thread) B (o : O B) k t rnd b s' w :
    ths !! i = Some th -> tcode th = Vis o k -> m_exec m o t rnd s (tout th) = (b, s', w) ->
    step (mkSystem s ths p l)
      (mkSystem s' (<[i := mkThread (treq th) (k b) w]> ths) p (LOp i (m_event m B o b) :: l))
| step_plan s ths p l c p' :
    m_go m c p = Some (None, p') -> step (mkSystem s ths p l) (mkSystem s ths p' l)
| step_act s ths p l c a p' :
    m_go m c p = Some (Some a, p') ->
    step (mkSystem s ths p l) (mkSystem (m_act m a s) ths p' (LAct a :: l)).

Definition start (s : state) (p : plan) : system := mkSystem s [] p [].

Definition reachable (s : state) (p : plan) : system -> Prop := rtc step (start s p).

(** *** Schedules *)

Definition exec1 (y : system) (a : sched) : system :=
  let '(mkSystem s ths p l) := y in
  match a with
  | SArrive q => mkSystem s (ths ++ [arrive q]) p l
  | SOp i t rnd =>
      match (ths !! i : option thread) with
      | Some th =>
          match tcode th with
          | Vis o k =>
              let '(b, s', w) := m_exec m o t rnd s (tout th) in
              mkSystem s' (<[i := mkThread (treq th) (k b) w]> ths) p (LOp i (m_event m _ o b) :: l)
          | Ret _ => y
          end
      | None => y
      end
  | SEnv c =>
      match m_go m c p with
      | Some (Some a, p') => mkSystem (m_act m a s) ths p' (LAct a :: l)
      | Some (None, p') => mkSystem s ths p' l
      | None => y
      end
  end.

Definition exec (y : system) (l : list sched) : system := foldl exec1 y l.

Lemma exec1_step y a : rtc step y (exec1 y a).
Proof.
  destruct y as [s ths p l]. destruct a as [q|i t rnd|c]; cbn [exec1].
  - apply rtc_once. constructor.
  - destruct (ths !! i) as [th|] eqn:Hi; [|done]. destruct (tcode th) as [|B o k] eqn:Hc; [done|].
    destruct (m_exec m o t rnd s (tout th)) as [[b s'] w'] eqn:He.
    apply rtc_once. by eapply step_op.
  - destruct (m_go m c p) as [[[a|] p']|] eqn:Hg; [| |done]; apply rtc_once.
    + by apply (step_act _ _ _ _ c).
    + by apply (step_plan _ _ _ _ c).
Qed.

Lemma exec_reachable s p l : reachable s p (exec (start s p) l).
Proof.
  unfold reachable, exec. generalize (start s p). induction l as [|a l IH]; intros y; [done|].
  etrans; [apply exec1_step|apply IH].
Qed.

(** The requests of a run are those that arrived. *)
Lemma exec_requests y l : treq <$> threads (exec y l) = (treq <$> threads y) ++ arrivals l.
Proof.
  revert y. induction l as [|a l IH]; intros y; [by rewrite app_nil_r|].
  change (exec y (a :: l)) with (exec (exec1 y a) l). rewrite IH.
  assert (H1 : treq <$> threads (exec1 y a) = (treq <$> threads y) ++ arrivals [a]).
  { destruct y as [s ths p lg]. destruct a as [q|i t rnd|c]; cbn [exec1].
    - cbn [threads]. by rewrite fmap_app.
    - change (arrivals [SOp i t rnd]) with (@nil request). rewrite app_nil_r.
      destruct (ths !! i) as [th|] eqn:Hi; [|done]. destruct (tcode th) as [|B o k]; [done|].
      destruct (m_exec m o t rnd s (tout th)) as [[b s'] w'].
      cbn [threads]. rewrite list_fmap_insert. apply list_insert_id. by rewrite list_lookup_fmap, Hi.
    - rewrite app_nil_r. by destruct (m_go m c p) as [[[]]|]. }
  rewrite H1, <- app_assoc. f_equal. by destruct a.
Qed.

Lemma thread_request s p l i th :
  threads (exec (start s p) l) !! i = Some th -> arrivals l !! i = Some (treq th).
Proof.
  intros Hi%(f_equal (fmap treq)). rewrite <- list_lookup_fmap, exec_requests in Hi. exact Hi.
Qed.

(** *** One thread alone, on a world of its own *)

Section alone.
Context {W : Type}.
Variables (perform : forall B, O B -> ST W B) (to_state : W -> state) (to_out : W -> output).
Hypothesis (Hperform : forall B (o : O B) w,
  exists t rnd, m_exec m o t rnd (to_state w) (to_out w) =
    let '(b, w') := perform _ o w in (b, to_state w', to_out w')).

(** A thread left alone runs as its program does on the world. *)
Lemma solo (p : prog O result) i q w ths pl l :
  ths !! i = Some (mkThread q p (to_out w)) ->
  exists l', rtc step (mkSystem (to_state w) ths pl l)
    (mkSystem (to_state (interp perform p w).2)
       (<[i := mkThread q (Ret (interp perform p w).1) (to_out (interp perform p w).2)]> ths) pl l').
Proof.
  revert w ths l. induction p as [a|B o k IH]; intros w ths l Hi.
  - exists l. cbn [interp]. rewrite list_insert_id by done. done.
  - cbn [interp]. rewrite ST_bind_run. destruct (Hperform B o w) as (t & rnd & Hm).
    destruct (perform B o w) as [b w'].
    assert (Hi' : <[i:=mkThread q (k b) (to_out w')]> ths !! i = Some (mkThread q (k b) (to_out w')))
      by (by apply list_lookup_insert_eq, (lookup_lt_Some _ _ _ Hi)).
    destruct (IH b w' _ (LOp i (m_event m B o b) :: l) Hi') as [l' Hl'].
    exists l'. rewrite list_insert_insert_eq in Hl'. eapply rtc_l; [|exact Hl'].
    exact (step_op _ ths pl l i _ B o k t rnd b _ _ Hi eq_refl Hm).
Qed.

Lemma arrive_solo q w ths pl l :
  to_out w = m_blank m ->
  exists l', rtc step (mkSystem (to_state w) ths pl l)
    (mkSystem (to_state (interp perform (m_code m q) w).2)
       (ths ++ [mkThread q (Ret (interp perform (m_code m q) w).1) (to_out (interp perform (m_code m q) w).2)])
       pl l').
Proof.
  intros Hw.
  assert (Hi : (ths ++ [arrive q]) !! length ths = Some (mkThread q (m_code m q) (to_out w)))
    by (rewrite Hw; by apply list_lookup_middle).
  destruct (solo _ (length ths) q w _ pl l Hi) as [l' Hl'].
  exists l'. eapply rtc_l; [apply (step_arrive _ _ _ _ q)|]. revert Hl'.
  by rewrite insert_app_r_alt, Nat.sub_diag by done.
Qed.
End alone.

(** *** Logs *)

Definition replay1 (x : entry) (s : state) : state :=
  match x with LOp _ e => m_apply m e s | LAct a => m_act m a s end.

Definition replay (s : state) (l : list entry) : state := foldr replay1 s l.

Definition holds1 (x : entry) (s : state) : Prop :=
  match x with LOp _ e => m_holds m e s | LAct _ => True end.

(** Every answer in the log was the state's at that point. *)
Fixpoint truthful (s : state) (l : list entry) : Prop :=
  match l with
  | [] => True
  | x :: l' => holds1 x (replay s l') /\ truthful s l'
  end.

Definition response (h : list event) : output := foldr (m_answer m) (m_blank m) h.

Lemma truthful_at s after x before :
  truthful s (after ++ x :: before) -> holds1 x (replay s before) /\ truthful s before.
Proof. induction after as [|y after IH]; [done|]. intros [_ H]. by apply IH. Qed.

(** *** Reachable systems *)

Section reach.
(** What a request must have done before an event, and when it has ended. *)
Variables
  (G : request -> list event -> event -> Prop)
  (Q : request -> list event -> result -> Prop).
Hypothesis (Hcode : forall q, wlp (m_event m) (G q) [] (m_code m q) (Q q)).

Variables (s0 : state) (p0 : plan).

(** The thread [i] has acted as its program allows, and still does. *)
Record thread_ok (l : list entry) (i : nat) (th : thread) : Prop := {
  to_rest : wlp (m_event m) (G (treq th)) (trace i l) (tcode th) (Q (treq th));
  to_out : tout th = response (trace i l);
  to_past : forall e before after, l = after ++ LOp i e :: before -> G (treq th) (trace i before) e }.

Record system_ok (y : system) : Prop := {
  so_shared : shared y = replay s0 (log y);
  so_log : truthful s0 (log y);
  so_threads : forall i th, threads y !! i = Some th -> thread_ok (log y) i th;
  so_known : forall i e, LOp i e ∈ log y -> is_Some (threads y !! i) }.

Lemma thread_ok_other l i th x :
  (forall e, x <> LOp i e) -> thread_ok l i th -> thread_ok (x :: l) i th.
Proof.
  intros Hx [Hr Hs Hp].
  assert (Ht : trace i (x :: l) = trace i l).
  { destruct x as [j e|a]; [|done]. apply trace_other. intros ->. by destruct (Hx e). }
  split; rewrite ?Ht; [done|done|]. intros e before after Hl.
  destruct after as [|y after]; cbn in Hl; injection Hl as -> Hl; [by destruct (Hx e)|].
  by eapply Hp.
Qed.

Lemma step_ok y y' : step y y' -> system_ok y -> system_ok y'.
Proof.
  intros Hs [Hsh Hl Hth Hk]. destruct Hs as [s ths p l q
    |s ths p l i th B o k t rnd b s' w Hi Hc Hp|s ths p l c p' Hp|s ths p l c a p' Hp];
    cbn [shared threads log] in *.
  - split; cbn [shared threads log]; try done.
    + intros i th [Hi|[Hi Heq]]%lookup_app_Some; [by apply Hth|].
      destruct (i - length ths)%nat eqn:Ei; [|done]. injection Heq as <-.
      assert (Hn : trace i l = []).
      { destruct (trace i l) as [|e h] eqn:Ht; [done|].
        assert (Hin : e ∈ trace i l) by (rewrite Ht; by left).
        apply trace_in, Hk, lookup_lt_is_Some_1 in Hin. lia. }
      split; rewrite ?Hn; [apply Hcode|done|]. intros e before after ->.
      assert (Hin : LOp i e ∈ after ++ LOp i e :: before) by set_solver.
      apply Hk, lookup_lt_is_Some_1 in Hin. lia.
    + intros i e Hin%Hk. apply lookup_lt_is_Some. apply lookup_lt_is_Some in Hin.
      rewrite length_app. lia.
  - pose proof (m_exec_event m o t rnd s (tout th)) as He. rewrite Hp in He. destruct He as (Hh & -> & ->).
    destruct (Hth i th Hi) as [Hr Hs Hpast]. rewrite Hc in Hr. destruct (Hr b) as [Hg Hrest].
    split; cbn [shared threads log].
    + cbn. by rewrite Hsh.
    + split; [by rewrite <- Hsh|done].
    + intros j th' [(-> & <- & _)|[Hne Hj]]%list_lookup_insert_Some.
      * split; cbn [treq tcode tout]; rewrite ?trace_same; [done|by rewrite Hs|].
        intros e before after Hlog. destruct after as [|y after]; cbn in Hlog.
        -- injection Hlog as <- <-. done.
        -- injection Hlog as _ Hlog. by eapply Hpast.
      * apply thread_ok_other; [congruence|by apply Hth].
    + intros j e. rewrite elem_of_cons. intros Hin.
      assert (Hj : is_Some (ths !! j)) by (destruct Hin as [[= -> _]|Hin]; [by eexists|by eapply Hk]).
      rewrite lookup_lt_is_Some in *. by rewrite length_insert.
  - by split.
  - split; cbn [shared threads log]; [by rewrite Hsh|by split| |].
    + intros i th Hi. apply thread_ok_other; [done|by apply Hth].
    + intros i e. rewrite elem_of_cons. intros [|]; [done|by eapply Hk].
Qed.

Lemma reachable_ok y : reachable s0 p0 y -> system_ok y.
Proof.
  unfold reachable. intros H. assert (Hok : system_ok (start s0 p0)).
  { split; cbn; [done|done| |]; intros i ? Hi; [by rewrite lookup_nil in Hi|by apply elem_of_nil in Hi]. }
  revert Hok. induction H as [|y1 y2 y3 Hs _ IH]; [done|]. intros Hok. by eapply IH, step_ok.
Qed.

Section at_a_system.
Variable (y : system).
Hypothesis (Hreach : reachable s0 p0 y).

(** A thread that has ended meets its postcondition. *)
Lemma ended_at i th a :
  threads y !! i = Some th -> tcode th = Ret a ->
  Q (treq th) (trace i (log y)) a /\ tout th = response (trace i (log y)).
Proof.
  intros Hi Hc. destruct (so_threads _ (reachable_ok y Hreach) i th Hi) as [Hr Hs _].
  rewrite Hc in Hr. done.
Qed.

(** An event in the log was guarded by what its request had done. *)
Lemma guarded_at after i e before :
  log y = after ++ LOp i e :: before ->
  exists th, threads y !! i = Some th /\ G (treq th) (trace i before) e.
Proof.
  intros Hl. destruct (so_known _ (reachable_ok y Hreach) i e) as [th Hi]; [rewrite Hl; set_solver|].
  exists th. split; [done|]. by eapply (so_threads _ (reachable_ok y Hreach)).
Qed.

Lemma true_at after x before :
  log y = after ++ x :: before -> holds1 x (replay s0 before).
Proof.
  intros Hl. pose proof (so_log _ (reachable_ok y Hreach)) as Ht. rewrite Hl in Ht.
  by apply truthful_at in Ht as [? _].
Qed.

(** What a request was told was so at some point of the log. *)
Lemma told_at i e : e ∈ trace i (log y) ->
  exists after before, log y = after ++ LOp i e :: before /\ m_holds m e (replay s0 before).
Proof.
  intros (after & before & Hl)%trace_in%list_elem_of_split. exists after, before.
  split; [done|]. exact (true_at _ _ _ Hl).
Qed.
End at_a_system.
End reach.

End machine.
