(* ===== verification/Ledger.v ===== *)
(** * Ledger: what a log of operations says of the stores.

    For any machine of [Threads] whose state contains the stores of the core: where
    the grants of its store come from, how often a nonce is redeemed, how often a
    code is consumed.  The engines instantiate these with their own logs. *)

From S2P Require Import Prelude Base64 Crypto Store StoreHistory Threads.
From S2P Require NonceStore.

Section ledger.
Context {O : Type -> Type} {event state output request result plan choice act : Type}.
Variable (m : machine O event state output request result plan choice act).

Notation entry := (entry event act).

(** ** Counting *)

(** If every entry of kind [P] costs one of what [f] counts and only those of kind
    [Q] add one, there are no more of the first than of the second and the start. *)
Lemma tally_balance (f : state -> nat) (P Q : entry -> bool) s l :
  (forall x s, holds1 m x s ->
     (f (replay1 m x s) + (if P x then 1 else 0) <= f s + (if Q x then 1 else 0))%nat) ->
  truthful m s l -> (f (replay m s l) + tally P l <= f s + tally Q l)%nat.
Proof.
  intros Hstep Ht. induction l as [|x l IH]; [unfold tally; cbn; lia|].
  destruct Ht as [Hx Ht]. specialize (IH Ht). specialize (Hstep x _ Hx). rewrite !tally_cons.
  change (replay m s (x :: l)) with (replay1 m x (replay m s l)). lia.
Qed.

(** ** Grants *)

Section grants.
Variables (grants_of : state -> GrantStore) (puts : entry -> Grant -> Prop).
Hypothesis (Heffect : forall x s, effect (puts x) (grants_of s) (grants_of (replay1 m x s))).

(** Every grant of the store was put by an entry of the log. *)
Lemma replay_puts s l :
  wf (grants_of s) -> grants (grants_of s) = ∅ ->
  wf (grants_of (replay m s l)) /\
  forall k g, grants (grants_of (replay m s l)) !! k = Some g ->
    exists x after before, l = after ++ x :: before /\ puts x g.
Proof.
  intros Hwf He. induction l as [|x l [IHwf IH]].
  { split; [done|]. intros k g. cbn. by rewrite He, lookup_empty. }
  destruct (Heffect x (replay m s l) IHwf) as [Hwf' Hg]. split; [done|].
  intros k g Hk. destruct (Hg k g Hk) as [Hk'|Hp].
  - destruct (IH k g Hk') as (x' & after & before & -> & Hp). by exists x', (x :: after), before.
  - by exists x, [], l.
Qed.
End grants.

(** ** Nonces *)

(** What an entry does to the spent nonces. *)
Inductive note :=
| NClaim (id : bytes) (t ttl : Z) (ok : bool)
| NSwept (t : Z)
| NNothing.

Section nonces.
Variables
  (nonces_of : state -> NonceStore.NonceStore)
  (noted : entry -> note)
  (presented : entry -> option bytes).   (** the nonce its request presents *)

Definition noted_right (x : entry) (s : state) : Prop :=
  match noted x with
  | NClaim id t ttl ok =>
      NonceStore.Claim (nonces_of s) id t ttl = (ok, nonces_of (replay1 m x s))
  | NSwept t => nonces_of (replay1 m x s) = (NonceStore.Sweep (nonces_of s) t).2
  | NNothing => nonces_of (replay1 m x s) = nonces_of s
  end.

(** An entry that redeems [nonce]. *)
Definition redeeming (nonce : bytes) (x : entry) : bool :=
  match noted x with
  | NClaim _ _ _ true => bool_decide (presented x = Some nonce)
  | _ => false
  end.

(** The claim is of the nonce presented, verified at its time with this lifetime. *)
Definition lawful (ttl : Z) (x : entry) (id : bytes) (t l : Z) : Prop :=
  exists n svc addr nk p6 rnd, presented x = Some n /\ id = B64u rnd /\ l = ttl /\
    NonceStore.clock_ok ttl t /\ VerifyNonce nk n svc addr t ttl p6 = Some rnd.

Variables (s0 : state) (lg : list entry) (nonce : bytes) (ttl : Z).
Hypothesis (Hnoted : forall x s, holds1 m x s -> noted_right x s).
Hypothesis (Htrue : truthful m s0 lg).
Hypothesis (Hlawful : forall after x before id t l ok,
  lg = after ++ x :: before -> noted x = NClaim id t l ok -> lawful ttl x id t l).
Hypothesis (Hclock : forall x t, x ∈ lg -> noted x = NSwept t -> NonceStore.clock_ok ttl t).
Hypothesis (Htimely : forall after x before id t l ok x' ts,
  lg = after ++ x :: before -> noted x = NClaim id t l ok -> presented x = Some nonce ->
  x' ∈ before -> noted x' = NSwept ts -> NonceStore.timely ttl nonce ts t).

Notation issued := (NonceStore.issued_at nonce).

(** The latest sweep of the nonces, from a time before their end. *)
Definition swept (l : list entry) : Z :=
  foldr (fun x z => match noted x with NSwept t => Z.max z t | _ => z end) (issued + ttl - 1) l.

Lemma swept_timely l t :
  (forall x ts, x ∈ l -> noted x = NSwept ts -> NonceStore.timely ttl nonce ts t) ->
  NonceStore.timely ttl nonce (swept l) t.
Proof.
  unfold NonceStore.timely. induction l as [|x l IH]; intros H; cbn [swept foldr]; [lia|].
  assert (Hl : swept l <= t \/ swept l < issued + ttl)
    by (apply IH; intros x' ts Hx'; apply H; by right).
  fold (swept l). destruct (noted x) as [|ts|] eqn:Hx; try done.
  specialize (H x ts (list_elem_of_here _ _) Hx). lia.
Qed.

Lemma redeem_claim n nk svc addr t p6 rnd ns :
  VerifyNonce nk n svc addr t ttl p6 = Some rnd ->
  NonceStore.redeem nk ttl p6 ns n svc addr t = NonceStore.Claim ns (B64u rnd) t ttl.
Proof. unfold NonceStore.redeem. by intros ->. Qed.

(** One claim, from any store: it fails on a burnt nonce and burns one it redeems. *)
Lemma claim_burnt x s id t l ok sw :
  noted_right x s -> noted x = NClaim id t l ok -> lawful ttl x id t l ->
  (NonceStore.burnt ttl nonce sw (nonces_of s) ->
     (presented x = Some nonce -> NonceStore.timely ttl nonce sw t) ->
     redeeming nonce x = false /\ NonceStore.burnt ttl nonce sw (nonces_of (replay1 m x s))) /\
  (redeeming nonce x = true -> NonceStore.burnt ttl nonce sw (nonces_of (replay1 m x s))).
Proof.
  unfold noted_right, redeeming. intros Hn Hx (n & svc & addr & nk & p6 & rnd & Hp & -> & -> & Hc & Hv).
  rewrite Hx in *. rewrite <- (redeem_claim n nk svc addr t p6 rnd _ Hv) in Hn. split.
  - intros Hb Hti. split.
    + destruct ok; [|done]. apply bool_decide_eq_false. rewrite Hp. intros [= ->].
      pose proof (NonceStore.redeem_burnt nk ttl p6 nonce sw (nonces_of s) svc addr t Hc (Hti Hp) Hb) as H.
      by rewrite Hn in H.
    + pose proof (NonceStore.step_burnt nk ttl p6 nonce sw (nonces_of s) (NonceStore.NRedeem n svc addr) t Hc Hb) as H.
      cbn [NonceStore.nop_step NonceStore.swept_by] in H. by rewrite Hn in H.
  - destruct ok; [|done]. intros H. bool_prop. rewrite Hp in H. injection H as ->.
    pose proof (NonceStore.redeem_burns nk ttl p6 nonce sw (nonces_of s) svc addr t Hc) as H.
    rewrite Hn in H. by apply H.
Qed.

Lemma redeemed_burnt l :
  l `suffix_of` lg ->
  (tally (redeeming nonce) l <= 1)%nat /\
  ((0 < tally (redeeming nonce) l)%nat -> NonceStore.burnt ttl nonce (swept l) (nonces_of (replay m s0 l))).
Proof.
  induction l as [|x l IH]; intros [after Hl]; [unfold tally; cbn; split; lia|].
  destruct IH as [Hle Hb]; [exists (after ++ [x]); by rewrite Hl, <- app_assoc|].
  rewrite tally_cons. change (replay m s0 (x :: l)) with (replay1 m x (replay m s0 l)).
  assert (Hx : noted_right x (replay m s0 l)) by (rewrite Hl in Htrue; apply truthful_at in Htrue as [? _]; auto).
  destruct (noted x) as [id t l' ok|t|] eqn:Hk.
  - destruct (claim_burnt x _ id t l' ok (swept l) Hx Hk ltac:(by eapply Hlawful)) as [H1 H2].
    replace (swept (x :: l)) with (swept l) by (cbn; by rewrite Hk).
    destruct (decide (0 < tally (redeeming nonce) l)%nat) as [Hpos|Hzero].
    + destruct H1 as [-> Hb']; [by apply Hb|intros Hp; apply swept_timely; eauto|done].
    + destruct (redeeming nonce x); [split; [lia|intros _; by apply H2]|lia].
  - unfold redeeming at 1 3. unfold noted_right in Hx. rewrite Hk in *. split; [done|]. intros Hpos.
    assert (Hc : NonceStore.clock_ok ttl t) by (eapply Hclock; [|done]; rewrite Hl; set_solver).
    pose proof (NonceStore.step_burnt [] ttl 0 nonce (swept l) _ NonceStore.NSweep t Hc (Hb Hpos)) as H.
    cbn [swept foldr]. rewrite Hk, Hx. exact H.
  - unfold redeeming at 1 3. unfold noted_right in Hx. rewrite Hk in *. rewrite Hx.
    cbn [swept foldr]. by rewrite Hk.
Qed.

(** However many requests present it, a nonce is redeemed at most once. *)
Lemma redeemed_once : (tally (redeeming nonce) lg <= 1)%nat.
Proof. by apply redeemed_burnt. Qed.
End nonces.
End ledger.
