(* ===== verification/Pages.v ===== *)
(** * Pages: the static pages ([core/go/pages.go] and the three
    [interstitial.go]).  Single quotes stand for double ones. *)

From S2P Require Import Prelude GoStrings Json Wire.

Definition ExtensionInstallURL : bytes :=
  lit "https://chromewebstore.google.com/detail/jit-network-access/chkllfmckdloagomooelboobmoednkai".

(** The landing page of a registration link. *)
Definition RegisterHTML : bytes := quoted "<!doctype html>
<html lang='en'>
<head>
<meta charset='utf-8'>
<meta name='viewport' content='width=device-width, initial-scale=1'>
<meta name='referrer' content='no-referrer'>
<title>Install the JIT Network Access extension</title>
<style>
  body { font: 15px/1.6 system-ui, -apple-system, 'Segoe UI', sans-serif;
         color: #24313f; background: #f4f6f8; margin: 0;
         display: flex; min-height: 100vh; align-items: center; justify-content: center; }
  .card { background: #fff; border: 1px solid #e2e7ec; border-radius: 10px;
          padding: 2rem; max-width: 34rem; margin: 1rem; }
  h1 { font-size: 1.2rem; margin: 0 0 .6rem; }
  p { margin: .6rem 0 0; color: #67727e; }
  ol { margin: .8rem 0 0; padding-left: 1.2rem; color: #67727e; }
  li { margin: .3rem 0; }
  a.btn { display: inline-block; margin-top: 1rem; padding: .5rem .9rem;
          background: #2f6feb; color: #fff; border-radius: 6px; text-decoration: none; }
  code { background: #f4f6f8; padding: .1rem .3rem; border-radius: 3px; }
</style>
</head>
<body>
  <div class='card'>
    <h1>Install the JIT Network Access extension</h1>
    <p>This is an enrollment link, but the extension is not installed in this
       browser — so there is nothing here to receive it yet.</p>
    <ol>
      <li>Install <b>JIT Network Access</b> from the Chrome Web Store.</li>
      <li>Come back and open this enrollment link again.</li>
    </ol>
    <a class='btn' href='" ++ ExtensionInstallURL ++ quoted "' rel='noopener noreferrer'>Get the extension</a>
    <p>Already installed? Make sure it is enabled, then reload this page. The
       extension takes over enrollment links automatically.</p>
  </div>
</body>
</html>
".

(** The denial page: each engine has a copy of its own. *)
Definition interstitialHTML : bytes := quoted "<!doctype html>
<html lang='en'>
<head>
<meta charset='utf-8'>
<meta name='viewport' content='width=device-width, initial-scale=1'>
<title>Device authorization required</title>
<style>
  body { font: 15px/1.6 system-ui, -apple-system, 'Segoe UI', sans-serif;
         color: #24313f; background: #f4f6f8; margin: 0;
         display: flex; min-height: 100vh; align-items: center; justify-content: center; }
  .card { background: #fff; border: 1px solid #e2e7ec; border-radius: 10px;
          padding: 2rem; max-width: 30rem; margin: 1rem; }
  h1 { font-size: 1.2rem; margin: 0 0 .6rem; }
  p { margin: .5rem 0 0; color: #67727e; }
</style>
</head>
<body>
  <div class='card'>
    <h1>Device authorization required</h1>
    <p>This service is restricted to enrolled devices. If your device is
       enrolled, authorization happens automatically — reload the page.</p>
    <p>Otherwise contact your administrator to enroll this device.</p>
  </div>
</body>
</html>
".

#[global] Opaque RegisterHTML interstitialHTML.
