(* ===== verification/Config.v ===== *)
(** * Config: the Authorizer's configuration ([authorizer/config.go]).

    [finalize] is modelled as the function from the decoded configuration to
    the finalized one; the partly updated value an error leaves behind is
    dropped by its caller.  Loops over maps take the enumeration order. *)

From S2P Require Import Prelude GoStrings Base64 ServerName NetIP Registry Store.
Import strings netip.

Definition DefaultURIPrefix : bytes := Eval vm_compute in lit "/.well-known/jit-access".
Definition FailInterstitial : bytes := Eval vm_compute in lit "interstitial".
Definition FailStealth : bytes := Eval vm_compute in lit "stealth".

Record ServiceConfig := mkService {
  svTokens : list bytes;
  svFailureMode : bytes;
  svBinding : bytes;
  svGrantTTL : Z }.

(** The zero value a failed lookup returns. *)
Definition zeroService : ServiceConfig :=
  {| svTokens := []; svFailureMode := []; svBinding := []; svGrantTTL := 0 |}.

Record TokenConfig := mkTokenConfig {
  tcKid : bytes;
  tcSecret : bytes;
  tcLabel : bytes;
  tcExpires : Z }.

Record Config := mkConfig {
  Listen : bytes;
  AdminListen : bytes;
  AdminToken : bytes;
  URIPrefix : bytes;
  TrustedProxies : list bytes;
  RealIPHeader : bytes;
  GrantTTL : Z;
  NonceTTL : Z;
  EnrollTTL : Z;
  IPv6Prefix : Z;
  RateLimit : Z;
  cfgServices : gmap bytes ServiceConfig;
  cfgTokens : list TokenConfig;
  trusted : list Prefix;
  canonServices : gmap bytes ServiceConfig }.

Definition DefaultConfig : Config :=
  {| Listen := lit "127.0.0.1:8998"; AdminListen := []; AdminToken := [];
     URIPrefix := DefaultURIPrefix;
     TrustedProxies := [lit "127.0.0.0/8"; lit "::1/128"];
     RealIPHeader := lit "X-Forwarded-For";
     GrantTTL := 3600; NonceTTL := 60; EnrollTTL := 86400; IPv6Prefix := 128; RateLimit := 10;
     cfgServices := ∅; cfgTokens := []; trusted := []; canonServices := ∅ |}.

Inductive config_err :=
| EAdminToken
| ETrustedProxy (s : bytes)
| EEmptyKid
| EDuplicateKid (kid : bytes)
| ESecretEncoding (kid : bytes)
| ESecretShort (kid : bytes)
| EServiceCollision (canon : bytes)
| EFailureMode (name : bytes)
| EBinding (name : bytes).

(** ** The steps of [finalize], in order *)

Definition clean_prefix (p : bytes) : bytes :=
  let p := if bool_decide (p = []) then DefaultURIPrefix else p in
  "/"%byte :: Trim p (lit "/").

Definition clamp_enroll (t : Z) : Z :=
  let t := if t <=? 0 then 86400 else t in
  let t := if t <? 300 then 300 else t in
  if 604800 <? t then 604800 else t.

(** [strings.ToUpper] maps no non-ASCII character to a letter of these words. *)
Definition placeholder_token (t : bytes) : bool :=
  let up := ToUpperASCII t in
  (Z.of_nat (length t) <? 16) || strings.Contains up (lit "CHANGE") || strings.Contains up (lit "REPLACE")
  || strings.Contains up (lit "PLACEHOLDER").

Fixpoint parse_trusted (ss : list bytes) : result config_err (list Prefix) :=
  match ss with
  | [] => Ok []
  | s :: ss' =>
      p ← match ParsePrefix s with
          | Some p => Ok p
          | None =>
              match ParseAddr s with
              | None => Err (ETrustedProxy s)
              | Some a => Ok (PrefixFrom a (BitLen a))
              end
          end;
      ps ← parse_trusted ss';
      Ok (p :: ps)
  end.

Fixpoint check_tokens (seen : gset bytes) (ts : list TokenConfig) : result config_err unit :=
  match ts with
  | [] => Ok tt
  | t :: ts' =>
      if bool_decide (tcKid t = []) then Err EEmptyKid
      else if bool_decide (tcKid t ∈ seen) then Err (EDuplicateKid (tcKid t))
      else
        match B64uDecode (tcSecret t) with
        | None => Err (ESecretEncoding (tcKid t))
        | Some sec =>
            if (length sec <? 16)%nat then Err (ESecretShort (tcKid t))
            else check_tokens ({[ tcKid t ]} ∪ seen) ts'
        end
  end.

Fixpoint check_canon (byCanon : gmap bytes bytes) (order : list (bytes * ServiceConfig))
    : result config_err unit :=
  match order with
  | [] => Ok tt
  | (name, _) :: order' =>
      let canon := CanonServerName name in
      match byCanon !! canon with
      | Some _ => Err (EServiceCollision canon)
      | None => check_canon (<[canon := name]> byCanon) order'
      end
  end.

Definition build_canon (order : list (bytes * ServiceConfig)) : gmap bytes ServiceConfig :=
  foldl (fun m '(name, svc) => <[CanonServerName name := svc]> m) ∅ order.

Definition mode_ok (m : bytes) : bool :=
  bool_decide (m = []) || bool_decide (m = FailInterstitial) || bool_decide (m = FailStealth).
Definition binding_ok (b : bytes) : bool :=
  bool_decide (b = []) || bool_decide (b = BindingIP) || bool_decide (b = BindingIPCookie).

Fixpoint check_modes (order : list (bytes * ServiceConfig)) : result config_err unit :=
  match order with
  | [] => Ok tt
  | (name, svc) :: order' =>
      if negb (mode_ok (svFailureMode svc)) then Err (EFailureMode name)
      else if negb (binding_ok (svBinding svc)) then Err (EBinding name)
      else check_modes order'
  end.

(** [o1], [o2], [o3]: the orders of the three loops over [c.Services]. *)
Definition finalize_in (o1 o2 o3 : list (bytes * ServiceConfig)) (c : Config)
    : result config_err Config :=
  if negb (bool_decide (AdminToken c = [])) && placeholder_token (AdminToken c)
  then Err EAdminToken
  else
    ps ← parse_trusted (TrustedProxies c);
    _ ← check_tokens ∅ (cfgTokens c);
    _ ← check_canon ∅ o1;
    _ ← check_modes o3;
    Ok {| Listen := Listen c; AdminListen := AdminListen c; AdminToken := AdminToken c;
          URIPrefix := clean_prefix (URIPrefix c);
          TrustedProxies := TrustedProxies c;
          RealIPHeader := if bool_decide (RealIPHeader c = []) then lit "X-Forwarded-For"
                          else RealIPHeader c;
          GrantTTL := if GrantTTL c <=? 0 then 3600 else GrantTTL c;
          NonceTTL := if NonceTTL c <=? 0 then 60 else NonceTTL c;
          EnrollTTL := clamp_enroll (EnrollTTL c);
          IPv6Prefix := if (IPv6Prefix c <=? 0) || (128 <? IPv6Prefix c) then 128 else IPv6Prefix c;
          RateLimit := RateLimit c;
          cfgServices := cfgServices c; cfgTokens := cfgTokens c;
          trusted := ps; canonServices := build_canon o2 |}.

Definition finalize (c : Config) : result config_err Config :=
  let o := map_to_list (cfgServices c) in finalize_in o o o c.

(** ** Derived views *)

(** [c.Registry()]. *)
Fixpoint build_tokens (m : gmap bytes Token) (ts : list TokenConfig)
    : result config_err (gmap bytes Token) :=
  match ts with
  | [] => Ok m
  | t :: ts' =>
      match B64uDecode (tcSecret t) with
      | None => Err (ESecretEncoding (tcKid t))
      | Some sec =>
          build_tokens
            (<[tcKid t := {| Secret := sec; Alg := AlgHMACSHA256; Label := tcLabel t;
                             Expires := tcExpires t |}]> m) ts'
      end
  end.

Definition allow_of (svc : ServiceConfig) : gmap bytes bool :=
  foldl (fun m kid => <[kid := true]> m) ∅ (svTokens svc).

(** [c.Registry()]; the method of the same name as the type it returns. *)
Definition MakeRegistry (c : Config) : result config_err Registry :=
  tokens ← build_tokens ∅ (cfgTokens c);
  Ok (NewRegistry (Some tokens) (Some (allow_of <$> canonServices c))).

Definition Service (c : Config) (canon : bytes) : ServiceConfig * bool :=
  match canonServices c !! canon with Some s => (s, true) | None => (zeroService, false) end.

Definition defaultFailureMode (c : Config) : bytes :=
  if existsb (fun kv => bool_decide (svFailureMode kv.2 = FailStealth)) (map_to_list (canonServices c))
  then FailStealth else FailInterstitial.

Definition failureMode (svc : ServiceConfig) : bytes :=
  if bool_decide (svFailureMode svc = []) then FailInterstitial else svFailureMode svc.

Definition binding (svc : ServiceConfig) : bytes :=
  if bool_decide (svBinding svc = []) then BindingIP else svBinding svc.

Definition grantTTL (c : Config) (svc : ServiceConfig) : Z :=
  if 0 <? svGrantTTL svc then svGrantTTL svc else GrantTTL c.

(** ** Facts *)

Definition canon_names (order : list (bytes * ServiceConfig)) : list bytes :=
  (fun kv => CanonServerName kv.1) <$> order.

Lemma canon_names_elem k order :
  k ∈ canon_names order <-> exists name svc, (name, svc) ∈ order /\ CanonServerName name = k.
Proof.
  unfold canon_names. rewrite list_elem_of_fmap. split.
  - intros ([name svc] & -> & ?). eauto.
  - intros (name & svc & ? & <-). by exists (name, svc).
Qed.

Lemma check_canon_Ok m order u :
  check_canon m order = Ok u <->
  NoDup (canon_names order) /\ forall k, k ∈ canon_names order -> m !! k = None.
Proof.
  revert m. induction order as [|[name svc] order IH]; intros m; cbn [check_canon].
  - destruct u. split; [|done]. intros _. split; [by constructor|]. by intros k ?%elem_of_nil.
  - change (canon_names ((name, svc) :: order)) with (CanonServerName name :: canon_names order).
    rewrite NoDup_cons. setoid_rewrite elem_of_cons.
    destruct (m !! CanonServerName name) as [?|] eqn:Em.
    + split; [done|]. intros [_ H]. rewrite (H (CanonServerName name)) in Em by (by left). done.
    + rewrite IH. split.
      * intros [Hnd H]. split; [split; [|done]|].
        { intros Hin. specialize (H _ Hin). by rewrite lookup_insert_eq in H. }
        intros k [->|Hk]; [done|]. specialize (H k Hk). by apply lookup_insert_None in H as [? _].
      * intros [[Hni Hnd] H]. split; [done|]. intros k Hk.
        rewrite lookup_insert_ne by (intros <-; done). apply H. by right.
Qed.

Lemma check_modes_Ok order u :
  check_modes order = Ok u <->
  forall name svc, (name, svc) ∈ order -> mode_ok (svFailureMode svc) = true /\ binding_ok (svBinding svc) = true.
Proof.
  induction order as [|[name svc] order IH]; cbn [check_modes].
  - destruct u. split; [|done]. by intros _ ?? ?%elem_of_nil.
  - split.
    + destruct (negb (mode_ok _)) eqn:E1; [done|]. destruct (negb (binding_ok _)) eqn:E2; [done|].
      rewrite IH. bool_prop. intros H n s [[= -> ->]|?]%elem_of_cons; [done|]. by eapply H.
    + intros H. destruct (H name svc) as [-> ->]; [left|]. cbn [negb]. apply IH.
      intros n s Hin. apply (H n). by right.
Qed.

Lemma build_canon_lookup order k svc :
  NoDup (canon_names order) ->
  build_canon order !! k = Some svc <-> exists name, (name, svc) ∈ order /\ CanonServerName name = k.
Proof.
  induction order as [|[name s] order IH] using rev_ind.
  - intros _. split; [done|]. by intros (? & ?%elem_of_nil & _).
  - unfold canon_names. rewrite fmap_app, NoDup_app. intros (Hnd & Hdis & _).
    unfold build_canon. rewrite foldl_app. cbn [foldl]. fold (build_canon order).
    rewrite lookup_insert_Some. rewrite IH by done. setoid_rewrite elem_of_app.
    setoid_rewrite list_elem_of_singleton. split.
    + intros [[<- ->]|[_ (n & ? & ?)]]; eauto.
    + intros (n & [Hin|[= -> ->]] & <-); [|by left]. right. split; [|by eauto].
      intros He. apply (Hdis (CanonServerName n)).
      * apply canon_names_elem. eauto.
      * apply list_elem_of_fmap. exists (name, s). split; [done|left].
Qed.

Lemma canon_names_perm o o' : o ≡ₚ o' -> NoDup (canon_names o) -> NoDup (canon_names o').
Proof. intros Hp. unfold canon_names. by rewrite Hp. Qed.

Lemma check_canon_perm o o' u : o ≡ₚ o' -> check_canon ∅ o = Ok u -> check_canon ∅ o' = Ok u.
Proof.
  intros Hp. rewrite !check_canon_Ok. intros [Hnd _]. split; [by eapply canon_names_perm|done].
Qed.

Lemma check_modes_perm o o' u : o ≡ₚ o' -> check_modes o = Ok u -> check_modes o' = Ok u.
Proof. intros Hp. rewrite !check_modes_Ok. by setoid_rewrite Hp. Qed.

Lemma build_canon_perm o o' :
  o ≡ₚ o' -> NoDup (canon_names o) -> build_canon o = build_canon o'.
Proof.
  intros Hp Hnd. apply map_eq. intros k. apply option_eq. intros svc.
  rewrite !build_canon_lookup by (done || by eapply canon_names_perm). by setoid_rewrite Hp.
Qed.

(** What [finalize] returns, and when. *)
Lemma finalize_in_Ok o1 o2 o3 c c' :
  finalize_in o1 o2 o3 c = Ok c' ->
  (AdminToken c = [] \/ placeholder_token (AdminToken c) = false) /\
  parse_trusted (TrustedProxies c) = Ok (trusted c') /\
  check_tokens ∅ (cfgTokens c) = Ok tt /\ check_canon ∅ o1 = Ok tt /\ check_modes o3 = Ok tt /\
  canonServices c' = build_canon o2.
Proof.
  unfold finalize_in. destruct (_ && _) eqn:Ea; [done|].
  intros H. repeat (apply result_bind_Ok in H as (? & ? & H)). injection H as <-. cbn.
  destruct_unit. split; [|done].
  destruct (decide (AdminToken c = [])); [by left|right].
  apply andb_false_iff in Ea as [Ea|Ea]; [|done].
  by rewrite bool_decide_eq_false_2 in Ea.
Qed.

Lemma finalize_in_perm o1 o2 o3 p1 p2 p3 c c' :
  o1 ≡ₚ p1 -> o2 ≡ₚ p2 -> o3 ≡ₚ p3 -> o1 ≡ₚ o2 ->
  finalize_in o1 o2 o3 c = Ok c' -> finalize_in p1 p2 p3 c = Ok c'.
Proof.
  intros H1 H2 H3 H12. unfold finalize_in. destruct (_ && _); [done|].
  intros H. repeat (apply result_bind_Ok in H as (? & ? & H)). injection H as <-.
  destruct_unit. apply result_bind_Ok. eexists. split; [done|].
  apply result_bind_Ok. eexists. split; [done|].
  apply result_bind_Ok. eexists. split; [by eapply check_canon_perm|].
  apply result_bind_Ok. eexists. split; [by eapply check_modes_perm|].
  do 2 f_equal. symmetry. apply build_canon_perm; [done|].
  eapply canon_names_perm; [exact H12|]. by eapply check_canon_Ok.
Qed.

Definition token_of (tc : TokenConfig) (sec : bytes) : Token :=
  {| Secret := sec; Alg := AlgHMACSHA256; Label := tcLabel tc; Expires := tcExpires tc |}.

(** A token entry the checks accept. *)
Definition token_entry_ok (tc : TokenConfig) : Prop :=
  tcKid tc <> [] /\ exists sec, B64uDecode (tcSecret tc) = Some sec /\ (16 <= length sec)%nat.

Lemma check_tokens_Ok seen ts u :
  check_tokens seen ts = Ok u ->
  NoDup (tcKid <$> ts) /\ Forall token_entry_ok ts /\ forall tc, tc ∈ ts -> tcKid tc ∉ seen.
Proof.
  revert seen. induction ts as [|t ts IH]; intros seen; cbn [check_tokens].
  - intros _. split; [by constructor|split; [by constructor|]]. by intros ? ?%elem_of_nil.
  - destruct (bool_decide (tcKid t = [])) eqn:E1; [done|].
    destruct (bool_decide (tcKid t ∈ seen)) eqn:E2; [done|].
    destruct (B64uDecode (tcSecret t)) as [sec|] eqn:Es; [|done].
    destruct (length sec <? 16)%nat eqn:El; [done|].
    intros (Hnd & Hok & Hseen)%IH. bool_prop. apply Nat.ltb_ge in El.
    split; [|split].
    + cbn. apply NoDup_cons. split; [|done]. intros (tc & Hk & Hin)%list_elem_of_fmap.
      apply (Hseen tc Hin). rewrite Hk. set_solver.
    + constructor; [|done]. split; [done|]. eauto.
    + intros tc [->|Hin]%elem_of_cons; [done|]. specialize (Hseen tc Hin). set_solver.
Qed.

Lemma build_tokens_total m ts :
  Forall token_entry_ok ts -> NoDup (tcKid <$> ts) -> (forall tc, tc ∈ ts -> m !! tcKid tc = None) ->
  exists m', build_tokens m ts = Ok m' /\
    forall kid t, m' !! kid = Some t <->
      m !! kid = Some t \/
      exists tc sec, tc ∈ ts /\ tcKid tc = kid /\ B64uDecode (tcSecret tc) = Some sec /\ t = token_of tc sec.
Proof.
  intros H. revert m. induction H as [|tc ts (_ & sec & Hs & _) _ IH]; intros m Hnd Hm; cbn [build_tokens].
  - exists m. split; [done|]. intros kid t. split; [by left|].
    intros [?|(? & ? & ?%elem_of_nil & _)]; done.
  - rewrite Hs. fold (token_of tc sec). cbn in Hnd. apply NoDup_cons in Hnd as [Hni Hnd].
    destruct (IH (<[tcKid tc := token_of tc sec]> m)) as (m' & -> & Hm'); [done| |].
    { intros tc' Hin. rewrite lookup_insert_ne; [apply Hm; by right|].
      intros He. apply Hni. rewrite He. by apply list_elem_of_fmap_2. }
    exists m'. split; [done|]. intros kid t. rewrite Hm', lookup_insert_Some. split.
    + intros [[[<- <-]|[_ ?]]|(tc' & sec' & ? & ? & ? & ?)]; [|by left|].
      * right. exists tc, sec. split; [left|done].
      * right. exists tc', sec'. split; [by right|done].
    + intros [Hk|(tc' & sec' & [->|Hin]%elem_of_cons & <- & Hd & ->)].
      * left. right. split; [|done]. intros <-. rewrite Hm in Hk; [done|left].
      * left. left. split; [done|]. congruence.
      * right. exists tc', sec'. done.
Qed.

Lemma allow_of_flag svc k : flag (allow_of svc) k = bool_decide (k ∈ svTokens svc).
Proof.
  unfold allow_of, flag. induction (svTokens svc) as [|kid ks IH] using rev_ind; [done|].
  rewrite foldl_app. cbn [foldl]. destruct (decide (k = kid)) as [->|Hne].
  - rewrite lookup_insert_eq. symmetry. apply bool_decide_eq_true. set_solver.
  - rewrite lookup_insert_ne, IH by done. apply bool_decide_ext. set_solver.
Qed.

(** ** Well-formed configurations *)

Record well_configured (c : Config) : Prop := {
  wc_prefix : HasPrefix (URIPrefix c) (lit "/") = true /\
    (last (URIPrefix c) = Some "/"%byte -> URIPrefix c = lit "/");
  wc_header : RealIPHeader c <> [];
  wc_ttl : 0 < NonceTTL c /\ 0 < GrantTTL c /\ 300 <= EnrollTTL c <= 604800;
  wc_mask : 1 <= IPv6Prefix c <= 128;
  wc_admin : AdminToken c = [] \/ (16 <= length (AdminToken c))%nat;
  wc_kids : NoDup (tcKid <$> cfgTokens c);
  wc_tokens : Forall token_entry_ok (cfgTokens c);
  wc_services : forall k svc, canonServices c !! k = Some svc <->
    exists name, cfgServices c !! name = Some svc /\ CanonServerName name = k;
  wc_modes : forall k svc, canonServices c !! k = Some svc ->
    mode_ok (svFailureMode svc) = true /\ binding_ok (svBinding svc) = true }.

Lemma clean_prefix_ok p :
  HasPrefix (clean_prefix p) (lit "/") = true /\
  (last (clean_prefix p) = Some "/"%byte -> clean_prefix p = lit "/").
Proof.
  unfold clean_prefix. cbv zeta. set (q := if bool_decide (p = []) then _ else p). clearbody q.
  split; [apply (HasPrefix_app (lit "/"))|].
  unfold Trim, TrimRight. pose proof (rdrop_while_last (in_cutset (lit "/")) (TrimLeft q (lit "/"))) as Hl.
  destruct (rdrop_while _ _) as [|b l]; [done|]. intros H.
  rewrite last_cons_cons in H. rewrite H in Hl. vm_compute in Hl. done.
Qed.

Lemma clamp_enroll_range t : 300 <= clamp_enroll t <= 604800.
Proof. unfold clamp_enroll. cbv zeta. repeat case_bool; bool_prop; lia. Qed.

Lemma placeholder_length t : placeholder_token t = false -> (16 <= length t)%nat.
Proof. unfold placeholder_token. cbv zeta. intros H. bool_prop. lia. Qed.

Lemma finalize_well_configured o1 o2 o3 c c' :
  o1 ≡ₚ map_to_list (cfgServices c) -> o2 ≡ₚ map_to_list (cfgServices c) ->
  o3 ≡ₚ map_to_list (cfgServices c) ->
  finalize_in o1 o2 o3 c = Ok c' -> well_configured c'.
Proof.
  intros H1 H2 H3 H. pose proof (finalize_in_Ok _ _ _ _ _ H) as (Ha & _ & Ht & Hc & Hm & Hcanon).
  apply check_tokens_Ok in Ht as (Hnd & Htok & _).
  apply check_canon_Ok in Hc as [Hndc _].
  assert (Hnd2 : NoDup (canon_names o2)) by (eapply canon_names_perm; [|exact Hndc]; by rewrite H1, H2).
  assert (Hsv : forall k svc, canonServices c' !! k = Some svc <->
    exists name, cfgServices c !! name = Some svc /\ CanonServerName name = k).
  { intros k svc. rewrite Hcanon, build_canon_lookup by done. setoid_rewrite H2.
    by setoid_rewrite elem_of_map_to_list. }
  unfold finalize_in in H. destruct (_ && _) in H; [done|].
  repeat (apply result_bind_Ok in H as (? & ? & H)). injection H as <-. cbn in *.
  split; cbn.
  - apply clean_prefix_ok.
  - case_bool; bool_prop; done.
  - pose proof (clamp_enroll_range (EnrollTTL c)). repeat case_bool; bool_prop; lia.
  - repeat case_bool; bool_prop; lia.
  - destruct Ha as [?|?]; [by left|right; by apply placeholder_length].
  - done.
  - done.
  - exact Hsv.
  - intros k svc (name & Hn & _)%Hsv. eapply (check_modes_Ok o3); [done|].
    rewrite H3. by apply elem_of_map_to_list.
Qed.

(** The policy a finalized configuration denotes for one service. *)
Record policy (c : Config) (svc : ServiceConfig) (kid : bytes) (now : Z) (t : Token) : Prop := {
  pol_token : exists tc sec, tc ∈ cfgTokens c /\ tcKid tc = kid /\
    B64uDecode (tcSecret tc) = Some sec /\ t = token_of tc sec;
  pol_live : Expires t = 0 \/ now < Expires t;
  pol_listed : star ∈ svTokens svc \/ kid ∈ svTokens svc }.

Lemma registry_total c :
  well_configured c -> exists r, MakeRegistry c = Ok r /\
    Services r = allow_of <$> canonServices c /\
    forall kid t, Tokens r !! kid = Some t <->
      exists tc sec, tc ∈ cfgTokens c /\ tcKid tc = kid /\
        B64uDecode (tcSecret tc) = Some sec /\ t = token_of tc sec.
Proof.
  intros [? ? ? ? ? Hk Ht ? ?].
  destruct (build_tokens_total ∅ (cfgTokens c) Ht Hk) as (m & Hm & Hlook).
  { intros. apply lookup_empty. }
  eexists. unfold MakeRegistry. rewrite Hm. split; [done|]. split; [done|].
  intros kid t. cbn. rewrite Hlook, lookup_empty. split; [|by right].
  by intros [?|?].
Qed.

(** The registry built from a well-formed configuration authorizes by its policy. *)
Lemma authorized_policy c r name svc kid now t :
  well_configured c -> MakeRegistry c = Ok r -> canonServices c !! name = Some svc ->
  authorized (Some r) kid name now t <-> policy c svc kid now t.
Proof.
  intros Hc Hr Hsvc. destruct (registry_total c Hc) as (r' & Hr' & Hs & Ht).
  rewrite Hr in Hr'. injection Hr' as <-.
  assert (Hallow : AllowedForService (Some r) kid name = true <-> star ∈ svTokens svc \/ kid ∈ svTokens svc).
  { rewrite AllowedForService_list. unfold allow_list. rewrite Hs, lookup_fmap, Hsvc. cbn.
    by rewrite orb_true_iff, !allow_of_flag, !bool_decide_eq_true. }
  split.
  - intros [Hk Ha Hl Hw]. split; [by apply Ht|done|by apply Hallow].
  - intros [Hk Hl Hw]. split; [by apply Ht| |done|by apply Hallow].
    by destruct Hk as (? & ? & ? & ? & ? & ->).
Qed.

(** ** Properties *)

(** C31: a configuration the loader accepts is well formed: the numeric knobs are
    in range, the prefix is rooted without a trailing slash, the admin bearer is
    absent or long, kids are distinct with decodable secrets of 16 bytes or more,
    and the canonical services are exactly the configured ones. *)
Theorem finalize_sound c c' (H : finalize c = Ok c') : well_configured c'.
Proof. by eapply finalize_well_configured. Qed.

(** The loader ranges over the services map three times, in no fixed order;
    whether it accepts, and what it returns, do not depend on the orders. *)
Theorem finalize_order_independent o1 o2 o3 c c'
    (H1 : o1 ≡ₚ map_to_list (cfgServices c)) (H2 : o2 ≡ₚ map_to_list (cfgServices c))
    (H3 : o3 ≡ₚ map_to_list (cfgServices c)) :
  finalize_in o1 o2 o3 c = Ok c' <-> finalize c = Ok c'.
Proof.
  unfold finalize. split; apply finalize_in_perm; try done; try (by symmetry).
  by rewrite H1, H2.
Qed.

(** C30: the registry of an accepted configuration implements its policy: for a
    configured service, [Authorize] answers a kid with a token exactly when the
    configuration lists that token, unexpired, and its allow-list names the kid or
    ["*"]. *)
Theorem registry_policy c0 c name svc (Hc : finalize c0 = Ok c)
    (Hsvc : canonServices c !! name = Some svc) :
  exists r, MakeRegistry c = Ok r /\
    forall kid now t, Authorize (Some r) kid name now = Ok t <-> policy c svc kid now t.
Proof.
  assert (Hwc : well_configured c) by (by eapply finalize_well_configured).
  destruct (registry_total c Hwc) as (r & Hr & _). exists r. split; [done|]. intros kid now t.
  rewrite Authorize_Ok_iff. by apply authorized_policy.
Qed.

Definition ex_config : Config :=
  {| Listen := Listen DefaultConfig; AdminListen := []; AdminToken := lit "0123456789abcdef0123";
     URIPrefix := lit "/knock/"; TrustedProxies := [lit "127.0.0.0/8"; lit "10.0.0.1"];
     RealIPHeader := []; GrantTTL := 0; NonceTTL := 0; EnrollTTL := 10; IPv6Prefix := 64;
     RateLimit := 10;
     cfgServices := {[ lit "Wiki.Example.:443" := mkService [lit "k1"] [] BindingIPCookie 0;
                       lit "dark" := mkService [star] FailStealth [] 60 ]};
     cfgTokens := [mkTokenConfig (lit "k1") (lit "c2VjcmV0c2VjcmV0c2VjcmV0") [] 0];
     trusted := []; canonServices := ∅ |}.

Definition ex_final : Config :=
  match finalize ex_config with Ok c => c | Err _ => ex_config end.

Lemma ex_final_ok : finalize ex_config = Ok ex_final.
Proof.
  unfold ex_final. assert (H : is_ok (finalize ex_config) = true) by (vm_compute; reflexivity).
  by destruct (finalize ex_config).
Qed.

Lemma finalize_sound_witness :
  URIPrefix ex_final = lit "/knock" /\ well_configured ex_final.
Proof.
  split; [vm_compute; reflexivity|]. apply (finalize_sound ex_config). apply ex_final_ok.
Defined.

Lemma finalize_order_independent_witness :
  finalize_in (reverse (map_to_list (cfgServices ex_config))) (map_to_list (cfgServices ex_config))
    (map_to_list (cfgServices ex_config)) ex_config = Ok ex_final.
Proof.
  apply finalize_order_independent; [apply reverse_Permutation|reflexivity|reflexivity|].
  apply ex_final_ok.
Defined.

Lemma registry_policy_witness :
  exists r, MakeRegistry ex_final = Ok r /\
    forall kid now t, Authorize (Some r) kid (lit "dark") now = Ok t <->
      policy ex_final (mkService [star] FailStealth [] 60) kid now t.
Proof.
  apply (registry_policy ex_config); [apply ex_final_ok|]. vm_compute. reflexivity.
Defined.
