(* ===== verification/ConfigFile.v ===== *)
(** * ConfigFile: reading the configuration file ([LoadConfig] of [authorizer/config.go]).

    The file is one JSON object, decoded over the defaults with
    [DisallowUnknownFields], then finalized.  The content of the file, or the
    failure to read it, is the argument of [LoadConfig]. *)

From S2P Require Import Prelude GoStrings Json JsonFacts Wire Base64 ServerName Registry Store Config.
Import strings.

(** The fields of the three structs, by their [json] tags. *)
Definition service_names : list bytes :=
  [lit "tokens"; lit "failure_mode"; lit "binding"; lit "grant_ttl"].

Definition token_names : list bytes := [lit "kid"; lit "secret"; lit "label"; lit "expires"].

Definition config_names : list bytes :=
  [lit "listen"; lit "admin_listen"; lit "admin_token"; lit "uri_prefix"; lit "trusted_proxies";
   lit "real_ip_header"; lit "grant_ttl"; lit "nonce_ttl"; lit "enroll_ttl"; lit "ipv6_prefix";
   lit "rate_limit_per_min"; lit "services"; lit "tokens"].


Definition service_build (kvs : list (bytes * json)) (o : ServiceConfig) : option ServiceConfig :=
  tokens ← get_field service_names kvs "tokens" (slice_into str_into []) (Some (svTokens o, []));
  mode ← get_field service_names kvs "failure_mode" str_into (svFailureMode o);
  bind ← get_field service_names kvs "binding" str_into (svBinding o);
  ttl ← get_field service_names kvs "grant_ttl" int_into (svGrantTTL o);
  Some (mkService (slice_list tokens) mode bind ttl).

Definition service_into : json -> ServiceConfig -> option ServiceConfig :=
  struct_into true service_names service_build.

Definition token_build (kvs : list (bytes * json)) (o : TokenConfig) : option TokenConfig :=
  kid ← get_field token_names kvs "kid" str_into (tcKid o);
  secret ← get_field token_names kvs "secret" str_into (tcSecret o);
  label ← get_field token_names kvs "label" str_into (tcLabel o);
  expires ← get_field token_names kvs "expires" int_into (tcExpires o);
  Some (mkTokenConfig kid secret label expires).

Definition zeroToken : TokenConfig := mkTokenConfig [] [] [] 0.

Definition token_into : json -> TokenConfig -> option TokenConfig :=
  struct_into true token_names token_build.

Definition config_build (kvs : list (bytes * json)) (o : Config) : option Config :=
  listen ← get_field config_names kvs "listen" str_into (Listen o);
  admin_listen ← get_field config_names kvs "admin_listen" str_into (AdminListen o);
  admin_token ← get_field config_names kvs "admin_token" str_into (AdminToken o);
  uri_prefix ← get_field config_names kvs "uri_prefix" str_into (URIPrefix o);
  proxies ← get_field config_names kvs "trusted_proxies" (slice_into str_into [])
              (Some (TrustedProxies o, []));
  header ← get_field config_names kvs "real_ip_header" str_into (RealIPHeader o);
  grant_ttl ← get_field config_names kvs "grant_ttl" int_into (GrantTTL o);
  nonce_ttl ← get_field config_names kvs "nonce_ttl" int_into (NonceTTL o);
  enroll_ttl ← get_field config_names kvs "enroll_ttl" int_into (EnrollTTL o);
  ipv6_prefix ← get_field config_names kvs "ipv6_prefix" int_into (IPv6Prefix o);
  rate ← get_field config_names kvs "rate_limit_per_min" int_into (RateLimit o);
  services ← get_field config_names kvs "services" (map_into service_into zeroService)
               (cfgServices o);
  tokens ← get_field config_names kvs "tokens" (slice_into token_into zeroToken)
             (Some (cfgTokens o, []));
  Some {| Listen := listen; AdminListen := admin_listen; AdminToken := admin_token;
          URIPrefix := uri_prefix; TrustedProxies := slice_list proxies; RealIPHeader := header;
          GrantTTL := grant_ttl; NonceTTL := nonce_ttl; EnrollTTL := enroll_ttl;
          IPv6Prefix := ipv6_prefix; RateLimit := rate; cfgServices := services;
          cfgTokens := slice_list tokens; trusted := trusted o; canonServices := canonServices o |}.

Definition config_into : json -> Config -> option Config :=
  struct_into true config_names config_build.

Inductive load_err :=
| LRead
| LDecode
| LFinalize (e : config_err).

(** [dec.Decode(c)] on the text of the file: nothing bounds what is read. *)
Definition decode_config (raw : bytes) : option Config :=
  v ← Decode (Z.of_nat (length raw)) raw; config_into v DefaultConfig.

Definition LoadConfig (raw : option bytes) : result load_err Config :=
  match raw with
  | None => Err LRead
  | Some raw =>
      match decode_config raw with
      | None => Err LDecode
      | Some c =>
          match finalize c with
          | Err e => Err (LFinalize e)
          | Ok c' => Ok c'
          end
      end
  end.

#[global] Arguments decode_config : simpl never.

(** ** Reading back *)

(** A configuration as the members of a JSON object, each field once. *)
Definition service_members (sv : ServiceConfig) : list (bytes * json) :=
  [(lit "tokens", strs (svTokens sv)); (lit "failure_mode", JStr (svFailureMode sv));
   (lit "binding", JStr (svBinding sv)); (lit "grant_ttl", JInt (svGrantTTL sv))].

Definition token_members (t : TokenConfig) : list (bytes * json) :=
  [(lit "kid", JStr (tcKid t)); (lit "secret", JStr (tcSecret t));
   (lit "label", JStr (tcLabel t)); (lit "expires", JInt (tcExpires t))].

Definition service_json sv : json := JObj (service_members sv).
Definition token_json t : json := JObj (token_members t).

Definition config_members (c : Config) (svcs : list (bytes * ServiceConfig)) : list (bytes * json) :=
  [(lit "listen", JStr (Listen c)); (lit "admin_listen", JStr (AdminListen c));
   (lit "admin_token", JStr (AdminToken c)); (lit "uri_prefix", JStr (URIPrefix c));
   (lit "trusted_proxies", strs (TrustedProxies c)); (lit "real_ip_header", JStr (RealIPHeader c));
   (lit "grant_ttl", JInt (GrantTTL c)); (lit "nonce_ttl", JInt (NonceTTL c));
   (lit "enroll_ttl", JInt (EnrollTTL c)); (lit "ipv6_prefix", JInt (IPv6Prefix c));
   (lit "rate_limit_per_min", JInt (RateLimit c));
   (lit "services", JObj (map (fun kv => (kv.1, service_json kv.2)) svcs));
   (lit "tokens", JArr (map token_json (cfgTokens c)))].

(** A service and a token a JSON file can hold. *)
Definition service_text (sv : ServiceConfig) : Prop :=
  Forall text (svTokens sv) /\ text (svFailureMode sv) /\ text (svBinding sv) /\ in_i64 (svGrantTTL sv).

Definition token_text (t : TokenConfig) : Prop :=
  text (tcKid t) /\ text (tcSecret t) /\ text (tcLabel t) /\ in_i64 (tcExpires t).

#[export] Instance service_text_dec sv : Decision (service_text sv).
Proof. unfold service_text. apply _. Defined.
#[export] Instance token_text_dec t : Decision (token_text t).
Proof. unfold token_text. apply _. Defined.

Record config_text (c : Config) (svcs : list (bytes * ServiceConfig)) : Prop := {
  ct_strings : Forall text
    ([Listen c; AdminListen c; AdminToken c; URIPrefix c; RealIPHeader c] ++ TrustedProxies c);
  ct_ints : Forall in_i64 [GrantTTL c; NonceTTL c; EnrollTTL c; IPv6Prefix c; RateLimit c];
  ct_services : Forall (fun kv => text kv.1 /\ service_text kv.2) svcs;
  ct_tokens : Forall token_text (cfgTokens c) }.

Lemma service_reads sv old : in_i64 (svGrantTTL sv) -> service_into (service_json sv) old = Some sv.
Proof.
  intros Ht. unfold service_into, service_json. cbn [struct_into].
  change (true && _) with false. cbv iota. unfold service_build.
  pose proof (reflexivity (R := (≡ₚ)) (service_members sv)) as Hp.
  field Hp "tokens"%string. destruct (strs_into (svTokens sv) (Some (svTokens old, []))) as [b ->].
  cbn [mbind option_bind]. field Hp "failure_mode"%string. field Hp "binding"%string.
  field Hp "grant_ttl"%string. by destruct sv.
Qed.

Lemma token_reads t old : in_i64 (tcExpires t) -> token_into (token_json t) old = Some t.
Proof.
  intros Ht. unfold token_into, token_json. cbn [struct_into].
  change (true && _) with false. cbv iota. unfold token_build.
  pose proof (reflexivity (R := (≡ₚ)) (token_members t)) as Hp.
  field Hp "kid"%string. field Hp "secret"%string. field Hp "label"%string. field Hp "expires"%string.
  by destruct t.
Qed.

Lemma config_reads c svcs kvs :
  config_text c svcs -> NoDup svcs.*1 -> cfgServices c = list_to_map svcs ->
  trusted c = [] -> canonServices c = ∅ -> kvs ≡ₚ config_members c svcs ->
  config_into (JObj kvs) DefaultConfig = Some c.
Proof.
  intros [_ Hi Hs Ht] Hnd Hm Htr Hcs Hp. rewrite !Forall_cons in Hi.
  destruct Hi as (Hi1 & Hi2 & Hi3 & Hi4 & Hi5 & _).
  unfold config_into. cbn [struct_into]. rewrite (forallb_perm _ _ _ Hp).
  change (true && _) with false. cbv iota. unfold config_build.
  field Hp "listen"%string. field Hp "admin_listen"%string. field Hp "admin_token"%string.
  field Hp "uri_prefix"%string. field Hp "trusted_proxies"%string.
  destruct (strs_into (TrustedProxies c) (Some (TrustedProxies DefaultConfig, []))) as [b ->].
  cbn [mbind option_bind]. field Hp "real_ip_header"%string. field Hp "grant_ttl"%string.
  field Hp "nonce_ttl"%string. field Hp "enroll_ttl"%string. field Hp "ipv6_prefix"%string.
  field Hp "rate_limit_per_min"%string. field Hp "services"%string.
  change (cfgServices DefaultConfig) with (∅ : gmap bytes ServiceConfig).
  rewrite map_into_all; [|done|].
  2: { intros k x Hx. apply service_reads. rewrite Forall_forall in Hs.
       by destruct (Hs (k, x) Hx) as (_ & _ & _ & _ & ?). }
  cbn [mbind option_bind]. field Hp "tokens"%string.
  destruct (slice_into_all token_into zeroToken token_json (cfgTokens c)
    (Some (cfgTokens DefaultConfig, []))) as [b' ->].
  { intros t old Hin. apply token_reads. rewrite Forall_forall in Ht.
    by destruct (Ht t Hin) as (_ & _ & _ & ?). }
  cbn [mbind option_bind slice_list]. rewrite <- Hm. destruct c; cbn in *. by subst.
Qed.

(** ** What is written fits JSON *)

Lemma writable_service d sv : 2 <= d -> service_text sv -> writable d (service_json sv) = true.
Proof.
  intros Hd (H1 & H2 & H3 & H4). apply writable_obj; [lia|]. members; cbn [snd];
    first [apply writable_int | apply writable_strs; [lia|done] | done].
Qed.

Lemma writable_token d t : 1 <= d -> token_text t -> writable d (token_json t) = true.
Proof.
  intros Hd (H1 & H2 & H3 & H4). apply writable_obj; [lia|].
  members; cbn [snd]; first [apply writable_int | done].
Qed.

Lemma writable_config c svcs kvs :
  config_text c svcs -> kvs ≡ₚ config_members c svcs -> writable maxNestingDepth (JObj kvs) = true.
Proof.
  intros [Hs _ Hv Ht] Hp. unfold maxNestingDepth. apply writable_obj; [lia|]. rewrite Hp.
  cbn [app] in Hs. rewrite !Forall_cons in Hs.
  destruct Hs as (H1 & H2 & H3 & H4 & H5 & Hps). members; cbn [snd];
    try first [apply writable_int | apply writable_strs; [lia|done] | done].
  - apply writable_obj; [lia|]. rewrite Forall_map. eapply Forall_impl; [exact Hv|].
    intros [k sv] [Hk Hsv]. split; [done|]. apply writable_service; [lia|done].
  - cbn [writable]. apply andb_true_iff. split; [lia|]. rewrite forallb_forall.
    intros v (t & <- & Hin%list_elem_of_In)%in_map_iff. apply writable_token; [lia|].
    rewrite Forall_forall in Ht. by apply Ht.
Qed.

(** ** Properties *)

(** C32: the configuration the operator writes is the one that is loaded: a file
    that gives each field once, in any order and in UTF-8, is decoded to exactly
    those fields, defaults notwithstanding, and loads as [finalize] decides. *)
Theorem LoadConfig_reads c svcs kvs (Htext : config_text c svcs) (Hnames : NoDup svcs.*1)
    (Hsvcs : cfgServices c = list_to_map svcs) (Htrusted : trusted c = [])
    (Hcanon : canonServices c = ∅) (Hperm : kvs ≡ₚ config_members c svcs) :
  LoadConfig (Some (Encode (JObj kvs))) =
    match finalize c with Ok c' => Ok c' | Err e => Err (LFinalize e) end.
Proof.
  unfold LoadConfig, decode_config. rewrite Decode_Encode; [|by eapply writable_config|lia].
  cbn [mbind option_bind]. by rewrite (config_reads c svcs).
Qed.

Lemma LoadConfig_Ok raw c :
  LoadConfig raw = Ok c <-> exists text d, raw = Some text /\ decode_config text = Some d /\ finalize d = Ok c.
Proof.
  unfold LoadConfig. split.
  - destruct raw as [text|]; [|done]. destruct (decode_config text) as [d|] eqn:Hd; [|done].
    destruct (finalize d) eqn:Hf; [|done]. intros [= <-]. by exists text, d.
  - intros (text & d & -> & -> & ->). done.
Qed.

Lemma LoadConfig_well_configured raw c : LoadConfig raw = Ok c -> well_configured c.
Proof.
  intros (text & d & _ & _ & Hf)%LoadConfig_Ok. by eapply finalize_well_configured.
Qed.

(** ** Examples and witnesses *)

Example unknown_field : LoadConfig (Some (quoted "{'tokens': [{'kid': 'a', 'secrets': 'x'}]}")) = Err LDecode.
Proof. vm_compute. reflexivity. Qed.

Example null_file : is_ok (LoadConfig (Some (quoted " null "))) = true.
Proof. vm_compute. reflexivity. Qed.

(** What follows the object is not looked at. *)
Example trailing_text :
  LoadConfig (Some (quoted "{} {'admin_token': 1}")) = LoadConfig (Some (quoted "{}")).
Proof. vm_compute. reflexivity. Qed.

Example placeholder_bearer :
  LoadConfig (Some (quoted "{'admin_token': 'CHANGE-ME-OR-REMOVE'}")) = Err (LFinalize EAdminToken).
Proof. vm_compute. reflexivity. Qed.

Notation ex_svcs := (map_to_list (cfgServices ex_config)).

Lemma LoadConfig_reads_witness :
  LoadConfig (Some (Encode (JObj (reverse (config_members ex_config ex_svcs))))) = Ok ex_final.
Proof.
  rewrite (LoadConfig_reads ex_config ex_svcs).
  - by rewrite ex_final_ok.
  - split; (eapply bool_decide_unpack; vm_compute; exact I).
  - apply NoDup_fst_map_to_list.
  - by rewrite list_to_map_to_list.
  - reflexivity.
  - reflexivity.
  - apply reverse_Permutation.
Defined.
