(* ===== verification/RealIP.v ===== *)
(** * RealIP: who the client is and what it asked for ([authorizer/realip.go]).

    Forwarded headers are evidence only from a trusted peer.  [url.Parse] is a
    parameter: it answers the host and the escaped path of an absolute URL. *)

From S2P Require Import Prelude GoStrings NetIP NetIPFacts ServerName CanonIP GoPath Http Config.
Import strings netip.

Definition isTrusted (c : Config) (a : Addr) : bool :=
  let a := Unmap a in existsb (fun p => Contains p a) (trusted c).

Definition peerAddr (r : Request) : option Addr :=
  let host := match SplitHostPort (RemoteAddr r) with Some (h, _) => h | None => RemoteAddr r end in
  a ← ParseAddr (Trim host (lit "[]"));
  Some (Unmap a).

Definition forwarded_part (part : bytes) : option bytes :=
  let p := TrimSpace part in
  let p := match SplitHostPort p with Some (h, _) => h | None => p end in
  let p := Trim p (lit "[]") in
  if bool_decide (p = []) then None else Some p.

Definition forwardedList (r : Request) (header : bytes) : list bytes :=
  omap forwarded_part (concat (map (fun v => Split v ","%byte) (Values (RHeader r) header))).

Inductive ip_err := ErrNoClientIP | ErrCanon (e : canon_err).

(** The right-to-left walk, on the reversed list. *)
Fixpoint walk (c : Config) (candidates : list bytes) : result ip_err bytes :=
  match candidates with
  | [] => Err ErrNoClientIP
  | s :: rest =>
      match ParseAddr s with
      | None => walk c rest
      | Some a =>
          let a := Unmap a in
          if isTrusted c a then walk c rest
          else match CanonIP (String a) (IPv6Prefix c) 32 with
               | Ok canon => Ok canon
               | Err e => Err (ErrCanon e)
               end
      end
  end.

(** The address, and whether the request came through a trusted proxy. *)
Definition ClientIP (c : Config) (r : Request) : result ip_err bytes * bool :=
  match peerAddr r with
  | None => (Err ErrNoClientIP, false)
  | Some peer =>
      if negb (isTrusted c peer) then
        (match CanonIP (String peer) (IPv6Prefix c) 32 with
         | Ok canon => Ok canon
         | Err e => Err (ErrCanon e)
         end, false)
      else (walk c (reverse (forwardedList r (RealIPHeader c))), true)
  end.

Definition firstHostInChain (v : bytes) : bytes :=
  if bool_decide (v = []) then []
  else TrimSpace (match IndexByte v ","%byte with Some i => take i v | None => v end).

Record forwardedView := mkView { vhost : bytes; vuri : bytes }.

(** [http.ServeMux]'s cleaning of a request path. *)
Definition muxWouldRedirect (p : bytes) : bool :=
  if bool_decide (p = []) then false
  else
    let np := path.Clean p in
    let np := if HasSuffix p (lit "/") && negb (bool_decide (np = lit "/")) then np ++ lit "/" else np in
    negb (bool_decide (np = p)).

Definition cleanURIPath (uri : bytes) : bytes :=
  let uri := match IndexAny uri (lit "?#") with Some i => take i uri | None => uri end in
  match url.PathUnescape uri with
  | None => lit "/"
  | Some dec =>
      if ContainsAny dec (lit "%?#") then lit "/"
      else path.Clean (if negb (HasPrefix dec (lit "/")) then "/"%byte :: dec else dec)
  end.

(** One view against the claims gathered so far; [None] is a conflict. *)
Definition merge_view (acc : bytes * bytes) (v : forwardedView) : option (bytes * bytes) :=
  let '(host, pathClaim) := acc in
  host ← (if bool_decide (vhost v = []) then Some host
          else
            let h := CanonServerName (vhost v) in
            if negb (bool_decide (host = [])) && negb (bool_decide (h = host)) then None else Some h);
  pathClaim ← (if bool_decide (vuri v = []) then Some pathClaim
               else
                 let u := cleanURIPath (vuri v) in
                 if negb (bool_decide (pathClaim = [])) && negb (bool_decide (u = pathClaim)) then None
                 else Some u);
  Some (host, pathClaim).

Fixpoint merge_views (acc : bytes * bytes) (vs : list forwardedView) : option (bytes * bytes) :=
  match vs with
  | [] => Some acc
  | v :: vs' => acc ← merge_view acc v; merge_views acc vs'
  end.

Section target.
Variable (url_Parse : bytes -> option (bytes * bytes)).

Definition forwardedViews (r : Request) : list forwardedView :=
  let h := RHeader r in
  let fwHost := firstHostInChain (HGet h (lit "X-Forwarded-Host")) in
  let fwURI := HGet h (lit "X-Forwarded-Uri") in
  let v := HGet h (lit "X-Original-URL") in
  let oHost := firstHostInChain (HGet h (lit "X-Original-Host")) in
  let oURI := HGet h (lit "X-Original-Uri") in
  (if negb (bool_decide (fwHost = [])) || negb (bool_decide (fwURI = []))
   then [mkView fwHost fwURI] else []) ++
  (if bool_decide (v = []) then []
   else match url_Parse v with
        | Some (uh, up) => if negb (bool_decide (uh = [])) then [mkView uh up] else [mkView [] v]
        | None => [mkView [] v]
        end) ++
  (if negb (bool_decide (oHost = [])) || negb (bool_decide (oURI = []))
   then [mkView oHost oURI] else []).

(** [None] is [conflict = true]. *)
Definition resolveTarget (c : Config) (r : Request) : option (bytes * bytes) :=
  let service := CanonServerName (Host r) in
  let uri := cleanURIPath (EscapedPath r) in
  match peerAddr r with
  | None => Some (service, uri)
  | Some peer =>
      if negb (isTrusted c peer) then Some (service, uri)
      else
        claims ← merge_views ([], []) (forwardedViews r);
        let '(host, pathClaim) := claims in
        Some (if negb (bool_decide (host = [])) then host else service,
              if negb (bool_decide (pathClaim = [])) then pathClaim else uri)
  end.
End target.

(** ** Facts *)

Lemma IndexAny_None s chars : IndexAny s chars = None <-> forall b, b ∈ s -> b ∉ chars.
Proof.
  unfold IndexAny. rewrite IndexFunc_None, Forall_forall. unfold in_cutset.
  split; intros H b Hb; specialize (H b Hb); by apply bool_decide_eq_false in H || apply bool_decide_eq_false.
Qed.

Lemma ContainsAny_false s chars : ContainsAny s chars = false <-> forall b, b ∈ s -> b ∉ chars.
Proof.
  unfold ContainsAny. rewrite <- IndexAny_None. by destruct (IndexAny s chars).
Qed.

(** A path that cleaning leaves alone: rooted, free of dot segments, empty
    segments and bytes whose meaning depends on when one decodes. *)
Record canonical_path (p : bytes) : Prop := {
  cp_shape : exists es, path.normal es /\ p = "/"%byte :: Join es (lit "/");
  cp_bytes : forall b, b ∈ p -> b ∉ lit "%?#" }.

Lemma canonical_root : canonical_path (lit "/").
Proof.
  split; [exists []; split; [constructor|done]|]. intros b ->%list_elem_of_singleton. decide_closed.
Qed.

Lemma cleanURIPath_canonical uri : canonical_path (cleanURIPath uri).
Proof.
  unfold cleanURIPath. cbv zeta.
  destruct (url.PathUnescape _) as [dec|]; [|apply canonical_root].
  destruct (ContainsAny dec (lit "%?#")) eqn:Ec; [apply canonical_root|].
  rewrite ContainsAny_false in Ec.
  assert (Hd : exists d, (if negb (HasPrefix dec (lit "/")) then "/"%byte :: dec else dec) = d /\
    HasPrefix d (lit "/") = true /\ forall b, b ∈ d -> b = "/"%byte \/ b ∈ dec).
  { destruct (HasPrefix dec (lit "/")) eqn:Ep; cbn [negb]; eexists; (split; [done|]).
    - split; [done|]. auto.
    - split; [apply (HasPrefix_app (lit "/"))|]. by intros b ?%elem_of_cons. }
  destruct Hd as (d & -> & Hp & Hin). split.
  - exists (path.elements true d). split; [apply path.elements_normal|by apply path.Clean_rooted].
  - intros b Hb. assert (b = "/"%byte \/ b ∈ dec) as [->|?]; [|decide_closed|by apply Ec].
    apply path.Clean_elem in Hb as [?|Hb]; auto.
Qed.

Lemma cleanURIPath_fixed p : canonical_path p -> cleanURIPath p = p.
Proof.
  intros [(es & Hn & ->) Hb]. unfold cleanURIPath. cbv zeta.
  rewrite (proj2 (IndexAny_None _ _)).
  2: { intros b Hin Hc. apply (Hb b Hin). exact (list_elem_of_further b "%"%byte (lit "?#") Hc). }
  rewrite url.PathUnescape_plain.
  2: { intros Hin. apply (Hb _ Hin). decide_closed. }
  rewrite (proj2 (ContainsAny_false _ _)) by done.
  pose proof (HasPrefix_app (lit "/") (Join es (lit "/"))) as Hp. simpl in Hp. rewrite Hp.
  by apply path.Clean_join.
Qed.

Lemma cleanURIPath_nonempty uri : cleanURIPath uri <> [].
Proof. destruct (cleanURIPath_canonical uri) as [(es & _ & ->) _]. done. Qed.

#[global] Opaque cleanURIPath.

(** *** The walk *)

(** A hop of our own infrastructure, or noise: the walk steps over it. *)
Definition skipped (c : Config) (s : bytes) : Prop :=
  match ParseAddr s with None => True | Some a => isTrusted c (Unmap a) = true end.

Lemma walk_skip c l rest : Forall (skipped c) l -> walk c (l ++ rest) = walk c rest.
Proof.
  induction 1 as [|s l Hs _ IH]; [done|]. cbn [walk app]. unfold skipped in Hs.
  destruct (ParseAddr s) as [a|]; [by rewrite Hs|done].
Qed.

Lemma walk_first c s a rest :
  ParseAddr s = Some a -> isTrusted c (Unmap a) = false ->
  walk c (s :: rest) = match CanonIP (String (Unmap a)) (IPv6Prefix c) 32 with
                       | Ok canon => Ok canon | Err e => Err (ErrCanon e) end.
Proof. intros Hp Ht. cbn [walk]. by rewrite Hp, Ht. Qed.

(** Whatever the walk returns was the canonical form of an untrusted address. *)
Lemma walk_untrusted c l ip :
  walk c l = Ok ip ->
  exists s a, s ∈ l /\ ParseAddr s = Some a /\ isTrusted c (Unmap a) = false /\
    CanonIP (String (Unmap a)) (IPv6Prefix c) 32 = Ok ip.
Proof.
  induction l as [|s l IH]; cbn [walk]; [done|].
  destruct (ParseAddr s) as [a|] eqn:Ep.
  - cbv zeta. destruct (isTrusted c (Unmap a)) eqn:Et.
    + intros (s' & a' & ? & ?)%IH. exists s', a'. split; [by right|done].
    + destruct (CanonIP _ _ _) eqn:Ec; [|done]. intros [= <-]. exists s, a. split; [left|done].
  - intros (s' & a' & ? & ?)%IH. exists s', a'. split; [by right|done].
Qed.

(** The address a request is keyed on is a canonical one. *)
Lemma ClientIP_canonical c r ip b : ClientIP c r = (Ok ip, b) -> CanonIP ip 128 32 = Ok ip.
Proof.
  unfold ClientIP. destruct (peerAddr r) as [peer|]; [|done]. destruct (negb _).
  - destruct (CanonIP (String peer) _ _) as [canon|e] eqn:H; [|done]. intros [= <- _]. by eapply CanonIP_fixed_full.
  - intros [= Hw _]. apply walk_untrusted in Hw as (s & a & _ & _ & _ & H). by eapply CanonIP_fixed_full.
Qed.

(** *** The claims *)

(** The service a request is for is a canonical name. *)
Lemma merge_views_canonical vs acc host pathClaim :
  CanonServerName acc.1 = acc.1 -> merge_views acc vs = Some (host, pathClaim) -> CanonServerName host = host.
Proof.
  revert acc. induction vs as [|v vs IH]; intros acc Hacc; cbn [merge_views].
  - by intros [= ->].
  - intros ([h p] & Hm & H)%bind_Some. apply (IH (h, p)); [|exact H]. cbn [fst]. destruct acc as [h0 p0].
    unfold merge_view in Hm. apply bind_Some in Hm as (h2 & Eh & Hm).
    apply bind_Some in Hm as (p2 & _ & [= <- _]). revert Eh. cbv zeta.
    destruct (bool_decide (vhost v = [])); [by intros [= <-]|].
    destruct (negb _ && _); [discriminate|]. intros H2%(inj Some). rewrite <- H2. apply CanonServerName_idempotent.
Qed.

Lemma merge_views_agree vs acc host pathClaim :
  merge_views acc vs = Some (host, pathClaim) ->
  (acc.1 <> [] -> host = acc.1) /\ (acc.2 <> [] -> pathClaim = acc.2) /\
  forall v, v ∈ vs ->
    (vhost v <> [] -> CanonServerName (vhost v) = host \/ CanonServerName (vhost v) = []) /\
    (vuri v <> [] -> cleanURIPath (vuri v) = pathClaim).
Proof.
  revert acc. induction vs as [|v vs IH]; intros [h0 p0]; cbn [merge_views fst snd].
  - intros [= <- <-]. split; [done|split; [done|]]. by intros v ?%elem_of_nil.
  - intros H. apply bind_Some in H as ([h1 p1] & Hm & H). apply IH in H as (Hh & Hp & Hv).
    cbn [fst snd] in Hh, Hp. unfold merge_view in Hm.
    apply bind_Some in Hm as (h2 & Eh & Hm). apply bind_Some in Hm as (p2 & Ep & [= -> ->]).
    assert (Hhost : (h0 <> [] -> h1 = h0) /\ (vhost v <> [] -> h1 = CanonServerName (vhost v))).
    { revert Eh. cbv zeta. destruct (bool_decide (vhost v = [])) eqn:E1; bool_prop.
      - by intros [= ->].
      - destruct (negb (bool_decide (h0 = [])) && _) eqn:E2; [done|]. intros <-%(inj Some). split; [|done].
        intros Hne. apply andb_false_iff in E2 as [E2|E2]; by bool_prop. }
    assert (Hpath : (p0 <> [] -> p1 = p0) /\ (vuri v <> [] -> p1 = cleanURIPath (vuri v))).
    { revert Ep. cbv zeta. destruct (bool_decide (vuri v = [])) eqn:E1; bool_prop.
      - by intros [= ->].
      - destruct (negb (bool_decide (p0 = [])) && _) eqn:E2; [done|]. intros <-%(inj Some). split; [|done].
        intros Hne. apply andb_false_iff in E2 as [E2|E2]; by bool_prop. }
    destruct Hhost as [Hh0 Hh1], Hpath as [Hp0 Hp1]. split; [|split].
    + intros Hne. rewrite Hh; by rewrite Hh0.
    + intros Hne. rewrite Hp; by rewrite Hp0.
    + intros v' [->|Hin]%elem_of_cons; [|by apply Hv]. split.
      * intros Hne. destruct (decide (CanonServerName (vhost v) = [])) as [|Hne']; [by right|left].
        rewrite <- Hh1 in * by done. by rewrite Hh.
      * intros Hne. rewrite <- (Hp1 Hne). symmetry. apply Hp. rewrite (Hp1 Hne).
        apply cleanURIPath_nonempty.
Qed.

Lemma resolveTarget_canonical url_Parse c r service uri :
  resolveTarget url_Parse c r = Some (service, uri) -> CanonServerName service = service.
Proof.
  unfold resolveTarget. assert (Hhost : CanonServerName (CanonServerName (Host r)) = CanonServerName (Host r))
    by apply CanonServerName_idempotent.
  revert Hhost. generalize (CanonServerName (Host r)). intros h Hhost.
  destruct (peerAddr r) as [peer|]; [|by intros [= <- _]].
  destruct (negb _); [by intros [= <- _]|].
  intros ([host pc] & Hm & [= <- _])%bind_Some. apply merge_views_canonical in Hm; [|vm_compute; reflexivity].
  by destruct (negb _).
Qed.

(** ** Properties *)

(** [cleanURIPath] is idempotent and answers a rooted path without dot or
    empty segments, so the verifier's view of a path does not depend on how many
    times it is normalised. *)
Theorem cleanURIPath_idempotent uri :
  cleanURIPath (cleanURIPath uri) = cleanURIPath uri /\ canonical_path (cleanURIPath uri).
Proof. split; [apply cleanURIPath_fixed|]; apply cleanURIPath_canonical. Qed.

(** A peer that is not a trusted proxy is described by its own connection and
    request line alone: no header it sends can change the address or the service
    it is taken for. *)
Theorem direct_ignores_headers url_Parse c r r' peer
    (Hpeer : peerAddr r = Some peer) (Hdirect : isTrusted c peer = false)
    (Haddr : RemoteAddr r' = RemoteAddr r) (Hhost : Host r' = Host r)
    (Hpath : EscapedPath r' = EscapedPath r) :
  ClientIP c r' = ClientIP c r /\ resolveTarget url_Parse c r' = resolveTarget url_Parse c r.
Proof.
  assert (Hp' : peerAddr r' = Some peer) by (unfold peerAddr in *; by rewrite Haddr).
  unfold ClientIP, resolveTarget. rewrite Hpeer, Hp', Hdirect, Hhost, Hpath. done.
Qed.

(** C24: behind a trusted proxy the address is the rightmost untrusted one of the
    configured header: entries to the right of it that are trusted proxies, or are
    no addresses at all, are passed over, and whatever a client put to the left of
    it has no effect. *)
Theorem ClientIP_rightmost_untrusted c r peer l x a t
    (Hpeer : peerAddr r = Some peer) (Hproxy : isTrusted c peer = true)
    (Hlist : forwardedList r (RealIPHeader c) = l ++ x :: t)
    (Hx : ParseAddr x = Some a) (Huntrusted : isTrusted c (Unmap a) = false)
    (Ht : Forall (skipped c) t) :
  ClientIP c r =
    (match CanonIP (String (Unmap a)) (IPv6Prefix c) 32 with
     | Ok canon => Ok canon | Err e => Err (ErrCanon e) end, true).
Proof.
  unfold ClientIP. rewrite Hpeer, Hproxy. cbn [negb]. rewrite Hlist, reverse_app, reverse_cons.
  rewrite <- app_assoc, walk_skip by (by apply Forall_reverse). cbn [app].
  by rewrite (walk_first c x a).
Qed.

(** Behind a trusted proxy the request is never keyed on the proxy itself or
    on another trusted hop: an address is answered only for an untrusted entry of
    the header. *)
Theorem ClientIP_never_trusted c r peer ip
    (Hpeer : peerAddr r = Some peer) (Hproxy : isTrusted c peer = true)
    (Hip : ClientIP c r = (Ok ip, true)) :
  exists s a, s ∈ forwardedList r (RealIPHeader c) /\ ParseAddr s = Some a /\
    isTrusted c (Unmap a) = false /\ CanonIP (String (Unmap a)) (IPv6Prefix c) 32 = Ok ip.
Proof.
  unfold ClientIP in Hip. rewrite Hpeer, Hproxy in Hip. cbn [negb] in Hip. injection Hip as Hw.
  apply walk_untrusted in Hw as (s & a & Hs & ?). exists s, a. split; [|done].
  by apply elem_of_reverse.
Qed.

(** C25: two forwarding conventions that disagree are never resolved in favour of
    one: if the request resolves at all, every convention present that names a
    host names this service, unless its host has no canonical name at all (a
    host of dots or white space, which counts for nothing), and every one that
    names a path names this path. *)
Theorem resolveTarget_no_conflict url_Parse c r peer service uri
    (Hpeer : peerAddr r = Some peer) (Hproxy : isTrusted c peer = true)
    (Hres : resolveTarget url_Parse c r = Some (service, uri)) :
  forall v, v ∈ forwardedViews url_Parse r ->
    (vhost v <> [] -> CanonServerName (vhost v) = service \/ CanonServerName (vhost v) = []) /\
    (vuri v <> [] -> cleanURIPath (vuri v) = uri).
Proof.
  unfold resolveTarget in Hres. rewrite Hpeer, Hproxy in Hres. cbn [negb] in Hres.
  apply bind_Some in Hres as ([host pc] & Hm & Hres).
  apply merge_views_agree in Hm as (_ & _ & Hv). injection Hres as <- <-.
  intros v Hin. destruct (Hv v Hin) as [Hh Hu]. split.
  - intros Hne. destruct (Hh Hne) as [He|?]; [|by right].
    destruct (decide (host = [])) as [->|Hne']; [by right|left].
    by rewrite bool_decide_eq_false_2.
  - intros Hne. rewrite bool_decide_eq_false_2; [by apply Hu|].
    rewrite <- (Hu Hne). apply cleanURIPath_nonempty.
Qed.

(** Witnesses: a deployment behind nginx on 127.0.0.1, and a stand-in for the
    URL parser that accepts one URL. *)
Definition ex_url_Parse (s : bytes) : option (bytes * bytes) :=
  if bool_decide (s = lit "https://wiki/a%20b") then Some (lit "wiki", lit "/a%20b") else None.

Definition ex_req (remote : bytes) (h : list (bytes * bytes)) : Request :=
  {| Method := MethodGet; Host := lit "Wiki:443"; RemoteAddr := remote;
     URLPath := lit "/authz"; EscapedPath := lit "/authz";
     RHeader := list_to_map (map (fun kv => (CanonicalHeaderKey kv.1, [kv.2])) h); Body := [] |}.

Definition ex_direct : Request := ex_req (lit "203.0.113.9:4711")
  [(lit "X-Forwarded-For", lit "10.0.0.2"); (lit "X-Forwarded-Host", lit "dark")].

(** The host that counts for nothing: [X-Forwarded-Host] is a dot, another
    convention names a host, and the request resolves to the latter. *)
Example dot_host_resolves :
  resolveTarget ex_url_Parse ex_final
    (ex_req (lit "127.0.0.1:4711")
       [(lit "X-Forwarded-Host", lit "."); (lit "X-Original-URL", lit "https://wiki/a%20b")]) =
    Some (lit "wiki", lit "/a b").
Proof. vm_compute. reflexivity. Qed.

(** An entry that is no address is passed over. *)
Example unparseable_entry_skipped :
  ClientIP ex_final (ex_req (lit "127.0.0.1:4711") [(lit "x-forwarded-for", lit "203.0.113.9, junk")]) =
    (Ok (lit "203.0.113.9"), true).
Proof. vm_compute. reflexivity. Qed.

Definition ex_proxied : Request := ex_req (lit "127.0.0.1:4711")
  [(lit "x-forwarded-for", lit "8.8.8.8, 203.0.113.9:99, 10.0.0.1");
   (lit "X-Forwarded-Host", lit "wiki"); (lit "X-Original-URL", lit "https://wiki/a%20b")].

Lemma direct_ignores_headers_witness :
  ClientIP ex_final ex_direct = ClientIP ex_final (ex_req (lit "203.0.113.9:4711") []) /\
  resolveTarget ex_url_Parse ex_final ex_direct =
    resolveTarget ex_url_Parse ex_final (ex_req (lit "203.0.113.9:4711") []).
Proof.
  apply (direct_ignores_headers _ _ _ _ (V4 3405803785)); [vm_compute; reflexivity..|].
  vm_compute. reflexivity.
Defined.

Lemma ClientIP_rightmost_untrusted_witness :
  ClientIP ex_final ex_proxied = (Ok (lit "203.0.113.9"), true).
Proof.
  pose proof (ClientIP_rightmost_untrusted ex_final ex_proxied (V4 2130706433)
    [lit "8.8.8.8"] (lit "203.0.113.9") (V4 3405803785) [lit "10.0.0.1"]) as H.
  etransitivity; [apply H|vm_compute; reflexivity].
  1-5: vm_compute; reflexivity.
  apply Forall_cons. split; [vm_compute; reflexivity|constructor].
Defined.

Lemma ClientIP_never_trusted_witness :
  exists s a, s ∈ forwardedList ex_proxied (RealIPHeader ex_final) /\ ParseAddr s = Some a /\
    isTrusted ex_final (Unmap a) = false /\
    CanonIP (String (Unmap a)) (IPv6Prefix ex_final) 32 = Ok (lit "203.0.113.9").
Proof.
  apply (ClientIP_never_trusted ex_final ex_proxied (V4 2130706433)); vm_compute; reflexivity.
Defined.

Lemma resolveTarget_no_conflict_witness :
  Forall (fun v => CanonServerName (vhost v) = lit "wiki") (forwardedViews ex_url_Parse ex_proxied).
Proof.
  apply Forall_forall. intros v Hv.
  destruct (resolveTarget_no_conflict ex_url_Parse ex_final ex_proxied (V4 2130706433)
    (lit "wiki") (lit "/a b") ltac:(vm_compute; reflexivity) ltac:(vm_compute; reflexivity)
    ltac:(vm_compute; reflexivity) v Hv) as [H _].
  assert (Hf : forallb (fun v => negb (bool_decide (vhost v = []) || bool_decide (CanonServerName (vhost v) = [])))
    (forwardedViews ex_url_Parse ex_proxied) = true) by (vm_compute; reflexivity).
  rewrite forallb_forall in Hf. specialize (Hf v (proj1 (list_elem_of_In _ _) Hv)). bool_prop.
  by destruct (H H0) as [?|?].
Defined.
