(* ===== verification/Server.v ===== *)
(** * Server: the Authorizer's handlers ([authorizer/server.go]).

    Handlers are written against [Ops], the operations by which they reach what
    requests share: the configuration and registry in force, the stores, the
    clock, the random generator and their own response.  Each is one critical
    section of the code, so it is atomic; a handler is a sequence of them, in any
    monad that has them.  [world_ops] runs a handler to completion on a [World];
    [Concurrent] interleaves the operations of many.  [url.Parse] is a parameter. *)

From stdpp Require Import pretty.
From S2P Require Import Prelude GoStrings Json Wire Base64 Crypto ServerName NetIP Registry RateLimit.
From S2P Require Import Store Http Config GoPath RealIP Pages.
From S2P Require NonceStore EnrollStore.
Import strings netip.

Definition JITMarker : bytes := Eval vm_compute in lit "challenge; v=1".
Definition GrantCookieName : bytes := Eval vm_compute in lit "__Host-jit-grant".

Record metrics := mkMetrics {
  knockOK : Z;
  knockFail_ : Z;
  granted : Z;
  denied : Z;
  enrollOK : Z }.

Inductive metric := MKnockOK | MKnockFail | MGranted | MDenied | MEnrollOK.

(** An [int64] counter. *)
Definition inc (m : metrics) (k : metric) : metrics :=
  let '(mkMetrics a b c d e) := m in
  match k with
  | MKnockOK => mkMetrics (i64 (a + 1)) b c d e
  | MKnockFail => mkMetrics a (i64 (b + 1)) c d e
  | MGranted => mkMetrics a b (i64 (c + 1)) d e
  | MDenied => mkMetrics a b c (i64 (d + 1)) e
  | MEnrollOK => mkMetrics a b c d (i64 (e + 1))
  end.

Definition snapshot (m : metrics) : list (bytes * Z) :=
  [(lit "jit_knock_ok", knockOK m); (lit "jit_knock_fail", knockFail_ m);
   (lit "jit_granted", granted m); (lit "jit_denied", denied m);
   (lit "jit_enroll_ok", enrollOK m)].

(** ** Routing *)

Inductive handler :=
| HChallenge | HRespond | HEnroll | HRegister | HAuthz | HHealthz | HAdmin | HNotFound.

#[export] Instance handler_eq_dec : EqDecision handler.
Proof. solve_decision. Defined.

Notation routes := (list (bytes * handler)).

Definition buildMuxLocked (c : Config) : routes :=
  let prefix := URIPrefix c in
  [(prefix ++ lit "/challenge", HChallenge);
   (prefix ++ lit "/respond", HRespond);
   (prefix ++ lit "/enroll", HEnroll);
   (prefix ++ lit "/register", HRegister);
   (lit "/authz", HAuthz);
   (lit "/healthz", HHealthz)] ++
  (if bool_decide (AdminListen c = []) then [(lit "/admin/", HAdmin)] else []) ++
  [(lit "/", HNotFound)].

Definition adminMux : routes :=
  [(lit "/admin/", HAdmin); (lit "/healthz", HHealthz); (lit "/", HNotFound)].

(** [http.ServeMux] on patterns without host, method or wildcard: it compares
    decoded segments; a pattern ending in a slash matches its subtree; the most
    specific pattern wins; a path that only lacks the final slash of a pattern
    is redirected. *)
Definition segments (p : bytes) : list bytes :=
  map (fun s => default s (url.PathUnescape s)) (Split (drop 1 p) "/").

Definition exact_match (segs : list bytes) (pat : bytes * handler) : bool :=
  negb (HasSuffix pat.1 (lit "/")) && bool_decide (segments pat.1 = segs).

Definition subtree_match (segs : list bytes) (pat : bytes * handler) : bool :=
  HasSuffix pat.1 (lit "/") &&
  (let base := removelast (segments pat.1) in
   bool_decide (base `prefix_of` segs) && (length base <? length segs)%nat).

Definition longer (a b : bytes * handler) : bytes * handler :=
  if (length a.1 <? length b.1)%nat then b else a.

(** [net/http]'s [cleanPath]. *)
Definition cleanPath (p : bytes) : bytes :=
  if bool_decide (p = []) then lit "/"
  else
    let p := if HasPrefix p (lit "/") then p else "/"%byte :: p in
    let np := path.Clean p in
    if HasSuffix p (lit "/") && negb (bool_decide (np = lit "/")) then np ++ lit "/" else np.

Inductive routed := Routed (h : handler) | Redirected.

Definition ServeMux (rs : routes) (escaped : bytes) : routed :=
  let path := cleanPath escaped in
  let segs := segments path in
  if negb (bool_decide (path = escaped)) then Redirected else
  match List.find (exact_match segs) rs with
  | Some (_, h) => Routed h
  | None =>
      if existsb (fun pat => HasSuffix pat.1 (lit "/") &&
                   bool_decide (removelast (segments pat.1) = segs)) rs
      then Redirected
      else match filter (fun pat => subtree_match segs pat = true) rs with
           | [] => Routed HNotFound
           | pat :: pats => Routed (foldl longer pat pats).2
           end
  end.

(** ** The server *)

Record Server := mkServer {
  cfg : Config;
  reg : Registry;
  grants : GrantStore;
  nonces : NonceStore.NonceStore;
  codes : EnrollStore.EnrollStore;
  nonceKey : bytes;
  rl : RateLimiter;
  mtr : metrics;
  mux : option routes }.

Record World := mkWorld {
  srv : Server;
  ticks : nat;      (** clock readings so far *)
  draws : nat;      (** random draws so far *)
  resp : Response }.

Notation M := (ST World).

Definition with_srv (f : Server -> Server) (w : World) : World :=
  {| srv := f (srv w); ticks := ticks w; draws := draws w; resp := resp w |}.

Definition set_grants g s := mkServer (cfg s) (reg s) g (nonces s) (codes s) (nonceKey s) (rl s) (mtr s) (mux s).
Definition set_nonces n s := mkServer (cfg s) (reg s) (grants s) n (codes s) (nonceKey s) (rl s) (mtr s) (mux s).
Definition set_codes c s := mkServer (cfg s) (reg s) (grants s) (nonces s) c (nonceKey s) (rl s) (mtr s) (mux s).
Definition set_rl l s := mkServer (cfg s) (reg s) (grants s) (nonces s) (codes s) (nonceKey s) l (mtr s) (mux s).
Definition set_mtr m s := mkServer (cfg s) (reg s) (grants s) (nonces s) (codes s) (nonceKey s) (rl s) m (mux s).
Definition set_mux m s := mkServer (cfg s) (reg s) (grants s) (nonces s) (codes s) (nonceKey s) (rl s) (mtr s) m.
Definition set_config c r m s :=
  mkServer c r (grants s) (nonces s) (codes s) (nonceKey s) (rl s) (mtr s) m.

(** The stores that are swept, each behind its own lock. *)
Inductive store := KGrants | KNonces | KCodes | KRates.

(** ** What a handler can do *)

Class Ops (F : Type -> Type) := {
  config : F Config;
  registry : F Registry;
  nonce_key : F bytes;
  now : F Z;
  random : nat -> F (option bytes);
  allow_at : bytes -> Z -> Z -> F bool;
  claim : bytes -> Z -> Z -> F bool;
  put_grant : Grant -> list bytes -> F unit;
  is_allowed : bytes -> bytes -> Registry -> Z -> bytes -> F (option Grant);
  list_grants : Z -> F (list Grant);
  revoke : bytes -> bytes -> F bool;
  revoke_token : bytes -> F Z;
  peek : bytes -> Z -> F (option EnrollStore.EnrollCode);
  consume : bytes -> Z -> F (option EnrollStore.EnrollCode);
  put_code : bytes -> EnrollStore.EnrollCode -> F unit;
  count : metric -> F unit;
  counters : F metrics;
  routing : F (option routes);
  out : (Response -> Response) -> F unit }.

Record reqCtx := mkCtx {
  service : bytes;
  ip : bytes;
  uri : bytes;
  svc : ServiceConfig;
  known : bool }.

Definition dummySecret : bytes := replicate 32 x00.

(** On a whole world: the clock and the generator are streams. *)
Section world.
Variables
  (now_at : nat -> Z)
  (rand_at : nat -> nat -> option bytes).

(** An operation that answers a value and updates the server. *)
Definition act {A} (f : Server -> A * Server) : M A := fun w =>
  let '(a, s) := f (srv w) in
  (a, {| srv := s; ticks := ticks w; draws := draws w; resp := resp w |}).

Definition read_clock : M Z := fun w =>
  (now_at (ticks w), {| srv := srv w; ticks := S (ticks w); draws := draws w; resp := resp w |}).

Definition world_ops : Ops M := {|
  config w := (cfg (srv w), w);
  registry w := (reg (srv w), w);
  nonce_key w := (nonceKey (srv w), w);
  now := read_clock;
  random n w := (RandomBytes (rand_at (draws w)) n,
                 {| srv := srv w; ticks := ticks w; draws := S (draws w); resp := resp w |});
  allow_at key limit t := act (fun s => let '(ok, l) := Allow (rl s) key limit t in (ok, set_rl l s));
  claim id t ttl := act (fun s => let '(ok, n) := NonceStore.Claim (nonces s) id t ttl in (ok, set_nonces n s));
  put_grant g old := act (fun s => (tt, set_grants (Put (grants s) (Some g) old) s));
  is_allowed svc ip rg t cookie w := (IsAllowed (grants (srv w)) svc ip (Some rg) t cookie, w);
  list_grants t w := (List (grants (srv w)) t, w);
  revoke svc ip := act (fun s => let '(ok, g) := Revoke (grants s) svc ip in (ok, set_grants g s));
  revoke_token kid := act (fun s => let '(n, g) := RevokeToken (grants s) kid in (n, set_grants g s));
  peek code t w := (EnrollStore.Peek (codes (srv w)) code t, w);
  consume code t := act (fun s => let '(c, e) := EnrollStore.Consume (codes s) code t in (c, set_codes e s));
  put_code code c := act (fun s => (tt, set_codes (EnrollStore.Put (codes s) code c) s));
  count k := act (fun s => (tt, set_mtr (inc (mtr s) k) s));
  counters w := (mtr (srv w), w);
  routing w := (mux (srv w), w);
  out f w := (tt, {| srv := srv w; ticks := ticks w; draws := draws w; resp := f (resp w) |}) |}.
End world.

Section handlers.
Context {F : Type -> Type} `{!MRet F, !MBind F, !Ops F}.
Variable (url_Parse : bytes -> option (bytes * bytes)).

(** The response writer. *)
Definition header (k v : string) : F unit := out (r_set (lit k) (lit v)).
Definition headerb (k : string) (v : bytes) : F unit := out (r_set (lit k) v).

(** [s.rl.Allow(RateKey(service, ip), limit, s.now())] *)
Definition rate_allow (c : reqCtx) (limit : Z) : F bool :=
  t ← now; allow_at (RateKey (service c) (ip c)) limit t.

Definition resolve (r : Request) : F (option reqCtx) :=
  c ← config;
  match ClientIP c r with
  | (Err _, _) => mret None
  | (Ok ip, _) =>
      if bool_decide (ip = []) then mret None
      else
        match resolveTarget url_Parse c r with
        | None => mret None
        | Some (service, uri) =>
            if bool_decide (service = []) then mret None
            else
              let '(sv, known) := Service c service in
              mret (Some {| service := service; ip := ip; uri := uri; svc := sv; known := known |})
        end
  end.

(** ** Denials *)

(** The failure mode of a request: the service's own when it is known. *)
Definition mode_of (c : Config) (x : option reqCtx) : bytes :=
  match x with
  | Some x => if known x then failureMode (svc x) else defaultFailureMode c
  | None => defaultFailureMode c
  end.

Definition interstitial (w : Response) : Response :=
  r_write interstitialHTML (r_status StatusForbidden
    (r_set (lit "Content-Type") (lit "text/html; charset=utf-8")
      (r_set (lit "X-JIT-Access") JITMarker w))).

Definition deny (x : option reqCtx) : F unit :=
  c ← config;
  if bool_decide (mode_of c x = FailStealth) then out r_notfound
  else header "Cache-Control" "no-store";; out interstitial.

Definition knockFail (x : option reqCtx) : F unit := count MKnockFail;; deny x.

Definition authzDeny (x : option reqCtx) : F unit :=
  c ← config;
  header "Cache-Control" "no-store";;
  if bool_decide (mode_of c x = FailStealth) then out (r_status StatusForbidden)
  else out interstitial.

(** ** Challenge *)

Definition handleChallenge (r : Request) : F unit :=
  x ← resolve r;
  match x with
  | None => deny None
  | Some c =>
      if negb (known c) then deny (Some c)
      else if negb (bool_decide (Method r = MethodGet)) then deny (Some c)
      else
        cf ← config;
        ok ← rate_allow c (RateLimit cf);
        if negb ok then knockFail (Some c)
        else
          rnd ← random 16;
          match rnd with
          | None => deny (Some c)
          | Some rnd =>
              ts ← now;
              nk ← nonce_key;
              match IssueNonce nk (u64 ts) rnd (service c) (ip c) (IPv6Prefix cf) with
              | Err _ => deny (Some c)
              | Ok nonce =>
                  headerb "X-JIT-Nonce" (B64u nonce);;
                  headerb "X-JIT-TS" (FormatInt ts);;
                  header "Cache-Control" "no-store";;
                  out (r_status StatusNoContent)
              end
          end
  end.

(** ** Respond: the knock *)

(** [handleRespond] from the successful claim on: mint the grant, and for a
    device-bound one the cookie whose hash it carries. *)
Definition mint (r : Request) (c : reqCtx) (cf : Config) (kid : bytes) (token : Token) (t : Z)
    : F unit :=
  let ttl := grantTTL cf (svc c) in
  let grant hash := {| gV := 1; gKid := kid; gService := service c; gIP := ip c;
    gBinding := binding (svc c); gCookieHash := hash; gIssued := t; gExp := i64 (t + ttl);
    gManual := false; gSecretFP := Fingerprint (Some token) |} in
  let finish g :=
    let oldHash := match RCookie r GrantCookieName with
                   | Some v => if bool_decide (v = []) then [] else CookieHash v
                   | None => []
                   end in
    put_grant g [oldHash];;
    count MKnockOK;;
    header "Cache-Control" "no-store";;
    out (r_status StatusNoContent) in
  if bool_decide (binding (svc c) = BindingIPCookie) then
    idBytes ← random 32;
    match idBytes with
    | None => knockFail (Some c)
    | Some idBytes =>
        let id := B64u idBytes in
        out (r_cookie {| ckName := GrantCookieName; ckValue := id; ckPath := lit "/";
                         ckHttpOnly := true; ckSecure := true; ckSameSiteStrict := true;
                         ckMaxAge := ttl |});;
        finish (grant (CookieHash id))
    end
  else finish (grant []).

Definition handleRespond (r : Request) : F unit :=
  x ← resolve r;
  match x with
  | None => deny None
  | Some c =>
      if negb (known c) then deny (Some c)
      else if negb (bool_decide (Method r = MethodPost)) then deny (Some c)
      else
        cf ← config;
        ok ← rate_allow c (RateLimit cf);
        if negb ok then knockFail (Some c)
        else
          match json_respond 4096 (Body r) with
          | None => knockFail (Some c)
          | Some body =>
              match B64uDecode (rbNonce body), B64uDecode (rbProof body) with
              | Some nonceRaw, Some tag =>
                  if negb (length nonceRaw =? NonceLen)%nat || negb (length tag =? 32)%nat
                  then knockFail (Some c)
                  else
                    t ← now;
                    nk ← nonce_key;
                    match VerifyNonce nk nonceRaw (service c) (ip c) t
                            (NonceTTL cf) (IPv6Prefix cf) with
                    | None => knockFail (Some c)
                    | Some rnd =>
                        rg ← registry;
                        let auth := Authorize (Some rg) (rbKid body) (service c) t in
                        let secret := match auth with Ok tk => Secret tk | Err _ => dummySecret end in
                        let proofOK := VerifyProof secret (service c) (rbKid body) nonceRaw tag in
                        match auth with
                        | Ok token =>
                            if negb proofOK then knockFail (Some c)
                            else
                              first ← claim (B64u rnd) t (NonceTTL cf);
                              if negb first then knockFail (Some c)
                              else mint r c cf (rbKid body) token t
                        | Err _ => knockFail (Some c)
                        end
                    end
              | _, _ => knockFail (Some c)
              end
          end
  end.

(** ** Enroll and register *)

Definition handleEnroll (r : Request) : F unit :=
  x ← resolve r;
  match x with
  | None => deny None
  | Some c =>
      if negb (known c) then deny (Some c)
      else if negb (bool_decide (Method r = MethodPost)) then deny (Some c)
      else
        cf ← config;
        ok ← rate_allow c (RateLimit cf);
        if negb ok then knockFail (Some c)
        else
          match json_enroll 4096 (Body r) with
          | None => deny (Some c)
          | Some code =>
              if bool_decide (code = []) then deny (Some c)
              else
                t1 ← now;
                seen ← peek code t1;
                registered ← match seen with
                             | None => mret None
                             | Some p => rg ← registry; mret (Lookup (Some rg) (EnrollStore.ecKid p))
                             end;
                match registered with
                | None => count MKnockFail;; deny (Some c)
                | Some _ =>
                  t2 ← now;
                  got ← consume code t2;
                  match got with
                  | None => count MKnockFail;; deny (Some c)
                  | Some ec =>
                      rg ← registry;
                      match Lookup (Some rg) (EnrollStore.ecKid ec) with
                      | None => deny (Some c)
                      | Some token =>
                          headerb "X-JIT-Kid" (EnrollStore.ecKid ec);;
                          headerb "X-JIT-Secret" (B64u (Secret token));;
                          headerb "X-JIT-Origins" (Join (EnrollStore.ecOrigins ec) (lit ","));;
                          header "Cache-Control" "no-store";;
                          count MEnrollOK;;
                          out (r_status StatusNoContent)
                      end
                  end
                end
          end
  end.

Definition handleRegister (r : Request) : F unit :=
  x ← resolve r;
  match x with
  | None => deny None
  | Some c =>
      if negb (known c) then deny (Some c)
      else if negb (bool_decide (Method r = MethodGet)) || bool_decide (failureMode (svc c) = FailStealth)
      then deny (Some c)
      else
        header "Content-Type" "text/html; charset=utf-8";;
        header "Cache-Control" "no-store";;
        header "Referrer-Policy" "no-referrer";;
        out (r_status StatusOK);;
        out (r_write RegisterHTML)
  end.

(** ** Forward-auth *)

Definition is_endpoint (p uri : bytes) : bool :=
  bool_decide (uri = p ++ lit "/challenge") || bool_decide (uri = p ++ lit "/respond") ||
  bool_decide (uri = p ++ lit "/enroll") || bool_decide (uri = p ++ lit "/register").

Definition trusted_peer (cf : Config) (r : Request) : bool :=
  match peerAddr r with Some peer => isTrusted cf peer | None => false end.

Definition handleAuthz (r : Request) : F unit :=
  cf0 ← config;
  if negb (trusted_peer cf0 r) then out (r_error (lit "forbidden") StatusForbidden)
  else
    x ← resolve r;
    match x with
    | None => authzDeny None
    | Some c =>
        cf ← config;
        if is_endpoint (URIPrefix cf) (uri c) then out (r_status StatusNoContent)
        else if negb (known c) then authzDeny (Some c)
        else
          let cookie := default [] (RCookie r GrantCookieName) in
          rg ← registry;
          t ← now;
          found ← is_allowed (service c) (ip c) rg t cookie;
          match found with
          | Some g =>
              if bool_decide (binding (svc c) = BindingIPCookie) &&
                 negb (bool_decide (gBinding g = BindingIPCookie))
              then count MDenied;; authzDeny (Some c)
              else
                count MGranted;;
                headerb "X-JIT-Kid" (gKid g);;
                out (r_status StatusNoContent)
          | None => count MDenied;; authzDeny (Some c)
          end
    end.

End handlers.

(** ** The background sweep and reload *)

(** The sweeps of one tick, at the time it read. *)
Definition sweeps (t : Z) (s : Server) : Server :=
  set_rl (RateLimit.Sweep (rl s) t).2
    (set_codes (EnrollStore.Sweep (codes s) t).2
      (set_nonces (NonceStore.Sweep (nonces s) t).2
        (set_grants (Store.Sweep (grants s) t).2 s))).

Definition sweep_tick (now_at : nat -> Z) : M unit :=
  t ← read_clock now_at; act (fun s => (tt, sweeps t s)).

Inductive reload_err :=
| RRegistry (e : config_err)
| RListen
| RAdminListen.

Definition reload (c : Config) (s : Server) : result reload_err unit * Server :=
  match MakeRegistry c with
  | Err e => (Err (RRegistry e), s)
  | Ok rg =>
      if negb (bool_decide (Listen c = Listen (cfg s))) then (Err RListen, s)
      else if negb (bool_decide (AdminListen c = AdminListen (cfg s))) then (Err RAdminListen, s)
      else (Ok tt, set_config c rg (Some (buildMuxLocked c)) s)
  end.

Definition Reload (c : Config) : M (result reload_err unit) := act (reload c).

Definition NewServer (c : Config) (draw : nat -> option bytes) : option Server :=
  match MakeRegistry c with
  | Err _ => None
  | Ok rg =>
      nk ← RandomBytes draw 32;
      Some {| cfg := c; reg := rg; grants := NewGrantStore; nonces := NonceStore.NewNonceStore;
              codes := EnrollStore.NewEnrollStore; nonceKey := nk;
              rl := NewRateLimiter DefaultRateLimitEntries; mtr := mkMetrics 0 0 0 0 0;
              mux := None |}
  end.

(** ** Handlers on a world *)

(** [mbind] runs the first operation; these run the operations themselves. *)
Section run.
Variables
  (now_at : nat -> Z)
  (rand_at : nat -> nat -> option bytes).
#[local] Notation ops := (world_ops now_at rand_at).

Lemma config_run w : config (Ops := ops) w = (cfg (srv w), w).
Proof. done. Qed.
Lemma registry_run w : registry (Ops := ops) w = (reg (srv w), w).
Proof. done. Qed.
Lemma nonce_key_run w : nonce_key (Ops := ops) w = (nonceKey (srv w), w).
Proof. done. Qed.
Lemma now_run w : now (Ops := ops) w =
  (now_at (ticks w), {| srv := srv w; ticks := S (ticks w); draws := draws w; resp := resp w |}).
Proof. done. Qed.
Lemma random_run n w : random (Ops := ops) n w =
  (RandomBytes (rand_at (draws w)) n,
   {| srv := srv w; ticks := ticks w; draws := S (draws w); resp := resp w |}).
Proof. done. Qed.
Lemma is_allowed_run svc ip rg t cookie w : is_allowed (Ops := ops) svc ip rg t cookie w =
  (IsAllowed (grants (srv w)) svc ip (Some rg) t cookie, w).
Proof. done. Qed.
Lemma list_grants_run t w : list_grants (Ops := ops) t w = (List (grants (srv w)) t, w).
Proof. done. Qed.
Lemma peek_run code t w : peek (Ops := ops) code t w = (EnrollStore.Peek (codes (srv w)) code t, w).
Proof. done. Qed.
Lemma counters_run w : counters (Ops := ops) w = (mtr (srv w), w).
Proof. done. Qed.
Lemma routing_run w : routing (Ops := ops) w = (mux (srv w), w).
Proof. done. Qed.
Lemma count_run k w : count (Ops := ops) k w = (tt, with_srv (fun s => set_mtr (inc (mtr s) k) s) w).
Proof. done. Qed.
Lemma put_grant_run g old w : put_grant (Ops := ops) g old w =
  (tt, with_srv (fun s => set_grants (Put (grants s) (Some g) old) s) w).
Proof. done. Qed.
Lemma put_code_run code c w : put_code (Ops := ops) code c w =
  (tt, with_srv (fun s => set_codes (EnrollStore.Put (codes s) code c) s) w).
Proof. done. Qed.
Lemma allow_run key limit t w : allow_at (Ops := ops) key limit t w =
  (let '(ok, l) := Allow (rl (srv w)) key limit t in (ok, with_srv (set_rl l) w)).
Proof. unfold allow_at, world_ops, act. by destruct (Allow _ _ _ _). Qed.
Lemma claim_run id t ttl w : claim (Ops := ops) id t ttl w =
  (let '(ok, n) := NonceStore.Claim (nonces (srv w)) id t ttl in (ok, with_srv (set_nonces n) w)).
Proof. unfold claim, world_ops, act. by destruct (NonceStore.Claim _ _ _ _). Qed.
Lemma consume_run code t w : consume (Ops := ops) code t w =
  (let '(c, e) := EnrollStore.Consume (codes (srv w)) code t in (c, with_srv (set_codes e) w)).
Proof. unfold consume, world_ops, act. by destruct (EnrollStore.Consume _ _ _). Qed.
Lemma revoke_run svc ip w : revoke (Ops := ops) svc ip w =
  (let '(ok, g) := Revoke (grants (srv w)) svc ip in (ok, with_srv (set_grants g) w)).
Proof. unfold revoke, world_ops, act. by destruct (Revoke _ _ _). Qed.
Lemma revoke_token_run kid w : revoke_token (Ops := ops) kid w =
  (let '(n, g) := RevokeToken (grants (srv w)) kid in (n, with_srv (set_grants g) w)).
Proof. unfold revoke_token, world_ops, act. by destruct (RevokeToken _ _). Qed.
Lemma out_run f w : out (Ops := ops) f w =
  (tt, {| srv := srv w; ticks := ticks w; draws := draws w; resp := f (resp w) |}).
Proof. done. Qed.
End run.

(** Run a handler up to the next operation that depends on a case. *)
Ltac ops_run := cbv beta iota;
  repeat (first
    [ rewrite ST_bind_run | rewrite ST_ret_run | rewrite config_run | rewrite registry_run | rewrite nonce_key_run | rewrite now_run
    | rewrite is_allowed_run | rewrite list_grants_run | rewrite peek_run
    | rewrite counters_run | rewrite routing_run ]; cbv beta iota).

(** Run a tail of operations that depends on no case any more. *)
Ltac ops_all := st_run;
  unfold config, registry, nonce_key, now, is_allowed, list_grants, peek, counters, routing, random,
    count, put_grant, put_code, out, world_ops, read_clock, act; cbv beta iota.
