(* ===== verification/Admin.v ===== *)
(** * Admin: the admin API and the dispatch of requests
    ([authorizer/admin.go], [Handler] and [AdminHandler] of
    [authorizer/server.go]). *)

From S2P Require Import Prelude GoStrings Json Wire Base64 Crypto ServerName CanonIP NetIP Registry RateLimit.
From S2P Require Import Store Http Config GoPath RealIP Server.
From S2P Require NonceStore EnrollStore.
Import strings netip.

Definition jfield (k : string) (v : json) : bytes * json := (lit k, v).

(** The JSON form of a grant: [SecretFP] is tagged ["-"] and never appears. *)
Definition json_grant (g : Grant) : json :=
  JObj ([jfield "v" (JInt (gV g)); jfield "kid" (JStr (gKid g));
         jfield "service" (JStr (gService g)); jfield "ip" (JStr (gIP g));
         jfield "binding" (JStr (gBinding g))] ++
        (if bool_decide (gCookieHash g = []) then [] else [jfield "cookie_hash" (JStr (gCookieHash g))]) ++
        [jfield "issued" (JInt (gIssued g)); jfield "exp" (JInt (gExp g))] ++
        (if gManual g then [jfield "manual" (JBool true)] else [])).

Definition manual_kid : bytes := Eval vm_compute in lit "__manual__".

Section admin.
Context {F : Type -> Type} `{!MRet F, !MBind F, !Ops F}.

Definition writeJSON (code : Z) (v : json) : F unit :=
  header "Content-Type" "application/json";;
  out (r_status code);;
  out (r_write (Encode v)).

Definition bad_request (msg : string) : F unit :=
  writeJSON StatusBadRequest (JMap [jfield "error" (JStr (lit msg))]).

(** [None]: the response has been written. *)
Definition decodeJSON {A} (dec : Z -> bytes -> option A) (r : Request) : F (option A) :=
  if negb (bool_decide (Method r = MethodPost)) then
    out (r_error (lit "POST required") StatusMethodNotAllowed);; mret None
  else
    match dec 65536 (Body r) with
    | None => bad_request "bad json";; mret None
    | Some a => mret (Some a)
    end.

Definition adminGrants : F unit :=
  t ← now;
  list ← list_grants t;
  writeJSON StatusOK (JMap [jfield "count" (JInt (Z.of_nat (length list)));
                            jfield "grants" (JArr (map json_grant list))]).

Definition adminGrant (r : Request) : F unit :=
  b ← decodeJSON json_grantBody r;
  match b with
  | None => mret tt
  | Some body =>
      cf ← config;
      let service := CanonServerName (gbService body) in
      match CanonIP (gbIP body) (IPv6Prefix cf) 32 with
      | Err _ => bad_request "service and valid ip required"
      | Ok ip =>
          if bool_decide (service = []) then bad_request "service and valid ip required"
          else
            let ttl := if gbTTL body <=? 0 then GrantTTL cf else gbTTL body in
            let manual := bool_decide (gbKid body = []) in
            let kid := if manual then manual_kid else gbKid body in
            t ← now;
            rg ← registry;
            let g := {| gV := 1; gKid := kid; gService := service; gIP := ip; gBinding := BindingIP;
                        gCookieHash := []; gIssued := t; gExp := i64 (t + ttl); gManual := manual;
                        gSecretFP := Fingerprint (Lookup (Some rg) kid) |} in
            put_grant g [];;
            writeJSON StatusOK (JMap [jfield "granted" (JBool true); jfield "service" (JStr service);
                                      jfield "ip" (JStr ip); jfield "exp" (JInt (gExp g))])
      end
  end.

Definition adminRevoke (r : Request) : F unit :=
  b ← decodeJSON json_revokeBody r;
  match b with
  | None => mret tt
  | Some body =>
      cf ← config;
      let service := CanonServerName (rvService body) in
      match CanonIP (rvIP body) (IPv6Prefix cf) 32 with
      | Err _ => bad_request "service and valid ip required"
      | Ok ip =>
          if bool_decide (service = []) then bad_request "service and valid ip required"
          else
            removed ← revoke service ip;
            writeJSON StatusOK (JMap [jfield "revoked" (JBool removed)])
      end
  end.

Definition adminRevokeToken (r : Request) : F unit :=
  b ← decodeJSON json_kidBody r;
  match b with
  | None => mret tt
  | Some kid =>
      if bool_decide (kid = []) then bad_request "kid required"
      else
        n ← revoke_token kid;
        writeJSON StatusOK (JMap [jfield "revoked_token" (JStr kid); jfield "grants_removed" (JInt n)])
  end.

Definition clamp_code_ttl (cf : Config) (ttl : Z) : Z :=
  let ttl := if ttl <=? 0 then EnrollTTL cf else ttl in
  let ttl := if ttl <? 300 then 300 else ttl in
  if 604800 <? ttl then 604800 else ttl.

Definition adminEnrollCode (r : Request) : F unit :=
  b ← decodeJSON json_codeBody r;
  match b with
  | None => mret tt
  | Some body =>
      rg ← registry;
      match Lookup (Some rg) (cbKid body) with
      | None => bad_request "known kid required"
      | Some _ =>
          cf ← config;
          let ttl := clamp_code_ttl cf (cbTTL body) in
          rnd ← random 12;
          match rnd with
          | None => writeJSON StatusInternalServerError (JMap [jfield "error" (JStr (lit "rng"))])
          | Some rnd =>
              let code := B64u rnd in
              t ← now;
              put_code code {| EnrollStore.ecKid := cbKid body; EnrollStore.ecOrigins := slice_list (cbOrigins body);
                               EnrollStore.ecExp := i64 (t + ttl) |};;
              let base := TrimRight (cbServer body) (lit "/") in
              let u := base ++ URIPrefix cf ++ lit "/register?code=" ++ code in
              let u := if (0 <? length (slice_list (cbOrigins body)))%nat
                       then u ++ lit "&origins=" ++ Join (slice_list (cbOrigins body)) (lit ",") else u in
              writeJSON StatusOK (JMap (
                [jfield "code" (JStr code); jfield "kid" (JStr (cbKid body)); jfield "ttl" (JInt ttl);
                 jfield "origins" (json_slice JStr (cbOrigins body))] ++
                (if HasPrefix (cbServer body) (lit "https://") then [jfield "register_url" (JStr u)] else [])))
          end
      end
  end.

(** Past the peer and bearer checks. *)
Definition admin_ok (cf : Config) (r : Request) : bool :=
  trusted_peer cf r && negb (bool_decide (AdminToken cf = [])) &&
  bool_decide (TrimPrefix (HGet (RHeader r) (lit "Authorization")) (lit "Bearer ") = AdminToken cf).

Definition handleAdmin (r : Request) : F unit :=
  cf ← config;
  if negb (trusted_peer cf r) then out (r_error (lit "forbidden") StatusForbidden)
  else if bool_decide (AdminToken cf = []) then
    out (r_error (lit "admin API disabled (no admin_token configured)") StatusForbidden)
  else if negb (bool_decide (TrimPrefix (HGet (RHeader r) (lit "Authorization")) (lit "Bearer ") = AdminToken cf))
  then out (r_error (lit "unauthorized") StatusUnauthorized)
  else
    let p := URLPath r in
    if bool_decide (p = lit "/admin/grants") then adminGrants
    else if bool_decide (p = lit "/admin/grant") then adminGrant r
    else if bool_decide (p = lit "/admin/revoke") then adminRevoke r
    else if bool_decide (p = lit "/admin/revoke-token") then adminRevokeToken r
    else if bool_decide (p = lit "/admin/enroll-code") then adminEnrollCode r
    else if bool_decide (p = lit "/admin/metrics") then
      m ← counters;
      writeJSON StatusOK (JMap (map (fun kv => (kv.1, JInt kv.2)) (snapshot m)))
    else out r_notfound.
End admin.

(** ** Dispatch *)

Section dispatch.
Context {F : Type -> Type} `{!MRet F, !MBind F, !Ops F}.
Variable (url_Parse : bytes -> option (bytes * bytes)).

Definition run_handler (h : handler) (r : Request) : F unit :=
  match h with
  | HChallenge => handleChallenge url_Parse r
  | HRespond => handleRespond url_Parse r
  | HEnroll => handleEnroll url_Parse r
  | HRegister => handleRegister url_Parse r
  | HAuthz => handleAuthz url_Parse r
  | HHealthz => out (r_status StatusNoContent)
  | HAdmin => handleAdmin r
  | HNotFound => out r_notfound
  end.

Definition dispatch (rs : routes) (r : Request) : F unit :=
  match ServeMux rs (EscapedPath r) with
  | Routed h => run_handler h r
  | Redirected => out (r_status StatusTemporaryRedirect)
  end.

(** One request on the main listener. *)
Definition Handler (r : Request) : F unit :=
  if muxWouldRedirect (URLPath r) then out r_notfound
  else
    h ← routing;
    match h with
    | Some rs => dispatch rs r
    | None => mret tt
    end.

(** One request on the admin listener, when there is one. *)
Definition AdminHandler (r : Request) : F unit :=
  cf ← config;
  if bool_decide (AdminListen cf = []) then mret tt else dispatch adminMux r.
End dispatch.
