(* ===== verification/Prog.v ===== *)
(** * Prog: handlers as programs.

    The operations of [Ops] as data, so that a handler of the Authorizer can be
    read as a program of [Threads].  The handlers of [Server] and [Admin], as
    programs, run on a world to exactly what they do there directly ([Handler_prog]). *)

From S2P Require Import Prelude GoStrings Json Wire Crypto ServerName CanonIP NetIP Registry RateLimit.
From S2P Require Import Store Http Threads Config GoPath RealIP Server Admin.
From S2P Require NonceStore EnrollStore.
Import strings netip.

Inductive op : Type -> Type :=
| OConfig : op Config
| ORegistry : op Registry
| ONonceKey : op bytes
| ONow : op Z
| ORandom (n : nat) : op (option bytes)
| OAllow (key : bytes) (limit t : Z) : op bool
| OClaim (id : bytes) (t ttl : Z) : op bool
| OPut (g : Grant) (old : list bytes) : op unit
| OIsAllowed (svc ip : bytes) (rg : Registry) (t : Z) (cookie : bytes) : op (option Grant)
| OList (t : Z) : op (list Grant)
| ORevoke (svc ip : bytes) : op bool
| ORevokeToken (kid : bytes) : op Z
| OPeek (code : bytes) (t : Z) : op (option EnrollStore.EnrollCode)
| OConsume (code : bytes) (t : Z) : op (option EnrollStore.EnrollCode)
| OPutCode (code : bytes) (c : EnrollStore.EnrollCode) : op unit
| OCount (k : metric) : op unit
| OCounters : op metrics
| ORouting : op (option routes)
| OOut (f : Response -> Response) : op unit.

#[export] Instance prog_ops : Ops (prog op) := {|
  config := Vis OConfig Ret;
  registry := Vis ORegistry Ret;
  nonce_key := Vis ONonceKey Ret;
  now := Vis ONow Ret;
  random n := Vis (ORandom n) Ret;
  allow_at key limit t := Vis (OAllow key limit t) Ret;
  claim id t ttl := Vis (OClaim id t ttl) Ret;
  put_grant g old := Vis (OPut g old) Ret;
  is_allowed svc ip rg t cookie := Vis (OIsAllowed svc ip rg t cookie) Ret;
  list_grants t := Vis (OList t) Ret;
  revoke svc ip := Vis (ORevoke svc ip) Ret;
  revoke_token kid := Vis (ORevokeToken kid) Ret;
  peek code t := Vis (OPeek code t) Ret;
  consume code t := Vis (OConsume code t) Ret;
  put_code code c := Vis (OPutCode code c) Ret;
  count k := Vis (OCount k) Ret;
  counters := Vis OCounters Ret;
  routing := Vis ORouting Ret;
  out f := Vis (OOut f) Ret |}.

(** One operation, in a monad that has it. *)
Definition perform {F} `{!Ops F} {B} (o : op B) : F B :=
  match o with
  | OConfig => config
  | ORegistry => registry
  | ONonceKey => nonce_key
  | ONow => now
  | ORandom n => random n
  | OAllow key limit t => allow_at key limit t
  | OClaim id t ttl => claim id t ttl
  | OPut g old => put_grant g old
  | OIsAllowed svc ip rg t cookie => is_allowed svc ip rg t cookie
  | OList t => list_grants t
  | ORevoke svc ip => revoke svc ip
  | ORevokeToken kid => revoke_token kid
  | OPeek code t => peek code t
  | OConsume code t => consume code t
  | OPutCode code c => put_code code c
  | OCount k => count k
  | OCounters => counters
  | ORouting => routing
  | OOut f => out f
  end.

(** ** Programs and actions on a world *)

Section sim.
Variables
  (now_at : nat -> Z)
  (rand_at : nat -> nat -> option bytes)
  (url_Parse : bytes -> option (bytes * bytes)).
#[local] Instance ops : Ops M := world_ops now_at rand_at.

Notation runs_to := (runs_to (@perform M ops)).

Lemma resolve_runs r : runs_to (resolve url_Parse r) (resolve url_Parse r).
Proof. unfold resolve. running. Qed.
Lemma deny_runs x : runs_to (deny x) (deny x).
Proof. unfold deny. running. Qed.
Lemma authzDeny_runs x : runs_to (authzDeny x) (authzDeny x).
Proof. unfold authzDeny. running. Qed.
#[local] Hint Resolve resolve_runs deny_runs authzDeny_runs : runs.
Lemma knockFail_runs x : runs_to (knockFail x) (knockFail x).
Proof. unfold knockFail. running. Qed.
Lemma rate_allow_runs c limit : runs_to (rate_allow c limit) (rate_allow c limit).
Proof. unfold rate_allow. running. Qed.
#[local] Hint Resolve knockFail_runs rate_allow_runs : runs.

Lemma mint_runs r c cf kid token t : runs_to (mint r c cf kid token t) (mint r c cf kid token t).
Proof. unfold mint. cbv zeta. running. Qed.
#[local] Hint Resolve mint_runs : runs.

Lemma challenge_runs r : runs_to (handleChallenge url_Parse r) (handleChallenge url_Parse r).
Proof. unfold handleChallenge. running. Qed.
Lemma respond_runs r : runs_to (handleRespond url_Parse r) (handleRespond url_Parse r).
Proof. unfold handleRespond. cbv zeta. running. Qed.
Lemma enroll_runs r : runs_to (handleEnroll url_Parse r) (handleEnroll url_Parse r).
Proof. unfold handleEnroll. running. Qed.
Lemma register_runs r : runs_to (handleRegister url_Parse r) (handleRegister url_Parse r).
Proof. unfold handleRegister. running. Qed.
Lemma authz_runs r : runs_to (handleAuthz url_Parse r) (handleAuthz url_Parse r).
Proof. unfold handleAuthz. cbv zeta. running. Qed.

Lemma writeJSON_runs code v : runs_to (writeJSON code v) (writeJSON code v).
Proof. unfold writeJSON. running. Qed.
#[local] Hint Resolve writeJSON_runs : runs.
Lemma bad_request_runs msg : runs_to (bad_request msg) (bad_request msg).
Proof. unfold bad_request. running. Qed.
#[local] Hint Resolve bad_request_runs : runs.
Lemma decodeJSON_runs {A} (dec : Z -> bytes -> option A) r : runs_to (decodeJSON dec r) (decodeJSON dec r).
Proof. unfold decodeJSON. running. Qed.
#[local] Hint Resolve decodeJSON_runs : runs.

Lemma admin_runs r : runs_to (handleAdmin r) (handleAdmin r).
Proof.
  unfold handleAdmin, adminGrants, adminGrant, adminRevoke, adminRevokeToken, adminEnrollCode.
  cbv zeta. running.
Qed.
#[local] Hint Resolve challenge_runs respond_runs enroll_runs register_runs authz_runs admin_runs : runs.

Lemma dispatch_runs rs r : runs_to (dispatch url_Parse rs r) (dispatch url_Parse rs r).
Proof. unfold dispatch, run_handler. running. Qed.
#[local] Hint Resolve dispatch_runs : runs.

(** A request as a program is the request as it is on a world. *)
Lemma Handler_prog r : runs_to (Handler url_Parse r) (Handler url_Parse r).
Proof. unfold Handler. running. Qed.

Lemma AdminHandler_prog r : runs_to (AdminHandler url_Parse r) (AdminHandler url_Parse r).
Proof. unfold AdminHandler. running. Qed.
End sim.
