(* ===== verification/App.v ===== *)
(** * App: the Authorizer as a whole.

    The environment of a run, the dispatch of requests on the two listeners,
    what each protocol handler does on every path, and the runs of the server. *)

From S2P Require Import Prelude GoStrings Json Wire Base64 Sha256 Crypto ServerName CanonIP NetIP Registry RateLimit.
From S2P Require Import Store StoreHistory Http Config GoPath RealIP Pages Server Admin.
From S2P Require NonceStore EnrollStore.
Import strings netip.

Record Env := {
  now_at : nat -> Z;
  rand_at : nat -> nat -> option bytes;
  url_Parse : bytes -> option (bytes * bytes) }.

#[local] Opaque r_set r_write r_status r_cookie r_error r_notfound FormatInt.

Section app.
Variable (E : Env).

(** The handlers run on a world. *)
Notation ops := (world_ops (now_at E) (rand_at E)).

Definition challenge : Request -> M unit := handleChallenge (Ops0 := ops) (url_Parse E).
Definition respond : Request -> M unit := handleRespond (Ops0 := ops) (url_Parse E).
Definition enroll : Request -> M unit := handleEnroll (Ops0 := ops) (url_Parse E).
Definition register : Request -> M unit := handleRegister (Ops0 := ops) (url_Parse E).
Definition authz : Request -> M unit := handleAuthz (Ops0 := ops) (url_Parse E).
Definition admin : Request -> M unit := handleAdmin (Ops0 := ops).
Definition run_handler : handler -> Request -> M unit := run_handler (Ops0 := ops) (url_Parse E).
Definition dispatch : routes -> Request -> M unit := dispatch (Ops0 := ops) (url_Parse E).
Definition Handler : Request -> M unit := Handler (Ops0 := ops) (url_Parse E).
Definition AdminHandler : Request -> M unit := AdminHandler (Ops0 := ops) (url_Parse E).

Lemma run_handler_eq h r : run_handler h r =
  match h with
  | HChallenge => challenge r
  | HRespond => respond r
  | HEnroll => enroll r
  | HRegister => register r
  | HAuthz => authz r
  | HHealthz => Server.out (Ops := ops) (r_status StatusNoContent)
  | HAdmin => admin r
  | HNotFound => Server.out (Ops := ops) r_notfound
  end.
Proof. by destruct h. Qed.

(** [s.Handler()]: build the table if there is none yet. *)
Definition Handler_init (s : Server) : Server :=
  match mux s with None => set_mux (Some (buildMuxLocked (cfg s))) s | Some _ => s end.

Notation out := (Server.out (Ops := ops)).
Notation deny := (Server.deny (Ops0 := ops)).
Notation knockFail := (Server.knockFail (Ops0 := ops)).
Notation authzDeny := (Server.authzDeny (Ops0 := ops)).
Notation rate_allow := (Server.rate_allow (Ops0 := ops)).
Notation resolve := (Server.resolve (Ops0 := ops) (url_Parse E)).

(** ** Handlers as functions of the world *)

(** The context [resolve] computes. *)
Definition ctx_of (c : Config) (r : Request) : option reqCtx :=
  match ClientIP c r with
  | (Err _, _) => None
  | (Ok ip, _) =>
      if bool_decide (ip = []) then None
      else
        match resolveTarget (url_Parse E) c r with
        | None => None
        | Some (service, uri) =>
            if bool_decide (service = []) then None
            else Some {| service := service; ip := ip; uri := uri;
                         svc := (Service c service).1; known := (Service c service).2 |}
        end
  end.

Lemma resolve_eq r w : resolve r w = (ctx_of (cfg (srv w)) r, w).
Proof.
  unfold Server.resolve, ctx_of. ops_run.
  destruct (ClientIP (cfg (srv w)) r) as [[ip|e] b]; [|done].
  destruct (bool_decide (ip = [])); [done|].
  destruct (resolveTarget (url_Parse E) (cfg (srv w)) r) as [[sv u]|]; [|done].
  destruct (bool_decide (sv = [])); [done|].
  by destruct (Service (cfg (srv w)) sv).
Qed.

Definition set_resp (f : Response -> Response) (w : World) : World :=
  {| srv := srv w; ticks := ticks w; draws := draws w; resp := f (resp w) |}.

Lemma out_eq f w : out f w = (tt, set_resp f w).
Proof. done. Qed.

(** Run the writes to the response. *)
Ltac st_out := repeat (rewrite out_eq; cbv beta iota).

Lemma Handler_eq r w :
  Handler r w =
    if muxWouldRedirect (URLPath r) then (tt, set_resp r_notfound w)
    else match mux (srv w) with Some rs => dispatch rs r w | None => (tt, w) end.
Proof.
  unfold Handler, Admin.Handler, dispatch. destruct (muxWouldRedirect _); [done|]. ops_run.
  by destruct (mux (srv w)).
Qed.

Lemma AdminHandler_eq r w :
  AdminHandler r w =
    if bool_decide (AdminListen (cfg (srv w)) = []) then (tt, w) else dispatch adminMux r w.
Proof. unfold AdminHandler, Admin.AdminHandler. ops_run. by destruct (bool_decide _). Qed.

(** The one denial of a context: a function of the configuration and the
    service, not of the reason. *)
Definition denial (c : Config) (x : option reqCtx) (w : Response) : Response :=
  if bool_decide (mode_of c x = FailStealth) then r_notfound w
  else interstitial (r_set (lit "Cache-Control") (lit "no-store") w).

Lemma deny_eq x w :
  deny x w = (tt, set_resp (denial (cfg (srv w)) x) w).
Proof.
  unfold Server.deny, denial, header, set_resp. ops_run.
  by destruct (bool_decide (mode_of (cfg (srv w)) x = FailStealth)).
Qed.

Definition bump (k : metric) (w : World) : World :=
  with_srv (fun s => set_mtr (inc (mtr s) k) s) w.

Lemma knockFail_eq x w :
  knockFail x w =
    (tt, set_resp (denial (cfg (srv w)) x) (bump MKnockFail w)).
Proof. unfold Server.knockFail. bind_run. by rewrite count_run, deny_eq. Qed.

(** The denial of a forward-auth subrequest. *)
Definition authz_denial (c : Config) (x : option reqCtx) (w : Response) : Response :=
  let w := r_set (lit "Cache-Control") (lit "no-store") w in
  if bool_decide (mode_of c x = FailStealth) then r_status StatusForbidden w
  else interstitial w.

Lemma authzDeny_eq x w :
  authzDeny x w = (tt, set_resp (authz_denial (cfg (srv w)) x) w).
Proof.
  unfold Server.authzDeny, authz_denial, header, set_resp. ops_run.
  by destruct (bool_decide (mode_of (cfg (srv w)) x = FailStealth)).
Qed.

(** The world after the rate limiter has been asked, and its answer. *)
Definition rated (c : reqCtx) (limit : Z) (w : World) : bool * World :=
  let r := Allow (rl (srv w)) (RateKey (service c) (ip c)) limit (now_at E (ticks w)) in
  (r.1, {| srv := set_rl r.2 (srv w); ticks := S (ticks w); draws := draws w; resp := resp w |}).

Lemma rate_allow_eq c limit w : rate_allow c limit w = rated c limit w.
Proof.
  unfold Server.rate_allow, rated. ops_run. rewrite allow_run. unfold with_srv. cbn [srv ticks draws resp].
  by destruct (Allow _ _ _ _).
Qed.

(** ** What a rejected request leaves untouched *)

Record kept (w w' : World) : Prop := {
  kept_cfg : cfg (srv w') = cfg (srv w);
  kept_reg : reg (srv w') = reg (srv w);
  kept_key : nonceKey (srv w') = nonceKey (srv w);
  kept_mux : mux (srv w') = mux (srv w);
  kept_codes : codes (srv w') = codes (srv w);
  kept_grants : grants (srv w') = grants (srv w) }.

Record rejected (w : World) (r : Request) (w' : World) : Prop := {
  rej_kept : kept w w';
  rej_nonces : nonces (srv w') = nonces (srv w);
  rej_resp : resp w' = denial (cfg (srv w)) (ctx_of (cfg (srv w)) r) (resp w) }.

(** *** The knock *)

(** The nonce a knock presents. *)
Definition knock_nonce (r : Request) : option bytes :=
  body ← json_respond 4096 (Body r); B64uDecode (rbNonce body).

(** Everything [handleRespond] checks, for the request [r] in the world [w]:
    [c] is the resolved context, [t] the time of the checks. *)
Record knock_ok (w : World) (r : Request) (c : reqCtx) (kid : bytes) (token : Token)
    (rnd : bytes) (t : Z) : Prop := {
  ko_ctx : ctx_of (cfg (srv w)) r = Some c;
  ko_known : known c = true;
  ko_method : Method r = MethodPost;
  ko_rate : (rated c (RateLimit (cfg (srv w))) w).1 = true;
  ko_time : t = now_at E (S (ticks w));
  ko_proof : exists body nonceRaw tag,
    json_respond 4096 (Body r) = Some body /\ rbKid body = kid /\
    B64uDecode (rbNonce body) = Some nonceRaw /\ B64uDecode (rbProof body) = Some tag /\
    length nonceRaw = NonceLen /\ length tag = 32%nat /\
    VerifyNonce (nonceKey (srv w)) nonceRaw (service c) (ip c) t
      (NonceTTL (cfg (srv w))) (IPv6Prefix (cfg (srv w))) = Some rnd /\
    VerifyProof (Secret token) (service c) kid nonceRaw tag = true;
  ko_auth : Authorize (Some (reg (srv w))) kid (service c) t = Ok token;
  ko_claim : (NonceStore.Claim (nonces (srv w)) (B64u rnd) t (NonceTTL (cfg (srv w)))).1 = true }.

(** The world in which the grant is minted: rate counted, nonce burnt. *)
Definition claimed (c : reqCtx) (rnd : bytes) (t : Z) (w : World) : World :=
  let w1 := (rated c (RateLimit (cfg (srv w))) w).2 in
  {| srv := set_nonces (NonceStore.Claim (nonces (srv w)) (B64u rnd) t (NonceTTL (cfg (srv w)))).2 (srv w1);
     ticks := S (ticks w1); draws := draws w1; resp := resp w1 |}.

Notation mint := (Server.mint (Ops0 := ops)).

Lemma respond_accept w r c kid token rnd t :
  knock_ok w r c kid token rnd t ->
  respond r w = mint r c (cfg (srv w)) kid token t (claimed c rnd t w).
Proof.
  intros [Hctx Hk Hm Hr Ht (body & n & tag & Hj & <- & Hn & Hp & Hln & Hlt & Hv & Hvp) Ha Hc].
  unfold respond, handleRespond. bind_run.
  rewrite resolve_eq, Hctx, Hk, Hm, bool_decide_eq_true_2 by done. cbn [negb]. ops_run.
  rewrite rate_allow_eq. destruct (rated c _ w) as [ok w1] eqn:Er. cbn [fst] in Hr. subst ok.
  unfold rated in Er. injection Er as _ <-. cbn [negb].
  rewrite Hj, Hn, Hp, Hln, Hlt, !Nat.eqb_refl. cbn [negb orb]. ops_run. cbn [srv ticks set_rl nonceKey].
  rewrite <- Ht. rewrite Hv. ops_run. cbn [reg srv set_rl]. rewrite Ha, Hvp. cbn [negb].
  ops_run. rewrite claim_run. unfold claimed, rated, with_srv. cbn [srv nonces set_rl snd ticks draws resp].
  destruct (NonceStore.Claim _ _ _ _) as [ok n']. cbn [fst] in Hc. subst ok. done.
Qed.

Lemma rated_kept c limit w : kept w (rated c limit w).2.
Proof. by split. Qed.

Lemma deny_rejected w w' r x :
  ctx_of (cfg (srv w)) r = x -> kept w w' -> nonces (srv w') = nonces (srv w) ->
  resp w' = resp w ->
  rejected w r (deny x w').2.
Proof.
  intros Hx [Hc] Hn Hr. rewrite deny_eq. split; [by split|done|].
  cbn [snd set_resp resp]. by rewrite Hr, Hx, Hc.
Qed.

Lemma knockFail_rejected w w' r x :
  ctx_of (cfg (srv w)) r = x -> kept w w' -> nonces (srv w') = nonces (srv w) ->
  resp w' = resp w ->
  rejected w r (knockFail x w').2.
Proof.
  intros Hx [Hc] Hn Hr. rewrite knockFail_eq. split; [by split|done|].
  cbn [snd set_resp resp bump with_srv srv cfg]. by rewrite Hr, Hx, Hc.
Qed.

Lemma respond_cases w r :
  (exists c kid token rnd t, knock_ok w r c kid token rnd t) \/ rejected w r (respond r w).2.
Proof.
  unfold respond, handleRespond. bind_run. rewrite resolve_eq.
  destruct (ctx_of (cfg (srv w)) r) as [c|] eqn:Hctx; [|right; by apply deny_rejected].
  destruct (known c) eqn:Hk; cbn [negb]; [|right; by apply deny_rejected].
  destruct (bool_decide (Method r = MethodPost)) eqn:Hm; cbn [negb]; [|right; by apply deny_rejected].
  ops_run. rewrite rate_allow_eq. destruct (rated c _ w) as [ok w1] eqn:Er.
  destruct ok; cbn [negb].
  2: { right. unfold rated in Er. injection Er as _ <-. by apply knockFail_rejected. }
  assert (Hr : (rated c (RateLimit (cfg (srv w))) w).1 = true) by (by rewrite Er).
  unfold rated in Er. injection Er as _ <-. cbn [srv set_rl nonceKey nonces reg ticks draws resp].
  destruct (json_respond 4096 (Body r)) as [body|] eqn:Hj; [|right; by apply knockFail_rejected].
  destruct (B64uDecode (rbNonce body)) as [n|] eqn:Hn; [|right; by apply knockFail_rejected].
  destruct (B64uDecode (rbProof body)) as [tag|] eqn:Hp; [|right; by apply knockFail_rejected].
  destruct (_ || _) eqn:Hl; [right; by apply knockFail_rejected|]. ops_run. cbn [srv set_rl nonceKey ticks draws resp].
  destruct (VerifyNonce _ _ _ _ _ _ _) as [rnd|] eqn:Hv; [|right; by apply knockFail_rejected].
  ops_run. cbn [srv set_rl reg].
  destruct (Authorize _ _ _ _) as [token|e] eqn:Ha; [|right; by apply knockFail_rejected].
  destruct (VerifyProof _ _ _ _ _) eqn:Hvp; cbn [negb]; [|right; by apply knockFail_rejected].
  bind_run. rewrite claim_run. cbn [srv set_rl nonces].
  destruct (NonceStore.Claim _ _ _ _) as [ok nn] eqn:Hc. destruct ok; cbn [negb].
  - left. bool_prop. apply Nat.eqb_eq in H, H0.
    exists c, (rbKid body), token, rnd, (now_at E (S (ticks w))).
    cbn [ticks] in *. split; try done; [|by rewrite Hc]. exists body, n, tag. done.
  - right. apply knockFail_rejected; [done|by split| |done]. cbn [srv set_nonces nonces with_srv].
    unfold NonceStore.Claim in Hc. destruct (NonceStore.spent _ !! _) as [e|]; [|done].
    destruct (_ <? e); by simplify_eq.
Qed.

(** *** What an accepted knock does *)

Definition old_hash (r : Request) : bytes :=
  match RCookie r GrantCookieName with
  | Some v => if bool_decide (v = []) then [] else CookieHash v
  | None => []
  end.

Definition minted (c : reqCtx) (cf : Config) (kid : bytes) (token : Token) (t : Z) (hash : bytes)
    : Grant :=
  {| gV := 1; gKid := kid; gService := service c; gIP := ip c; gBinding := binding (svc c);
     gCookieHash := hash; gIssued := t; gExp := i64 (t + grantTTL cf (svc c)); gManual := false;
     gSecretFP := Fingerprint (Some token) |}.

(** The cookie of a device-bound grant, from the random draw. *)
Definition device_id (w : World) : option bytes := B64u <$> rand_at E (draws w) 32.

Definition bound (c : reqCtx) : bool := bool_decide (binding (svc c) = BindingIPCookie).

Definition grant_hash (c : reqCtx) (id : bytes) : bytes := if bound c then CookieHash id else [].

(** The response of a successful knock, from the blank one. *)
Definition knock_response (c : reqCtx) (cf : Config) (id : bytes) (w : Response) : Response :=
  let w := if bound c
           then r_cookie {| ckName := GrantCookieName; ckValue := id; ckPath := lit "/";
                            ckHttpOnly := true; ckSecure := true; ckSameSiteStrict := true;
                            ckMaxAge := grantTTL cf (svc c) |} w
           else w in
  r_status StatusNoContent (r_set (lit "Cache-Control") (lit "no-store") w).

Definition knocked (w : World) (r : Request) (c : reqCtx) (kid : bytes) (token : Token)
    (t : Z) (id : bytes) (w' : World) : Prop :=
  let g := minted c (cfg (srv w)) kid token t (grant_hash c id) in
  grants (srv w') = Put (grants (srv w)) (Some g) [old_hash r] /\
  resp w' = knock_response c (cfg (srv w)) id (resp w) /\
  cfg (srv w') = cfg (srv w) /\ reg (srv w') = reg (srv w) /\ mux (srv w') = mux (srv w) /\
  nonceKey (srv w') = nonceKey (srv w) /\ codes (srv w') = codes (srv w).

(** The draw the device id comes from is good, when one is needed. *)
Definition draw_ok (c : reqCtx) (w : World) (id : bytes) : Prop :=
  if bound c then device_id w = Some id else id = [].

Lemma draw_cases c w : (exists id, draw_ok c w id) \/ (bound c = true /\ rand_at E (draws w) 32 = None).
Proof.
  unfold draw_ok, device_id. destruct (bound c); [|by left; exists []].
  destruct (rand_at E (draws w) 32) as [raw|]; [left; by exists (B64u raw)|by right].
Qed.

Lemma mint_knocked w r c kid token rnd t id :
  draw_ok c w id ->
  knocked w r c kid token t id
    (mint r c (cfg (srv w)) kid token t (claimed c rnd t w)).2.
Proof.
  unfold draw_ok, knocked, grant_hash, knock_response. intros Hd.
  unfold Server.mint, header. ops_all.
  fold (bound c). destruct (bound c) eqn:Eb; ops_all.
  - unfold device_id in Hd. apply fmap_Some in Hd as (raw & Hraw & ->).
    cbn [claimed draws rated snd]. unfold RandomBytes. rewrite Hraw. ops_all. repeat split.
  - subst id. repeat split.
Qed.

Lemma mint_no_draw w r c kid token rnd t :
  bound c = true -> rand_at E (draws w) 32 = None -> ctx_of (cfg (srv w)) r = Some c ->
  let w' := (mint r c (cfg (srv w)) kid token t (claimed c rnd t w)).2 in
  kept w w' /\ resp w' = denial (cfg (srv w)) (Some c) (resp w).
Proof.
  intros Hb Hr Hc. unfold Server.mint. fold (bound c). rewrite Hb. bind_run. rewrite random_run.
  cbn [claimed draws rated snd]. unfold RandomBytes. rewrite Hr, knockFail_eq. split; [by split|done].
Qed.

(** Minting touches no nonce. *)
Lemma mint_nonces w r c cf kid token t : nonces (srv (mint r c cf kid token t w).2) = nonces (srv w).
Proof.
  unfold Server.mint, header. ops_all. destruct (bool_decide _); ops_all; [|done].
  destruct (RandomBytes _ _); ops_all; [done|]. by rewrite knockFail_eq.
Qed.

(** *** Challenge *)

Record issued (w : World) (r : Request) (c : reqCtx) (ts : Z) (rnd nonce : bytes) (w' : World)
    : Prop := {
  is_ctx : ctx_of (cfg (srv w)) r = Some c;
  is_known : known c = true;
  is_time : ts = now_at E (S (ticks w));
  is_nonce : IssueNonce (nonceKey (srv w)) (u64 ts) rnd (service c) (ip c) (IPv6Prefix (cfg (srv w)))
             = Ok nonce;
  is_kept : kept w w';
  is_nonces : nonces (srv w') = nonces (srv w);
  is_resp : resp w' = r_status StatusNoContent (r_set (lit "Cache-Control") (lit "no-store")
    (r_set (lit "X-JIT-TS") (FormatInt ts) (r_set (lit "X-JIT-Nonce") (B64u nonce) (resp w)))) }.

Lemma challenge_cases w r :
  rejected w r (challenge r w).2 \/
  exists c ts rnd nonce, issued w r c ts rnd nonce (challenge r w).2.
Proof.
  unfold challenge, handleChallenge, header, headerb. bind_run.
  rewrite resolve_eq.
  destruct (ctx_of (cfg (srv w)) r) as [c|] eqn:Hctx; [|left; by apply deny_rejected].
  destruct (known c) eqn:Hk; cbn [negb]; [|left; by apply deny_rejected].
  destruct (bool_decide (Method r = MethodGet)) eqn:Hm; cbn [negb]; [|left; by apply deny_rejected].
  ops_run. rewrite rate_allow_eq. destruct (rated c _ w) as [ok w1] eqn:Er.
  unfold rated in Er. injection Er as _ <-.
  destruct ok; cbn [negb]; [|left; by apply knockFail_rejected].
  bind_run. rewrite random_run. cbn [srv ticks draws resp]. unfold RandomBytes.
  destruct (rand_at E (draws w) 16) as [rnd|] eqn:Hr; [|left; by apply deny_rejected].
  ops_run. cbn [srv ticks draws resp set_rl nonceKey].
  destruct (IssueNonce _ _ _ _ _ _) as [nonce|e] eqn:Hi; [|left; by apply deny_rejected].
  right. ops_all. exists c, (now_at E (S (ticks w))), rnd, nonce. by split.
Qed.

(** *** Enroll *)

(** A code traded for a secret. *)
Record enrolled (w : World) (r : Request) (code : bytes) (ec : EnrollStore.EnrollCode)
    (token : Token) (w' : World) : Prop := {
  en_body : json_enroll 4096 (Body r) = Some code;
  en_code : EnrollStore.codes (codes (srv w)) !! code = Some ec;
  en_live : now_at E (S (ticks w)) < EnrollStore.ecExp ec /\
            now_at E (S (S (ticks w))) < EnrollStore.ecExp ec;
  en_token : Tokens (reg (srv w)) !! EnrollStore.ecKid ec = Some token;
  en_spent : EnrollStore.codes (codes (srv w')) = delete code (EnrollStore.codes (codes (srv w)));
  en_grants : grants (srv w') = grants (srv w);
  en_table : cfg (srv w') = cfg (srv w) /\ reg (srv w') = reg (srv w) /\ mux (srv w') = mux (srv w);
  en_resp : resp w' = r_status StatusNoContent (r_set (lit "Cache-Control") (lit "no-store")
    (r_set (lit "X-JIT-Origins") (Join (EnrollStore.ecOrigins ec) (lit ","))
    (r_set (lit "X-JIT-Secret") (B64u (Secret token))
    (r_set (lit "X-JIT-Kid") (EnrollStore.ecKid ec) (resp w))))) }.

(** Everything [handleEnroll] checks, for the request [r] in the world [w]. *)
Record enroll_ok (w : World) (r : Request) (c : reqCtx) (code : bytes) (ec : EnrollStore.EnrollCode)
    (token : Token) : Prop := {
  eo_ctx : ctx_of (cfg (srv w)) r = Some c;
  eo_known : known c = true;
  eo_method : Method r = MethodPost;
  eo_rate : (rated c (RateLimit (cfg (srv w))) w).1 = true;
  eo_body : json_enroll 4096 (Body r) = Some code;
  eo_nonempty : code <> [];
  eo_code : EnrollStore.codes (codes (srv w)) !! code = Some ec;
  eo_live : now_at E (S (ticks w)) < EnrollStore.ecExp ec /\
            now_at E (S (S (ticks w))) < EnrollStore.ecExp ec;
  eo_token : Tokens (reg (srv w)) !! EnrollStore.ecKid ec = Some token }.

(** Refused: the grants stand, and a code is lost only if it was presented. *)
Record enroll_refused (w : World) (r : Request) (w' : World) : Prop := {
  er_grants : grants (srv w') = grants (srv w);
  er_table : cfg (srv w') = cfg (srv w) /\ reg (srv w') = reg (srv w) /\ mux (srv w') = mux (srv w);
  er_codes : codes (srv w') = codes (srv w) \/
    exists code ec, json_enroll 4096 (Body r) = Some code /\
      EnrollStore.codes (codes (srv w)) !! code = Some ec /\
      EnrollStore.ecExp ec <= now_at E (S (S (ticks w))) /\
      EnrollStore.codes (codes (srv w')) = delete code (EnrollStore.codes (codes (srv w)));
  er_resp : resp w' = denial (cfg (srv w)) (ctx_of (cfg (srv w)) r) (resp w) }.

Lemma rejected_enroll w r w' : rejected w r w' -> enroll_refused w r w'.
Proof. intros [[] _ Hr]. split; [done|done|by left|done]. Qed.

Lemma enroll_accept w r c code ec token :
  enroll_ok w r c code ec token -> enrolled w r code ec token (enroll r w).2.
Proof.
  intros [Hctx Hk Hm Hr Hj He Hc [Hl1 Hl2] Ht]. unfold enroll, handleEnroll, header, headerb.
  bind_run. rewrite resolve_eq, Hctx, Hk, Hm, bool_decide_eq_true_2 by done. cbn [negb]. ops_run.
  rewrite rate_allow_eq. destruct (rated c _ w) as [ok w1] eqn:Er. cbn [fst] in Hr. subst ok.
  unfold rated in Er. injection Er as _ <-. cbn [negb].
  rewrite Hj, bool_decide_eq_false_2 by done. ops_run. cbn [srv set_rl codes reg ticks draws resp].
  rewrite (proj2 (EnrollStore.Peek_Some _ _ _ ec)) by done. ops_run. cbn [srv set_rl reg ticks draws resp].
  cbn [Lookup] in *. rewrite Ht. ops_run. rewrite consume_run. cbn [srv set_rl codes reg ticks draws resp].
  unfold EnrollStore.Consume. rewrite Hc, (proj2 (Z.leb_gt _ _)) by done.
  ops_run. cbn [srv with_srv set_codes set_rl reg]. rewrite Ht. ops_all. by split.
Qed.

Lemma enroll_cases w r :
  enroll_refused w r (enroll r w).2 \/
  exists c code ec token, enroll_ok w r c code ec token.
Proof.
  unfold enroll, handleEnroll, header, headerb.
  bind_run. rewrite resolve_eq.
  destruct (ctx_of (cfg (srv w)) r) as [c|] eqn:Hctx; [|left; by apply rejected_enroll, deny_rejected].
  destruct (known c) eqn:Hk; cbn [negb]; [|left; by apply rejected_enroll, deny_rejected].
  destruct (bool_decide (Method r = MethodPost)) eqn:Hm; cbn [negb];
    [|left; by apply rejected_enroll, deny_rejected].
  ops_run. rewrite rate_allow_eq. destruct (rated c _ w) as [ok w1] eqn:Er.
  assert (Hrate : (rated c (RateLimit (cfg (srv w))) w).1 = ok) by (by rewrite Er).
  unfold rated in Er. injection Er as _ <-.
  destruct ok; cbn [negb]; [|left; by apply rejected_enroll, knockFail_rejected].
  destruct (json_enroll 4096 (Body r)) as [code|] eqn:Hj; [|left; by apply rejected_enroll, deny_rejected].
  destruct (bool_decide (code = [])) eqn:He; [left; by apply rejected_enroll, deny_rejected|].
  ops_run. cbn [srv set_rl codes reg ticks draws resp].
  destruct (EnrollStore.Peek _ _ _) as [p|] eqn:Hp.
  2: { left. ops_all. by apply rejected_enroll, deny_rejected. }
  ops_run. cbn [srv set_rl reg ticks draws resp].
  destruct (Lookup _ (EnrollStore.ecKid p)) as [tk|] eqn:Hl.
  2: { left. ops_all. by apply rejected_enroll, deny_rejected. }
  apply EnrollStore.Peek_Some in Hp as [Hp Hlive].
  ops_run. rewrite consume_run. cbn [srv set_rl codes reg ticks draws resp].
  unfold EnrollStore.Consume. rewrite Hp.
  destruct (EnrollStore.ecExp p <=? now_at E (S (S (ticks w)))) eqn:Hx; bool_prop.
  - left. ops_all. rewrite deny_eq. split; [done|done| |by rewrite Hctx].
    right. exists code, p. done.
  - right. exists c, code, p, tk. by split.
Qed.

(** *** Register *)

Definition register_response (w : Response) : Response :=
  r_write RegisterHTML (r_status StatusOK
    (r_set (lit "Referrer-Policy") (lit "no-referrer")
      (r_set (lit "Cache-Control") (lit "no-store")
        (r_set (lit "Content-Type") (lit "text/html; charset=utf-8") w)))).

Lemma register_cases w r :
  rejected w r (register r w).2 \/
  kept w (register r w).2 /\ nonces (srv (register r w).2) = nonces (srv w) /\
    resp (register r w).2 = register_response (resp w) /\
    exists c, ctx_of (cfg (srv w)) r = Some c /\ known c = true /\ failureMode (svc c) <> FailStealth.
Proof.
  unfold register, handleRegister, header. bind_run. rewrite resolve_eq.
  destruct (ctx_of (cfg (srv w)) r) as [c|] eqn:Hctx; [|left; by apply deny_rejected].
  destruct (known c) eqn:Hk; cbn [negb]; [|left; by apply deny_rejected].
  destruct (_ || _) eqn:Hm; [left; by apply deny_rejected|right]. bool_prop.
  ops_all. split; [by split|]. split; [done|]. split; [done|]. by exists c.
Qed.

(** *** Forward-auth *)

(** The grant a request of context [c] presents at time [t], strong enough for
    the binding the service asks for now. *)
Definition honored (w : World) (r : Request) (c : reqCtx) (t : Z) : option Grant :=
  g ← IsAllowed (grants (srv w)) (service c) (ip c) (Some (reg (srv w))) t
        (default [] (RCookie r GrantCookieName));
  if bound c && negb (bool_decide (gBinding g = BindingIPCookie)) then None else Some g.

Definition authz_pass (w : World) (r : Request) : bool :=
  trusted_peer (cfg (srv w)) r &&
  match ctx_of (cfg (srv w)) r with
  | None => false
  | Some c =>
      is_endpoint (URIPrefix (cfg (srv w))) (uri c) ||
      (known c && match honored w r c (now_at E (ticks w)) with Some _ => true | None => false end)
  end.

(** The subrequest is refused: a plain 403, or the denial of its context. *)
Definition authz_refusal (w : World) (r : Request) (out : Response) : Prop :=
  (trusted_peer (cfg (srv w)) r = false /\ out = r_error (lit "forbidden") StatusForbidden (resp w)) \/
  out = authz_denial (cfg (srv w)) (ctx_of (cfg (srv w)) r) (resp w).

Record authz_granted (w : World) (r : Request) (w' : World) : Prop := {
  ag_pass : authz_pass w r = true;
  ag_resp : exists x : Response, resp w' = r_status StatusNoContent x /\ status x = status (resp w) }.

Definition authz_kept (w w' : World) : Prop := kept w w' /\ nonces (srv w') = nonces (srv w).

Lemma authz_cases w r :
  authz_kept w (authz r w).2 /\
  (authz_granted w r (authz r w).2 \/
   authz_pass w r = false /\ authz_refusal w r (resp (authz r w).2)).
Proof.
  unfold authz, handleAuthz, headerb. ops_run.
  unfold authz_refusal, authz_pass.
  destruct (trusted_peer (cfg (srv w)) r) eqn:Ht; cbn [negb andb].
  2: { st_out. split; [by repeat split|]. right. split; [done|left]. done. }
  ops_run. rewrite resolve_eq. destruct (ctx_of (cfg (srv w)) r) as [c|] eqn:Hctx.
  2: { rewrite authzDeny_eq. split; [by repeat split|]. right. split; [done|right]. done. }
  ops_run. destruct (is_endpoint _ _) eqn:He; cbn [orb].
  { ops_all. split; [by repeat split|]. left. split; [by unfold authz_pass; rewrite Ht, Hctx, He|].
    by eexists. }
  destruct (known c) eqn:Hk; cbn [negb andb].
  2: { rewrite authzDeny_eq. split; [by repeat split|]. right. split; [done|right]. done. }
  ops_run. cbn [srv]. unfold honored. fold (bound c).
  destruct (IsAllowed _ _ _ _ _ _) as [g|] eqn:Ha; cbn [mbind option_bind].
  - destruct (bound c && _) eqn:Hb.
    + ops_all. rewrite authzDeny_eq. split; [by repeat split|]. right. split; [done|right]. done.
    + ops_all. split; [by repeat split|]. left. split.
      * unfold authz_pass, honored. rewrite Ht, Hctx, He, Hk, Ha. cbn. by rewrite Hb.
      * eexists. split; [done|]. done.
  - ops_all. rewrite authzDeny_eq. split; [by repeat split|]. right. split; [done|right]. done.
Qed.
End app.

#[local] Transparent r_set r_write r_status r_cookie r_error r_notfound.

(** ** Statuses *)

Lemma status_set k v w : status (r_set k v w) = status w.
Proof. done. Qed.

Lemma status_denial c x :
  status (denial c x fresh) = StatusNotFound \/ status (denial c x fresh) = StatusForbidden.
Proof. unfold denial. destruct (bool_decide _); [by left|by right]. Qed.

Lemma status_authz_denial c x : status (authz_denial c x fresh) = StatusForbidden.
Proof. unfold authz_denial. by destruct (bool_decide _). Qed.

Lemma status_authz_refusal E w r out :
  resp w = fresh -> authz_refusal E w r out -> status out = StatusForbidden.
Proof.
  unfold authz_refusal. intros -> [[_ ->]| ->]; [done|apply status_authz_denial].
Qed.

Lemma status_knock c cf id : status (knock_response c cf id fresh) = StatusNoContent.
Proof. unfold knock_response. by destruct (bound c). Qed.

(** In stealth mode a denial is the very response of an unrouted path. *)
Lemma denial_stealth c x w : mode_of c x = FailStealth -> denial c x w = r_notfound w.
Proof. intros H. unfold denial. by rewrite bool_decide_eq_true_2. Qed.

(** ** Knock, then request *)

Lemma put_allowed s g old rg now cookie :
  wf s -> admits g (gService g) (gIP g) rg now cookie ->
  (gBinding g <> BindingIPCookie ->
     cookie = [] \/
     Store.grants (Put s (Some g) old) !! GrantKeyCookie (gService g) (gIP g) (CookieHash cookie) = None) ->
  IsAllowed (Put s (Some g) old) (gService g) (gIP g) rg now cookie = Some g.
Proof.
  intros Hwf Hadm Hplain. apply IsAllowed_iff. split; [|done].
  destruct (Put_spec s g old Hwf) as [_ He]. rewrite He in *.
  apply candidate_put; [|done]. intros Hb. destruct (adm_cookie _ _ _ _ _ _ Hadm Hb) as (?&?&?). done.
Qed.

Lemma B64u_random_nonempty E w id : device_id E w = Some id -> (forall i l, rand_at E i 32 = Some l -> length l = 32%nat) -> id <> [].
Proof.
  unfold device_id. intros H Hlen. apply fmap_Some in H as (raw & Hr & ->).
  apply B64u_nonempty. apply Hlen in Hr. by intros ->.
Qed.

Lemma ctx_of_service E c r x :
  ctx_of E c r = Some x -> svc x = (Service c (service x)).1 /\ known x = (Service c (service x)).2.
Proof.
  unfold ctx_of. destruct (ClientIP c r) as [[i|e] b]; [|done].
  destruct (bool_decide (i = [])); [done|].
  destruct (resolveTarget (url_Parse E) c r) as [[s u]|]; [|done].
  destruct (bool_decide (s = [])); [done|]. by intros [= <-].
Qed.

(** The later request [r2] of a client that knocked: same client and service, the
    cookie it was given, the grant and the token still live. *)
Record returns (E : Env) (w w2 : World) (r2 : Request) (c c2 : reqCtx) (token : Token) (t : Z)
    (id : bytes) : Prop := {
  rt_cfg : cfg (srv w2) = cfg (srv w);
  rt_reg : reg (srv w2) = reg (srv w);
  rt_peer : trusted_peer (cfg (srv w)) r2 = true;
  rt_ctx : ctx_of E (cfg (srv w)) r2 = Some c2;
  rt_service : service c2 = service c;
  rt_ip : ip c2 = ip c;
  rt_cookie : RCookie r2 GrantCookieName = if bound c then Some id else None;
  rt_live : now_at E (ticks w2) < i64 (t + grantTTL (cfg (srv w)) (svc c));
  rt_token : Expires token = 0 \/ now_at E (ticks w2) < Expires token }.

Lemma minted_admits E w r c kid token rnd t id now :
  knock_ok E w r c kid token rnd t -> draw_ok E c w id -> (bound c = true -> id <> []) ->
  now < i64 (t + grantTTL (cfg (srv w)) (svc c)) ->
  Expires token = 0 \/ now < Expires token ->
  admits (minted c (cfg (srv w)) kid token t (grant_hash c id)) (service c) (ip c)
    (Some (reg (srv w))) now (if bound c then id else []).
Proof.
  intros Hk Hd Hid Hlive Htok. split; [done|done|done| |].
  - right. exists token. split; [|done].
    destruct (proj1 (Authorize_Ok_iff _ _ _ _ _) (ko_auth _ _ _ _ _ _ _ _ Hk)) as [? ? _ ?].
    by split.
  - cbn [gBinding minted]. intros Hb. unfold grant_hash.
    assert (Hbc : bound c = true) by (by apply bool_decide_eq_true). rewrite Hbc in *.
    cbn [gCookieHash minted]. split; [auto|]. split; [apply CookieHash_nonempty|done].
Qed.

Lemma authz_204 E w r :
  resp w = fresh -> status (resp (authz E r w).2) = StatusNoContent <-> authz_pass E w r = true.
Proof.
  intros Hf. destruct (authz_cases E w r) as [_ [[-> (x & -> & Hx)]|[-> Hr]]].
  - unfold r_status. by rewrite Hx, Hf.
  - by rewrite (status_authz_refusal _ _ _ _ Hf Hr).
Qed.

Lemma knock_passes E w r c kid token rnd t id w2 r2 c2
    (Hk : knock_ok E w r c kid token rnd t) (Hd : draw_ok E c w id)
    (Hrand : forall i l, rand_at E i 32 = Some l -> length l = 32%nat)
    (Hwf : wf (grants (srv w)))
    (Hret : returns E w w2 r2 c c2 token t id)
    (Hstore : grants (srv w2) = grants (srv (respond E r w).2)) :
  authz_pass E w2 r2 = true.
Proof.
  destruct Hret. rewrite (respond_accept E w r c kid token rnd t Hk) in Hstore.
  destruct (mint_knocked E w r c kid token rnd t id Hd) as (Hg & _). rewrite Hg in Hstore.
  assert (Hid : bound c = true -> id <> []).
  { intros Hb. unfold draw_ok in Hd. rewrite Hb in Hd. by eapply B64u_random_nonempty. }
  destruct (ctx_of_service _ _ _ _ rt_ctx0) as [Hs2 Hk2].
  destruct (ctx_of_service _ _ _ _ (ko_ctx _ _ _ _ _ _ _ _ Hk)) as [Hs1 Hk1].
  rewrite rt_service0, <- Hk1, (ko_known _ _ _ _ _ _ _ _ Hk) in Hk2.
  rewrite rt_service0, <- Hs1 in Hs2.
  unfold authz_pass. rewrite rt_cfg0, rt_peer0, rt_ctx0, Hk2. cbn [andb].
  apply orb_true_iff. right.
  assert (Hb2 : bound c2 = bound c) by (unfold bound; by rewrite Hs2).
  unfold honored. rewrite rt_service0, rt_ip0, rt_reg0, rt_cookie0, Hstore, Hb2.
  pose proof (minted_admits E w r c kid token rnd t id _ Hk Hd Hid rt_live0 rt_token0) as Ha.
  set (g := minted c (cfg (srv w)) kid token t (grant_hash c id)) in *.
  assert (Hall : IsAllowed (Put (grants (srv w)) (Some g) [old_hash r]) (service c) (ip c)
    (Some (reg (srv w))) (now_at E (ticks w2)) (default [] (if bound c then Some id else None)) = Some g).
  { replace (default [] (if bound c then Some id else None)) with (if bound c then id else [])
      by (by destruct (bound c)).
    apply (put_allowed (grants (srv w)) g); [done|exact Ha|].
    intros Hnb. left. destruct (bound c) eqn:Hb; [|done]. by apply bool_decide_eq_true in Hb. }
  rewrite Hall. cbn [mbind option_bind]. unfold bound. cbn [gBinding minted g].
  by destruct (bool_decide _).
Qed.

(** ** Properties *)

(** C2: the knock endpoint answers 204 exactly when the request resolves to a
    configured service, is a POST within the rate limit, carries a nonce this
    server minted for this client that is fresh and unspent, a registered token
    allowed on the service and live, and a proof under that token's secret, with a
    random draw where the binding needs one.  Then the very grant of that context,
    kid, token and time is stored, the response is its 204, that nonce is spent,
    and the settings, registry, routes and codes stay.  Otherwise the response is
    the generic denial and no grant is touched. *)
Theorem respond_exact E w r (Hfresh : resp w = fresh) :
  let w' := (respond E r w).2 in
  (status (resp w') = StatusNoContent <->
    exists c kid token rnd t id, knock_ok E w r c kid token rnd t /\ draw_ok E c w id) /\
  (forall c kid token rnd t id, knock_ok E w r c kid token rnd t -> draw_ok E c w id ->
    knocked w r c kid token t id w' /\
    nonces (srv w') = (NonceStore.Claim (nonces (srv w)) (B64u rnd) t (NonceTTL (cfg (srv w)))).2) /\
  (status (resp w') <> StatusNoContent ->
    grants (srv w') = grants (srv w) /\
    resp w' = denial (cfg (srv w)) (ctx_of E (cfg (srv w)) r) fresh).
Proof.
  cbv zeta.
  assert (Hgood : forall c kid token rnd t id, knock_ok E w r c kid token rnd t -> draw_ok E c w id ->
    knocked w r c kid token t id (respond E r w).2).
  { intros c kid token rnd t id Hk Hd. rewrite (respond_accept E w r c kid token rnd t Hk).
    by apply mint_knocked. }
  assert (Hstatus : forall c kid token rnd t id, knock_ok E w r c kid token rnd t -> draw_ok E c w id ->
    status (resp (respond E r w).2) = StatusNoContent).
  { intros c kid token rnd t id Hk Hd. destruct (Hgood _ _ _ _ _ _ Hk Hd) as (_ & -> & _).
    rewrite Hfresh. by apply status_knock. }
  assert (Hcases : (exists c kid token rnd t id, knock_ok E w r c kid token rnd t /\ draw_ok E c w id) \/
    (grants (srv (respond E r w).2) = grants (srv w) /\
     resp (respond E r w).2 = denial (cfg (srv w)) (ctx_of E (cfg (srv w)) r) fresh)).
  { destruct (respond_cases E w r) as [(c & kid & token & rnd & t & Hk)|[[] _ Hr]];
      [|right; by rewrite Hr, Hfresh].
    destruct (draw_cases E c w) as [[id Hd]|[Hb Hn]]; [left; eauto 10|right].
    pose proof (mint_no_draw E w r c kid token rnd t Hb Hn (ko_ctx _ _ _ _ _ _ _ _ Hk)) as Hm.
    rewrite <- (respond_accept E w r c kid token rnd t Hk) in Hm. destruct Hm as [[] ->].
    by rewrite Hfresh, (ko_ctx _ _ _ _ _ _ _ _ Hk). }
  split; [split|split].
  - intros Hs. destruct Hcases as [H|[_ Hr]]; [done|]. rewrite Hr in Hs.
    by destruct (status_denial (cfg (srv w)) (ctx_of E (cfg (srv w)) r)) as [H|H]; rewrite H in Hs.
  - intros (c & kid & token & rnd & t & id & Hk & Hd). by eapply Hstatus.
  - intros c kid token rnd t id Hk Hd. split; [by eapply Hgood|].
    by rewrite (respond_accept E w r c kid token rnd t Hk), mint_nonces.
  - intros Hn. destruct Hcases as [(c & kid & token & rnd & t & id & Hk & Hd)|H]; [|done].
    destruct Hn. by eapply Hstatus.
Qed.

(** C10: no oracle: whatever makes a knock, challenge, enrollment or registration
    fail, the response is one function of the configuration and the service; on a
    stealth service it is the response of an unrouted path, byte for byte. *)
Theorem uniform_denial E h w r
    (Hh : h ∈ [HChallenge; HRespond; HEnroll; HRegister]) (Hfresh : resp w = fresh) :
  let x := ctx_of E (cfg (srv w)) r in
  let w' := (run_handler E h r w).2 in
  (status (resp w') = (if decide (h = HRegister) then StatusOK else StatusNoContent) \/
   resp w' = denial (cfg (srv w)) x fresh) /\
  (mode_of (cfg (srv w)) x = FailStealth ->
   denial (cfg (srv w)) x fresh = resp (run_handler E HNotFound r w).2).
Proof.
  cbv zeta. split.
  2: { intros Hm. rewrite denial_stealth by done. cbn. by rewrite Hfresh. }
  rewrite !elem_of_cons, elem_of_nil in Hh. destruct Hh as [->|[->|[->|[->|[]]]]]; rewrite run_handler_eq; cbn [decide].
  - destruct (challenge_cases E w r) as [[_ _ Hr]|(c & ts & rnd & n & [])];
      [right; by rewrite Hr, Hfresh|left]. rewrite is_resp0, Hfresh. done.
  - destruct (respond_cases E w r) as [(c & kid & token & rnd & t & Hk)|[_ _ Hr]];
      [|right; by rewrite Hr, Hfresh].
    rewrite (respond_accept E w r c kid token rnd t Hk).
    destruct (bound c) eqn:Hb; [destruct (rand_at E (draws w) 32) as [raw|] eqn:Hn|].
    + assert (Hd : draw_ok E c w (B64u raw)) by (unfold draw_ok, device_id; by rewrite Hb, Hn).
      destruct (mint_knocked E w r c kid token rnd t _ Hd) as (_ & -> & _).
      left. rewrite Hfresh. apply status_knock.
    + destruct (mint_no_draw E w r c kid token rnd t Hb Hn (ko_ctx _ _ _ _ _ _ _ _ Hk)) as [_ Hm].
      right. by rewrite Hm, Hfresh, (ko_ctx _ _ _ _ _ _ _ _ Hk).
    + assert (Hd : draw_ok E c w []) by (unfold draw_ok; by rewrite Hb).
      destruct (mint_knocked E w r c kid token rnd t _ Hd) as (_ & -> & _).
      left. rewrite Hfresh. apply status_knock.
  - destruct (enroll_cases E w r) as [[_ _ _ Hr]|(c & code & ec & tk & []%enroll_accept)];
      [right; by rewrite Hr, Hfresh|left]. rewrite en_resp0, Hfresh. done.
  - destruct (register_cases E w r) as [[_ _ Hr]|(_ & _ & Hr & _)];
      [right; by rewrite Hr, Hfresh|left]. rewrite Hr, Hfresh. done.
Qed.

(** C3: the forward-auth answer is 204 exactly when the peer is a trusted proxy,
    the request resolves, and it is either one of the four protocol endpoints or
    for a configured service on which this client holds a live grant at least as
    strong as the service's binding.  In every other case it is 403, on a stealth
    service too (where the documentation says 404), and the response is the plain
    403 for an untrusted peer or the denial of the context: a bare 403 on a stealth
    service, the interstitial page elsewhere.  It changes no store. *)
Theorem authz_exact E w r (Hfresh : resp w = fresh) :
  let w' := (authz E r w).2 in
  status (resp w') = (if authz_pass E w r then StatusNoContent else StatusForbidden) /\
  (authz_pass E w r = false -> authz_refusal E w r (resp w')) /\
  grants (srv w') = grants (srv w) /\ nonces (srv w') = nonces (srv w) /\ codes (srv w') = codes (srv w).
Proof.
  destruct (authz_cases E w r) as [[[] Hn] [[-> (x & Hr & Hx)]|[-> Hr]]].
  - cbv zeta. rewrite Hr. unfold r_status. rewrite Hx, Hfresh. by repeat split.
  - split; [by eapply status_authz_refusal|]. by repeat split.
Qed.

(** A nonce the challenge endpoint hands out is accepted: the header of a 204
    carries a nonce that verifies for the same service and client until it is as
    old as the nonce lifetime. *)
Theorem challenge_nonce_verifies E w r
    (Hfresh : resp w = fresh)
    (Hok : status (resp (challenge E r w).2) = StatusNoContent)
    (Hclock : forall n, 0 <= now_at E n < 2 ^ 63) :
  exists c ts nonce rnd,
    ctx_of E (cfg (srv w)) r = Some c /\
    B64uDecode (HGet (RespHeader (resp (challenge E r w).2)) (lit "X-JIT-Nonce")) = Some nonce /\
    forall t, ts <= t < 2 ^ 63 -> t - ts < NonceTTL (cfg (srv w)) ->
      VerifyNonce (nonceKey (srv w)) nonce (service c) (ip c) t (NonceTTL (cfg (srv w)))
        (IPv6Prefix (cfg (srv w))) = Some rnd.
Proof.
  destruct (challenge_cases E w r) as [[_ _ Hr]|(c & ts & rnd & n & [])].
  - rewrite Hr, Hfresh in Hok.
    destruct (status_denial (cfg (srv w)) (ctx_of E (cfg (srv w)) r)) as [H|H]; by rewrite H in Hok.
  - exists c, ts, n, rnd. split; [done|].
    pose proof (Hclock (S (ticks w))) as Hts. rewrite <- is_time0 in Hts. split.
    + rewrite is_resp0, Hfresh. change (B64uDecode (B64u n) = Some n). apply B64uDecode_B64u.
    + intros t Ht Httl. apply VerifyNonce_Some; [unfold in_i64; lia|]. exists ts.
      rewrite u64_small in is_nonce0 by lia. split; [lia|]. split; [done|]. lia.
Qed.

(** A knock opens the door: after a successful knock, a request of the same
    client, with the cookie it was given, is let through until the grant or the
    token expires. *)
Theorem knock_opens E w r c kid token rnd t id w2 r2 c2
    (Hk : knock_ok E w r c kid token rnd t) (Hd : draw_ok E c w id)
    (Hrand : forall i l, rand_at E i 32 = Some l -> length l = 32%nat)
    (Hwf : wf (grants (srv w)))
    (Hret : returns E w w2 r2 c c2 token t id) (Hfresh : resp w2 = fresh)
    (Hstore : grants (srv w2) = grants (srv (respond E r w).2)) :
  status (resp (authz E r2 w2).2) = StatusNoContent.
Proof. apply authz_204; [done|]. by eapply knock_passes. Qed.

(** C7: the enrollment endpoint answers 204 exactly when the request resolves to a
    configured service, is a POST within the rate limit, and presents a code that
    is in the store, unexpired both when it is looked at and when it is consumed,
    for a registered kid: so a live code is never refused for want of anything
    else.  Then the response carries that kid, its secret and the code's origins,
    and exactly this code is gone.  Otherwise the response is the generic denial,
    no grant or setting changes, and no code is lost but the one presented, if it
    expired in between. *)
Theorem enroll_exact E w r (Hfresh : resp w = fresh) :
  let w' := (enroll E r w).2 in
  (status (resp w') = StatusNoContent <-> exists c code ec token, enroll_ok E w r c code ec token) /\
  (forall c code ec token, enroll_ok E w r c code ec token -> enrolled E w r code ec token w') /\
  (status (resp w') <> StatusNoContent -> enroll_refused E w r w').
Proof.
  cbv zeta. assert (Hgood : forall c code ec token, enroll_ok E w r c code ec token ->
    status (resp (enroll E r w).2) = StatusNoContent).
  { intros c code ec token []%enroll_accept. by rewrite en_resp0, Hfresh. }
  split; [|split; [apply enroll_accept|]].
  - split; [|intros (c & code & ec & token & H); by eapply Hgood].
    destruct (enroll_cases E w r) as [[_ _ _ ->]|H]; [|done]. rewrite Hfresh.
    by destruct (status_denial (cfg (srv w)) (ctx_of E (cfg (srv w)) r)) as [-> | ->].
  - destruct (enroll_cases E w r) as [H|(c & code & ec & token & H)]; [done|].
    intros Hn. destruct Hn. by eapply Hgood.
Qed.

(** ** Witnesses *)

Definition ex_rand16 : bytes := lit "0123456789abcdef".
Definition ex_rand32 : bytes := lit "0123456789abcdef0123456789abcdef".
Definition ex_nk : bytes := lit "a-nonce-key-of-thirty-two-bytes!".

Definition ex_server : Server :=
  {| cfg := ex_final;
     reg := match MakeRegistry ex_final with Ok g => g | Err _ => NewRegistry None None end;
     grants := NewGrantStore; nonces := NonceStore.NewNonceStore;
     codes := EnrollStore.Put EnrollStore.NewEnrollStore (lit "code")
       {| EnrollStore.ecKid := lit "k1"; EnrollStore.ecOrigins := [lit "https://wiki"];
          EnrollStore.ecExp := 5000 |};
     nonceKey := ex_nk; rl := NewRateLimiter 0; mtr := mkMetrics 0 0 0 0 0;
     mux := Some (buildMuxLocked ex_final) |}.

Definition ex_world : World := {| srv := ex_server; ticks := 0; draws := 0; resp := fresh |}.

Definition ex_issued : bytes := Eval vm_compute in
  match IssueNonce ex_nk 1000 ex_rand16 (lit "wiki.example") (lit "203.0.113.9") 64 with
  | Ok n => n | Err _ => [] end.

Definition ex_secret : bytes := lit "secretsecretsecret".
Definition ex_proof : bytes := Eval vm_compute in
  BuildProof ex_secret (lit "wiki.example") (lit "k1") ex_issued.

Definition ex_env : Env :=
  {| now_at := fun n => Z.min 9000 (1000 + Z.of_nat n);
     rand_at := fun _ n => Some (take n ex_rand32);
     url_Parse := fun _ => None |}.

Definition ex_call (method path : string) (body : bytes) (cookie : string) : Request :=
  {| Method := lit method; Host := lit "authorizer"; RemoteAddr := lit "127.0.0.1:9";
     URLPath := lit path; EscapedPath := lit path;
     RHeader := list_to_map
       [(lit "X-Forwarded-For", [lit "203.0.113.9"]); (lit "X-Forwarded-Host", [lit "wiki.example"]);
        (lit "X-Forwarded-Uri", [lit path]); (lit "Cookie", [lit cookie])];
     Body := body |}.

(** The knock as a client writes it. *)
Definition ex_knock_body : bytes := Eval vm_compute in
  Encode (JObj [(lit "v", JInt 1); (lit "kid", JStr (lit "k1")); (lit "nonce", JStr (B64u ex_issued));
                (lit "proof", JStr (B64u ex_proof))]).
Definition ex_enroll_body : bytes := quoted "{'code':'code'}".

Definition ex_knock : Request := ex_call "POST" "/knock/respond" ex_knock_body "".
Definition ex_ctx (path : string) : reqCtx :=
  {| service := lit "wiki.example"; ip := lit "203.0.113.9"; uri := lit path;
     svc := mkService [lit "k1"] [] BindingIPCookie 0; known := true |}.
Definition ex_device : bytes := B64u ex_rand32.
Definition ex_tok : Token :=
  {| Secret := ex_secret; Alg := AlgHMACSHA256; Label := []; Expires := 0 |}.

Lemma ex_knock_ok : knock_ok ex_env ex_world ex_knock (ex_ctx "/knock/respond") (lit "k1") ex_tok ex_rand16 1001.
Proof.
  split.
  6: { exists {| rbV := 1; rbKid := lit "k1"; rbNonce := B64u ex_issued;
                 rbProof := B64u ex_proof |},
         ex_issued, ex_proof.
       repeat (split; [vm_compute; reflexivity|]). vm_compute. reflexivity. }
  all: vm_compute; reflexivity.
Qed.

Lemma respond_exact_witness : status (resp (respond ex_env ex_knock ex_world).2) = StatusNoContent.
Proof.
  apply (respond_exact ex_env ex_world ex_knock); [reflexivity|].
  exists (ex_ctx "/knock/respond"), (lit "k1"), ex_tok, ex_rand16, 1001, ex_device.
  split; [apply ex_knock_ok|]. vm_compute. reflexivity.
Defined.

Lemma uniform_denial_witness :
  status (resp (run_handler ex_env HRespond ex_knock ex_world).2) = StatusNoContent \/
  resp (run_handler ex_env HRespond ex_knock ex_world).2 =
    denial ex_final (ctx_of ex_env ex_final ex_knock) fresh.
Proof.
  apply (uniform_denial ex_env HRespond ex_world ex_knock); [|reflexivity]. right. left.
Defined.

Lemma authz_exact_witness :
  status (resp (authz ex_env (ex_call "GET" "/" [] "") ex_world).2) = StatusForbidden /\
  status (resp (authz ex_env ex_knock ex_world).2) = StatusNoContent.
Proof.
  split.
  - rewrite (proj1 (authz_exact ex_env ex_world (ex_call "GET" "/" [] "") eq_refl)). vm_compute. reflexivity.
  - rewrite (proj1 (authz_exact ex_env ex_world ex_knock eq_refl)). vm_compute. reflexivity.
Defined.

Lemma challenge_nonce_verifies_witness :
  exists c ts nonce rnd,
    ctx_of ex_env ex_final (ex_call "GET" "/knock/challenge" [] "") = Some c /\
    B64uDecode (HGet (RespHeader (resp (challenge ex_env (ex_call "GET" "/knock/challenge" [] "") ex_world).2))
      (lit "X-JIT-Nonce")) = Some nonce /\
    forall t, ts <= t < 2 ^ 63 -> t - ts < NonceTTL ex_final ->
      VerifyNonce ex_nk nonce (service c) (ip c) t (NonceTTL ex_final) (IPv6Prefix ex_final) = Some rnd.
Proof.
  apply (challenge_nonce_verifies ex_env ex_world).
  - reflexivity.
  - vm_compute. reflexivity.
  - intros n. cbn [now_at ex_env]. lia.
Defined.

(** The world of the later request, and the request with its cookie. *)
Definition later (s : Server) : World := {| srv := s; ticks := 50; draws := 1; resp := fresh |}.
Definition ex_later : World := later (srv (respond ex_env ex_knock ex_world).2).

Lemma later_grants s : grants (srv (later s)) = grants s.
Proof. done. Qed.
Definition ex_return : Request :=
  ex_call "GET" "/page" [] ("__Host-jit-grant=" ++ String.string_of_list_byte ex_device).

Lemma ex_returns : returns ex_env ex_world ex_later ex_return (ex_ctx "/knock/respond") (ex_ctx "/page") ex_tok 1001 ex_device.
Proof. split; [vm_compute; reflexivity..|]. left. vm_compute. reflexivity. Qed.

Lemma ex_draw : draw_ok ex_env (ex_ctx "/knock/respond") ex_world ex_device.
Proof. vm_compute. reflexivity. Qed.

Lemma ex_random i l : rand_at ex_env i 32 = Some l -> length l = 32%nat.
Proof. intros H. injection H as <-. vm_compute. reflexivity. Qed.

Lemma knock_opens_witness : status (resp (authz ex_env ex_return ex_later).2) = StatusNoContent.
Proof.
  apply (knock_opens ex_env ex_world ex_knock (ex_ctx "/knock/respond") (lit "k1") ex_tok ex_rand16 1001
    ex_device ex_later ex_return (ex_ctx "/page")).
  - apply ex_knock_ok.
  - apply ex_draw.
  - apply ex_random.
  - apply wf_NewGrantStore.
  - apply ex_returns.
  - reflexivity.
  - apply (later_grants (srv (respond ex_env ex_knock ex_world).2)).
Defined.

Lemma ex_enroll_ok : exists c code ec token,
  enroll_ok ex_env ex_world (ex_call "POST" "/knock/enroll" ex_enroll_body "") c code ec token.
Proof.
  exists (ex_ctx "/knock/enroll"), (lit "code"),
    {| EnrollStore.ecKid := lit "k1"; EnrollStore.ecOrigins := [lit "https://wiki"]; EnrollStore.ecExp := 5000 |}, ex_tok.
  split; [vm_compute; reflexivity..| | | |vm_compute; reflexivity].
  - discriminate.
  - vm_compute. reflexivity.
  - split; vm_compute; reflexivity.
Qed.

Lemma enroll_exact_witness :
  status (resp (enroll ex_env (ex_call "POST" "/knock/enroll" ex_enroll_body "") ex_world).2) = StatusNoContent.
Proof.
  apply (enroll_exact ex_env ex_world); [reflexivity|]. exact ex_enroll_ok.
Defined.
