(* ===== verification/Session.v ===== *)
(** * Session: an honest client, from the challenge to the page.

    The server's handlers composed with the client's side of the protocol: it
    takes the nonce from the response header, proves its secret over it under the
    host name it sees, and writes the body as JSON. *)

From S2P Require Import Prelude GoStrings Binary Json JsonFacts Wire Base64 Sha256 Crypto ServerName CanonIP NetIP.
From S2P Require Import Registry RateLimit Store StoreHistory Http Config GoPath RealIP Server Admin App.
From S2P Require NonceStore EnrollStore.
Import strings netip hmac.

(** The members of a knock for [host], [kid] and the nonce with text [header]. *)
Definition knock_members (secret host kid header nonce : bytes) : list (bytes * json) :=
  [(lit "v", JInt 1); (lit "kid", JStr kid); (lit "nonce", JStr header);
   (lit "proof", JStr (B64u (BuildProof secret host kid nonce)))].

Section session.
Variable (E : Env).

(** The server answered the challenge [r1] with the nonce of text [header]. *)
Record challenged (w0 : World) (r1 : Request) (c1 : reqCtx) (header : bytes) : Prop := {
  ch_fresh : resp w0 = fresh;
  ch_ctx : ctx_of E (cfg (srv w0)) r1 = Some c1;
  ch_status : status (resp (challenge E r1 w0).2) = StatusNoContent;
  ch_header : HGet (RespHeader (resp (challenge E r1 w0).2)) (lit "X-JIT-Nonce") = header }.

(** The same client comes back with the knock [r2] while the server still has
    its nonce key, within the lifetime of a nonce it has not redeemed yet, and
    the token is good. *)
Record comes_back (w0 w : World) (c1 c : reqCtx) (r2 : Request) (kid : bytes) (token : Token)
    (nonce : bytes) : Prop := {
  cb_key : nonceKey (srv w) = nonceKey (srv w0);
  cb_mask : IPv6Prefix (cfg (srv w)) = IPv6Prefix (cfg (srv w0));
  cb_ctx : ctx_of E (cfg (srv w)) r2 = Some c;
  cb_service : service c = service c1;
  cb_ip : ip c = ip c1;
  cb_known : known c = true;
  cb_method : Method r2 = MethodPost;
  cb_rate : (rated E c (RateLimit (cfg (srv w))) w).1 = true;
  cb_time : now_at E (S (ticks w0)) <= now_at E (S (ticks w)) < now_at E (S (ticks w0)) + NonceTTL (cfg (srv w));
  cb_auth : Authorize (Some (reg (srv w))) kid (service c) (now_at E (S (ticks w))) = Ok token;
  cb_unspent : forall exp, NonceStore.spent (nonces (srv w)) !! NonceStore.nonce_id nonce = Some exp ->
    exp <= now_at E (S (ticks w)) }.

(** The knock the client writes, in any order and with any other members. *)
Record writes (r2 : Request) (secret host kid header nonce : bytes) : Prop := {
  wr_extras : exists extras kvs,
    Forall (fun kv => find_field respond_names kv.1 = None) extras /\
    writable maxNestingDepth (JObj extras) = true /\
    kvs ≡ₚ knock_members secret host kid header nonce ++ extras /\
    Body r2 = Encode (JObj kvs);
  wr_length : (length (Body r2) <= 4096)%nat;
  wr_kid : utf8.ValidString kid = true }.

Lemma challenged_nonce w0 r1 c1 header :
  challenged w0 r1 c1 header -> (forall n, 0 <= now_at E n < 2 ^ 63) ->
  exists nonce rnd, header = B64u nonce /\
    IssueNonce (nonceKey (srv w0)) (now_at E (S (ticks w0))) rnd (service c1) (ip c1)
      (IPv6Prefix (cfg (srv w0))) = Ok nonce.
Proof.
  intros [Hf Hc Hs Hh] Hclock.
  destruct (challenge_cases E w0 r1) as [[_ _ Hr]|(c & ts & rnd & n & [])].
  - rewrite Hr, Hf in Hs.
    destruct (status_denial (cfg (srv w0)) (ctx_of E (cfg (srv w0)) r1)) as [H|H]; by rewrite H in Hs.
  - exists n, rnd. rewrite is_resp, Hf in Hh. split; [symmetry; exact Hh|].
    rewrite Hc in is_ctx. injection is_ctx as <-. pose proof (Hclock (S (ticks w0))).
    rewrite is_time, u64_small in is_nonce by lia. done.
Qed.

Lemma VerifyProof_canon secret host svc kid nonce :
  CanonServerName host = CanonServerName svc ->
  VerifyProof secret svc kid nonce (BuildProof secret host kid nonce) = true.
Proof.
  intros H. unfold VerifyProof, BuildProof, ProofCanonical. rewrite H. apply Equal_refl.
Qed.

Lemma comes_back_knock w0 w r1 r2 c1 c kid token host header nonce :
  (forall n, 0 <= now_at E n < 2 ^ 63) ->
  challenged w0 r1 c1 header -> B64uDecode header = Some nonce ->
  comes_back w0 w c1 c r2 kid token nonce ->
  writes r2 (Secret token) host kid header nonce ->
  CanonServerName host = CanonServerName (service c) ->
  exists rnd, knock_ok E w r2 c kid token rnd (now_at E (S (ticks w))).
Proof.
  intros Hclock Hch Hdec [] [(extras & kvs & Hx & Hwx & Hperm & Hbody) Hlen Hkid] Hhost.
  destruct (challenged_nonce _ _ _ _ Hch Hclock) as (n & rnd & -> & Hissue).
  rewrite B64uDecode_B64u in Hdec. injection Hdec as ->. exists rnd.
  pose proof (Hclock (S (ticks w))) as Ht. pose proof (Hclock (S (ticks w0))) as Ht0.
  assert (Hv : VerifyNonce (nonceKey (srv w)) nonce (service c) (ip c) (now_at E (S (ticks w)))
    (NonceTTL (cfg (srv w))) (IPv6Prefix (cfg (srv w))) = Some rnd).
  { apply VerifyNonce_Some; [unfold in_i64; lia|]. exists (now_at E (S (ticks w0))).
    rewrite cb_key0, cb_mask0, cb_service0, cb_ip0. split; [lia|]. split; [done|]. lia. }
  pose proof (NonceStore.verify_length _ _ _ _ _ _ _ _ Hv) as Hnl.
  split; try done.
  - exists (mkRespond 1 kid (B64u nonce) (B64u (BuildProof (Secret token) host kid nonce))),
      nonce, (BuildProof (Secret token) host kid nonce).
    cbn [rbKid rbNonce rbProof]. rewrite !B64uDecode_B64u, VerifyProof_canon by done.
    split; [|repeat (split; [done|]); done].
    rewrite Hbody. eapply respond_body_reads; try done.
    + apply B64u_valid.
    + apply B64u_valid.
    + by rewrite <- Hbody.
  - apply NonceStore.Claim_true. intros exp He. apply cb_unspent0. unfold NonceStore.nonce_id.
    apply VerifyNonce_mac in Hv as (_ & -> & _). exact He.
Qed.
End session.

(** ** Property *)

(** C9: an honest client gets in.  Let the challenge be answered to a client, and
    let it come back in time with a knock for the host as it knows it (any
    spelling of the same canonical name), under a kid and secret the server has
    registered, live and allowed, the members of the body in any order: the knock
    is answered 204, and the page it then asks for, with the cookie it was given,
    is let through. *)
Theorem honest_client_admitted E w0 r1 w r2 w3 r3 c1 c c3 kid token host header nonce id
    (Hclock : forall n, 0 <= now_at E n < 2 ^ 63)
    (Hchallenged : challenged E w0 r1 c1 header)
    (Hdecode : B64uDecode header = Some nonce)
    (Hback : comes_back E w0 w c1 c r2 kid token nonce)
    (Hwrites : writes r2 (Secret token) host kid header nonce)
    (Hhost : CanonServerName host = CanonServerName (service c))
    (Hfresh : resp w = fresh) (Hdraw : draw_ok E c w id)
    (Hrand : forall i l, rand_at E i 32 = Some l -> length l = 32%nat)
    (Hwf : wf (grants (srv w)))
    (Hstore : grants (srv w3) = grants (srv (respond E r2 w).2)) (Hfresh3 : resp w3 = fresh)
    (Hreturns : returns E w w3 r3 c c3 token (now_at E (S (ticks w))) id) :
  status (resp (respond E r2 w).2) = StatusNoContent /\
  status (resp (authz E r3 w3).2) = StatusNoContent.
Proof.
  destruct (comes_back_knock E w0 w r1 r2 c1 c kid token host header nonce) as [rnd Hk]; try done.
  split.
  - rewrite (respond_accept _ _ _ _ _ _ _ _ Hk).
    destruct (mint_knocked E w r2 c kid token rnd (now_at E (S (ticks w))) id Hdraw) as (_ & -> & _).
    rewrite Hfresh. apply status_knock.
  - apply authz_204; [done|]. by eapply knock_passes.
Qed.

(** ** Witness *)

Notation ex_ask := (ex_call "GET" "/knock/challenge" [] "").
Definition ex_header : bytes := Eval vm_compute in
  HGet (RespHeader (resp (challenge ex_env ex_ask ex_world).2)) (lit "X-JIT-Nonce").
Definition ex_asked : World := Eval vm_compute in set_resp (fun _ => fresh) (challenge ex_env ex_ask ex_world).2.
Notation ex_raw := (default [] (B64uDecode ex_header)).
Definition ex_members : list (bytes * json) := Eval vm_compute in
  reverse (knock_members ex_secret (lit "WIKI.example:443") (lit "k1") ex_header ex_raw).
Definition ex_body : bytes := Eval vm_compute in Encode (JObj ex_members).
Notation ex_reply := (ex_call "POST" "/knock/respond" ex_body "").
Definition ex_came : World := later (srv (respond ex_env ex_reply ex_asked).2).

Lemma ex_challenged : challenged ex_env ex_world ex_ask (ex_ctx "/knock/challenge") ex_header.
Proof. split; vm_compute; reflexivity. Qed.

Lemma ex_comes_back :
  comes_back ex_env ex_world ex_asked (ex_ctx "/knock/challenge") (ex_ctx "/knock/respond") ex_reply
    (lit "k1") ex_tok ex_raw.
Proof.
  split; try (vm_compute; reflexivity).
  - vm_compute. split; [done|reflexivity].
  - intros exp. assert (H : NonceStore.spent (nonces (srv ex_asked)) !! NonceStore.nonce_id ex_raw = None)
      by (vm_compute; reflexivity). by rewrite H.
Qed.

Lemma ex_writes : writes ex_reply (Secret ex_tok) (lit "WIKI.example:443") (lit "k1") ex_header ex_raw.
Proof.
  split.
  - exists [], ex_members. split; [constructor|]. split; [reflexivity|]. split; [|reflexivity].
    rewrite app_nil_r. assert (He : ex_members = reverse (knock_members (Secret ex_tok)
      (lit "WIKI.example:443") (lit "k1") ex_header ex_raw)) by (vm_compute; reflexivity).
    rewrite He. apply reverse_Permutation.
  - eapply Nat.leb_le. vm_compute. reflexivity.
  - reflexivity.
Qed.

Lemma ex_session_returns :
  returns ex_env ex_asked ex_came ex_return (ex_ctx "/knock/respond") (ex_ctx "/page") ex_tok
    (now_at ex_env (S (ticks ex_asked))) ex_device.
Proof. split; [vm_compute; reflexivity..|]. left. vm_compute. reflexivity. Qed.

Lemma honest_client_admitted_witness :
  status (resp (respond ex_env ex_reply ex_asked).2) = StatusNoContent /\
  status (resp (authz ex_env ex_return ex_came).2) = StatusNoContent.
Proof.
  apply (honest_client_admitted ex_env ex_world ex_ask ex_asked ex_reply ex_came ex_return
    (ex_ctx "/knock/challenge") (ex_ctx "/knock/respond") (ex_ctx "/page") (lit "k1") ex_tok
    (lit "WIKI.example:443") ex_header ex_raw ex_device).
  - intros n. cbn [now_at ex_env]. lia.
  - exact ex_challenged.
  - vm_compute. reflexivity.
  - exact ex_comes_back.
  - exact ex_writes.
  - vm_compute. reflexivity.
  - reflexivity.
  - vm_compute. reflexivity.
  - apply ex_random.
  - assert (He : grants (srv ex_asked) = NewGrantStore) by (vm_compute; reflexivity).
    rewrite He. apply wf_NewGrantStore.
  - apply (later_grants (srv (respond ex_env ex_reply ex_asked).2)).
  - reflexivity.
  - exact ex_session_returns.
Defined.
