(* ===== verification/AppHistory.v ===== *)
(** * AppHistory: where every grant of a running Authorizer comes from.

    A run is a sequence of requests on either listener, sweeps and reloads.
    The theorem on runs: a grant in the store was minted by a knock whose nonce,
    proof and token passed every check, or by an authenticated admin call. *)

From S2P Require Import Prelude GoStrings Json Wire Base64 Sha256 Crypto ServerName CanonIP NetIP Registry RateLimit.
From S2P Require Import Store StoreHistory Http Config GoPath RealIP Server Admin App.
From S2P Require NonceStore EnrollStore.
Import strings netip.

Section history.
Variable (E : Env).

(** ** Origins *)

(** An authenticated call of the grant endpoint, and the grant it asks for. *)
Record admin_granted (w : World) (r : Request) (g : Grant) : Prop := {
  adg_auth : admin_ok (cfg (srv w)) r = true;
  adg_path : URLPath r = lit "/admin/grant";
  adg_method : Method r = MethodPost;
  adg_grant : exists body ip t,
    json_grantBody 65536 (Body r) = Some body /\
    CanonIP (gbIP body) (IPv6Prefix (cfg (srv w))) 32 = Ok ip /\
    CanonServerName (gbService body) <> [] /\
    g = {| gV := 1;
           gKid := if bool_decide (gbKid body = []) then manual_kid else gbKid body;
           gService := CanonServerName (gbService body); gIP := ip; gBinding := BindingIP;
           gCookieHash := []; gIssued := t;
           gExp := i64 (t + if gbTTL body <=? 0 then GrantTTL (cfg (srv w)) else gbTTL body);
           gManual := bool_decide (gbKid body = []);
           gSecretFP := Fingerprint (Lookup (Some (reg (srv w)))
             (if bool_decide (gbKid body = []) then manual_kid else gbKid body)) |} }.

Inductive origin (w : World) (r : Request) (g : Grant) : Prop :=
| by_knock c kid token rnd t id :
    knock_ok E w r c kid token rnd t -> draw_ok E c w id ->
    g = minted c (cfg (srv w)) kid token t (grant_hash c id) ->
    origin w r g
| by_admin : admin_granted w r g -> origin w r g.

(** What only a reload changes. *)
Definition table (w : World) : Config * Registry * option routes :=
  (cfg (srv w), reg (srv w), mux (srv w)).

Notation step_effect P w w' :=
  (effect P (grants (srv w)) (grants (srv w')) /\ table w' = table w).

Ltac quiet := split; [by apply effect_eq|done].

Lemma kept_quiet P w w' : kept w w' -> step_effect P w w'.
Proof. intros []. split; [by apply effect_eq|]. unfold table. congruence. Qed.

Lemma knocked_effect w r c kid token rnd t id w' :
  knock_ok E w r c kid token rnd t -> draw_ok E c w id -> knocked w r c kid token t id w' ->
  step_effect (origin w r) w w'.
Proof.
  intros Hk Hd (Hg & _ & Hc & Hr & Hm & _). rewrite Hg. split.
  - apply effect_put. by eapply by_knock.
  - unfold table. congruence.
Qed.

Lemma respond_effect w r : step_effect (origin w r) w (respond E r w).2.
Proof.
  destruct (respond_cases E w r) as [(c & kid & token & rnd & t & Hk)|[Hkept _ _]];
    [|by apply kept_quiet].
  rewrite (respond_accept _ _ _ _ _ _ _ _ Hk).
  destruct (bound c) eqn:Hb; [destruct (rand_at E (draws w) 32) as [raw|] eqn:Hr|].
  - assert (Hd : draw_ok E c w (B64u raw)) by (unfold draw_ok, device_id; by rewrite Hb, Hr).
    eapply knocked_effect, mint_knocked; eauto.
  - apply kept_quiet. eapply mint_no_draw; [done|done|by apply Hk].
  - assert (Hd : draw_ok E c w []) by (unfold draw_ok; by rewrite Hb).
    eapply knocked_effect, mint_knocked; eauto.
Qed.

Lemma challenge_effect w r P : step_effect P w (challenge E r w).2.
Proof.
  apply kept_quiet. destruct (challenge_cases E w r) as [[Hk _ _]|(c & ts & rnd & n & [])]; done.
Qed.

Lemma enroll_effect w r P : step_effect P w (enroll E r w).2.
Proof.
  destruct (enroll_cases E w r) as [[]|(c & code & ec & tk & []%enroll_accept)];
    (split; [by apply effect_eq|unfold table; naive_solver congruence]).
Qed.

Lemma register_effect w r P : step_effect P w (register E r w).2.
Proof. apply kept_quiet. by destruct (register_cases E w r) as [[Hk _ _]|[Hk _]]. Qed.

Lemma authz_effect w r P : step_effect P w (authz E r w).2.
Proof. apply kept_quiet. by destruct (authz_cases E w r) as [[Hk _] _]. Qed.

(** ** The admin API *)

Notation ops := (world_ops (now_at E) (rand_at E)).
Notation writeJSON := (Admin.writeJSON (Ops0 := ops)).

Lemma decodeJSON_cases {A} (dec : Z -> bytes -> option A) r w :
  (exists f, decodeJSON (Ops0 := ops) dec r w = (None, set_resp f w)) \/
  (exists a, Method r = MethodPost /\ dec 65536 (Body r) = Some a /\
     decodeJSON (Ops0 := ops) dec r w = (Some a, w)).
Proof.
  unfold decodeJSON, bad_request, Admin.writeJSON, header. bind_run.
  destruct (bool_decide (Method r = MethodPost)) eqn:Hm; cbn [negb]; [|left; by eexists].
  destruct (dec 65536 (Body r)) as [a|]; [|left; by eexists (fun x => _)].
  right. exists a. by bool_prop.
Qed.

Lemma writeJSON_srv code v w : srv (writeJSON code v w).2 = srv w.
Proof. done. Qed.

Lemma adminGrant_effect w r :
  admin_ok (cfg (srv w)) r = true -> URLPath r = lit "/admin/grant" ->
  step_effect (origin w r) w
    (adminGrant (Ops0 := ops) r w).2.
Proof.
  intros Ha Hp. unfold adminGrant. bind_run.
  destruct (decodeJSON_cases json_grantBody r w) as [[f ->]|(body & Hm & Hj & ->)];
    [quiet|].
  ops_run.
  destruct (CanonIP _ _ _) as [ip|e] eqn:Hip; [|quiet].
  destruct (bool_decide (CanonServerName _ = [])) eqn:Hs; [quiet|]. bool_prop.
  ops_all. split; [|done]. rewrite writeJSON_srv.
  apply effect_put, by_admin. split; try done.
  exists body, ip, (now_at E (ticks w)). done.
Qed.

Lemma adminRevoke_effect w r P :
  step_effect P w (adminRevoke (Ops0 := ops) r w).2.
Proof.
  unfold adminRevoke. bind_run.
  destruct (decodeJSON_cases json_revokeBody r w) as [[f ->]|(body & Hm & Hj & ->)];
    [quiet|].
  ops_run.
  destruct (CanonIP _ _ _) as [ip|e]; [|quiet].
  destruct (bool_decide _); [quiet|]. bind_run. rewrite revoke_run.
  pose proof (effect_revoke P (grants (srv w)) (CanonServerName (rvService body)) ip) as He.
  destruct (Revoke _ _ _) as [ok g]. bind_run. split; [by rewrite writeJSON_srv|done].
Qed.

Lemma adminRevokeToken_effect w r P :
  step_effect P w (adminRevokeToken (Ops0 := ops) r w).2.
Proof.
  unfold adminRevokeToken. bind_run.
  destruct (decodeJSON_cases json_kidBody r w) as [[f ->]|(kid & Hm & Hj & ->)];
    [quiet|].
  destruct (bool_decide _); [quiet|]. bind_run. rewrite revoke_token_run.
  pose proof (effect_revoke_token P (grants (srv w)) kid) as He.
  destruct (RevokeToken _ _) as [ok g]. bind_run. split; [by rewrite writeJSON_srv|done].
Qed.

Lemma adminEnrollCode_effect w r P :
  step_effect P w (adminEnrollCode (Ops0 := ops) r w).2.
Proof.
  unfold adminEnrollCode. bind_run.
  destruct (decodeJSON_cases json_codeBody r w) as [[f ->]|(body & Hm & Hj & ->)]; [quiet|].
  ops_run. destruct (Lookup _ _); [|quiet]. ops_all. destruct (RandomBytes _ _); quiet.
Qed.

Lemma admin_effect w r : step_effect (origin w r) w (admin E r w).2.
Proof.
  unfold admin, handleAdmin. ops_run.
  destruct (trusted_peer (cfg (srv w)) r) eqn:Ht; cbn [negb]; [|quiet].
  destruct (bool_decide (AdminToken (cfg (srv w)) = [])) eqn:Hn; [quiet|].
  destruct (bool_decide (TrimPrefix _ _ = _)) eqn:Hb; cbn [negb]; [|quiet].
  assert (Hok : admin_ok (cfg (srv w)) r = true) by (unfold admin_ok; by rewrite Ht, Hn, Hb).
  destruct (bool_decide (URLPath r = lit "/admin/grants")); [quiet|].
  destruct (bool_decide (URLPath r = lit "/admin/grant")) eqn:Hp;
    [bool_prop; by apply adminGrant_effect|].
  destruct (bool_decide (URLPath r = lit "/admin/revoke")); [apply adminRevoke_effect|].
  destruct (bool_decide (URLPath r = lit "/admin/revoke-token")); [apply adminRevokeToken_effect|].
  destruct (bool_decide (URLPath r = lit "/admin/enroll-code")); [apply adminEnrollCode_effect|].
  destruct (bool_decide (URLPath r = lit "/admin/metrics")); quiet.
Qed.

(** ** Runs *)

Inductive event :=
| EvMain (r : Request)
| EvAdmin (r : Request)
| EvSweep
| EvReload (c : Config).

(** The world a request finds: a blank response. *)
Definition begin (w : World) : World := set_resp (fun _ => fresh) w.

Definition app_step (w : World) (e : event) : World :=
  match e with
  | EvMain r => (Handler E r (begin w)).2
  | EvAdmin r => (AdminHandler E r (begin w)).2
  | EvSweep => (sweep_tick (now_at E) w).2
  | EvReload c => (Reload c w).2
  end.

Definition app_run (w : World) (es : list event) : World := foldl app_step w es.

(** The request of an event. *)
Definition event_req (e : event) : option Request :=
  match e with EvMain r => Some r | EvAdmin r => Some r | _ => None end.

Definition event_origin (w : World) (e : event) (g : Grant) : Prop :=
  exists r, event_req e = Some r /\ origin (begin w) r g.

Lemma handler_effect h w r : step_effect (origin w r) w (run_handler E h r w).2.
Proof.
  rewrite run_handler_eq. destruct h.
  - apply challenge_effect.
  - apply respond_effect.
  - apply enroll_effect.
  - apply register_effect.
  - apply authz_effect.
  - quiet.
  - apply admin_effect.
  - quiet.
Qed.

Lemma dispatch_effect rs w r : step_effect (origin w r) w (dispatch E rs r w).2.
Proof. unfold dispatch, Admin.dispatch. destruct (ServeMux _ _); [apply handler_effect|quiet]. Qed.

Lemma app_step_effect w e : effect (event_origin w e) (grants (srv w)) (grants (srv (app_step w e))).
Proof.
  destruct e as [r|r| |c]; cbn [app_step].
  - apply (effect_mono (origin (begin w) r)); [intros g Hg; by exists r|].
    rewrite Handler_eq.
    destruct (muxWouldRedirect _); [by apply effect_eq|].
    destruct (mux (srv (begin w))) as [rs|]; [exact (proj1 (dispatch_effect rs (begin w) r))|by apply effect_eq].
  - apply (effect_mono (origin (begin w) r)); [intros g Hg; by exists r|].
    rewrite AdminHandler_eq.
    destruct (bool_decide _); [by apply effect_eq|]. exact (proj1 (dispatch_effect adminMux (begin w) r)).
  - unfold sweep_tick. bind_run. apply effect_sweep.
  - apply effect_eq. unfold Reload, act, reload. destruct (MakeRegistry c); [|done].
    destruct (negb _); [done|]. by destruct (negb _).
Qed.

(** The routing table is the current configuration's, and the registry is
    the current configuration's. *)
Definition in_sync (w : World) : Prop :=
  mux (srv w) = Some (buildMuxLocked (cfg (srv w))) /\ MakeRegistry (cfg (srv w)) = Ok (reg (srv w)).

Lemma table_sync w w' : table w' = table w -> in_sync w -> in_sync w'.
Proof. unfold table, in_sync. intros H. injection H as -> -> ->. done. Qed.

Lemma app_step_sync w e : in_sync w -> in_sync (app_step w e).
Proof.
  destruct e as [r|r| |c]; cbn [app_step].
  - apply table_sync. rewrite Handler_eq.
    destruct (muxWouldRedirect _); [done|].
    destruct (mux (srv (begin w))) as [rs|]; [exact (proj2 (dispatch_effect rs (begin w) r))|done].
  - apply table_sync. rewrite AdminHandler_eq.
    destruct (bool_decide _); [done|]. exact (proj2 (dispatch_effect adminMux (begin w) r)).
  - done.
  - unfold Reload, act, reload. destruct (MakeRegistry c) eqn:Hr; [|done].
    destruct (negb _); [done|]. by destruct (negb _).
Qed.

Lemma app_run_sync w es : in_sync w -> in_sync (app_run w es).
Proof.
  intros H. induction es as [|e es IH] using rev_ind; [done|].
  unfold app_run in *. rewrite foldl_app. by apply app_step_sync.
Qed.

Lemma app_run_grants w es :
  wf (grants (srv w)) -> Store.grants (grants (srv w)) = ∅ ->
  wf (grants (srv (app_run w es))) /\
  forall k g, Store.grants (grants (srv (app_run w es))) !! k = Some g ->
    exists before e after, es = before ++ e :: after /\ event_origin (app_run w before) e g.
Proof.
  intros Hwf He. induction es as [|e es [IHwf IH]] using rev_ind.
  - split; [done|]. intros k g. cbn. by rewrite He, lookup_empty.
  - unfold app_run in *. rewrite foldl_app. cbn [foldl].
    destruct (app_step_effect (foldl app_step w es) e IHwf) as [Hwf' Hg]. split; [done|].
    intros k g Hk. destruct (Hg k g Hk) as [Hk'|Ho].
    + destruct (IH k g Hk') as (before & e' & after & -> & Ho).
      exists before, e', (after ++ [e]). by rewrite <- app_assoc.
    + exists es, e, []. done.
Qed.
End history.


(** A reload that is refused changes nothing; one that is accepted keeps every
    grant, nonce, code and counter. *)
Definition live_state (w : World) :=
  (grants (srv w), nonces (srv w), codes (srv w), nonceKey (srv w), rl (srv w), mtr (srv w)).

Lemma NewServer_start c draw s :
  NewServer c draw = Some s -> wf (grants s) /\ Store.grants (grants s) = ∅ /\
    forall w, srv w = Handler_init s -> in_sync w.
Proof.
  unfold NewServer. destruct (MakeRegistry c) as [rg|e] eqn:Hr; [|done].
  intros (nk & _ & [= <-])%bind_Some. split; [apply wf_NewGrantStore|]. split; [done|].
  intros w Hw. unfold in_sync. rewrite Hw. by split.
Qed.

(** ** Properties *)

(** Access always has a lawful origin.  Take any run of the Authorizer from
    a fresh start: any requests on either listener, sweeps and reloads.  If
    [/authz] lets a request through to a gated path, then the run contains an
    earlier request that put the grant it rides on: a knock with a fresh nonce
    of this server, a valid proof under a registered, live, allowed token, or an
    authenticated admin grant; the grant is for this very client and service,
    has not expired, and its token still authorizes it now. *)
Theorem access_has_origin E c draw s w0 es r
    (Hnew : NewServer c draw = Some s) (Hw0 : srv w0 = Handler_init s)
    (Hpass : status (resp (authz E r (begin (app_run E w0 es))).2) = StatusNoContent) :
  let w := begin (app_run E w0 es) in
  exists x, ctx_of E (cfg (srv w)) r = Some x /\
    (is_endpoint (URIPrefix (cfg (srv w))) (uri x) = true \/
     exists g before e after,
       es = before ++ e :: after /\ event_origin E (app_run E w0 before) e g /\
       admits g (service x) (ip x) (Some (reg (srv w))) (now_at E (ticks w))
         (default [] (RCookie r GrantCookieName)) /\
       (bound x = true -> gBinding g = BindingIPCookie)).
Proof.
  cbv zeta. apply authz_204 in Hpass; [|done]. unfold authz_pass in Hpass. apply andb_true_iff in Hpass as [_ Hpass].
  destruct (ctx_of E _ r) as [x|]; [|done]. exists x. split; [done|].
  apply orb_true_iff in Hpass as [He|Hpass]; [by left|right]. bool_prop.
  unfold honored in H0. destruct (IsAllowed _ _ _ _ _ _) as [g|] eqn:Hg; [|done].
  cbn [mbind option_bind] in H0. destruct (bound x && _) eqn:Hb; [done|].
  apply IsAllowed_iff in Hg as [Hc Ha].
  destruct (candidate_lookup _ _ _ _ _ Hc) as [k Hk].
  destruct (NewServer_start _ _ _ Hnew) as (Hwf & Hempty & _).
  assert (Hs : grants (srv w0) = grants s) by (rewrite Hw0; unfold Handler_init; by destruct (mux s)).
  rewrite <- Hs in Hwf, Hempty.
  destruct (app_run_grants E w0 es Hwf Hempty) as [_ Ho].
  destruct (Ho k g Hk) as (before & e & after & -> & Horig).
  exists g, before, e, after. split; [done|]. split; [done|]. split; [done|].
  intros Hbx. rewrite Hbx in Hb. cbn [andb] in Hb. by bool_prop.
Qed.

(** Through any run, reloads included, the routing table and the registry
    are those of the configuration in force: a reload swaps all three together,
    or, when it is refused, none, and never drops a grant, a spent nonce or a
    code. *)
Theorem reload_in_sync E c draw s w0 es c' (Hnew : NewServer c draw = Some s)
    (Hw0 : srv w0 = Handler_init s) :
  let w := app_run E w0 es in
  in_sync w /\ in_sync (Reload c' w).2 /\ live_state (Reload c' w).2 = live_state w /\
  ((Reload c' w).1 = Ok tt -> cfg (srv (Reload c' w).2) = c') /\
  ((Reload c' w).1 <> Ok tt -> (Reload c' w).2 = w).
Proof.
  cbv zeta. destruct (NewServer_start _ _ _ Hnew) as (_ & _ & Hsync).
  pose proof (app_run_sync E w0 es (Hsync w0 Hw0)) as Hw.
  set (w := app_run E w0 es) in *. clearbody w.
  split; [done|]. split; [exact (app_step_sync E w (EvReload c') Hw)|].
  destruct w as [s' i j rs]. unfold Reload, act, reload. cbn [srv ticks draws resp].
  destruct (MakeRegistry c') as [rg|e]; [|done].
  destruct (negb (bool_decide (Listen c' = _))); [done|].
  by destruct (negb (bool_decide (AdminListen c' = _))).
Qed.

(** ** Witnesses *)

Definition ex_started : Server :=
  match NewServer ex_final (fun _ => Some ex_nk) with Some s => s | None => ex_server end.

Lemma ex_started_ok : NewServer ex_final (fun _ => Some ex_nk) = Some ex_started.
Proof.
  unfold ex_started.
  assert (H : match NewServer ex_final (fun _ => Some ex_nk) with Some _ => true | None => false end = true)
    by (vm_compute; reflexivity).
  by destruct (NewServer _ _).
Qed.

Definition ex_start : World :=
  {| srv := Handler_init ex_started; ticks := 0; draws := 0; resp := fresh |}.

Lemma access_has_origin_witness :
  exists x, ctx_of ex_env ex_final ex_return = Some x.
Proof.
  assert (Hp : status (resp (authz ex_env ex_return
    (begin (app_run ex_env ex_start [EvMain ex_knock]))).2) = StatusNoContent)
    by (vm_compute; reflexivity).
  destruct (access_has_origin ex_env ex_final (fun _ => Some ex_nk) ex_started ex_start [EvMain ex_knock]
    ex_return ex_started_ok eq_refl Hp) as (x & Hx & _).
  exists x. vm_compute in Hx. vm_compute. exact Hx.
Defined.

Lemma reload_in_sync_witness : in_sync (app_run ex_env ex_start [EvReload ex_final; EvSweep]).
Proof.
  apply (reload_in_sync ex_env ex_final (fun _ => Some ex_nk) ex_started ex_start
    [EvReload ex_final; EvSweep] ex_final ex_started_ok eq_refl).
Defined.
