(* ===== verification/Concurrent.v ===== *)
(** * Concurrent: the Authorizer as a machine of threads.

    The Authorizer serves each request on a goroutine of its own, beside the
    sweeper and the signal loop.  What they share is behind locks, so a run is an
    interleaving of the operations of [Ops], each atomic, at any time and with any
    randomness: a system of [Threads] whose threads are requests, and whose
    environment is the sweeper, one store at a time, and reloads. *)

From S2P Require Import Prelude GoStrings Json Wire Base64 Sha256 Crypto ServerName CanonIP NetIP Registry RateLimit.
From S2P Require Import Store StoreHistory Http Threads Config GoPath RealIP Server Admin Prog App AppHistory.
From S2P Require NonceStore EnrollStore.
Import strings netip.

(** ** Events *)

(** An operation that was served, with its answer. *)
Inductive event :=
| EConfig (c : Config)
| ERegistry (rg : Registry)
| ENonceKey (nk : bytes)
| ENow (t : Z)
| ERandom (n : nat) (rnd : option bytes)
| EAllow (key : bytes) (limit t : Z) (ok : bool)
| EClaim (id : bytes) (t ttl : Z) (ok : bool)
| EPut (g : Grant) (old : list bytes)
| EIsAllowed (svc ip : bytes) (rg : Registry) (t : Z) (cookie : bytes) (g : option Grant)
| EList (t : Z) (gs : list Grant)
| ERevoke (svc ip : bytes) (ok : bool)
| ERevokeToken (kid : bytes) (n : Z)
| EPeek (code : bytes) (t : Z) (c : option EnrollStore.EnrollCode)
| EConsume (code : bytes) (t : Z) (c : option EnrollStore.EnrollCode)
| EPutCode (code : bytes) (c : EnrollStore.EnrollCode)
| ECount (k : metric)
| ECounters (m : metrics)
| ERouting (rs : option routes)
| EOut (f : Response -> Response).

Definition event_of {B} (o : op B) : B -> event :=
  match o with
  | OConfig => EConfig
  | ORegistry => ERegistry
  | ONonceKey => ENonceKey
  | ONow => ENow
  | ORandom n => ERandom n
  | OAllow key limit t => EAllow key limit t
  | OClaim id t ttl => EClaim id t ttl
  | OPut g old => fun _ => EPut g old
  | OIsAllowed svc ip rg t cookie => EIsAllowed svc ip rg t cookie
  | OList t => EList t
  | ORevoke svc ip => ERevoke svc ip
  | ORevokeToken kid => ERevokeToken kid
  | OPeek code t => EPeek code t
  | OConsume code t => EConsume code t
  | OPutCode code c => fun _ => EPutCode code c
  | OCount k => fun _ => ECount k
  | OCounters => ECounters
  | ORouting => ERouting
  | OOut f => fun _ => EOut f
  end.

(** The answer of an event is the server's, in the state [s]. *)
Definition holds (e : event) (s : Server) : Prop :=
  match e with
  | EConfig c => cfg s = c
  | ERegistry rg => reg s = rg
  | ENonceKey nk => nonceKey s = nk
  | EAllow key limit t ok => (Allow (rl s) key limit t).1 = ok
  | EClaim id t ttl ok => (NonceStore.Claim (nonces s) id t ttl).1 = ok
  | EIsAllowed svc ip rg t cookie g => IsAllowed (grants s) svc ip (Some rg) t cookie = g
  | EList t gs => List (grants s) t = gs
  | ERevoke svc ip ok => (Revoke (grants s) svc ip).1 = ok
  | ERevokeToken kid n => (RevokeToken (grants s) kid).1 = n
  | EPeek code t c => EnrollStore.Peek (codes s) code t = c
  | EConsume code t c => (EnrollStore.Consume (codes s) code t).1 = c
  | ECounters m => mtr s = m
  | ERouting rs => mux s = rs
  | ENow _ | ERandom _ _ | EPut _ _ | EPutCode _ _ | ECount _ | EOut _ => True
  end.

Definition apply (e : event) (s : Server) : Server :=
  match e with
  | EAllow key limit t _ => set_rl (Allow (rl s) key limit t).2 s
  | EClaim id t ttl _ => set_nonces (NonceStore.Claim (nonces s) id t ttl).2 s
  | EPut g old => set_grants (Put (grants s) (Some g) old) s
  | ERevoke svc ip _ => set_grants (Revoke (grants s) svc ip).2 s
  | ERevokeToken kid _ => set_grants (RevokeToken (grants s) kid).2 s
  | EConsume code t _ => set_codes (EnrollStore.Consume (codes s) code t).2 s
  | EPutCode code c => set_codes (EnrollStore.Put (codes s) code c) s
  | ECount k => set_mtr (inc (mtr s) k) s
  | _ => s
  end.

Definition answer (e : event) (w : Response) : Response :=
  match e with EOut f => f w | _ => w end.

(** An operation on a world is its event. *)
Lemma perform_event now_at rand_at {B} (o : op B) w :
  let '(b, w') := perform (Ops0 := world_ops now_at rand_at) o w in
  holds (event_of o b) (srv w) /\ srv w' = apply (event_of o b) (srv w) /\
  resp w' = answer (event_of o b) (resp w).
Proof.
  destruct o; cbn [perform world_ops config registry nonce_key now random allow_at claim put_grant is_allowed
    list_grants revoke revoke_token peek consume put_code count counters routing out]; unfold act; try done.
  - by destruct (Allow _ _ _ _) eqn:E; cbn; rewrite E.
  - by destruct (NonceStore.Claim _ _ _ _) eqn:E; cbn; rewrite E.
  - by destruct (Revoke _ _ _) eqn:E; cbn; rewrite E.
  - by destruct (RevokeToken _ _) eqn:E; cbn; rewrite E.
  - by destruct (EnrollStore.Consume _ _ _) eqn:E; cbn; rewrite E.
Qed.

(** An operation on the server and on the response of its request, at a time and
    with a source of randomness. *)
Definition on_server {B} (o : op B) (t : Z) (rnd : nat -> option bytes) (s : Server) (rs : Response)
    : B * Server * Response :=
  let '(b, w) := perform (Ops0 := world_ops (fun _ => t) (fun _ => rnd)) o (mkWorld s 0 0 rs) in
  (b, srv w, resp w).

Lemma on_server_event B (o : op B) t rnd s rs :
  let '(b, s', rs') := on_server o t rnd s rs in
  holds (event_of o b) s /\ s' = apply (event_of o b) s /\ rs' = answer (event_of o b) rs.
Proof.
  unfold on_server. pose proof (perform_event (fun _ => t) (fun _ => rnd) o (mkWorld s 0 0 rs)) as H.
  by destruct (perform (Ops0 := world_ops (fun _ => t) (fun _ => rnd)) o _).
Qed.

(** The clock and the generator matter to the one operation that asks them. *)
Lemma perform_on_server now_at rand_at B (o : op B) w :
  exists t rnd, on_server o t rnd (srv w) (resp w) =
    let '(b, w') := perform (Ops0 := world_ops now_at rand_at) o w in (b, srv w', resp w').
Proof.
  exists (now_at (ticks w)), (rand_at (draws w)). unfold on_server. destruct w as [s tk dr rs].
  destruct o; cbn [perform world_ops config registry nonce_key now random allow_at claim put_grant is_allowed
    list_grants revoke revoke_token peek consume put_code count counters routing out]; unfold act, read_clock;
    cbn [srv ticks draws resp]; try done.
  - by destruct (Allow _ _ _ _).
  - by destruct (NonceStore.Claim _ _ _ _).
  - by destruct (Revoke _ _ _).
  - by destruct (RevokeToken _ _).
  - by destruct (EnrollStore.Consume _ _ _).
Qed.

(** ** The Authorizer as a machine *)

(** One of the four sweeps of a tick, at the time the tick read. *)
Definition sweep_one (k : store) (t : Z) (s : Server) : Server :=
  match k with
  | KGrants => set_grants (Store.Sweep (grants s) t).2 s
  | KNonces => set_nonces (NonceStore.Sweep (nonces s) t).2 s
  | KCodes => set_codes (EnrollStore.Sweep (codes s) t).2 s
  | KRates => set_rl (RateLimit.Sweep (rl s) t).2 s
  end.

Definition a_tick (t : Z) : list (store * Z) :=
  [(KGrants, t); (KNonces, t); (KCodes, t); (KRates, t)].

(** What goes on beside the requests: the sweeper starts a tick when the last is
    done, it does the next of its sweeps, the signal loop reloads. *)
Inductive choice :=
| Tick (t : Z)
| NextSweep
| ReloadTo (c : Config).

Inductive action :=
| ASweep (k : store) (t : Z)
| AReload (c : Config).

Definition go (c : choice) (pending : list (store * Z)) : option (option action * list (store * Z)) :=
  match c, pending with
  | Tick t, [] => Some (None, a_tick t)
  | NextSweep, (k, t) :: rest => Some (Some (ASweep k t), rest)
  | ReloadTo c, _ => Some (Some (AReload c), pending)
  | _, _ => None
  end.

Definition take_action (a : action) (s : Server) : Server :=
  match a with
  | ASweep k t => sweep_one k t s
  | AReload c => (reload c s).2
  end.

(** A request, and whether it is on the admin listener. *)
Definition code_of (E : Env) (q : Request * bool) : prog op unit :=
  let '(r, adm) := q in
  if adm then Admin.AdminHandler (url_Parse E) r else Admin.Handler (url_Parse E) r.

Definition authorizer (E : Env)
    : machine op event Server Response (Request * bool) unit (list (store * Z)) choice action := {|
  m_blank := fresh;
  m_code := code_of E;
  m_event := @event_of;
  m_exec := @on_server;
  m_holds := holds;
  m_apply := apply;
  m_answer := answer;
  m_exec_event := on_server_event;
  m_go := go;
  m_act := take_action |}.

Notation entry := (entry event action).
Notation thread := (thread op Response (Request * bool) unit).
Notation system := (system op event Server Response (Request * bool) unit (list (store * Z)) action).
Notation wlp := (wlp (@event_of)).
Notation calm G := (calm (@event_of) G).
Notation reachable E s := (reachable (authorizer E) s []).
Notation response E := (response (authorizer E)).
Notation replay E := (replay (authorizer E)).
Notation LSweep k t := (LAct (ASweep k t)).
Notation LReload c := (LAct (AReload c)).
