(* ===== verification/Overlap.v ===== *)
(** * Overlap: what holds when requests overlap.

    [guard] says what a request has done before it burns a nonce, stores a grant or
    makes a code, [ended] what it has done when it ends; every handler meets both,
    whatever the other requests do in between.  The theorems lift this to systems:
    access has a lawful origin, a nonce is redeemed once, a code is traded once,
    and the runs of [AppHistory], where requests do not overlap, are among these. *)

From S2P Require Import Prelude GoStrings Json Wire Base64 Sha256 Crypto ServerName CanonIP NetIP Registry RateLimit.
From S2P Require Import Store StoreHistory Http Threads Ledger Config GoPath RealIP Server Admin Prog App AppHistory Concurrent.
From S2P Require NonceStore EnrollStore.
Import strings netip.

Section overlap.
Variable (E : Env).

(** ** What a request has checked *)

(** A knock that holds up: the context and the settings it was judged by are
    answers the request got, not those of one moment. *)
Record verified (r : Request) (h : list event) (c : reqCtx) (cf : Config) (kid nonceRaw rnd : bytes)
    (token : Token) (t : Z) : Prop := {
  v_ctx : exists cf0, EConfig cf0 ∈ h /\ ctx_of E cf0 r = Some c;
  v_known : known c = true;
  v_method : Method r = MethodPost;
  v_config : EConfig cf ∈ h;
  v_rate : exists t0, EAllow (RateKey (service c) (ip c)) (Config.RateLimit cf) t0 true ∈ h;
  v_now : ENow t ∈ h;
  v_nonce : exists nk, ENonceKey nk ∈ h /\
    VerifyNonce nk nonceRaw (service c) (ip c) t (NonceTTL cf) (IPv6Prefix cf) = Some rnd;
  v_token : exists rg, ERegistry rg ∈ h /\ Authorize (Some rg) kid (service c) t = Ok token;
  v_proof : exists body tag, json_respond 4096 (Body r) = Some body /\ rbKid body = kid /\
    B64uDecode (rbNonce body) = Some nonceRaw /\ B64uDecode (rbProof body) = Some tag /\
    VerifyProof (Secret token) (service c) kid nonceRaw tag = true }.

Definition claimed_by (r : Request) (h : list event) (id : bytes) (t ttl : Z) : Prop :=
  exists c cf kid nonceRaw rnd token,
    verified r h c cf kid nonceRaw rnd token t /\ id = B64u rnd /\ ttl = NonceTTL cf.

Definition knock_minted (r : Request) (h : list event) (g : Grant) : Prop :=
  exists c cf kid nonceRaw rnd token t hash,
    verified r h c cf kid nonceRaw rnd token t /\
    EClaim (B64u rnd) t (NonceTTL cf) true ∈ h /\
    (if bound c then exists raw, ERandom 32 (Some raw) ∈ h /\ hash = CookieHash (B64u raw) else hash = []) /\
    g = minted c cf kid token t hash.

Definition admin_minted (r : Request) (h : list event) (g : Grant) : Prop :=
  exists cf cf' rg body ip t,
    EConfig cf ∈ h /\ admin_ok cf r = true /\ URLPath r = lit "/admin/grant" /\ Method r = MethodPost /\
    EConfig cf' ∈ h /\ ERegistry rg ∈ h /\ ENow t ∈ h /\
    json_grantBody 65536 (Body r) = Some body /\
    CanonIP (gbIP body) (IPv6Prefix cf') 32 = Ok ip /\ CanonServerName (gbService body) <> [] /\
    let kid := if bool_decide (gbKid body = []) then manual_kid else gbKid body in
    g = {| gV := 1; gKid := kid; gService := CanonServerName (gbService body); gIP := ip;
           gBinding := BindingIP; gCookieHash := []; gIssued := t;
           gExp := i64 (t + if gbTTL body <=? 0 then GrantTTL cf' else gbTTL body);
           gManual := bool_decide (gbKid body = []);
           gSecretFP := Fingerprint (Lookup (Some rg) kid) |}.

(** An operator made the code: the admin call, past its checks, for a known kid. *)
Definition code_made (r : Request) (h : list event) (code : bytes) (c : EnrollStore.EnrollCode) : Prop :=
  exists cf cf' rg body token rnd t,
    EConfig cf ∈ h /\ admin_ok cf r = true /\ URLPath r = lit "/admin/enroll-code" /\ Method r = MethodPost /\
    json_codeBody 65536 (Body r) = Some body /\ ERegistry rg ∈ h /\
    Lookup (Some rg) (cbKid body) = Some token /\ EConfig cf' ∈ h /\
    ERandom 12 (Some rnd) ∈ h /\ code = B64u rnd /\ ENow t ∈ h /\
    c = {| EnrollStore.ecKid := cbKid body; EnrollStore.ecOrigins := slice_list (cbOrigins body);
           EnrollStore.ecExp := i64 (t + clamp_code_ttl cf' (cbTTL body)) |}.

Definition guard (r : Request) (h : list event) (e : event) : Prop :=
  match e with
  | EClaim id t ttl _ => claimed_by r h id t ttl
  | EPut g _ => knock_minted r h g \/ admin_minted r h g
  | EPutCode code c => code_made r h code c
  | _ => True
  end.

Lemma verified_mono r h h' c cf kid nonceRaw rnd token t :
  h ⊆ h' -> verified r h c cf kid nonceRaw rnd token t -> verified r h' c cf kid nonceRaw rnd token t.
Proof.
  intros Hs [(cf0 & H1 & ?) ? ? H2 (t0 & H3) H4 (nk & H5 & ?) (rg & H6 & ?) ?].
  split; try done; repeat esplit; try done; by apply Hs.
Qed.

(** ** Programs that burn nothing and store nothing *)

Section calm.
Variable (r : Request).

Notation calm := (calm (guard r)).

Lemma resolve_calm : calm (resolve (url_Parse E) r).
Proof. unfold resolve. calming. Qed.
Lemma deny_calm x : calm (deny x).
Proof. unfold deny. calming. Qed.
Lemma authzDeny_calm x : calm (authzDeny x).
Proof. unfold authzDeny. calming. Qed.
Hint Resolve resolve_calm deny_calm authzDeny_calm : calm.
Lemma knockFail_calm x : calm (knockFail x).
Proof. unfold knockFail. calming. Qed.
Lemma rate_allow_calm c limit : calm (rate_allow c limit).
Proof. unfold rate_allow. calming. Qed.
Hint Resolve knockFail_calm rate_allow_calm : calm.
Lemma challenge_calm : calm (handleChallenge (url_Parse E) r).
Proof. unfold handleChallenge. calming. Qed.
Lemma enroll_calm : calm (handleEnroll (url_Parse E) r).
Proof. unfold handleEnroll. calming. Qed.
Lemma register_calm : calm (handleRegister (url_Parse E) r).
Proof. unfold handleRegister. calming. Qed.
Lemma authz_calm : calm (handleAuthz (url_Parse E) r).
Proof. unfold handleAuthz. cbv zeta. calming. Qed.
Lemma writeJSON_calm code v : calm (writeJSON code v).
Proof. unfold writeJSON. calming. Qed.
Hint Resolve writeJSON_calm : calm.
Lemma bad_request_calm msg : calm (bad_request msg).
Proof. unfold bad_request. calming. Qed.
Hint Resolve bad_request_calm : calm.
Lemma decodeJSON_calm {A} (dec : Z -> bytes -> option A) : calm (decodeJSON dec r).
Proof. unfold decodeJSON. calming. Qed.
Hint Resolve decodeJSON_calm : calm.
Lemma adminGrants_calm : calm adminGrants.
Proof. unfold adminGrants. cbv zeta. calming. Qed.
Lemma adminRevoke_calm : calm (adminRevoke r).
Proof. unfold adminRevoke. cbv zeta. calming. Qed.
Lemma adminRevokeToken_calm : calm (adminRevokeToken r).
Proof. unfold adminRevokeToken. calming. Qed.
Lemma out_calm f : calm (out f).
Proof. calming. Qed.
End calm.

(** One operation of the program, with its answer. *)
Ltac next x := apply wlp_op; intros x; split; [exact I|cbn [event_of]].

Ltac calmly := solve [apply calm_wlp; eauto using deny_calm, knockFail_calm, bad_request_calm, writeJSON_calm, out_calm].

Lemma wlp_resolve {A} r h (f : option reqCtx -> prog op A) Q :
  (forall c, wlp (guard r) (EConfig c :: h) (f (ctx_of E c r)) Q) ->
  wlp (guard r) h (resolve (url_Parse E) r ≫= f) Q.
Proof.
  intros H. apply wlp_bind. unfold resolve. next c. specialize (H c). unfold ctx_of in H.
  destruct (ClientIP c r) as [[a|e] b]; [|done]. destruct (bool_decide (a = [])); [done|].
  destruct (resolveTarget (url_Parse E) c r) as [[s u]|]; [|done].
  destruct (bool_decide (s = [])); [done|]. by destruct (Service c s).
Qed.

Lemma wlp_rate {A} r h c limit (f : bool -> prog op A) Q :
  (forall t ok, wlp (guard r) (EAllow (RateKey (service c) (ip c)) limit t ok :: ENow t :: h) (f ok) Q) ->
  wlp (guard r) h (rate_allow c limit ≫= f) Q.
Proof. intros H. apply wlp_bind. unfold rate_allow. next t. intros ok. split; [exact I|apply H]. Qed.

(** ** The knock *)

Lemma finish_wlp r h c cf kid nonceRaw rnd token t hash old :
  verified r h c cf kid nonceRaw rnd token t -> EClaim (B64u rnd) t (NonceTTL cf) true ∈ h ->
  (if bound c then exists raw, ERandom 32 (Some raw) ∈ h /\ hash = CookieHash (B64u raw) else hash = []) ->
  wlp (guard r) h (put_grant (minted c cf kid token t hash) old ;; count MKnockOK ;;
    header "Cache-Control" "no-store" ;; out (r_status StatusNoContent)) (fun _ _ => True).
Proof.
  intros Hv Hc Hh. apply wlp_op. intros []. split; [left; do 8 eexists; eauto|].
  do 3 (intros []; split; [exact I|]). done.
Qed.

Lemma mint_wlp r h c cf kid nonceRaw rnd token t :
  verified r h c cf kid nonceRaw rnd token t -> EClaim (B64u rnd) t (NonceTTL cf) true ∈ h ->
  wlp (guard r) h (mint r c cf kid token t) (fun _ _ => True).
Proof.
  intros Hv Hc. unfold mint. cbv zeta. fold (bound c).
  destruct (bound c) eqn:Hb.
  - next raw. destruct raw as [raw|]; [|calmly]. next u.
    eapply (finish_wlp r _ c cf kid nonceRaw rnd token t (CookieHash (B64u raw))).
    + eapply verified_mono; [|exact Hv]. set_solver.
    + set_solver.
    + rewrite Hb. exists raw. split; [recent|done].
  - eapply (finish_wlp r _ c cf kid nonceRaw rnd token t []); [done|done|by rewrite Hb].
Qed.

Lemma respond_wlp r h : wlp (guard r) h (handleRespond (url_Parse E) r) (fun _ _ => True).
Proof.
  unfold handleRespond. apply wlp_resolve. intros cf0.
  destruct (ctx_of E cf0 r) as [c|] eqn:Hctx; [|calmly].
  destruct (known c) eqn:Hk; cbn [negb]; [|calmly].
  destruct (bool_decide (Method r = MethodPost)) eqn:Hm; cbn [negb]; [|calmly].
  next cf. apply wlp_rate. intros t0 ok. destruct ok; cbn [negb]; [|calmly].
  destruct (json_respond 4096 (Body r)) as [body|] eqn:Hj; [|calmly].
  destruct (B64uDecode (rbNonce body)) as [nr|] eqn:Hn; [|calmly].
  destruct (B64uDecode (rbProof body)) as [tag|] eqn:Hp; [|calmly].
  destruct (_ || _); [calmly|].
  next t. next nk. destruct (VerifyNonce _ _ _ _ _ _ _) as [rnd|] eqn:Hv; [|calmly].
  next rg. cbv zeta. destruct (Authorize _ _ _ _) as [token|e] eqn:Ha; [|calmly].
  destruct (VerifyProof _ _ _ _ _) eqn:Hvp; cbn [negb]; [|calmly]. bool_prop.
  match goal with |- wlp _ ?h0 _ _ =>
    assert (Hver : verified r h0 c cf (rbKid body) nr rnd token t) end.
  { split; [exists cf0; split; [recent|done]|done|done|recent|exists t0; recent|recent
      |exists nk; split; [recent|done]|exists rg; split; [recent|done]|by exists body, tag]. }
  apply wlp_op. intros first. split; [by do 6 eexists|]. cbn [event_of].
  destruct first; cbn [negb]; [|calmly].
  eapply mint_wlp; [|recent]. eapply verified_mono; [|exact Hver]. set_solver.
Qed.

(** ** The admin API *)

Lemma adminGrant_wlp r h cf :
  EConfig cf ∈ h -> admin_ok cf r = true -> URLPath r = lit "/admin/grant" ->
  wlp (guard r) h (adminGrant r) (fun _ _ => True).
Proof.
  intros Hcf Ha Hp. unfold adminGrant, decodeJSON.
  destruct (bool_decide (Method r = MethodPost)) eqn:Hm; cbn [negb]; [bool_prop|apply wlp_bind; by next u].
  destruct (json_grantBody 65536 (Body r)) as [body|] eqn:Hj;
    [|apply wlp_bind, wlp_bind; eapply wlp_mono; [|apply bad_request_calm]; done].
  next cf'. cbv zeta. destruct (CanonIP _ _ _) as [ip|e] eqn:Hi; [|calmly].
  destruct (bool_decide (CanonServerName (gbService body) = [])) eqn:Hs; [calmly|]. bool_prop.
  next t. next rg. apply wlp_op. intros []. split; [|calmly].
  right. exists cf, cf', rg, body, ip, t. split; [set_solver|]. repeat (split; [done || recent|]). done.
Qed.

Lemma adminEnrollCode_wlp r h cf :
  EConfig cf ∈ h -> admin_ok cf r = true -> URLPath r = lit "/admin/enroll-code" ->
  wlp (guard r) h (adminEnrollCode r) (fun _ _ => True).
Proof.
  intros Hcf Ha Hp. unfold adminEnrollCode, decodeJSON.
  destruct (bool_decide (Method r = MethodPost)) eqn:Hm; cbn [negb]; [bool_prop|apply wlp_bind; by next u].
  destruct (json_codeBody 65536 (Body r)) as [body|] eqn:Hj;
    [|apply wlp_bind, wlp_bind; eapply wlp_mono; [|apply bad_request_calm]; done].
  next rg. destruct (Lookup (Some rg) (cbKid body)) as [token|] eqn:Hl; [|calmly].
  next cf'. cbv zeta. next rnd. destruct rnd as [rnd|]; [|calmly].
  next t. apply wlp_op. intros []. split; [|calmly].
  exists cf, cf', rg, body, token, rnd, t. split; [set_solver|]. repeat (split; [done || recent|]). done.
Qed.

Lemma admin_wlp r h : wlp (guard r) h (handleAdmin r) (fun _ _ => True).
Proof.
  unfold handleAdmin. next cf. destruct (trusted_peer cf r) eqn:Ht; cbn [negb]; [|calmly].
  destruct (bool_decide (AdminToken cf = [])) eqn:Hn; [calmly|].
  destruct (bool_decide (TrimPrefix _ _ = _)) eqn:Hb; cbn [negb]; [|calmly].
  assert (Hok : admin_ok cf r = true) by (unfold admin_ok; by rewrite Ht, Hn, Hb).
  cbv zeta. destruct (bool_decide (URLPath r = lit "/admin/grants")); [apply calm_wlp, adminGrants_calm|].
  destruct (bool_decide (URLPath r = lit "/admin/grant")) eqn:Hp;
    [bool_prop; apply (adminGrant_wlp _ _ cf); [recent|done|done]|].
  destruct (bool_decide (URLPath r = lit "/admin/revoke")); [apply calm_wlp, adminRevoke_calm|].
  destruct (bool_decide (URLPath r = lit "/admin/revoke-token")); [apply calm_wlp, adminRevokeToken_calm|].
  destruct (bool_decide (URLPath r = lit "/admin/enroll-code")) eqn:Hc;
    [bool_prop; apply (adminEnrollCode_wlp _ _ cf); [recent|done|done]|].
  destruct (bool_decide (URLPath r = lit "/admin/metrics")); [|calmly].
  next m. calmly.
Qed.

(** ** How a request ends *)

(** The subrequest was let through: to an endpoint, or on a grant. *)
Definition authz_passed (r : Request) (h : list event) : Prop :=
  exists cf0 cf1 cf x, EConfig cf0 ∈ h /\ trusted_peer cf0 r = true /\
    EConfig cf1 ∈ h /\ ctx_of E cf1 r = Some x /\ EConfig cf ∈ h /\
    (is_endpoint (URIPrefix cf) (uri x) = true \/
     known x = true /\ exists rg t g, ERegistry rg ∈ h /\ ENow t ∈ h /\
       EIsAllowed (service x) (ip x) rg t (default [] (RCookie r GrantCookieName)) (Some g) ∈ h /\
       (bound x = true -> gBinding g = BindingIPCookie)).

(** The code of the request was traded for a secret. *)
Definition code_traded (r : Request) (h : list event) : Prop :=
  exists code t ec rg token, json_enroll 4096 (Body r) = Some code /\
    EConsume code t (Some ec) ∈ h /\ ERegistry rg ∈ h /\
    Lookup (Some rg) (EnrollStore.ecKid ec) = Some token.

(** The response is still open. *)
Definition unanswered (h : list event) : Prop := status (response E h) = 0.

Lemma status_interstitial w : status w = 0 -> status (interstitial w) = StatusForbidden.
Proof. intros H. unfold interstitial, r_write, r_status. cbn. rewrite H. done. Qed.

Lemma status_error msg code w : status w = 0 -> code <> 0 -> status (r_error msg code w) = code.
Proof.
  intros H Hc. unfold r_error, r_write. cbn [status].
  assert (Hs : status (r_status code (r_set (lit "X-Content-Type-Options") (lit "nosniff")
    (r_set (lit "Content-Type") (lit "text/plain; charset=utf-8") (r_del (lit "Content-Length") w)))) = code)
    by (by apply status_open).
  unfold r_status at 1. rewrite Hs, (proj2 (Z.eqb_neq _ _)) by done. exact Hs.
Qed.

Lemma authzDeny_ends r h x :
  unanswered h -> wlp (guard r) h (authzDeny x) (fun h' _ => status (response E h') = StatusForbidden).
Proof.
  intros Hh. unfold authzDeny. next cf. next u. destruct (bool_decide _); intros [];
    (split; [exact I|]); cbn [event_of Threads.wlp Threads.response foldr m_answer authorizer answer].
  - by apply status_open.
  - by apply status_interstitial.
Qed.

Lemma deny_ends r h x :
  unanswered h -> wlp (guard r) h (deny x) (fun h' _ => status (response E h') <> StatusNoContent).
Proof.
  intros Hh. unfold deny. next cf. destruct (bool_decide _).
  - intros []. split; [exact I|]. cbn [event_of Threads.wlp Threads.response foldr m_answer authorizer answer].
    unfold r_notfound. by rewrite status_error.
  - next u. intros []. split; [exact I|]. cbn [event_of Threads.wlp Threads.response foldr m_answer authorizer answer].
    by rewrite status_interstitial.
Qed.

Lemma refused_ends {A} r h (p : prog op A) (Q : list event -> A -> Prop) :
  wlp (guard r) h p (fun h' _ => status (response E h') <> StatusNoContent) ->
  wlp (guard r) h p (fun h' a => status (response E h') = StatusNoContent -> Q h' a).
Proof. apply wlp_mono. done. Qed.

Lemma authz_wlp r h : unanswered h ->
  wlp (guard r) h (handleAuthz (url_Parse E) r)
    (fun h' _ => status (response E h') = StatusNoContent -> authz_passed r h').
Proof.
  intros Hh. unfold handleAuthz. next cf0.
  assert (Hd : forall h' x, unanswered h' -> wlp (guard r) h' (authzDeny x)
    (fun h' _ => status (response E h') = StatusNoContent -> authz_passed r h')).
  { intros h' x Hu. apply refused_ends. eapply wlp_mono; [|by apply authzDeny_ends]. by intros ? ? ->. }
  destruct (trusted_peer cf0 r) eqn:Ht; cbn [negb].
  2: { intros []. split; [exact I|]. cbn [event_of Threads.wlp Threads.response foldr m_answer authorizer answer]. by rewrite status_error. }
  apply wlp_resolve. intros cf1. destruct (ctx_of E cf1 r) as [x|] eqn:Hx; [|by apply Hd].
  next cf. destruct (is_endpoint (URIPrefix cf) (uri x)) eqn:He.
  { intros []. split; [exact I|]. intros _. exists cf0, cf1, cf, x. repeat (split; [recent || done|]). by left. }
  destruct (known x) eqn:Hk; cbn [negb]; [|by apply Hd]. cbv zeta. next rg. next t. next found.
  destruct found as [g|]; [|next u; by apply Hd]. fold (bound x). destruct (bound x && _) eqn:Hb; next u; [by apply Hd|].
  next u'. intros []. split; [exact I|]. intros _. exists cf0, cf1, cf, x.
  do 5 (split; [recent || done|]). right. split; [done|]. exists rg, t, g. do 3 (split; [recent|]).
  intros Hbx. rewrite Hbx in Hb. cbn [andb] in Hb. by bool_prop.
Qed.

Lemma enroll_wlp r h : unanswered h ->
  wlp (guard r) h (handleEnroll (url_Parse E) r)
    (fun h' _ => status (response E h') = StatusNoContent -> code_traded r h').
Proof.
  intros Hh. unfold handleEnroll.
  assert (Hd : forall h' x, unanswered h' -> wlp (guard r) h' (deny x)
    (fun h' _ => status (response E h') = StatusNoContent -> code_traded r h')).
  { intros h' x Hu. by apply refused_ends, deny_ends. }
  apply wlp_resolve. intros cf0. destruct (ctx_of E cf0 r) as [c|] eqn:Hx; [|by apply Hd].
  destruct (known c) eqn:Hk; cbn [negb]; [|by apply Hd].
  destruct (bool_decide (Method r = MethodPost)) eqn:Hm; cbn [negb]; [|by apply Hd].
  next cf. apply wlp_rate. intros t0 ok. destruct ok; cbn [negb]; [|next u; by apply Hd].
  destruct (json_enroll 4096 (Body r)) as [code|] eqn:Hj; [|by apply Hd].
  destruct (bool_decide (code = [])); [by apply Hd|].
  next t1. next seen. apply wlp_bind.
  assert (Hgo : forall h', unanswered h' -> forall reg, wlp (guard r) h'
    (match reg : option Token with
     | None => count MKnockFail;; deny (Some c)
     | Some _ => t2 ← now; got ← consume code t2;
        match got with
        | None => count MKnockFail;; deny (Some c)
        | Some ec => rg ← registry;
            match Lookup (Some rg) (EnrollStore.ecKid ec) with
            | None => deny (Some c)
            | Some token =>
                headerb "X-JIT-Kid" (EnrollStore.ecKid ec);;
                headerb "X-JIT-Secret" (B64u (Secret token));;
                headerb "X-JIT-Origins" (Join (EnrollStore.ecOrigins ec) (lit ","));;
                header "Cache-Control" "no-store";; count MEnrollOK;; out (r_status StatusNoContent)
            end
        end
     end) (fun h' _ => status (response E h') = StatusNoContent -> code_traded r h')).
  { intros h' Hu [tk|]; [|next u; by apply Hd].
    next t2. next got. destruct got as [ec|]; [|next u; by apply Hd]. next rg.
    destruct (Lookup _ _) as [token|] eqn:Hl; [|by apply Hd].
    do 5 (let u := fresh "u" in next u). intros []. split; [exact I|]. intros _.
    exists code, t2, ec, rg, token. split; [done|]. do 2 (split; [recent|]). done. }
  destruct seen as [p|]; [next rg|]; by apply Hgo.
Qed.

(** What the end of a request on the main listener tells. *)
Definition ended (r : Request) (adm : bool) (h : list event) : Prop :=
  adm = false -> status (response E h) = StatusNoContent ->
  forall rs, last h = Some (ERouting (Some rs)) ->
    (ServeMux rs (EscapedPath r) = Routed HAuthz -> authz_passed r h) /\
    (ServeMux rs (EscapedPath r) = Routed HEnroll -> code_traded r h).

(** A trace that grew from [e] still begins with it. *)
Lemma suffix_last (e : event) h : [e] `suffix_of` h -> last h = Some e.
Proof. intros [l ->]. by rewrite last_snoc. Qed.

Lemma dispatch_wlp r rs :
  wlp (guard r) [ERouting (Some rs)] (Admin.dispatch (url_Parse E) rs r) (fun h _ => ended r false h).
Proof.
  set (h0 := [ERouting (Some rs)]).
  assert (Hgen : forall (p : prog op unit) (Q : list event -> Prop),
    wlp (guard r) h0 p (fun h _ => status (response E h) = StatusNoContent -> Q h) ->
    (forall h, Q h ->
       (ServeMux rs (EscapedPath r) = Routed HAuthz -> authz_passed r h) /\
       (ServeMux rs (EscapedPath r) = Routed HEnroll -> code_traded r h)) ->
    wlp (guard r) h0 p (fun h _ => ended r false h)).
  { intros p Q Hp HQ. eapply wlp_mono; [|exact (wlp_suffix _ _ _ _ _ Hp)]. cbn.
    intros h _ [Hq Hs] _ Hst rs' Hl. apply suffix_last in Hs. rewrite Hs in Hl. injection Hl as <-.
    by apply HQ, Hq. }
  assert (Hcalm : forall p : prog op unit, wlp (guard r) h0 p (fun _ _ => True) ->
    ServeMux rs (EscapedPath r) <> Routed HAuthz -> ServeMux rs (EscapedPath r) <> Routed HEnroll ->
    wlp (guard r) h0 p (fun h _ => ended r false h)).
  { intros p Hp H1 H2. apply (Hgen p (fun _ => True)); [|done].
    eapply wlp_mono; [|exact Hp]. done. }
  unfold Admin.dispatch. destruct (ServeMux rs (EscapedPath r)) as [[]|] eqn:Hr; cbn [Admin.run_handler].
  - apply Hcalm; [apply calm_wlp, challenge_calm|done..].
  - apply Hcalm; [apply respond_wlp|done..].
  - apply (Hgen _ (code_traded r)); [by apply enroll_wlp|done].
  - apply Hcalm; [apply calm_wlp, register_calm|done..].
  - apply (Hgen _ (authz_passed r)); [by apply authz_wlp|done].
  - apply Hcalm; [calmly|done..].
  - apply Hcalm; [apply admin_wlp|done..].
  - apply Hcalm; [calmly|done..].
  - apply Hcalm; [calmly|done..].
Qed.

Lemma admin_dispatch_wlp r h rs :
  wlp (guard r) h (Admin.dispatch (url_Parse E) rs r) (fun _ _ => True).
Proof.
  unfold Admin.dispatch. destruct (ServeMux rs _) as [[]|]; cbn [Admin.run_handler]; try calmly.
  - apply calm_wlp, challenge_calm.
  - apply respond_wlp.
  - apply calm_wlp, enroll_calm.
  - apply calm_wlp, register_calm.
  - apply calm_wlp, authz_calm.
  - apply admin_wlp.
Qed.

(** Every request meets the guard and ends as it should. *)
Lemma code_wlp q : wlp (guard q.1) [] (code_of E q) (fun h _ => ended q.1 q.2 h).
Proof.
  destruct q as [r []]; cbn [code_of].
  - eapply (wlp_mono _ _ _ _ (fun _ _ => True)); [done|].
    unfold Admin.AdminHandler. next cf. destruct (bool_decide _); [done|apply admin_dispatch_wlp].
  - unfold Admin.Handler. destruct (muxWouldRedirect _).
    + intros []. split; [exact I|]. by intros _ _ rs [=].
    + next rs. destruct rs as [rs|]; [apply dispatch_wlp|]. by intros _ _ rs [=].
Qed.

(** ** Systems *)

Section systems.
Variables (s0 : Server) (y : system).
Hypothesis (Hreach : reachable E s0 y).

Notation G := (fun q => guard q.1).
Notation Q := (fun q h (_ : unit) => ended q.1 q.2 h).

Lemma thread_ended i th :
  threads y !! i = Some th -> tcode th = Ret tt ->
  ended (treq th).1 (treq th).2 (trace i (log y)) /\ tout th = response E (trace i (log y)).
Proof. exact (ended_at (authorizer E) G Q code_wlp s0 [] y Hreach i th tt). Qed.

Lemma log_guarded after i e before :
  log y = after ++ LOp i e :: before ->
  exists th, threads y !! i = Some th /\ guard (treq th).1 (trace i before) e.
Proof. exact (guarded_at (authorizer E) G Q code_wlp s0 [] y Hreach after i e before). Qed.

Lemma log_truthful after x before :
  log y = after ++ x :: before -> holds1 (authorizer E) x (replay E s0 before).
Proof. exact (true_at (authorizer E) G Q code_wlp s0 [] y Hreach after x before). Qed.

Lemma trace_at i e : e ∈ trace i (log y) ->
  exists after before, log y = after ++ LOp i e :: before /\ holds e (replay E s0 before).
Proof. exact (told_at (authorizer E) G Q code_wlp s0 [] y Hreach i e). Qed.

Lemma system_truthful : truthful (authorizer E) s0 (log y).
Proof. exact (so_log _ _ _ _ _ (reachable_ok (authorizer E) G Q code_wlp s0 [] y Hreach)). Qed.
End systems.

(** *** Grants *)

Lemma replay1_effect x s :
  effect (fun g => exists i old, x = LOp i (EPut g old)) (grants s) (grants (replay1 (authorizer E) x s)).
Proof.
  destruct x as [i e|[[] t|c]]; cbn [replay1 authorizer m_apply m_act take_action sweep_one]; try by apply effect_eq.
  - destruct e; cbn [apply]; try by apply effect_eq.
    + apply effect_put. eauto.
    + apply effect_revoke.
    + apply effect_revoke_token.
  - apply effect_sweep.
  - apply effect_eq. unfold reload. destruct (MakeRegistry c); [|done].
    destruct (negb _); [done|]. by destruct (negb _).
Qed.

Lemma replay_grants s l :
  wf (grants s) -> Store.grants (grants s) = ∅ ->
  wf (grants (replay E s l)) /\
  forall k g, Store.grants (grants (replay E s l)) !! k = Some g ->
    exists j old after before, l = after ++ LOp j (EPut g old) :: before.
Proof.
  intros Hwf He.
  destruct (replay_puts (authorizer E) grants _ replay1_effect s l Hwf He) as [Hwf' Hg]. split; [done|].
  intros k g Hk. destruct (Hg k g Hk) as (x & after & before & -> & j & old & ->). by exists j, old, after, before.
Qed.

End overlap.
