(* ===== verification/Interleaving.v ===== *)
(** * Interleaving: the properties of overlapping requests.

    On every interleaving: access has a lawful origin, a nonce is redeemed once, a
    code gives its secret once, and running requests one after another is one of
    the interleavings. *)

From S2P Require Import Prelude GoStrings Json Wire Base64 Sha256 Crypto ServerName CanonIP NetIP Registry RateLimit.
From S2P Require Import Store StoreHistory Http Threads Ledger Config GoPath RealIP Server Admin Prog App AppHistory Concurrent Overlap.
From S2P Require NonceStore EnrollStore.
Import strings netip.

(** ** One request at a time *)

Section sequential.
Variable (E : Env).

Notation step := (step (authorizer E)).

(** The requests of a run, each finished before the next event. *)
Fixpoint served (w : World) (es : list AppHistory.event) : list thread :=
  match es with
  | [] => []
  | e :: es' =>
      let w' := app_step E w e in
      match e with
      | EvMain r => mkThread (r, false) (Ret tt) (resp w') :: served w' es'
      | EvAdmin r => mkThread (r, true) (Ret tt) (resp w') :: served w' es'
      | _ => served w' es'
      end
  end.

Lemma arrive_alone w r (adm : bool) ths l :
  let w' := (if adm then AdminHandler E r (begin w) else Handler E r (begin w)).2 in
  exists l', rtc step (mkSystem (srv w) ths [] l)
    (mkSystem (srv w') (ths ++ [mkThread (r, adm) (Ret tt) (resp w')]) [] l').
Proof.
  destruct (arrive_solo (authorizer E) _ srv resp (perform_on_server (now_at E) (rand_at E))
    (r, adm) (begin w) ths [] l eq_refl) as [l' Hl'].
  exists l'. revert Hl'. cbn [authorizer m_code code_of]. unfold App.AdminHandler, App.Handler.
  destruct adm; [rewrite (AdminHandler_prog (now_at E) (rand_at E))|rewrite (Handler_prog (now_at E) (rand_at E))];
    match goal with |- context [Ret ?u] => destruct u; exact id end.
Qed.

Lemma app_step_steps w e ths l :
  exists l', rtc step (mkSystem (srv w) ths [] l)
    (mkSystem (srv (app_step E w e)) (ths ++ served w [e]) [] l').
Proof.
  destruct e as [r|r| |c]; cbn [served app_step]; try (rewrite app_nil_r).
  - exact (arrive_alone w r false ths l).
  - exact (arrive_alone w r true ths l).
  - eexists. eapply rtc_l; [by apply (step_plan (authorizer E) _ _ _ _ (Tick (now_at E (ticks w))))|].
    do 4 (eapply rtc_l; [by apply (step_act (authorizer E) _ _ _ _ NextSweep)|]). apply rtc_refl.
  - eexists. unfold Reload, act. destruct (reload c (srv w)) as [a s] eqn:Hr.
    apply rtc_once. cbn [snd srv]. change s with (a, s).2. rewrite <- Hr. by apply (step_act (authorizer E) (srv w) ths [] l (ReloadTo c) (AReload c) []).
Qed.

Lemma app_run_steps es w ths l :
  exists l', rtc step (mkSystem (srv w) ths [] l)
    (mkSystem (srv (app_run E w es)) (ths ++ served w es) [] l').
Proof.
  revert w ths l. induction es as [|e es IH]; intros w ths l.
  { exists l. cbn [served]. by rewrite app_nil_r. }
  destruct (app_step_steps w e ths l) as [l1 H1].
  destruct (IH (app_step E w e) (ths ++ served w [e]) l1) as [l2 H2].
  exists l2. etrans; [exact H1|]. rewrite <- app_assoc in H2.
  replace (served w (e :: es)) with (served w [e] ++ served (app_step E w e) es) by (by destruct e).
  exact H2.
Qed.
End sequential.

(** ** Nonces *)

(** What an entry of the log does to the spent nonces, and the nonce it is about. *)
Definition noted (x : entry) : note :=
  match x with
  | LOp _ (EClaim id t ttl ok) => NClaim id t ttl ok
  | LSweep KNonces t => NSwept t
  | _ => NNothing
  end.

Definition presented (ths : list thread) (x : entry) : option bytes :=
  match x with LOp i _ => (ths !! i) ≫= (fun th => knock_nonce (treq th).1) | LAct _ => None end.

Definition redeemed (ths : list thread) (nonce : bytes) (l : list entry) : nat :=
  tally (redeeming noted (presented ths) nonce) l.

Lemma noted_claim x id t ttl ok : noted x = NClaim id t ttl ok -> exists i, x = LOp i (EClaim id t ttl ok).
Proof. destruct x as [i []|[[] ?|]]; try done. intros [= -> -> -> ->]. by exists i. Qed.

Lemma noted_swept x t : noted x = NSwept t -> x = LSweep KNonces t.
Proof. destruct x as [i []|[[] ?|]]; try done. by intros [= ->]. Qed.

Lemma noted_is_right E x s : holds1 (authorizer E) x s -> noted_right (authorizer E) nonces noted x s.
Proof.
  unfold noted_right. destruct x as [i e|[[] t|c]]; try done.
  - destruct e; try done. cbn [noted replay1 holds1 authorizer m_holds m_apply holds apply].
    cbn [nonces set_nonces]. intros <-. by destruct (NonceStore.Claim _ _ _ _).
  - intros _. cbn [noted replay1 authorizer m_act take_action]. unfold reload.
    destruct (MakeRegistry c); [|done]. destruct (negb _); [done|]. by destruct (negb _).
Qed.

(** The clock reads times that do not overflow, and a reload keeps the lifetime. *)
Definition steady (ttl : Z) (x : entry) : Prop :=
  match x with
  | LOp _ (ENow t) | LSweep _ t => NonceStore.clock_ok ttl t
  | LReload c => NonceTTL c = ttl
  | _ => True
  end.

Section nonces.
Variable (E : Env).
Variables (s0 : Server) (y : system) (nonce : bytes) (ttl : Z).
Hypothesis (Hreach : reachable E s0 y).
Hypothesis (Httl : NonceTTL (cfg s0) = ttl).
Hypothesis (Hlog : forall x, x ∈ log y -> steady ttl x).
Hypothesis (Htimely : forall i th id t l ok after before ts,
  threads y !! i = Some th -> knock_nonce (treq th).1 = Some nonce ->
  log y = after ++ LOp i (EClaim id t l ok) :: before -> LSweep KNonces ts ∈ before ->
  NonceStore.timely ttl nonce ts t).

Lemma ttl_steady before : before `suffix_of` log y -> NonceTTL (cfg (replay E s0 before)) = ttl.
Proof.
  intros [after Hl]. assert (Hall : forall x, x ∈ before -> steady ttl x).
  { intros x Hx. apply Hlog. rewrite Hl. set_solver. }
  clear Hl. induction before as [|x l IH]; [exact Httl|]. cbn [Threads.replay foldr]. fold (replay E s0 l).
  specialize (IH (fun z Hz => Hall z (list_elem_of_further _ _ _ Hz))).
  destruct x as [i []|[[]|c]]; try exact IH. cbn [replay1 authorizer m_act take_action]. unfold reload.
  destruct (MakeRegistry c); [|done]. destruct (negb _); [done|]. destruct (negb _); [done|].
  apply (Hall (LReload c)). by left.
Qed.

(** A claim in the log redeems the nonce its request presented. *)
Lemma claim_redeems after i id t l ok before :
  log y = after ++ LOp i (EClaim id t l ok) :: before ->
  exists th n svc addr nk p6 rnd, threads y !! i = Some th /\ knock_nonce (treq th).1 = Some n /\
    id = B64u rnd /\ l = ttl /\ NonceStore.clock_ok ttl t /\
    VerifyNonce nk n svc addr t ttl p6 = Some rnd.
Proof.
  intros Hl. destruct (log_guarded E s0 y Hreach _ _ _ _ Hl) as (th & Hi & Hg).
  destruct Hg as (c & cf & kid & n & rnd & token & Hv & -> & ->).
  destruct Hv as [_ _ _ Hcf _ Hnow (nk & _ & Hn) _ (body & tag & Hj & _ & Hd & _)].
  assert (Hc : NonceTTL cf = ttl).
  { apply trace_in, list_elem_of_split in Hcf as (b2 & b1 & ->).
    rewrite app_comm_cons, app_assoc in Hl. pose proof (log_truthful E s0 y Hreach _ _ _ Hl) as He.
    cbn in He. rewrite <- He. apply ttl_steady. rewrite Hl. by apply suffix_app_r, suffix_cons_r. }
  rewrite Hc in *. exists th, n, (service c), (ip c), nk, (IPv6Prefix cf), rnd.
  split; [done|]. split; [unfold knock_nonce; by rewrite Hj|]. do 2 (split; [done|]). split; [|done].
  apply (Hlog (LOp i (ENow t))). rewrite Hl. apply trace_in in Hnow. set_solver.
Qed.

Lemma redeemed_at_most_once : (redeemed (threads y) nonce (log y) <= 1)%nat.
Proof.
  apply (redeemed_once (authorizer E) nonces noted (presented (threads y)) s0 (log y) nonce ttl).
  - apply noted_is_right.
  - exact (system_truthful E s0 y Hreach).
  - intros after x before id t l ok Hl [i ->]%noted_claim.
    destruct (claim_redeems _ _ _ _ _ _ _ Hl) as (th & n & svc & addr & nk & p6 & rnd & Hi & Hn & ? & ? & ? & ?).
    exists n, svc, addr, nk, p6, rnd. split; [|done]. cbn. by rewrite Hi.
  - intros x t Hx ->%noted_swept. by apply (Hlog _ Hx).
  - intros after x before id t l ok x' ts Hl [i ->]%noted_claim (th & Hi & Hn)%bind_Some Hx' ->%noted_swept.
    by eapply Htimely.
Qed.
End nonces.

(** ** Enrollment codes *)

Definition consuming (code : bytes) (x : entry) : bool :=
  match x with LOp _ (EConsume k _ (Some _)) => bool_decide (k = code) | _ => false end.

Definition minting (code : bytes) (x : entry) : bool :=
  match x with LOp _ (EPutCode k _) => bool_decide (k = code) | _ => false end.

Section codes.
Variable (E : Env).

Notation present code s := (EnrollStore.present code (codes s)).

(** What an entry of the log does to the presence of a code. *)
Lemma replay1_present code x s :
  holds1 (authorizer E) x s ->
  (present code (replay1 (authorizer E) x s) + (if consuming code x then 1 else 0) <=
   present code s + (if minting code x then 1 else 0))%nat.
Proof.
  destruct x as [i e|[[] t|c]]; cbn [replay1 authorizer m_apply m_act take_action sweep_one consuming minting]; intros Hh; try (cbn; lia).
  - destruct e; cbn [apply]; try (cbn; lia).
    + cbn [codes set_codes]. cbn [holds] in Hh. destruct (decide (code0 = code)) as [->|Hne].
      * pose proof (EnrollStore.Consume_present code (codes s) t) as Hp. rewrite Hh in Hp.
        destruct c; [rewrite bool_decide_eq_true_2 by done|]; lia.
      * rewrite EnrollStore.Consume_other by done.
        destruct c; [rewrite bool_decide_eq_false_2 by done|]; lia.
    + rewrite Nat.add_0_r. apply EnrollStore.Put_present.
  - pose proof (EnrollStore.Sweep_present code (codes s) t) as Hs. cbn [codes set_codes]. lia.
  - unfold reload. destruct (MakeRegistry c); [|cbn; lia].
    destruct (negb _); [cbn; lia|]. destruct (negb _); cbn; lia.
Qed.

Lemma replay_present code s l :
  truthful (authorizer E) s l -> EnrollStore.codes (codes s) = ∅ ->
  (tally (consuming code) l <= tally (minting code) l)%nat.
Proof.
  intros Ht He.
  pose proof (tally_balance (authorizer E) (fun s => present code s) (consuming code) (minting code) s l
    (replay1_present code) Ht) as H.
  unfold EnrollStore.present in H. rewrite He, lookup_empty in H. lia.
Qed.
End codes.

(** A request to the endpoint [h] of the main listener, answered 204. *)
Record answered (y : system) (h : handler) (i : nat) (th : thread) : Prop := {
  an_thread : threads y !! i = Some th;
  an_main : (treq th).2 = false;
  an_done : tcode th = Ret tt;
  an_route : exists rs, last (trace i (log y)) = Some (ERouting (Some rs)) /\
               ServeMux rs (EscapedPath (treq th).1) = Routed h;
  an_status : status (tout th) = StatusNoContent }.

Definition answeredb (y : system) (h : handler) (i : nat) : bool :=
  match threads y !! i with
  | Some (mkThread (r, false) (Ret _) w) =>
      (status w =? StatusNoContent) &&
      match last (trace i (log y)) with
      | Some (ERouting (Some rs)) =>
          match ServeMux rs (EscapedPath r) with Routed h' => bool_decide (h' = h) | Redirected => false end
      | _ => false
      end
  | _ => false
  end.

Lemma answeredb_ok y h i : answeredb y h i = true -> exists th, answered y h i th.
Proof.
  unfold answeredb. destruct (threads y !! i) as [[[r []] [[]|] w]|] eqn:Hi; try done.
  intros [Hs Hl]%andb_true_iff. apply Z.eqb_eq in Hs.
  destruct (last _) as [[]|] eqn:Ht; try done. destruct rs as [rs|]; [|done].
  destruct (ServeMux _ _) as [h'|] eqn:Hr; [|done]. bool_prop. subst h'.
  eexists. split; [exact Hi|done..| |done]. by exists rs.
Qed.

(** ** Properties *)

(** C1: access always has a lawful origin, however requests overlap.  Requests on
    both listeners, sweeps and reloads proceed in any interleaving of their
    operations, at any times.  If a request to [/authz] has been let through to a
    gated path, then at the moment it asked the store it was shown a grant for
    this very client and service, unexpired, whose token the registry it read
    authorized at the time it read; and before that moment a request had stored
    this grant, having itself, before storing it, either passed every check of a
    knock and burnt its nonce, or authenticated as an administrator. *)
Theorem overlapping_access_has_origin E c draw s y i th
    (Hnew : NewServer c draw = Some s) (Hreach : reachable E (Handler_init s) y)
    (Hpass : answered y HAuthz i th) :
  exists cf x, EConfig cf ∈ trace i (log y) /\ ctx_of E cf (treq th).1 = Some x /\
    ((exists cf', EConfig cf' ∈ trace i (log y) /\ is_endpoint (URIPrefix cf') (uri x) = true) \/
     exists g rg t after before,
       let cookie := default [] (RCookie (treq th).1 GrantCookieName) in
       log y = after ++ LOp i (EIsAllowed (service x) (ip x) rg t cookie (Some g)) :: before /\
       ERegistry rg ∈ trace i (log y) /\ ENow t ∈ trace i (log y) /\
       admits g (service x) (ip x) (Some rg) t cookie /\
       (bound x = true -> gBinding g = BindingIPCookie) /\
       exists j thj old later earlier,
         threads y !! j = Some thj /\ before = later ++ LOp j (EPut g old) :: earlier /\
         (knock_minted E (treq thj).1 (trace j earlier) g \/ admin_minted (treq thj).1 (trace j earlier) g)).
Proof.
  destruct Hpass as [Hi Hmain Hdone (rs & Hlast & Hroute) Hst].
  destruct (thread_ended E _ _ Hreach i th Hi Hdone) as [Hend Hresp]. rewrite Hresp in Hst.
  destruct (Hend Hmain Hst rs Hlast) as [Hpassed _].
  destruct (Hpassed Hroute) as (_ & cf & cf' & x & _ & _ & Hcf & Hx & Hcf' & Hor).
  exists cf, x. split; [done|]. split; [done|].
  destruct Hor as [He|(Hk & rg & t & g & Hrg & Ht & Hal & Hb)]; [left; by exists cf'|right].
  destruct (trace_at E _ _ Hreach i _ Hal) as (after & before & Hlog & Hh).
  exists g, rg, t, after, before. cbv zeta. do 3 (split; [done|]). cbn [holds] in Hh.
  apply IsAllowed_iff in Hh as [Hc Ha]. split; [done|]. split; [done|].
  destruct (candidate_lookup _ _ _ _ _ Hc) as [k Hkey].
  destruct (NewServer_start _ _ _ Hnew) as (Hwf & Hempty & _).
  assert (Hs : grants (Handler_init s) = grants s) by (unfold Handler_init; by destruct (mux s)).
  rewrite <- Hs in Hwf, Hempty.
  destruct (replay_grants E _ before Hwf Hempty) as [_ Horigin].
  destruct (Horigin k g Hkey) as (j & old & later & earlier & ->).
  rewrite app_comm_cons, app_assoc in Hlog.
  destruct (log_guarded E _ _ Hreach _ _ _ _ Hlog) as (thj & Hj & Hg).
  by exists j, thj, old, later, earlier.
Qed.

(** C5: a nonce is redeemed at most once, however requests overlap, if one nonce
    lifetime is in force throughout and no request that presents the nonce claims
    it after a sweep that ran past the nonce's end and past the time the request
    read: under those provisos at most one of all claims of requests that present
    the nonce ever succeeds.  Nothing is asked of the claims of other nonces. *)
Theorem overlapping_nonce_single_use E s0 y nonce ttl
    (Hreach : reachable E s0 y)
    (Httl : NonceTTL (cfg s0) = ttl) (Hlog : forall x, x ∈ log y -> steady ttl x)
    (Htimely : forall i th id t l ok after before ts,
       threads y !! i = Some th -> knock_nonce (treq th).1 = Some nonce ->
       log y = after ++ LOp i (EClaim id t l ok) :: before -> LSweep KNonces ts ∈ before ->
       NonceStore.timely ttl nonce ts t) :
  (redeemed (threads y) nonce (log y) <= 1)%nat.
Proof. by apply (redeemed_at_most_once E s0 y nonce ttl Hreach Httl Hlog Htimely). Qed.

(** C6: a device secret is handed out at most once per code an operator made,
    however enrollments overlap with each other, with sweeps and with new codes:
    the requests that were answered with a secret for a code are no more than the
    times that code was put; and whatever request puts a code is an operator's, who
    authenticated, asked for a code of a registered kid and drew it at random
    before: no other request ever makes one. *)
Theorem overlapping_enrollments E c draw s y code reqs
    (Hnew : NewServer c draw = Some s) (Hreach : reachable E (Handler_init s) y)
    (Hdup : NoDup reqs)
    (Hreqs : forall i, i ∈ reqs -> exists th, answered y HEnroll i th /\
       json_enroll 4096 (Body (treq th).1) = Some code) :
  (length reqs <= tally (minting code) (log y))%nat /\
  (forall after j k ec before, log y = after ++ LOp j (EPutCode k ec) :: before ->
     exists thj, threads y !! j = Some thj /\ code_made (treq thj).1 (trace j before) k ec).
Proof.
  split; [|intros after j k ec before H; exact (log_guarded E _ _ Hreach after j _ before H)].
  assert (Hcodes : EnrollStore.codes (codes (Handler_init s)) = ∅).
  { unfold NewServer in Hnew. destruct (MakeRegistry c); [|done].
    by apply bind_Some in Hnew as (nk & _ & [= <-]). }
  pose proof (system_truthful E _ _ Hreach) as Ht.
  pose proof (replay_present E code _ _ Ht Hcodes) as Hp.
  transitivity (tally (consuming code) (log y)); [|exact Hp].
  apply tally_requests; [done|]. intros i Hi. destruct (Hreqs i Hi) as (th & Ha & Hj).
  destruct Ha as [Hth Hmain Hdone (rs & Hlast & Hroute) Hst].
  destruct (thread_ended E _ _ Hreach i th Hth Hdone) as [Hend Hresp]. rewrite Hresp in Hst.
  destruct (Hend Hmain Hst rs Hlast) as [_ Htraded].
  destruct (Htraded Hroute) as (code' & t & ec & rg & tk & Hj' & Hc & _). simplify_eq.
  exists (EConsume code t (Some ec)). split; [by apply trace_in|]. cbn. by rewrite bool_decide_eq_true_2.
Qed.

(** Running requests one after another is one of the interleavings: for every
    sequential run there is a run of the system with the same server at the end
    and, request by request, the same responses.  So what holds of every
    interleaving holds of the runs of [AppHistory]. *)
Lemma sequential_runs_interleave E w0 es :
  exists y, reachable E (srv w0) y /\ shared y = srv (app_run E w0 es) /\
    threads y = served E w0 es /\ planned y = [].
Proof.
  destruct (app_run_steps E es w0 [] []) as [l' Hl']. by eexists.
Qed.

(** ** Witnesses *)

Notation ex_fresh := (Handler_init ex_started).

(** Request [i] does its next [n] operations, at time [t]. *)
Definition goes (i n : nat) (t : Z) : list (sched (Request * bool) choice) :=
  replicate n (SOp i t (fun k => Some (take k ex_rand32))).

Definition ex_authz : Request :=
  {| Method := lit "GET"; Host := lit "authorizer"; RemoteAddr := lit "127.0.0.1:9";
     URLPath := lit "/authz"; EscapedPath := lit "/authz"; RHeader := RHeader ex_return; Body := [] |}.

(** A visit that arrives before the knock it rides on has been served. *)
Definition ex_overlap : system :=
  exec (authorizer ex_env) (start ex_fresh [])
    ([SArrive (ex_knock, false); SArrive (ex_authz, false)] ++ goes 1 3 1001 ++ goes 0 6 1001 ++
     [SEnv (Tick 1001); SEnv NextSweep] ++ goes 0 30 1002 ++ goes 1 30 1003).

Lemma ex_overlap_answered : answeredb ex_overlap HAuthz 1 = true.
Proof. vm_compute. reflexivity. Qed.

Lemma overlapping_access_has_origin_witness : exists cf, EConfig cf ∈ trace 1 (log ex_overlap).
Proof.
  destruct (answeredb_ok _ _ _ ex_overlap_answered) as [th Hth].
  destruct (overlapping_access_has_origin ex_env ex_final (fun _ => Some ex_nk) ex_started ex_overlap 1
    th ex_started_ok (exec_reachable (authorizer ex_env) _ _ _) Hth) as (cf & x & Hcf & _). by exists cf.
Defined.

(** Two requests race one nonce, around a sweep; one of them redeems it. *)
Definition ex_race : system :=
  exec (authorizer ex_env) (start ex_fresh [])
    ([SArrive (ex_knock, false); SArrive (ex_knock, false)] ++ goes 0 7 1001 ++ goes 1 9 1001 ++
     [SEnv (Tick 1002); SEnv NextSweep; SEnv NextSweep] ++ goes 0 30 1003 ++ goes 1 30 1003).

Definition steadyb (ttl : Z) (x : entry) : bool :=
  match x with
  | LOp _ (ENow t) => (0 <=? t) && (t <=? 2000)
  | LSweep _ t => (0 <=? t) && (t <=? 1010)
  | LReload _ => false
  | _ => true
  end.

Lemma ex_race_shows :
  forallb (steadyb 60) (log ex_race) && (1 <=? redeemed (threads ex_race) ex_issued (log ex_race))%nat = true.
Proof. vm_compute. reflexivity. Qed.

Lemma ex_race_reachable : reachable ex_env ex_fresh ex_race.
Proof. apply exec_reachable. Qed.

#[local] Opaque ex_race.

Lemma ex_race_steady x : x ∈ log ex_race -> steadyb 60 x = true.
Proof. pose proof ex_race_shows as [H _]%andb_true_iff. exact (forallb_elem _ _ x H). Qed.

Lemma steadyb_steady x : steadyb 60 x = true -> steady 60 x.
Proof.
  destruct x as [i []|[k t|c]]; try done; cbn [steadyb steady]; intros H; bool_prop;
    unfold NonceStore.clock_ok, in_i64; lia.
Qed.

Lemma overlapping_nonce_single_use_witness : redeemed (threads ex_race) ex_issued (log ex_race) = 1%nat.
Proof.
  assert (Hone : (1 <= redeemed (threads ex_race) ex_issued (log ex_race))%nat)
    by (pose proof ex_race_shows as [_ H]%andb_true_iff; by apply Nat.leb_le).
  enough (redeemed (threads ex_race) ex_issued (log ex_race) <= 1)%nat by lia.
  assert (Httl : NonceTTL (cfg ex_fresh) = 60) by (vm_compute; reflexivity).
  apply (overlapping_nonce_single_use ex_env ex_fresh ex_race ex_issued 60 ex_race_reachable Httl).
  - intros x Hx%ex_race_steady. exact (steadyb_steady x Hx).
  - intros i th id t l ok after before ts _ _ Hl Hts. clear Httl Hone.
    assert (Hx : steadyb 60 (LSweep KNonces ts) = true).
    { apply (ex_race_steady (LSweep KNonces ts)). rewrite Hl.
      apply elem_of_app. right. right. exact Hts. }
    cbn [steadyb] in Hx. bool_prop.
    change (NonceStore.timely 60 ex_issued ts t) with (ts <= t \/ ts < 1000 + 60).
    lia.
Defined.

(** Two requests race for the code an operator makes; the first one gets it. *)
Definition ex_make_code : Request :=
  {| Method := lit "POST"; Host := lit "authorizer"; RemoteAddr := lit "127.0.0.1:9";
     URLPath := lit "/admin/enroll-code"; EscapedPath := lit "/admin/enroll-code";
     RHeader := {[ lit "Authorization" := [lit "Bearer 0123456789abcdef0123"] ]};
     Body := quoted "{'kid':'k1'}" |}.

Definition ex_code : bytes := Eval vm_compute in B64u (take 12 ex_rand32).
Definition ex_enroll_code : Request :=
  ex_call "POST" "/knock/enroll" (Encode (JObj [(lit "code", JStr ex_code)])) "".

Definition ex_enrollments : list (sched (Request * bool) choice) :=
  [SArrive (ex_make_code, false)] ++ goes 0 30 1000 ++
  [SArrive (ex_enroll_code, false); SArrive (ex_enroll_code, false)] ++
  goes 1 8 1001 ++ goes 2 8 1001 ++ goes 1 30 1002 ++ goes 2 30 1002.

Notation ex_enrolling := (exec (authorizer ex_env) (start ex_fresh []) ex_enrollments).

Lemma ex_enrolled : answeredb ex_enrolling HEnroll 1 = true.
Proof. vm_compute. reflexivity. Qed.

Lemma ex_enroll_arrives : arrivals ex_enrollments !! 1%nat = Some (ex_enroll_code, false).
Proof. reflexivity. Qed.

Lemma ex_enroll_body : json_enroll 4096 (Body ex_enroll_code) = Some ex_code.
Proof. vm_compute. reflexivity. Qed.

Lemma ex_enrolling_reachable : reachable ex_env ex_fresh ex_enrolling.
Proof. apply exec_reachable. Qed.

Lemma ex_enrolled_request i : i ∈ [1%nat] ->
  exists th, answered ex_enrolling HEnroll i th /\ json_enroll 4096 (Body (treq th).1) = Some ex_code.
Proof.
  intros ->%list_elem_of_singleton. destruct (answeredb_ok _ _ _ ex_enrolled) as [th Hth].
  exists th. split; [exact Hth|].
  pose proof (thread_request (authorizer ex_env) _ _ _ _ _ (an_thread _ _ _ _ Hth)) as Hreq.
  rewrite ex_enroll_arrives in Hreq. apply (inj Some) in Hreq. rewrite <- Hreq. exact ex_enroll_body.
Qed.

Lemma overlapping_enrollments_witness : (1 <= tally (minting ex_code) (log ex_enrolling))%nat.
Proof.
  exact (proj1 (overlapping_enrollments ex_env ex_final (fun _ => Some ex_nk) ex_started ex_enrolling ex_code
    [1%nat] ex_started_ok ex_enrolling_reachable (NoDup_singleton 1%nat) ex_enrolled_request)).
Defined.
