(* ===== verification/Main.v ===== *)
(** * Main: the Authorizer process ([authorizer/main.go]).

    From the command line and the content of the configuration file to a running
    server, and what a running process does on a request, a tick of the sweeper
    and each signal.  Sockets and timeouts are outside the model; what is written
    to the log is kept as the list of its reload entries. *)

From S2P Require Import Prelude GoStrings Flag Json Wire Base64 Crypto ServerName CanonIP NetIP Registry RateLimit.
From S2P Require Import Store StoreHistory Http Config ConfigFile GoPath RealIP Server Admin App AppHistory.
From S2P Require NonceStore EnrollStore.
Import strings netip flag.

(** The options; what a path names is given by an argument, [read]. *)
Record Flags := mkFlags {
  fConfig : bytes;
  fCheck : bool;
  fVersion : bool;
  fListen : bytes }.

Definition formal : list (Flag Flags) :=
  [StringVar (lit "config") (fun v o => mkFlags v (fCheck o) (fVersion o) (fListen o));
   BoolVar (lit "check") (fun b o => mkFlags (fConfig o) b (fVersion o) (fListen o));
   BoolVar (lit "version") (fun b o => mkFlags (fConfig o) (fCheck o) b (fListen o));
   StringVar (lit "listen") (fun v o => mkFlags (fConfig o) (fCheck o) (fVersion o) v)].

Definition command_line (args : list bytes) : result flag_err Flags :=
  Parse formal args (mkFlags (lit "config.json") false false []).

Definition with_listen (l : bytes) (c : Config) : Config :=
  {| Listen := l; AdminListen := AdminListen c; AdminToken := AdminToken c;
     URIPrefix := URIPrefix c; TrustedProxies := TrustedProxies c; RealIPHeader := RealIPHeader c;
     GrantTTL := GrantTTL c; NonceTTL := NonceTTL c; EnrollTTL := EnrollTTL c;
     IPv6Prefix := IPv6Prefix c; RateLimit := RateLimit c; cfgServices := cfgServices c;
     cfgTokens := cfgTokens c; trusted := trusted c; canonServices := canonServices c |}.

(** [if *listenOv != "" { cfg.Listen = *listenOv }] *)
Definition override (fl : Flags) (c : Config) : Config :=
  if bool_decide (fListen fl = []) then c else with_listen (fListen fl) c.

(** How [main] goes on after the start-up. *)
Inductive startup :=
| SUsage (code : Z)
| SVersion
| SConfigFatal (e : load_err)
| SCheckOK (tokens services : nat) (listen : bytes)
| SStartupFatal
| SServing (s : Server) (admin : bool).

Inductive log_line :=
| Reloaded (tokens services : nat)
| ReloadFailedLoad (e : load_err)
| ReloadFailed (e : reload_err).

Section main.
Variable (E : Env).

Definition main (fl : Flags) (raw : option bytes) (draw : nat -> option bytes) : startup :=
  if fVersion fl then SVersion
  else
    match LoadConfig raw with
    | Err e => SConfigFatal e
    | Ok c =>
        let c := override fl c in
        if fCheck fl then SCheckOK (length (cfgTokens c)) (size (cfgServices c)) (Listen c)
        else
          match NewServer c draw with
          | None => SStartupFatal
          | Some s => SServing (Handler_init s) (negb (bool_decide (AdminListen (cfg s) = [])))
          end
    end.

(** The command: its arguments, and what the paths it is given hold. *)
Definition command (args : list bytes) (read : bytes -> option bytes) (draw : nat -> option bytes) : startup :=
  match command_line args with
  | Err e => SUsage (exit_code e)
  | Ok fl => main fl (read (fConfig fl)) draw
  end.

(** A serving process: the world of its server, whether the admin listener was
    opened, whether it still accepts requests, and its log. *)
Record Process := mkProcess {
  world : World;
  adminSrv : bool;
  up : bool;
  log : list log_line }.

Inductive pevent :=
| PMain (r : Request)              (** a request on the main listener *)
| PAdmin (r : Request)             (** a request on the admin listener *)
| PTick                            (** the sweeper's ticker *)
| PHup (raw : option bytes)        (** SIGHUP, with what the file holds then *)
| PTerm.                           (** SIGINT or SIGTERM *)

Definition on_world (f : World -> World) (p : Process) : Process :=
  mkProcess (f (world p)) (adminSrv p) (up p) (log p).

(** The [SIGHUP] case of the signal loop. *)
Definition hup (fl : Flags) (raw : option bytes) (p : Process) : Process :=
  match LoadConfig raw with
  | Err e => mkProcess (world p) (adminSrv p) (up p) (log p ++ [ReloadFailedLoad e])
  | Ok nc =>
      let nc := override fl nc in
      match Reload nc (world p) with
      | (Err e, w) => mkProcess w (adminSrv p) (up p) (log p ++ [ReloadFailed e])
      | (Ok _, w) =>
          mkProcess w (adminSrv p) (up p)
            (log p ++ [Reloaded (length (cfgTokens nc)) (size (cfgServices nc))])
      end
  end.

(** Once it shuts down the process takes no request, tick or signal; requests in
    flight are drained, so each is a step before that. *)
Definition pstep (fl : Flags) (p : Process) (e : pevent) : Process :=
  if negb (up p) then p
  else
    match e with
    | PMain r => on_world (fun w => (Handler E r (begin w)).2) p
    | PAdmin r => if adminSrv p then on_world (fun w => (dispatch E adminMux r (begin w)).2) p else p
    | PTick => on_world (fun w => (sweep_tick (now_at E) w).2) p
    | PHup raw => hup fl raw p
    | PTerm => mkProcess (world p) (adminSrv p) false (log p)
    end.

Definition prun (fl : Flags) (p : Process) (es : list pevent) : Process := foldl (pstep fl) p es.

(** The process a start-up leads to. *)
Definition serving (s : startup) (ticks draws : nat) (p : Process) : Prop :=
  exists sv a, s = SServing sv a /\
    p = mkProcess {| srv := sv; ticks := ticks; draws := draws; resp := fresh |} a true [].

(** ** A process is a server run *)

(** The server events a process event amounts to. *)
Definition server_events (fl : Flags) (admin : bool) (e : pevent) : list event :=
  match e with
  | PMain r => [EvMain r]
  | PAdmin r => if admin then [EvAdmin r] else []
  | PTick => [EvSweep]
  | PHup raw =>
      match LoadConfig raw with Ok c => [EvReload (override fl c)] | Err _ => [] end
  | PTerm => []
  end.

(** The events before the process is told to stop. *)
Fixpoint before_term (es : list pevent) : list pevent :=
  match es with
  | [] => []
  | PTerm :: _ => []
  | e :: es' => e :: before_term es'
  end.

Definition server_run (fl : Flags) (admin : bool) (es : list pevent) : list event :=
  concat (map (server_events fl admin) (before_term es)).

(** What holds of a process from its start on. *)
Record proc_ok (fl : Flags) (p : Process) : Prop := {
  po_sync : in_sync (world p);
  po_config : well_configured (cfg (srv (world p)));
  po_admin : adminSrv p = negb (bool_decide (AdminListen (cfg (srv (world p))) = []));
  po_listen : fListen fl <> [] -> Listen (cfg (srv (world p))) = fListen fl }.

Lemma override_well_configured fl c : well_configured c -> well_configured (override fl c).
Proof. unfold override. destruct (bool_decide _); [done|]. intros []. by split. Qed.

Lemma override_listen fl c : fListen fl <> [] -> Listen (override fl c) = fListen fl.
Proof. intros H. unfold override. by rewrite bool_decide_eq_false_2. Qed.

Lemma override_admin fl c : AdminListen (override fl c) = AdminListen c.
Proof. unfold override. by destruct (bool_decide _). Qed.

(** Only a reload changes the configuration. *)
Lemma app_step_cfg w e :
  match e with EvReload _ => False | _ => True end -> cfg (srv (app_step E w e)) = cfg (srv w).
Proof.
  intros He. enough (Ht : table (app_step E w e) = table w) by (unfold table in Ht; congruence).
  destruct e as [r|r| |c]; cbn [app_step]; [| |done|done].
  - rewrite Handler_eq. destruct (muxWouldRedirect _); [done|].
    destruct (mux (srv (begin w))) as [rs|]; [exact (proj2 (dispatch_effect E rs (begin w) r))|done].
  - rewrite AdminHandler_eq.
    destruct (bool_decide _); [done|]. exact (proj2 (dispatch_effect E adminMux (begin w) r)).
Qed.

Lemma Reload_cases c w :
  (Reload c w = (Ok tt, (Reload c w).2) /\ Listen c = Listen (cfg (srv w)) /\
     AdminListen c = AdminListen (cfg (srv w)) /\ cfg (srv (Reload c w).2) = c /\
     live_state (Reload c w).2 = live_state w) \/
  exists e, Reload c w = (Err e, w).
Proof.
  destruct w as [s i j rs]. unfold Reload, act, reload. cbn [srv ticks draws resp].
  destruct (MakeRegistry c) as [rg|e]; [|right; by eexists].
  destruct (bool_decide (Listen c = _)) eqn:E1; cbn [negb]; [|right; by eexists].
  destruct (bool_decide (AdminListen c = _)) eqn:E2; cbn [negb]; [|right; by eexists].
  bool_prop. by left.
Qed.

(** The step of a process that is up, as server events. *)
Lemma pstep_world fl p e :
  proc_ok fl p -> up p = true -> e <> PTerm ->
  world (pstep fl p e) = app_run E (world p) (server_events fl (adminSrv p) e) /\
  adminSrv (pstep fl p e) = adminSrv p /\ up (pstep fl p e) = true.
Proof.
  intros [_ _ Ha _] Hup He. unfold pstep. rewrite Hup. cbn [negb].
  destruct e as [r|r| |raw|]; [done| |done| |done].
  - cbn [server_events]. destruct (adminSrv p) eqn:Hadm; [|done]. split; [|done].
    cbn [on_world world app_run foldl app_step]. rewrite AdminHandler_eq.
    change (cfg (srv (begin (world p)))) with (cfg (srv (world p))).
    by destruct (bool_decide (AdminListen (cfg (srv (world p))) = [])).
  - unfold hup. cbn [server_events]. destruct (LoadConfig raw) as [c|e]; [|done].
    cbn [app_run foldl app_step].
    destruct (Reload_cases (override fl c) (world p)) as [[Hr _]|[e Hr]]; rewrite Hr; done.
Qed.

Lemma app_run_app w es es' : app_run E w (es ++ es') = app_run E (app_run E w es) es'.
Proof. unfold app_run. by rewrite foldl_app. Qed.

Lemma pstep_ok fl p e : proc_ok fl p -> proc_ok fl (pstep fl p e).
Proof.
  intros H. destruct (up p) eqn:Hup; [|unfold pstep; by rewrite Hup].
  assert (Hquiet : forall e', match e' with EvReload _ => False | _ => True end ->
    world (pstep fl p e) = app_step E (world p) e' -> adminSrv (pstep fl p e) = adminSrv p ->
    proc_ok fl (pstep fl p e)).
  { intros e' He' Hw Ha. destruct H as [Hs Hc Had Hl]. pose proof (app_step_cfg (world p) e' He') as Hcfg.
    split; rewrite ?Hw, ?Ha, ?Hcfg; try done. by apply app_step_sync. }
  destruct e as [r|r| |raw|].
  - apply (Hquiet (EvMain r)); [done|unfold pstep; by rewrite Hup..].
  - destruct (pstep_world fl p (PAdmin r) H Hup) as (Hw & Ha & _); [done|].
    cbn [server_events] in Hw. destruct (adminSrv p) eqn:Hadm.
    + apply (Hquiet (EvAdmin r)); [done|exact Hw|congruence].
    + destruct H as [Hs Hc Had Hl]. cbn in Hw. split; rewrite ?Hw; try done. congruence.
  - apply (Hquiet EvSweep); [done|unfold pstep; by rewrite Hup..].
  - unfold pstep. rewrite Hup. cbn [negb]. unfold hup.
    destruct H as [Hs Hc Ha Hl]. destruct (LoadConfig raw) as [c|e] eqn:Hload; [|by split].
    destruct (Reload_cases (override fl c) (world p)) as [(Hr & Hli & Had & Hcf & _)|[e Hr]];
      rewrite Hr; cbn [world adminSrv]; [|by split].
    apply LoadConfig_well_configured in Hload. split; cbn [world adminSrv].
    + exact (app_step_sync E (world p) (EvReload (override fl c)) Hs).
    + rewrite Hcf. by apply override_well_configured.
    + by rewrite Hcf, Had.
    + rewrite Hcf. apply override_listen.
  - unfold pstep. rewrite Hup. destruct H. by split.
Qed.

Lemma prun_ok fl p es : proc_ok fl p -> proc_ok fl (prun fl p es).
Proof. revert p. induction es as [|e es IH]; intros p H; [done|]. apply IH. by apply pstep_ok. Qed.

Lemma prun_down fl p es : up p = false -> prun fl p es = p.
Proof.
  intros H. induction es as [|e es IH]; [done|]. unfold prun in *. cbn [foldl].
  by replace (pstep fl p e) with p by (unfold pstep; by rewrite H).
Qed.

Lemma prun_world fl p es :
  proc_ok fl p -> up p = true ->
  world (prun fl p es) = app_run E (world p) (server_run fl (adminSrv p) es).
Proof.
  revert p. induction es as [|e es IH]; intros p H Hup; [done|].
  assert (He : e = PTerm \/ e <> PTerm) by (destruct e; [by right..|by left]).
  destruct He as [->|He].
  - unfold prun. cbn [foldl]. fold (prun fl (pstep fl p PTerm) es).
    unfold pstep. rewrite Hup. cbn [negb]. by rewrite prun_down.
  - destruct (pstep_world fl p e H Hup He) as (Hw & Ha & Hu).
    change (prun fl p (e :: es)) with (prun fl (pstep fl p e) es).
    rewrite IH by (done || by apply pstep_ok). rewrite Hw, Ha, <- app_run_app.
    unfold server_run. by destruct e.
Qed.

Lemma serving_start fl raw draw ticks draws p :
  serving (main fl raw draw) ticks draws p ->
  proc_ok fl p /\ up p = true /\ exists c s, LoadConfig raw = Ok c /\
    NewServer (override fl c) draw = Some s /\ srv (world p) = Handler_init s /\ log p = [].
Proof.
  intros (sv & a & Hm & ->). unfold main in Hm.
  destruct (fVersion fl); [done|]. destruct (LoadConfig raw) as [c|e] eqn:Hload; [|done].
  destruct (fCheck fl); [done|]. destruct (NewServer (override fl c) draw) as [s|] eqn:Hs; [|done].
  injection Hm as <- <-. cbn [world up log srv].
  destruct (NewServer_start _ _ _ Hs) as (_ & _ & Hsync).
  assert (Hc : cfg (Handler_init s) = override fl c).
  { unfold Handler_init. unfold NewServer in Hs. destruct (MakeRegistry _); [|done].
    apply bind_Some in Hs as (nk & _ & [= <-]). done. }
  assert (Hcs : cfg s = cfg (Handler_init s)) by (unfold Handler_init; by destruct (mux s)).
  split; [|by eauto 10].
  split; cbn [world adminSrv].
  - by apply Hsync.
  - cbn [srv]. rewrite Hc. apply override_well_configured. by eapply LoadConfig_well_configured.
  - cbn [srv]. by rewrite Hcs.
  - cbn [srv]. rewrite Hc. apply override_listen.
Qed.

(** A well-formed configuration starts a server, given 32 random bytes. *)
Lemma NewServer_total c draw :
  well_configured c -> NewServer c draw = None -> RandomBytes draw 32 = None.
Proof.
  intros (r & Hr & _)%registry_total. unfold NewServer. rewrite Hr.
  destruct (RandomBytes draw 32); done.
Qed.
End main.

(** ** Command lines *)

(** One option as it may be written. *)
Inductive setting :=
| GiveConfig (p : spelling) (path : bytes)
| GiveListen (p : spelling) (addr : bytes)
| GiveCheck (p : spelling) (b : bool)
| GiveVersion (p : spelling) (b : bool).

Definition bool_text (b : bool) : bytes := if b then lit "true" else lit "false".

(** A boolean option is set alone, or with a joined value. *)
Definition spell_bool (p : spelling) (name : bytes) (b : bool) : list bytes :=
  if b && negb (joined p) then [dashes p ++ name]
  else spell (mkSpelling (doubled p) true) name (bool_text b).

Definition spelled (s : setting) : list bytes :=
  match s with
  | GiveConfig p path => spell p (lit "config") path
  | GiveListen p addr => spell p (lit "listen") addr
  | GiveCheck p b => spell_bool p (lit "check") b
  | GiveVersion p b => spell_bool p (lit "version") b
  end.

Definition arguments (opts : list setting) : list bytes := concat (map spelled opts).

Definition give (o : Flags) (s : setting) : Flags :=
  match s with
  | GiveConfig _ path => mkFlags path (fCheck o) (fVersion o) (fListen o)
  | GiveListen _ addr => mkFlags (fConfig o) (fCheck o) (fVersion o) addr
  | GiveCheck _ b => mkFlags (fConfig o) b (fVersion o) (fListen o)
  | GiveVersion _ b => mkFlags (fConfig o) (fCheck o) b (fListen o)
  end.

Definition options (opts : list setting) : Flags :=
  foldl give (mkFlags (lit "config.json") false false []) opts.

Lemma spell_bool_read p name write b args o :
  plain name -> Lookup formal name = Some (BoolVar name write) ->
  Parse formal (spell_bool p name b ++ args) o = Parse formal args (write b o).
Proof.
  intros Hn Hf. unfold spell_bool. destruct (b && negb (joined p)) eqn:E.
  - apply andb_true_iff in E as [-> _]. cbn [app]. by rewrite (Parse_alone formal name _ args o Hn Hf).
  - rewrite (Parse_spell formal name _ args o Hn Hf) by done. by destruct b.
Qed.

Lemma setting_read s args o : Parse formal (spelled s ++ args) o = Parse formal args (give o s).
Proof.
  assert (Hn : forall n, n ∈ map Name formal -> plain n).
  { apply Forall_forall. repeat constructor; first [done|by apply (bool_decide_unpack _)]. }
  destruct s as [p path|p addr|p b|p b]; cbn [spelled give].
  - by rewrite (Parse_spell formal _ _ args o (Hn (lit "config") ltac:(set_solver)) eq_refl).
  - by rewrite (Parse_spell formal _ _ args o (Hn (lit "listen") ltac:(set_solver)) eq_refl).
  - exact (spell_bool_read p _ _ b args o (Hn (lit "check") ltac:(set_solver)) eq_refl).
  - exact (spell_bool_read p _ _ b args o (Hn (lit "version") ltac:(set_solver)) eq_refl).
Qed.

Lemma settings_read opts args o :
  Parse formal (arguments opts ++ args) o = Parse formal args (foldl give o opts).
Proof.
  revert o. induction opts as [|s opts IH]; intros o; [done|].
  unfold arguments in *. cbn [map concat foldl]. by rewrite <- app_assoc, setting_read.
Qed.

Lemma command_options opts read draw :
  command (arguments opts) read draw = main (options opts) (read (fConfig (options opts))) draw.
Proof. unfold command, command_line. pose proof (settings_read opts [] (mkFlags (lit "config.json") false false [])) as H.
  rewrite app_nil_r in H. by rewrite H.
Qed.

(** ** Properties *)

(** C12: a process is its server and nothing more.  Whatever requests, ticks and
    signals it gets, its server goes through the corresponding requests, sweeps
    and reloads and no others, up to the first stop signal; its configuration in
    force is always a well-formed one, from a file, under the override of the
    command line. *)
Theorem process_refines_server E fl raw draw tk dr p es
    (Hmain : serving (main fl raw draw) tk dr p) :
  world (prun E fl p es) = app_run E (world p) (server_run fl (adminSrv p) es) /\
  proc_ok fl (prun E fl p es).
Proof.
  destruct (serving_start _ _ _ _ _ _ Hmain) as (Hok & Hup & _).
  split; [by apply prun_world|by apply prun_ok].
Qed.

(** C13: a reload is refused for [listen] only if there is no override: with
    [-listen] on the command line a SIGHUP is applied exactly when the file loads
    and [admin_listen] is unchanged.  A SIGHUP that is not applied leaves the
    whole server as it was; one that is keeps every grant, nonce, code and
    counter, and the key nonces are signed with too (the documentation has it made
    anew), so that a nonce handed out before the reload stays good; and it reports
    the reload. *)
Theorem SIGHUP_exact E fl raw draw tk dr p es file
    (Hmain : serving (main fl raw draw) tk dr p) (Hup : up (prun E fl p es) = true) :
  let q := prun E fl p es in
  let q' := pstep E fl q (PHup file) in
  (exists c, LoadConfig file = Ok c /\ AdminListen c = AdminListen (cfg (srv (world q))) /\
     (fListen fl = [] -> Listen c = Listen (cfg (srv (world q)))) /\
     cfg (srv (world q')) = override fl c /\ in_sync (world q') /\
     live_state (world q') = live_state (world q) /\
     log q' = log q ++ [Reloaded (length (cfgTokens c)) (size (cfgServices c))]) \/
  (~ (exists c, LoadConfig file = Ok c /\ AdminListen c = AdminListen (cfg (srv (world q))) /\
        (fListen fl = [] -> Listen c = Listen (cfg (srv (world q))))) /\
   world q' = world q /\
   exists line, log q' = log q ++ [line] /\ forall n m, line <> Reloaded n m).
Proof.
  cbv zeta. destruct (serving_start _ _ _ _ _ _ Hmain) as (Hok%(prun_ok E fl p es) & _ & _).
  set (q := prun E fl p es) in *. clearbody q.
  pose proof (pstep_ok E fl q (PHup file) Hok) as [Hsync' _ _ _].
  revert Hsync'. unfold pstep. rewrite Hup. cbn [negb]. unfold hup.
  destruct (LoadConfig file) as [c|e] eqn:Hload.
  2: { intros _. right. split; [by intros (c & ? & _)|]. split; [done|]. by eexists. }
  pose proof (LoadConfig_well_configured _ _ Hload) as Hwc.
  destruct (Reload_cases (override fl c) (world q)) as [(Hr & Hl & Ha & Hc & Hlive)|[e Hr]].
  - rewrite Hr. cbn [world log]. intros Hs. left. exists c. split; [done|].
    rewrite override_admin in Ha. split; [done|]. split; [|split; [done|split; [done|split; [done|]]]].
    + intros Hno. revert Hl. unfold override. by rewrite bool_decide_eq_true_2.
    + unfold override. by destruct (bool_decide _).
  - rewrite Hr. cbn [world log]. intros _. right. split; [|by eauto].
    intros (c' & [= <-] & Ha & Hno). revert Hr. unfold Reload, act, reload.
    destruct (registry_total (override fl c)) as (rg & -> & _); [by apply override_well_configured|].
    rewrite (override_admin fl c), Ha.
    rewrite (bool_decide_eq_true_2 (Listen _ = _)); [by rewrite bool_decide_eq_true_2|].
    destruct (decide (fListen fl = [])) as [Hn|Hn].
    + rewrite <- Hno by done. unfold override. by rewrite bool_decide_eq_true_2.
    + rewrite override_listen by done. by rewrite (po_listen _ _ Hok).
Qed.

(** C11: access follows the file in force.  At any point in the life of a
    process, reloads included, a request let through to a gated path is one of a
    configured service, and the grant it rides on is an operator's own or carries
    a kid the configuration in force still lists, unexpired, with the very secret
    it was minted under, and still allows on that service.  So dropping or
    rotating a token in the file and signalling the process ends its access. *)
Theorem access_by_policy E fl raw draw tk dr p es r
    (Hmain : serving (main fl raw draw) tk dr p)
    (Hpass : status (resp (authz E r (begin (world (prun E fl p es)))).2) = StatusNoContent) :
  let w := begin (world (prun E fl p es)) in
  exists x, ctx_of E (cfg (srv w)) r = Some x /\
    (is_endpoint (URIPrefix (cfg (srv w))) (uri x) = true \/
     exists g, honored w r x (now_at E (ticks w)) = Some g /\
       canonServices (cfg (srv w)) !! service x = Some (svc x) /\
       (gManual g = true \/
        exists t, policy (cfg (srv w)) (svc x) (gKid g) (now_at E (ticks w)) t /\
          gSecretFP g = Fingerprint (Some t))).
Proof.
  cbv zeta. destruct (serving_start _ _ _ _ _ _ Hmain) as (Hok%(prun_ok E fl p es) & _ & _).
  apply authz_204 in Hpass; [|done]. unfold authz_pass in Hpass.
  set (w := begin (world (prun E fl p es))) in *.
  assert (Hw : in_sync w /\ well_configured (cfg (srv w))) by (destruct Hok; done).
  clearbody w. destruct Hw as [[_ Hreg] Hwc].
  apply andb_true_iff in Hpass as [_ Hpass].
  destruct (ctx_of E _ r) as [x|] eqn:Hctx; [|done]. exists x. split; [done|].
  apply orb_true_iff in Hpass as [He|Hpass]; [by left|right].
  apply andb_true_iff in Hpass as [Hknown Hg].
  destruct (honored w r x _) as [g|] eqn:Hh; [|done]. exists g. split; [done|].
  assert (Hsvc : canonServices (cfg (srv w)) !! service x = Some (svc x)).
  { unfold ctx_of in Hctx. destruct (ClientIP _ r) as [[addr|?] ?]; [|done].
    destruct (bool_decide (addr = [])); [done|].
    destruct (resolveTarget _ _ r) as [[s u]|]; [|done]. destruct (bool_decide (s = [])); [done|].
    injection Hctx as <-. cbn [service svc known] in *. unfold Service in *.
    by destruct (canonServices _ !! s). }
  split; [done|]. unfold honored in Hh. apply bind_Some in Hh as (g' & Ha & Hb).
  assert (g' = g) as -> by (destruct (bound x && _); [done|by injection Hb]).
  apply IsAllowed_iff in Ha as [_ [_ _ _ [Hm|(t & Hauth & Hfp)] _]]; [by left|right].
  exists t. split; [|done]. by eapply authorized_policy.
Qed.

(** C39: the command line means what it says: however each option is spelled (one dash
    or two, the value joined or in the next argument), the command goes on with
    the options in their order, each overriding what came before, and with the file
    they name; an option it does not have stops it with the usage and code 2, with
    no file read, whatever follows. *)
Theorem command_line_exact opts p name rest read draw
    (Hname : plain name) (Hnew : name ∉ [lit "help"; lit "h"] ++ map Name formal) :
  command (arguments opts) read draw = main (options opts) (read (fConfig (options opts))) draw /\
  command (arguments opts ++ (dashes p ++ name) :: rest) read draw = SUsage 2.
Proof.
  split; [apply command_options|]. unfold command, command_line. rewrite settings_read.
  by rewrite (Parse_undefined formal name _ _ p Hname Hnew).
Qed.

(** C29: [-check] is the whole of the start-up.  Whatever the other options, with
    [-check] after them the command reports of the file they name exactly what
    the start would do with it: a file it accepts starts a server, with the listen
    address it reported, unless there is no randomness; a file it refuses stops
    the process with the same error. *)
Theorem check_decides opts p read draw
    (Hplain : fCheck (options opts) = false /\ fVersion (options opts) = false) :
  let check := command (arguments (opts ++ [GiveCheck p true])) read draw in
  let start := command (arguments opts) read draw in
  let file := LoadConfig (read (fConfig (options opts))) in
  (exists e, file = Err e /\ check = SConfigFatal e /\ start = SConfigFatal e) \/
  (exists c, file = Ok c /\
     check = SCheckOK (length (cfgTokens c)) (size (cfgServices c)) (Listen (override (options opts) c)) /\
     (RandomBytes draw 32 = None /\ start = SStartupFatal \/
      exists s a, start = SServing s a /\ cfg s = override (options opts) c /\
        mux s = Some (buildMuxLocked (cfg s)))).
Proof.
  destruct Hplain as [Hc Hv]. cbv zeta. rewrite !command_options. unfold options in *.
  rewrite foldl_app. cbn [foldl]. set (fl := foldl _ _ opts) in *. clearbody fl.
  destruct fl as [path ck vs l]. cbn [fCheck fVersion] in Hc, Hv. subst.
  unfold main, give. cbn [fConfig fCheck fVersion fListen].
  destruct (LoadConfig (read path)) as [c|e] eqn:Hload; [right|left; by eexists].
  exists c. split; [done|]. split.
  { unfold override. cbn [fListen]. by destruct (bool_decide (l = [])). }
  apply LoadConfig_well_configured, (override_well_configured (mkFlags path false false l)) in Hload.
  destruct (NewServer _ draw) as [s|] eqn:Hs; [right|left; split; [by eapply NewServer_total|done]].
  eexists _, _. split; [done|]. unfold NewServer in Hs. destruct (MakeRegistry _); [|done].
  apply bind_Some in Hs as (nk & _ & [= <-]). done.
Qed.

(** ** Witnesses *)

Notation ex_flags := (mkFlags (lit "config.json") false false (lit "10.1.2.3:80")).
Notation ex_file := (Some (Encode (JObj (config_members ex_config (map_to_list (cfgServices ex_config)))))).
Notation ex_draw := (fun _ => Some ex_nk).

Definition ex_process : Process :=
  match main ex_flags ex_file ex_draw with
  | SServing s a => mkProcess {| srv := s; ticks := 0; draws := 0; resp := fresh |} a true []
  | _ => mkProcess ex_start false false []
  end.

Lemma ex_serving : serving (main ex_flags ex_file ex_draw) 0 0 ex_process.
Proof.
  unfold ex_process.
  assert (H : match main ex_flags ex_file ex_draw with SServing _ _ => true | _ => false end = true)
    by (vm_compute; reflexivity).
  destruct (main _ _ _) as [| | | | |s a]; try discriminate H. by exists s, a.
Qed.

Lemma process_refines_server_witness :
  world (prun ex_env ex_flags ex_process [PTick; PHup ex_file; PMain ex_knock; PTerm; PTick]) =
  app_run ex_env (world ex_process)
    (server_run ex_flags (adminSrv ex_process) [PTick; PHup ex_file; PMain ex_knock; PTerm; PTick]).
Proof. apply (process_refines_server _ _ ex_file ex_draw 0 0). exact ex_serving. Defined.

Lemma SIGHUP_exact_witness :
  let q := prun ex_env ex_flags ex_process [PMain ex_knock] in
  let q' := pstep ex_env ex_flags q (PHup None) in
  world q' = world q.
Proof.
  assert (Hup : up (prun ex_env ex_flags ex_process [PMain ex_knock]) = true) by (vm_compute; reflexivity).
  destruct (SIGHUP_exact ex_env ex_flags ex_file ex_draw 0 0 ex_process [PMain ex_knock] None
    ex_serving Hup) as [(c & H & _)|(_ & H & _)]; [discriminate H|exact H].
Defined.

Lemma access_by_policy_witness :
  exists x, ctx_of ex_env ex_final ex_return = Some x.
Proof.
  assert (Hp : status (resp (authz ex_env ex_return
    (begin (world (prun ex_env ex_flags ex_process [PMain ex_knock; PHup ex_file])))).2) = StatusNoContent)
    by (vm_compute; reflexivity).
  destruct (access_by_policy ex_env ex_flags ex_file ex_draw 0 0 ex_process
    [PMain ex_knock; PHup ex_file] ex_return ex_serving Hp) as (x & Hx & _).
  exists x. vm_compute in Hx. vm_compute. exact Hx.
Defined.

Notation once := (mkSpelling false false).
Notation eq_twice := (mkSpelling true true).

Example ex_command_line :
  command_line (map lit ["--listen=:80"; "-config"; "c.json"; "-check=f"; "-listen"; ""; "-check"; "x"; "-nope"]%string) =
  Ok (mkFlags (lit "c.json") true false []).
Proof. vm_compute. reflexivity. Qed.

Example ex_bad_bool : command (map lit ["-check=maybe"]%string) (fun _ => None) (fun _ => None) = SUsage 2.
Proof. vm_compute. reflexivity. Qed.

Example ex_help : command (map lit ["-config"; "x"; "--help"]%string) (fun _ => None) (fun _ => None) = SUsage 0.
Proof. vm_compute. reflexivity. Qed.

Lemma command_line_exact_witness :
  command (map lit ["-config"; "c.json"; "--nope"; "-version"]%string) (fun _ => None) ex_draw = SUsage 2.
Proof.
  refine (proj2 (command_line_exact [GiveConfig once (lit "c.json")] eq_twice (lit "nope") [lit "-version"]
    (fun _ => None) ex_draw _ _)).
  - split; [discriminate|by apply (bool_decide_unpack _)].
  - by apply (bool_decide_unpack _).
Defined.

Lemma ex_file_loads : match LoadConfig ex_file with Ok _ => true | Err _ => false end = true.
Proof. vm_compute. reflexivity. Qed.

(** The file the process of the other witnesses runs on, checked and then started. *)
Lemma check_decides_witness :
  let opts := [GiveConfig once (lit "c.json"); GiveListen eq_twice (lit ":81")] in
  exists n m s a, command (arguments (opts ++ [GiveCheck once true])) (fun _ => ex_file) ex_draw =
      SCheckOK n m (Listen (cfg s)) /\
    command (arguments opts) (fun _ => ex_file) ex_draw = SServing s a.
Proof.
  intros opts.
  destruct (check_decides opts once (fun _ => ex_file) ex_draw (conj eq_refl eq_refl))
    as [(e & He & _)|(c & _ & Hc & [[Hr _]|(s & a & Hs & Hcfg & _)])].
  - pose proof ex_file_loads as H. rewrite He in H. discriminate H.
  - discriminate Hr.
  - eexists _, _, s, a. rewrite Hcfg. split; [exact Hc|exact Hs].
Defined.
