(* ===== verification/Typed.v ===== *)
(** * Typed: the types of the server state.

    What a value of the Go types can be, and what the code keeps besides: every
    [int64] in range, grants canonical and bound as their binding says, the rate
    table within its bound, the configuration, registry and routing table those
    of one well-formed file.  Every step of a process preserves it.

    [yields P m] is the judgement of an action of the handlers' monad: from a
    typed server it leaves a typed server and answers a value in [P].  It has one
    lemma per primitive and one per construct of the monad, collected in the hint
    database [typed]; a handler is typed by following its syntax. *)

From S2P Require Import Prelude GoStrings Json Wire Base64 Sha256 Crypto ServerName CanonIP NetIP Registry RateLimit.
From S2P Require Import Store StoreHistory Http Config ConfigFile GoPath RealIP Server Admin App AppHistory Main.
From S2P Require NonceStore EnrollStore.
Import strings netip.

Create HintDb typed.

Record grant_typed (g : Grant) : Prop := {
  gt_version : gV g = 1;
  gt_service : gService g <> [] /\ CanonServerName (gService g) = gService g;
  gt_ip : gIP g <> [] /\ CanonIP (gIP g) 128 32 = Ok (gIP g);
  gt_binding : gBinding g = BindingIP /\ gCookieHash g = [] \/
               gBinding g = BindingIPCookie /\ gCookieHash g <> [];
  gt_issued : in_i64 (gIssued g);
  gt_exp : in_i64 (gExp g) }.

Definition entry_typed (e : rlEntry) : Prop := in_i64 (start e) /\ in_i64 (n e).

Definition metrics_typed (m : metrics) : Prop :=
  in_i64 (knockOK m) /\ in_i64 (knockFail_ m) /\ in_i64 (granted m) /\ in_i64 (denied m) /\
  in_i64 (enrollOK m).

Definition rl_typed (l : RateLimiter) : Prop :=
  1 <= RateLimit.max l /\ len l <= RateLimit.max l /\ map_Forall (fun _ e => entry_typed e) (window l).

Record server_typed (s : Server) : Prop := {
  st_wf : wf (grants s);
  st_grants : map_Forall (fun _ g => grant_typed g) (Store.grants (grants s));
  st_nonces : map_Forall (fun _ e => in_i64 e) (NonceStore.spent (nonces s));
  st_codes : map_Forall (fun _ c => in_i64 (EnrollStore.ecExp c)) (EnrollStore.codes (codes s));
  st_rl : rl_typed (rl s);
  st_metrics : metrics_typed (mtr s);
  st_config : well_configured (cfg s);
  st_registry : MakeRegistry (cfg s) = Ok (reg s);
  st_mux : mux s = Some (buildMuxLocked (cfg s)) }.

(** ** The stores *)

Lemma put_typed s g old :
  wf s -> map_Forall (fun _ g => grant_typed g) (Store.grants s) -> grant_typed g ->
  wf (Put s (Some g) old) /\ map_Forall (fun _ g => grant_typed g) (Store.grants (Put s (Some g) old)).
Proof.
  intros Hwf Hall Hg. destruct (Put_spec s g old Hwf) as [Hwf' He]. split; [done|].
  intros k g'. rewrite He, aPut_lookup. case_decide; [by intros [= <-]|].
  case_decide; [done|]. apply Hall.
Qed.

Lemma filter_typed {A} (P : A -> Prop) (m : gmap bytes A) (Q : bytes * A -> Prop) `{forall x, Decision (Q x)} :
  map_Forall (fun _ a => P a) m -> map_Forall (fun _ a => P a) (filter Q m).
Proof. intros H' k a [Hk _]%map_lookup_filter_Some. by eapply H'. Qed.

Lemma claim_typed s id t ttl :
  map_Forall (fun _ e => in_i64 e) (NonceStore.spent s) ->
  map_Forall (fun _ e => in_i64 e) (NonceStore.spent (NonceStore.Claim s id t ttl).2).
Proof.
  intros H k e. rewrite NonceStore.Claim_spent. case_decide; [intros [= <-]; apply i64_in|apply H].
Qed.

Lemma consume_typed s code t :
  map_Forall (fun _ c => in_i64 (EnrollStore.ecExp c)) (EnrollStore.codes s) ->
  map_Forall (fun _ c => in_i64 (EnrollStore.ecExp c)) (EnrollStore.codes (EnrollStore.Consume s code t).2).
Proof. intros H. rewrite EnrollStore.Consume_codes. by apply map_Forall_delete. Qed.

Lemma allow_typed l key p t : in_i64 t -> rl_typed l -> rl_typed (Allow l key p t).2.
Proof.
  intros Ht (Hm & Hl & Hw). destruct (Allow_bounded l key p t Hm Hl) as [Hb Hmax].
  split; [by rewrite Hmax|]. split; [done|]. clear Hb Hmax. unfold Allow. destruct (p <=? 0); [done|].
  assert (Hnew : entry_typed {| start := t; n := 1 |}) by (split; [done|by unfold in_i64]).
  destruct (window l !! key) as [e|] eqn:E.
  - destruct (_ <? 60); cbn [snd set_window window]; apply map_Forall_insert_2; try done.
    split; [apply (proj1 (Hw key e E))|apply i64_in].
  - destruct (_ <=? len l); cbn [andb].
    + destruct (_ <=? _); cbn [snd set_window window sweepLocked]; [by apply filter_typed|].
      apply map_Forall_insert_2; [done|]. by apply filter_typed.
    + cbn [snd set_window window]. by apply map_Forall_insert_2.
Qed.

Lemma sweep_typed l t : rl_typed l -> rl_typed (RateLimit.Sweep l t).2.
Proof.
  intros (Hm & Hl & Hw). split; [done|]. split; [|by apply filter_typed].
  etrans; [apply sweep_size|done].
Qed.

Lemma inc_typed m k : metrics_typed m -> metrics_typed (inc m k).
Proof.
  destruct m. unfold metrics_typed. cbn. intros (?&?&?&?&?).
  destruct k; cbn; auto 10 using i64_in.
Qed.

(** ** The monad *)

Section yields.
Variable (E : Env).
Hypothesis (Hclock : forall n, in_i64 (now_at E n)).

Definition yields {A} (P : A -> Prop) (m : M A) : Prop :=
  forall w, server_typed (srv w) -> server_typed (srv (m w).2) /\ P (m w).1.

Notation ok := (yields (fun _ => True)).

Lemma yields_bind {A B} (P : A -> Prop) (Q : B -> Prop) (m : M A) (f : A -> M B) :
  yields P m -> (forall a, P a -> yields Q (f a)) -> yields Q (m ≫= f).
Proof.
  intros Hm Hf w Hw. unfold mbind, ST_bind. destruct (Hm w Hw) as [Hw' Hp].
  destruct (m w) as [a w']. by apply Hf.
Qed.

Lemma yields_ret {A} (P : A -> Prop) (a : A) : P a -> yields P (mret a).
Proof. intros Ha w Hw. by split. Qed.

Lemma yields_any {A} (P : A -> Prop) (m : M A) : yields P m -> ok m.
Proof. intros H w Hw. destruct (H w Hw). by split. Qed.

Notation ops := (world_ops (now_at E) (rand_at E)).

(** An action that only reads the server, and one that updates it. *)
Lemma reads_yields {A} (P : A -> Prop) (m : M A) :
  (forall w, srv (m w).2 = srv w) -> (forall w, server_typed (srv w) -> P (m w).1) -> yields P m.
Proof. intros Hs Hp w Hw. rewrite Hs. split; [done|by apply Hp]. Qed.

Lemma act_yields {A} (P : A -> Prop) (f : Server -> A * Server) :
  (forall s, server_typed s -> server_typed (f s).2 /\ P (f s).1) -> yields P (act f).
Proof.
  intros Hf w Hw. specialize (Hf _ Hw). unfold act. by destruct (f (srv w)) as [a s].
Qed.

Ltac reading := by apply reads_yields.

Lemma config_yields : yields well_configured (config (Ops := ops)).
Proof. apply reads_yields; [done|]. by intros w []. Qed.
Lemma registry_yields : ok (registry (Ops := ops)).
Proof. reading. Qed.
Lemma nonce_key_yields : ok (nonce_key (Ops := ops)).
Proof. reading. Qed.
Lemma out_yields f : ok (out (Ops := ops) f).
Proof. reading. Qed.
Lemma now_yields : yields in_i64 (now (Ops := ops)).
Proof. apply reads_yields; [done|]. intros w _. apply Hclock. Qed.
Lemma random_yields n : ok (random (Ops := ops) n).
Proof. reading. Qed.
Lemma is_allowed_yields svc ip rg t cookie : ok (is_allowed (Ops := ops) svc ip rg t cookie).
Proof. reading. Qed.
Lemma list_grants_yields t : ok (list_grants (Ops := ops) t).
Proof. reading. Qed.
Lemma peek_yields code t : ok (peek (Ops := ops) code t).
Proof. reading. Qed.
Lemma counters_yields : ok (counters (Ops := ops)).
Proof. reading. Qed.
Lemma routing_yields : ok (routing (Ops := ops)).
Proof. reading. Qed.

Lemma count_yields k : ok (count (Ops := ops) k).
Proof. apply act_yields. intros s []. split; [|done]. split; try done. by apply inc_typed. Qed.

Lemma allow_yields key limit t : in_i64 t -> ok (allow_at (Ops := ops) key limit t).
Proof.
  intros Ht. apply act_yields. intros s []. pose proof (allow_typed (rl s) key limit t Ht st_rl0) as Hrl.
  destruct (Allow _ _ _ _) as [b l]. cbn [snd] in *. split; [|done]. by split.
Qed.

Lemma claim_yields id t ttl : ok (claim (Ops := ops) id t ttl).
Proof.
  apply act_yields. intros s []. pose proof (claim_typed (nonces s) id t ttl st_nonces0) as Hn.
  destruct (NonceStore.Claim _ _ _ _) as [b l]. cbn [snd] in *. split; [|done]. by split.
Qed.

Lemma put_yields g old : grant_typed g -> ok (put_grant (Ops := ops) g old).
Proof.
  intros Hg. apply act_yields. intros s []. destruct (put_typed (grants s) g old st_wf0 st_grants0 Hg).
  split; [|done]. by split.
Qed.

Lemma consume_yields code t : ok (consume (Ops := ops) code t).
Proof.
  apply act_yields. intros s []. pose proof (consume_typed (codes s) code t st_codes0) as Hc.
  destruct (EnrollStore.Consume _ _ _) as [b l]. cbn [snd] in *. split; [|done]. by split.
Qed.

Lemma code_yields code c : in_i64 (EnrollStore.ecExp c) -> ok (put_code (Ops := ops) code c).
Proof.
  intros Hc. apply act_yields. intros s []. split; [|done]. split; try done. by apply map_Forall_insert_2.
Qed.

Lemma revoke_yields sv a : ok (revoke (Ops := ops) sv a).
Proof.
  apply act_yields. intros s [].
  destruct (Revoke_in_spec _ (grants s) sv a st_wf0 (reflexivity _)) as (g & He & Hwf & Hg).
  unfold Revoke. rewrite He. split; [|done]. split; try done. cbn. rewrite Hg. by apply filter_typed.
Qed.

Lemma revoke_token_yields kid : ok (revoke_token (Ops := ops) kid).
Proof.
  apply act_yields. intros s [].
  destruct (RevokeToken_spec (grants s) kid st_wf0) as (g & He & Hwf & Hg).
  rewrite He. split; [|done]. split; try done. cbn. rewrite Hg. by apply filter_typed.
Qed.

(** The context of a request. *)
Definition ctx_typed (c : reqCtx) : Prop :=
  (service c <> [] /\ CanonServerName (service c) = service c) /\
  (ip c <> [] /\ CanonIP (ip c) 128 32 = Ok (ip c)) /\ binding_ok (svBinding (svc c)) = true.

Lemma resolve_yields r :
  yields (fun x => forall c, x = Some c -> ctx_typed c) (Server.resolve (Ops0 := ops) (url_Parse E) r).
Proof.
  intros w Hw. rewrite resolve_eq. split; [done|]. cbn [fst]. intros c. unfold ctx_of.
  destruct (ClientIP _ r) as [[a|?] ?] eqn:Hip; [|done]. destruct (bool_decide (a = [])) eqn:Ha; [done|].
  destruct (resolveTarget _ _ r) as [[s u]|] eqn:Hsv; [|done]. destruct (bool_decide (s = [])) eqn:Hs; [done|].
  bool_prop. intros [= <-]. apply ClientIP_canonical in Hip. apply resolveTarget_canonical in Hsv.
  split; [done|]. split; [done|]. cbn [svc]. unfold Service.
  destruct (canonServices _ !! s) as [sv|] eqn:E'; [|done].
  by apply (wc_modes _ (st_config _ Hw) s sv).
Qed.

(** ** The handlers *)

Hint Resolve config_yields registry_yields nonce_key_yields out_yields now_yields random_yields
  is_allowed_yields list_grants_yields peek_yields counters_yields routing_yields
  count_yields allow_yields claim_yields put_yields consume_yields code_yields revoke_yields
  revoke_token_yields resolve_yields : typed.

(** Follow the syntax of an action. *)
Ltac typing :=
  repeat match goal with
  | |- yields _ (mbind _ _) => eapply yields_bind; [solve [eauto with typed]|intros ? ?]
  | |- yields _ (mbind _ _) => apply (yields_bind (fun _ => True)); [solve [typing]|intros ? ?]
  | |- yields _ (mret _) => apply yields_ret; done
  | |- yields _ (match ?x with _ => _ end) => destruct x eqn:?
  | |- yields _ _ => solve [eauto with typed]
  end.


Lemma header_yields k v : ok (header (Ops0 := ops) k v).
Proof. apply out_yields. Qed.
Lemma headerb_yields k v : ok (headerb (Ops0 := ops) k v).
Proof. apply out_yields. Qed.
Hint Resolve header_yields headerb_yields : typed.

Lemma deny_yields x : ok (Server.deny (Ops0 := ops) x).
Proof. unfold Server.deny. typing. Qed.
Hint Resolve deny_yields : typed.

Lemma knockFail_yields x : ok (Server.knockFail (Ops0 := ops) x).
Proof. unfold Server.knockFail. typing. Qed.

Lemma authzDeny_yields x : ok (authzDeny (Ops0 := ops) x).
Proof. unfold authzDeny. typing. Qed.

Lemma rate_allow_yields c limit : ok (rate_allow (Ops0 := ops) c limit).
Proof. unfold rate_allow. typing. Qed.
Hint Resolve knockFail_yields authzDeny_yields rate_allow_yields : typed.

Lemma binding_cases svc : binding_ok (svBinding svc) = true ->
  binding svc = BindingIP \/ binding svc = BindingIPCookie.
Proof.
  unfold binding_ok, binding. destruct (bool_decide (svBinding svc = [])); [by left|].
  cbn [orb]. intros [H|H]%orb_true_iff; bool_prop; auto.
Qed.

Lemma mint_yields r c cf kid token t :
  ctx_typed c -> in_i64 t -> ok (Server.mint (Ops0 := ops) r c cf kid token t).
Proof.
  intros (Hs & Hi & Hb) Ht. unfold Server.mint.
  destruct (bool_decide (binding (svc c) = BindingIPCookie)) eqn:Ec; bool_prop.
  - eapply yields_bind; [apply random_yields|intros [raw|] _; [|typing]].
    eapply yields_bind; [apply out_yields|intros [] _].
    eapply yields_bind; [apply put_yields|intros [] _; typing].
    split; cbn; try done; [right; split; [done|apply CookieHash_nonempty]|apply i64_in].
  - eapply yields_bind; [apply put_yields|intros [] _; typing].
    split; cbn; try done; [|apply i64_in]. left. split; [|done].
    by destruct (binding_cases _ Hb).
Qed.

Lemma challenge_yields r : ok (challenge E r).
Proof. unfold challenge, handleChallenge. typing. Qed.

Lemma respond_yields r : ok (respond E r).
Proof.
  unfold respond, handleRespond. typing. subst. apply mint_yields; auto.
Qed.

Lemma enroll_yields r : ok (enroll E r).
Proof. unfold enroll, handleEnroll. cbv zeta. typing. Qed.

Lemma register_yields r : ok (register E r).
Proof. unfold register, handleRegister. typing. Qed.

Lemma authz_yields r : ok (authz E r).
Proof. unfold authz, handleAuthz. cbv zeta. typing. Qed.

(** *** The admin API *)

Lemma writeJSON_yields code v : ok (writeJSON (Ops0 := ops) code v).
Proof. unfold writeJSON. typing. Qed.
Hint Resolve writeJSON_yields : typed.

Lemma bad_request_yields msg : ok (bad_request (Ops0 := ops) msg).
Proof. unfold bad_request. typing. Qed.
Hint Resolve bad_request_yields : typed.

Lemma decodeJSON_yields {A} (dec : Z -> bytes -> option A) r : ok (decodeJSON (Ops0 := ops) dec r).
Proof. unfold decodeJSON. typing. Qed.
Hint Resolve decodeJSON_yields : typed.

Lemma adminGrants_yields : ok (adminGrants (Ops0 := ops)).
Proof. unfold adminGrants. cbv zeta. typing. Qed.

Lemma adminGrant_yields r : ok (adminGrant (Ops0 := ops) r).
Proof.
  unfold adminGrant. cbv zeta. typing.
  all: eapply yields_bind; [apply put_yields|intros ? ?; typing].
  all: split; cbn; try done; try apply i64_in; bool_prop; try done; try by left.
  all: first [split; [done|apply CanonServerName_idempotent]
    | split; [by eapply CanonIP_nonempty|by eapply CanonIP_fixed_full]].
Qed.

Lemma adminRevoke_yields r : ok (adminRevoke (Ops0 := ops) r).
Proof. unfold adminRevoke. cbv zeta. typing. Qed.

Lemma adminRevokeToken_yields r : ok (adminRevokeToken (Ops0 := ops) r).
Proof. unfold adminRevokeToken. typing. Qed.

Lemma adminEnrollCode_yields r : ok (adminEnrollCode (Ops0 := ops) r).
Proof.
  unfold adminEnrollCode. cbv zeta. typing.
  eapply yields_bind; [apply code_yields, i64_in|intros ? ?; typing].
Qed.
Hint Resolve adminGrants_yields adminGrant_yields adminRevoke_yields adminRevokeToken_yields
  adminEnrollCode_yields : typed.

Lemma admin_yields r : ok (admin E r).
Proof. unfold admin, handleAdmin. cbv zeta. typing. Qed.
Hint Resolve challenge_yields respond_yields enroll_yields register_yields authz_yields admin_yields : typed.

(** ** Steps of a process *)

Lemma run_handler_yields h r : ok (run_handler E h r).
Proof. rewrite run_handler_eq. destruct h; typing. Qed.
Hint Resolve run_handler_yields : typed.

Lemma dispatch_yields rs r : ok (dispatch E rs r).
Proof. unfold dispatch, Admin.dispatch. typing. Qed.
Hint Resolve dispatch_yields : typed.

Lemma sweep_yields : ok (sweep_tick (now_at E)).
Proof.
  unfold sweep_tick. eapply yields_bind; [apply now_yields|]. intros t _. apply act_yields.
  intros s []. split; [|done].
  destruct (Sweep_in_spec _ (grants s) t st_wf0 (reflexivity _)) as (g & He & Hwf & Hg).
  split; cbn; unfold Store.Sweep; rewrite ?He; cbn; try done.
  - rewrite Hg. by apply filter_typed.
  - by apply filter_typed.
  - by apply filter_typed.
  - by apply sweep_typed.
Qed.

Lemma Reload_yields c : well_configured c -> ok (Reload c).
Proof.
  intros Hc. apply act_yields. intros s Hs. split; [|done].
  unfold reload. destruct (MakeRegistry c) as [rg|e] eqn:Hr; [|done].
  destruct (negb _); [done|]. destruct (negb _); [done|]. destruct Hs. by split.
Qed.

Lemma app_step_typed w e :
  match e with EvReload c => well_configured c | _ => True end ->
  server_typed (srv w) -> server_typed (srv (app_step E w e)).
Proof.
  intros He Hw. destruct e as [r|r| |c]; cbn [app_step].
  - enough (Hy : ok (Handler E r)) by (by apply Hy). unfold Handler, Admin.Handler. typing.
  - enough (Hy : ok (AdminHandler E r)) by (by apply Hy). unfold AdminHandler, Admin.AdminHandler. typing.
  - by apply sweep_yields.
  - by apply Reload_yields.
Qed.
End yields.

Lemma app_run_typed E w es :
  (forall n, in_i64 (now_at E n)) ->
  Forall (fun e => match e with EvReload c => well_configured c | _ => True end) es ->
  server_typed (srv w) -> server_typed (srv (app_run E w es)).
Proof.
  intros Hclock Hes. revert w. induction Hes as [|e es He _ IH]; intros w Hw; [done|].
  apply IH. by apply app_step_typed.
Qed.

Lemma server_run_configured fl a es :
  Forall (fun e => match e with EvReload c => well_configured c | _ => True end) (server_run fl a es).
Proof.
  unfold server_run. induction (before_term es) as [|e l IH]; [constructor|].
  cbn [map concat]. apply Forall_app. split; [|done].
  destruct e as [r|r| |raw|]; cbn [server_events]; try (by repeat constructor).
  - destruct a; by repeat constructor.
  - destruct (LoadConfig raw) as [c|] eqn:Hc; [|constructor]. constructor; [|constructor].
    by eapply override_well_configured, LoadConfig_well_configured.
Qed.

Lemma NewServer_typed c draw s :
  well_configured c -> NewServer c draw = Some s -> server_typed (Handler_init s).
Proof.
  intros Hc. unfold NewServer. destruct (MakeRegistry c) as [rg|] eqn:Hr; [|done].
  intros (nk & _ & [= <-])%bind_Some. split; try done; apply wf_NewGrantStore.
Qed.

(** ** Property *)

(** C17: the state of a running Authorizer is well typed at every point of its
    life, whatever requests, ticks, signals and files it gets: every [int64] it
    stores is in range, wrap-around included; every grant is for a nonempty service
    and address, each in its canonical form, and carries a cookie hash exactly when it is device-bound; the
    index by kid and the rate table keep their invariants; and the registry and
    routes are those of one well-formed configuration. *)
Theorem server_state_typed E fl raw draw tk dr p es
    (Hclock : forall n, in_i64 (now_at E n))
    (Hmain : serving (main fl raw draw) tk dr p) :
  server_typed (srv (world (prun E fl p es))).
Proof.
  destruct (serving_start _ _ _ _ _ _ Hmain) as (Hok & Hup & c & s & Hload & Hnew & Hsrv & _).
  rewrite (prun_world E fl p es Hok Hup). apply app_run_typed; [done|apply server_run_configured|].
  rewrite Hsrv. eapply NewServer_typed; [|exact Hnew].
  by eapply override_well_configured, LoadConfig_well_configured.
Qed.

Lemma server_state_typed_witness :
  server_typed (srv (world (prun ex_env ex_flags ex_process [PMain ex_knock; PTick; PHup ex_file]))).
Proof.
  apply (server_state_typed ex_env ex_flags ex_file ex_draw 0 0).
  - intros n. cbn [now_at ex_env]. unfold in_i64. lia.
  - exact ex_serving.
Defined.
