(* ===== verification/Routing.v ===== *)
(** * Routing: the routing table and the forward-auth carve-out agree.

    The knock endpoints are reachable on a dark service only if the table routes
    them and [/authz] lets their subrequests through.  Both read the prefix of
    the current configuration; here the two readings are proved to coincide. *)

From S2P Require Import Prelude GoStrings Json Wire GoPath Http Config RealIP Server.
Import strings.

(** A prefix that is its own normal form and is not the root. *)
Definition good_prefix (p : bytes) : Prop := canonical_path p /\ p <> lit "/".

Definition endpoints : list (bytes * handler) :=
  [(lit "challenge", HChallenge); (lit "respond", HRespond);
   (lit "enroll", HEnroll); (lit "register", HRegister)].

Definition rooted (es : list bytes) : bytes := "/"%byte :: Join es (lit "/").

Lemma Join_snoc es e : es <> [] -> Join (es ++ [e]) (lit "/") = Join es (lit "/") ++ "/"%byte :: e.
Proof.
  induction es as [|x es IH]; [done|]. intros _. destruct es as [|y es]; [done|].
  change (Join ((x :: y :: es) ++ [e]) (lit "/")) with (x ++ "/"%byte :: Join ((y :: es) ++ [e]) (lit "/")).
  rewrite IH by done.
  change (Join (x :: y :: es) (lit "/")) with (x ++ "/"%byte :: Join (y :: es) (lit "/")).
  by rewrite <- app_assoc.
Qed.

Lemma rooted_snoc es e : es <> [] -> rooted (es ++ [e]) = rooted es ++ "/"%byte :: e.
Proof. intros H. unfold rooted. by rewrite Join_snoc. Qed.

Lemma rooted_last es : path.normal es -> es <> [] -> HasSuffix (rooted es) (lit "/") = false.
Proof.
  intros Hn Hne. unfold HasSuffix. apply bool_decide_eq_false. intros [k Hk].
  destruct es as [|e es _] using rev_ind; [done|]. apply Forall_app in Hn as [_ He].
  apply Forall_cons in He as [(Hne' & _ & _ & Hsep) _].
  assert (Hl : last (rooted (es ++ [e])) = last e).
  { destruct (decide (es = [])) as [->|Hes]; [by destruct e|].
    rewrite rooted_snoc by done. rewrite last_app_cons. by destruct e. }
  rewrite Hk in Hl. change (lit "/") with ["/"%byte] in Hl. rewrite last_snoc in Hl.
  apply Hsep. symmetry in Hl. apply last_Some in Hl as [l ->]. set_solver.
Qed.

Lemma rooted_clean es : path.normal es -> es <> [] -> cleanPath (rooted es) = rooted es.
Proof.
  intros Hn Hne. unfold cleanPath. rewrite bool_decide_eq_false_2 by done.
  pose proof (HasPrefix_app (lit "/") (Join es (lit "/"))) as Hp. simpl in Hp.
  unfold rooted at 1 2. rewrite Hp. fold (rooted es).
  rewrite rooted_last by done. cbn [andb]. by apply path.Clean_join.
Qed.

Lemma rooted_no_redirect es : path.normal es -> es <> [] -> muxWouldRedirect (rooted es) = false.
Proof.
  intros Hn Hne. unfold muxWouldRedirect. rewrite bool_decide_eq_false_2 by done.
  rewrite rooted_last by done. cbn [andb].
  assert (path.Clean (rooted es) = rooted es) as -> by (by apply path.Clean_join).
  by rewrite bool_decide_eq_true_2.
Qed.

Definition plain_bytes (es : list bytes) : Prop := Forall (fun e => "%"%byte ∉ e) es.

Lemma segments_rooted es :
  path.normal es -> plain_bytes es -> es <> [] -> segments (rooted es) = es.
Proof.
  intros Hn Hp Hne.
  change (map (fun s => default s (url.PathUnescape s)) (Split (Join es (lit "/")) "/") = es).
  rewrite (path.Split_Join es) by (try apply path.normal_no_sep; done).
  clear Hn Hne. induction Hp as [|e es He _ IH]; [done|].
  cbn [map]. by rewrite IH, url.PathUnescape_plain.
Qed.

Lemma endpoint_plain name h : (name, h) ∈ endpoints -> path.plain name /\ "%"%byte ∉ name.
Proof.
  unfold endpoints. rewrite !elem_of_cons, elem_of_nil.
  intros [[= -> ->]|[[= -> ->]|[[= -> ->]|[[= -> ->]|[]]]]];
    (split; [split; [done|split; [done|split; [done|]]]|]); decide_closed.
Qed.

(** A good prefix, as segments. *)
Lemma good_prefix_segments p :
  good_prefix p -> exists es, p = rooted es /\ path.normal es /\ plain_bytes es /\ es <> [].
Proof.
  intros [[(es & Hn & ->) Hb] Hne]. exists es. split; [done|]. split; [done|].
  assert (Hne' : es <> []) by (by intros ->). split; [|done].
  apply Forall_forall. intros e He Hin. apply (Hb "%"%byte); [|decide_closed].
  right. clear Hn Hne Hb Hne'. revert e He Hin. induction es as [|x es IH]; intros e He Hin.
  - by apply elem_of_nil in He.
  - destruct es as [|y es].
    + apply list_elem_of_singleton in He as ->. done.
    + change (Join (x :: y :: es) (lit "/")) with (x ++ "/"%byte :: Join (y :: es) (lit "/")).
      apply elem_of_app. apply elem_of_cons in He as [->|He]; [by left|right; right].
      by eapply IH.
Qed.

Lemma endpoint_route c es name h :
  URIPrefix c = rooted es -> path.normal es -> plain_bytes es -> es <> [] -> (name, h) ∈ endpoints ->
  List.find (exact_match (es ++ [name])) (buildMuxLocked c) = Some (rooted (es ++ [name]), h).
Proof.
  intros Hp Hn Hb Hne Hin.
  assert (Hex : forall nm k, (nm, k) ∈ endpoints ->
    exact_match (es ++ [name]) (URIPrefix c ++ "/"%byte :: nm, k) = bool_decide (nm = name)).
  { intros nm k Hk. destruct (endpoint_plain nm k Hk) as [Hpl Hpc].
    rewrite Hp, <- rooted_snoc by done. unfold exact_match. cbn [fst].
    assert (Hn2 : path.normal (es ++ [nm])) by (apply Forall_app; split; [done|by apply Forall_singleton]).
    rewrite rooted_last, segments_rooted; try done; [|by apply Forall_app; split; [|by apply Forall_singleton]|by destruct es|by destruct es].
    cbn [negb andb]. apply bool_decide_ext. split; [|by intros ->]. intros H. by simplify_list_eq. }
  unfold buildMuxLocked. cbv zeta. cbn [app List.find].
  change (lit "/challenge") with ("/"%byte :: lit "challenge").
  change (lit "/respond") with ("/"%byte :: lit "respond").
  change (lit "/enroll") with ("/"%byte :: lit "enroll").
  change (lit "/register") with ("/"%byte :: lit "register").
  rewrite (Hex (lit "challenge") HChallenge), (Hex (lit "respond") HRespond),
    (Hex (lit "enroll") HEnroll), (Hex (lit "register") HRegister) by decide_closed.
  rewrite rooted_snoc, <- Hp by done. unfold endpoints in Hin.
  rewrite !elem_of_cons, elem_of_nil in Hin.
  destruct Hin as [[= -> ->]|[[= -> ->]|[[= -> ->]|[[= -> ->]|[]]]]]; reflexivity.
Qed.

Lemma finalize_prefix c c' : finalize c = Ok c' -> URIPrefix c' = clean_prefix (URIPrefix c).
Proof.
  unfold finalize, finalize_in. destruct (_ && _); [done|].
  intros H. repeat (apply result_bind_Ok in H as (? & ? & H)). by injection H as <-.
Qed.

(** No cleaned path starts with two slashes. *)
Lemma canonical_no_double p s : canonical_path p -> p <> "/"%byte :: "/"%byte :: s.
Proof.
  intros [(es & Hn & ->) _] H. injection H as H. destruct es as [|e es]; [done|].
  apply Forall_cons in Hn as [(Hne & _ & _ & Hsep) _]. destruct e as [|b e]; [done|].
  assert (Hb : b = "/"%byte) by (destruct es; by injection H). apply Hsep. rewrite Hb. left.
Qed.

(** ** Properties *)

(** C36: under a prefix in normal form other than ["/"], each of the four protocol endpoints is
    routed to its handler, is not redirected, and is exactly a path the
    forward-auth check carves out: the table and the carve-out never disagree
    about where the gate is. *)
Theorem endpoints_reachable c name h (Hp : good_prefix (URIPrefix c)) (Hin : (name, h) ∈ endpoints) :
  let p := URIPrefix c ++ "/"%byte :: name in
  muxWouldRedirect p = false /\
  ServeMux (buildMuxLocked c) p = Routed h /\
  cleanURIPath p = p /\ is_endpoint (URIPrefix c) p = true.
Proof.
  cbv zeta. destruct (good_prefix_segments _ Hp) as (es & He & Hn & Hb & Hne).
  destruct (endpoint_plain name h Hin) as [Hpl Hpc].
  pose proof (endpoint_route c es name h He Hn Hb Hne Hin) as Hroute.
  assert (Hn2 : path.normal (es ++ [name])) by (apply Forall_app; split; [done|by apply Forall_singleton]).
  assert (Hb2 : plain_bytes (es ++ [name])) by (apply Forall_app; split; [done|by apply Forall_singleton]).
  assert (Hne2 : es ++ [name] <> []) by (by destruct es).
  assert (Hcan : canonical_path (rooted (es ++ [name]))).
  { split; [by exists (es ++ [name])|]. intros b Hbin. rewrite rooted_snoc in Hbin by done.
    apply elem_of_app in Hbin as [Hbin|Hbin].
    - rewrite <- He in Hbin. by apply Hp.
    - clear - Hbin Hin. unfold endpoints in Hin. rewrite !elem_of_cons, elem_of_nil in Hin.
      revert b Hbin. apply Forall_forall.
      destruct Hin as [[= -> ->]|[[= -> ->]|[[= -> ->]|[[= -> ->]|[]]]]]; decide_closed. }
  rewrite He at 1 2 3 4. rewrite <- !rooted_snoc by done. split; [by apply rooted_no_redirect|].
  split; [|split; [by apply cleanURIPath_fixed|]].
  - unfold ServeMux. rewrite rooted_clean by done. rewrite bool_decide_eq_true_2 by done. cbn [negb].
    rewrite segments_rooted by done. by rewrite Hroute.
  - unfold is_endpoint, endpoints in *.
    rewrite !elem_of_cons, elem_of_nil in Hin.
    destruct Hin as [[= -> ->]|[[= -> ->]|[[= -> ->]|[[= -> ->]|[]]]]].
    + by rewrite bool_decide_eq_true_2.
    + by rewrite (bool_decide_eq_true_2 (_ = _ ++ lit "/respond")), orb_true_r.
    + by rewrite (bool_decide_eq_true_2 (_ = _ ++ lit "/enroll")), orb_true_r.
    + by rewrite (bool_decide_eq_true_2 (_ = _ ++ lit "/register")), orb_true_r.
Qed.

(** C38: the loader does not require that normal form: with [uri_prefix: "/"] it
    accepts a configuration none of whose protocol endpoints can be reached: the
    paths they are mounted on are the ones the server refuses as unclean, and no
    request path is ever one the forward-auth check carves out. *)
Theorem root_prefix_unreachable c c' name h
    (Hc : finalize c = Ok c') (Hroot : URIPrefix c = lit "/") (Hin : (name, h) ∈ endpoints) :
  muxWouldRedirect (URIPrefix c' ++ "/"%byte :: name) = true /\
  forall uri, is_endpoint (URIPrefix c') (cleanURIPath uri) = false.
Proof.
  rewrite (finalize_prefix c c' Hc), Hroot. change (clean_prefix (lit "/")) with (lit "/").
  split.
  - unfold endpoints in Hin. rewrite !elem_of_cons, elem_of_nil in Hin.
    destruct Hin as [[= -> ->]|[[= -> ->]|[[= -> ->]|[[= -> ->]|[]]]]]; vm_compute; reflexivity.
  - intros uri. pose proof (canonical_no_double _ (lit "challenge") (cleanURIPath_canonical uri)).
    pose proof (canonical_no_double _ (lit "respond") (cleanURIPath_canonical uri)).
    pose proof (canonical_no_double _ (lit "enroll") (cleanURIPath_canonical uri)).
    pose proof (canonical_no_double _ (lit "register") (cleanURIPath_canonical uri)).
    unfold is_endpoint. by rewrite !bool_decide_eq_false_2.
Qed.

Definition ex_root : Config :=
  {| Listen := []; AdminListen := []; AdminToken := []; URIPrefix := lit "/"; TrustedProxies := [];
     RealIPHeader := []; GrantTTL := 0; NonceTTL := 0; EnrollTTL := 0; IPv6Prefix := 0; RateLimit := 0;
     cfgServices := ∅; cfgTokens := []; trusted := []; canonServices := ∅ |}.

Definition ex_root' : Config := match finalize ex_root with Ok c => c | Err _ => ex_root end.

Lemma endpoints_reachable_witness :
  ServeMux (buildMuxLocked ex_final) (lit "/knock/respond") = Routed HRespond.
Proof.
  apply (endpoints_reachable ex_final (lit "respond") HRespond).
  - split; [|vm_compute; by intros [=]].
    assert (Hf : cleanURIPath (lit "/knock") = URIPrefix ex_final) by (vm_compute; reflexivity).
    rewrite <- Hf. apply cleanURIPath_canonical.
  - right. left.
Defined.

Lemma root_prefix_unreachable_witness :
  muxWouldRedirect (URIPrefix ex_root' ++ lit "/respond") = true.
Proof.
  apply (root_prefix_unreachable ex_root ex_root' (lit "respond") HRespond);
    [vm_compute; reflexivity|reflexivity|right; left].
Defined.

