(* ===== verification/Plug.v ===== *)
(** * Plug: what the two in-process engines share.

    The Caddy module and the Traefik plugin keep one process-wide set of stores
    ([shared] in each file) and read the same inputs.  Their handlers run in any
    monad with the operations of [POps]: on a world, which adds to that set the
    response and the positions in the streams of clock readings and random draws,
    or as programs whose operations interleave. *)

From S2P Require Import Prelude GoStrings Json Wire NetIP CanonIP Registry RateLimit Store Http Config Server.
From S2P Require NonceStore EnrollStore.
Import strings netip.

(** [sharedGrants], [sharedNonces], [sharedCodes], [sharedRL], [nonceKey],
    [lastSweep]. *)
Record Shared := mkShared {
  sharedGrants : GrantStore;
  sharedNonces : NonceStore.NonceStore;
  sharedCodes : EnrollStore.EnrollStore;
  sharedRL : RateLimiter;
  sharedKey : bytes;
  lastSweep : Z }.

Record PWorld := mkPWorld {
  sh : Shared;
  pticks : nat;
  pdraws : nat;
  presp : Response }.

Notation P := (ST PWorld).

Definition on_grants f s :=
  mkShared (f (sharedGrants s)) (sharedNonces s) (sharedCodes s) (sharedRL s) (sharedKey s) (lastSweep s).
Definition on_nonces f s :=
  mkShared (sharedGrants s) (f (sharedNonces s)) (sharedCodes s) (sharedRL s) (sharedKey s) (lastSweep s).
Definition on_codes f s :=
  mkShared (sharedGrants s) (sharedNonces s) (f (sharedCodes s)) (sharedRL s) (sharedKey s) (lastSweep s).
Definition on_rl f s :=
  mkShared (sharedGrants s) (sharedNonces s) (sharedCodes s) (f (sharedRL s)) (sharedKey s) (lastSweep s).
Definition on_last (t : Z) s :=
  mkShared (sharedGrants s) (sharedNonces s) (sharedCodes s) (sharedRL s) (sharedKey s) t.

(** ** What a handler can do *)

Class POps (F : Type -> Type) := {
  pnow : F Z;
  prandom : nat -> F (option bytes);
  pkey : F bytes;
  pallow : bytes -> Z -> Z -> F bool;
  pclaim : bytes -> Z -> Z -> F bool;
  pput : Grant -> list bytes -> F unit;
  pis_allowed : bytes -> bytes -> Registry -> Z -> bytes -> F (option Grant);
  ppeek : bytes -> Z -> F (option EnrollStore.EnrollCode);
  pconsume : bytes -> Z -> F (option EnrollStore.EnrollCode);
  pput_code : bytes -> EnrollStore.EnrollCode -> F unit;
  pdue : Z -> Z -> F bool;               (** is a sweep due? if so it is this request's *)
  psweep : store -> Z -> F unit;
  pout : (Response -> Response) -> F unit }.

(** The section of [maybeSweep] under [sweepMu]. *)
Definition due (every t : Z) (s : Shared) : bool * Shared :=
  if i64 (t - lastSweep s) <? every then (false, s) else (true, on_last t s).

Definition sweep_store (k : store) (t : Z) (s : Shared) : Shared :=
  match k with
  | KGrants => on_grants (fun g => (Store.Sweep g t).2) s
  | KNonces => on_nonces (fun n => (NonceStore.Sweep n t).2) s
  | KCodes => on_codes (fun e => (EnrollStore.Sweep e t).2) s
  | KRates => on_rl (fun l => (RateLimit.Sweep l t).2) s
  end.

Definition pout_resp (f : Response -> Response) (w : PWorld) : PWorld :=
  {| sh := sh w; pticks := pticks w; pdraws := pdraws w; presp := f (presp w) |}.

(** On a whole world: the clock and the generator are streams. *)
Section world.
Variables (now_at : nat -> Z) (rand_at : nat -> nat -> option bytes).

(** An operation that answers a value and updates the stores. *)
Definition pact {A} (f : Shared -> A * Shared) : P A := fun w =>
  let '(a, s) := f (sh w) in
  (a, {| sh := s; pticks := pticks w; pdraws := pdraws w; presp := presp w |}).

Definition pworld_ops : POps P := {|
  pnow w := (now_at (pticks w),
             {| sh := sh w; pticks := S (pticks w); pdraws := pdraws w; presp := presp w |});
  prandom n w := (rand_at (pdraws w) n,
             {| sh := sh w; pticks := pticks w; pdraws := S (pdraws w); presp := presp w |});
  pkey w := (sharedKey (sh w), w);
  pallow key limit t := pact (fun s =>
    let '(ok, l) := Allow (sharedRL s) key limit t in (ok, on_rl (fun _ => l) s));
  pclaim id t ttl := pact (fun s =>
    let '(ok, n) := NonceStore.Claim (sharedNonces s) id t ttl in (ok, on_nonces (fun _ => n) s));
  pput g old := pact (fun s => (tt, on_grants (fun gs => Put gs (Some g) old) s));
  pis_allowed svc ip rg t cookie w := (IsAllowed (sharedGrants (sh w)) svc ip (Some rg) t cookie, w);
  ppeek code t w := (EnrollStore.Peek (sharedCodes (sh w)) code t, w);
  pconsume code t := pact (fun s =>
    let '(c, e) := EnrollStore.Consume (sharedCodes s) code t in (c, on_codes (fun _ => e) s));
  pput_code code c := pact (fun s => (tt, on_codes (fun e => EnrollStore.Put e code c) s));
  pdue every t := pact (due every t);
  psweep k t := pact (fun s => (tt, sweep_store k t s));
  pout f w := (tt, pout_resp f w) |}.
End world.

(** Whether the gate let the request through to the next handler. *)
Inductive outcome := Passed | Answered.

#[export] Instance outcome_eq_dec : EqDecision outcome.
Proof. solve_decision. Defined.
