(* ===== verification/Caddy.v ===== *)
(** * Caddy: the Caddy module ([adapters/caddy/jitaccess.go]).

    [caddy.Duration] counts nanoseconds.  The code converts one to seconds
    through a float; [seconds] is that conversion for the durations a site can
    use, those that are whole seconds or shorter than [2^23] of them. *)

From stdpp Require Import pretty.
From S2P Require Import Prelude GoStrings Json Wire Base64 Crypto ServerName NetIP CanonIP Registry RateLimit.
From S2P Require Import Store Http Config RealIP Pages Server Plug.
From S2P Require NonceStore EnrollStore.
Import strings netip.

Module Caddy.

Definition second : Z := 1000000000.
Definition seconds (d : Z) : Z := Z.quot d second.

Record Token := mkToken {
  Kid : bytes;
  Secret : bytes;
  Label : bytes;
  Expires : Z }.

Record JITAccess := mkJIT {
  Prefix : bytes;
  Allow : list bytes;
  Tokens : list Token;
  GrantTTL : Z;
  NonceTTL : Z;
  EnrollTTL : Z;
  FailureMode : bytes;
  Binding : bytes;
  IPv6Prefix : Z;
  RateLimit : Z;
  TrustForwarded : bool;
  TrustedProxies : list bytes;
  reg : Registry;
  trusted : list netip.Prefix }.

Inductive provision_err :=
| ERng
| EPrefix (s : bytes)
| ETrustForwarded
| ESecretEncoding (kid : bytes)
| ESecretShort (kid : bytes).

Inductive validate_err := EFailureMode | EBinding | ENoTokens | ENoAllow.

Definition orb_default (z d : Z) : Z := if z =? 0 then d else z.

Fixpoint parsePrefixes (l : list bytes) : result provision_err (list netip.Prefix) :=
  match l with
  | [] => Ok []
  | s :: l' =>
      let s := TrimSpace s in
      if bool_decide (s = []) then parsePrefixes l'
      else
        p ← match ParsePrefix s with
            | Some p => Ok p
            | None => match ParseAddr s with
                      | None => Err (EPrefix s)
                      | Some a => Ok (PrefixFrom a (BitLen a))
                      end
            end;
        ps ← parsePrefixes l';
        Ok (p :: ps)
  end.

Fixpoint build_tokens (m : gmap bytes Registry.Token) (ts : list Token)
    : result provision_err (gmap bytes Registry.Token) :=
  match ts with
  | [] => Ok m
  | t :: ts' =>
      match B64uDecode (Secret t) with
      | None => Err (ESecretEncoding (Kid t))
      | Some sec =>
          if (length sec <? 16)%nat then Err (ESecretShort (Kid t))
          else
            build_tokens
              (<[Kid t := {| Registry.Secret := sec; Registry.Alg := AlgHMACSHA256;
                             Registry.Label := Label t; Registry.Expires := Expires t |}]> m) ts'
      end
  end.

(** The registry is site-scoped: one ["*"] entry. *)
Definition site_registry (tokens : gmap bytes Registry.Token) (allow : list bytes) : Registry :=
  NewRegistry (Some tokens)
    (Some {[ star := foldl (fun m k => <[k := true]> m) ∅ allow ]}).

(** [shared()]: [sharedOnce] runs its function once, and what came of it stays,
    a failure of the generator too. *)
Definition shared (draw : nat -> option bytes) (once : option (option Shared))
    : option Shared * option (option Shared) :=
  match once with
  | Some made => (made, once)
  | None =>
      let made :=
        nk ← RandomBytes draw 32;
        Some (mkShared NewGrantStore NonceStore.NewNonceStore EnrollStore.NewEnrollStore
                (NewRateLimiter DefaultRateLimitEntries) nk 0) in
      (made, Some made)
  end.

(** [Provision], after [shared()] has succeeded. *)
Definition Provision (j : JITAccess) : result provision_err JITAccess :=
  ps ← parsePrefixes (TrustedProxies j);
  if TrustForwarded j && bool_decide (ps = []) then Err ETrustForwarded
  else
    tokens ← build_tokens ∅ (Tokens j);
    Ok {| Prefix := clean_prefix (Prefix j);
          Allow := Allow j; Tokens := Tokens j;
          GrantTTL := orb_default (GrantTTL j) (3600 * second);
          NonceTTL := orb_default (NonceTTL j) (60 * second);
          EnrollTTL := orb_default (EnrollTTL j) (86400 * second);
          FailureMode := if bool_decide (FailureMode j = []) then FailInterstitial else FailureMode j;
          Binding := if bool_decide (Binding j = []) then BindingIP else Binding j;
          IPv6Prefix := if (IPv6Prefix j <=? 0) || (128 <? IPv6Prefix j) then 128 else IPv6Prefix j;
          RateLimit := if RateLimit j <=? 0 then 10 else RateLimit j;
          TrustForwarded := TrustForwarded j; TrustedProxies := TrustedProxies j;
          reg := site_registry tokens (Allow j); trusted := ps |}.

(** The whole of it: a site is served only beside the shared stores. *)
Definition Provision_shared (draw : nat -> option bytes) (once : option (option Shared)) (j : JITAccess)
    : result provision_err JITAccess * option (option Shared) :=
  let '(made, once) := shared draw once in
  (match made with None => Err ERng | Some _ => Provision j end, once).

Definition Validate (j : JITAccess) : result validate_err unit :=
  if negb (bool_decide (FailureMode j = FailInterstitial) || bool_decide (FailureMode j = FailStealth))
  then Err EFailureMode
  else if negb (bool_decide (Binding j = BindingIP) || bool_decide (Binding j = BindingIPCookie))
  then Err EBinding
  else if bool_decide (length (Tokens j) = 0%nat) then Err ENoTokens
  else if bool_decide (length (Allow j) = 0%nat) then Err ENoAllow
  else Ok tt.

Definition isTrusted (j : JITAccess) (a : Addr) : bool :=
  let a := Unmap a in existsb (fun p => Contains p a) (trusted j).

Definition parseHostAddr (s : bytes) : option Addr :=
  let s := TrimSpace s in
  let s := match SplitHostPort s with Some (h, _) => h | None => s end in
  a ← ParseAddr (Trim s (lit "[]"));
  Some (Unmap a).

Fixpoint walk (j : JITAccess) (chain : list bytes) : option bytes :=
  match chain with
  | [] => None
  | s :: rest =>
      match parseHostAddr s with
      | None => walk j rest
      | Some a =>
          if isTrusted j a then walk j rest
          else match CanonIP (String a) (IPv6Prefix j) 32 with Ok c => Some c | Err _ => None end
      end
  end.

Definition clientIP (j : JITAccess) (r : Request) : option bytes :=
  peer ← parseHostAddr (RemoteAddr r);
  if negb (TrustForwarded j) || negb (isTrusted j peer) then
    match CanonIP (String peer) (IPv6Prefix j) 32 with Ok c => Some c | Err _ => None end
  else
    walk j (reverse (concat (map (fun v => Split v ","%byte) (Values (RHeader r) (lit "X-Forwarded-For"))))).

Definition allowedForService (j : JITAccess) (kid : bytes) : bool :=
  AllowedForService (Some (reg j)) kid star.

Section engine.
Context {F : Type -> Type} `{!MRet F, !MBind F, !POps F}.

Notation now := pnow.
Notation random := prandom.

(** The module's own copy of the denial page. *)
Definition interstitialHTML : bytes := Pages.interstitialHTML.

Definition sweepEvery : Z := 60.

Definition maybeSweep (t : Z) : F unit :=
  d ← pdue sweepEvery t;
  if (d : bool) then psweep KGrants t;; psweep KNonces t;; psweep KCodes t;; psweep KRates t
  else mret tt.

Definition deny (j : JITAccess) : F unit :=
  pout (r_set (lit "Cache-Control") (lit "no-store"));;
  if bool_decide (FailureMode j = FailStealth) then pout (r_status StatusNotFound)
  else
    pout (r_set (lit "X-JIT-Access") JITMarker);;
    pout (r_set (lit "Content-Type") (lit "text/html; charset=utf-8"));;
    pout (r_status StatusForbidden);;
    pout (r_write interstitialHTML).

Definition handleChallenge (j : JITAccess) (service ip : bytes) : F unit :=
  t0 ← now;
  ok ← pallow (RateKey service ip) (RateLimit j) t0;
  if negb ok then deny j
  else
    rnd ← random 16;
    match rnd with
    | None => deny j
    | Some rnd =>
        ts ← now;
        nk ← pkey;
        match IssueNonce nk (u64 ts) rnd service ip (IPv6Prefix j) with
        | Err _ => deny j
        | Ok nonce =>
            pout (r_set (lit "X-JIT-Nonce") (B64u nonce));;
            pout (r_set (lit "X-JIT-TS") (FormatInt ts));;
            pout (r_set (lit "Cache-Control") (lit "no-store"));;
            pout (r_status StatusNoContent)
        end
    end.

(** [handleRespond] from the successful claim on. *)
Definition mint (j : JITAccess) (r : Request) (service ip kid : bytes) (token : Registry.Token) (n : Z)
    : F unit :=
  let ttl := seconds (GrantTTL j) in
  let grant hash := {| gV := 1; gKid := kid; gService := service; gIP := ip; gBinding := Binding j;
    gCookieHash := hash; gIssued := n; gExp := i64 (n + ttl); gManual := false;
    gSecretFP := Fingerprint (Some token) |} in
  let finish g :=
    let oldHash := match RCookie r GrantCookieName with
                   | Some v => if bool_decide (v = []) then [] else CookieHash v
                   | None => []
                   end in
    pput g [oldHash];;
    pout (r_set (lit "Cache-Control") (lit "no-store"));;
    pout (r_status StatusNoContent) in
  if bool_decide (Binding j = BindingIPCookie) then
    idBytes ← random 32;
    match idBytes with
    | None => deny j
    | Some idBytes =>
        let id := B64u idBytes in
        pout (r_cookie {| ckName := GrantCookieName; ckValue := id; ckPath := lit "/";
                          ckHttpOnly := true; ckSecure := true; ckSameSiteStrict := true;
                          ckMaxAge := ttl |});;
        finish (grant (CookieHash id))
    end
  else finish (grant []).

Definition handleRespond (j : JITAccess) (r : Request) (service ip : bytes) : F unit :=
  t0 ← now;
  ok ← pallow (RateKey service ip) (RateLimit j) t0;
  if negb ok then deny j
  else
    match json_respond 4096 (Body r) with
    | None => deny j
    | Some body =>
        match B64uDecode (rbNonce body), B64uDecode (rbProof body) with
        | Some nonceRaw, Some tag =>
            if negb (length nonceRaw =? NonceLen)%nat || negb (length tag =? 32)%nat then deny j
            else
              n ← now;
              nk ← pkey;
              match VerifyNonce nk nonceRaw service ip n (seconds (NonceTTL j))
                      (IPv6Prefix j) with
              | None => deny j
              | Some rnd =>
                  let token := Lookup (Some (reg j)) (rbKid body) in
                  let secret := match token with Some tk => Registry.Secret tk | None => dummySecret end in
                  let proofOK := VerifyProof secret service (rbKid body) nonceRaw tag in
                  match token with
                  | None => deny j
                  | Some tk =>
                      if IsExpired (Some tk) n || negb (allowedForService j (rbKid body)) || negb proofOK
                      then deny j
                      else
                        first ← pclaim (B64u rnd) n (seconds (NonceTTL j));
                        if negb first then deny j
                        else mint j r service ip (rbKid body) tk n
                  end
              end
        | _, _ => deny j
        end
    end.

Definition handleRegister (j : JITAccess) : F unit :=
  if bool_decide (FailureMode j = FailStealth) then deny j
  else
    pout (r_set (lit "Content-Type") (lit "text/html; charset=utf-8"));;
    pout (r_set (lit "Cache-Control") (lit "no-store"));;
    pout (r_set (lit "Referrer-Policy") (lit "no-referrer"));;
    pout (r_status StatusOK);;
    pout (r_write RegisterHTML).

Definition handleEnroll (j : JITAccess) (r : Request) (service ip : bytes) : F unit :=
  t0 ← now;
  ok ← pallow (RateKey service ip) (RateLimit j) t0;
  if negb ok then deny j
  else
    match json_enroll 4096 (Body r) with
    | None => deny j
    | Some code =>
        if bool_decide (code = []) then deny j
        else
          t1 ← now;
          seen ← ppeek code t1;
          match seen with
          | None => deny j
          | Some peek =>
              match Lookup (Some (reg j)) (EnrollStore.ecKid peek) with
              | None => deny j
              | Some _ =>
                  t2 ← now;
                  got ← pconsume code t2;
                  match got with
                  | None => deny j
                  | Some ec =>
                      match Lookup (Some (reg j)) (EnrollStore.ecKid ec) with
                      | None => deny j
                      | Some token =>
                          pout (r_set (lit "X-JIT-Kid") (EnrollStore.ecKid ec));;
                          pout (r_set (lit "X-JIT-Secret") (B64u (Registry.Secret token)));;
                          pout (r_set (lit "X-JIT-Origins") (Join (EnrollStore.ecOrigins ec) (lit ",")));;
                          pout (r_set (lit "Cache-Control") (lit "no-store"));;
                          pout (r_status StatusNoContent)
                      end
                  end
              end
          end
    end.

Definition answered (m : F unit) : F outcome := m;; mret Answered.

Definition ServeHTTP (j : JITAccess) (r : Request) : F outcome :=
  t ← now;
  maybeSweep t;;
  let service := CanonServerName (Host r) in
  match clientIP j r with
  | None => answered (deny j)
  | Some ip =>
      if bool_decide (service = []) then answered (deny j)
      else
        let p := Prefix j in
        if bool_decide (URLPath r = p) || HasPrefix (URLPath r) (p ++ lit "/") then
          if bool_decide (URLPath r = p ++ lit "/challenge") && bool_decide (Method r = MethodGet)
          then answered (handleChallenge j service ip)
          else if bool_decide (URLPath r = p ++ lit "/respond") && bool_decide (Method r = MethodPost)
          then answered (handleRespond j r service ip)
          else if bool_decide (URLPath r = p ++ lit "/enroll") && bool_decide (Method r = MethodPost)
          then answered (handleEnroll j r service ip)
          else if bool_decide (URLPath r = p ++ lit "/register") && bool_decide (Method r = MethodGet)
          then answered (handleRegister j)
          else answered (deny j)
        else
          let cookie := default [] (RCookie r GrantCookieName) in
          t' ← now;
          found ← pis_allowed service ip (reg j) t' cookie;
          match found with
          | Some g =>
              if bool_decide (Binding j = BindingIPCookie) && negb (bool_decide (gBinding g = BindingIPCookie))
              then answered (deny j)
              else mret Passed
          | None => answered (deny j)
          end
  end.

Definition MintEnrollCode (code kid : bytes) (origins : list bytes) (exp : Z) : F unit :=
  pput_code code {| EnrollStore.ecKid := kid; EnrollStore.ecOrigins := origins; EnrollStore.ecExp := exp |}.
End engine.
End Caddy.
