(* ===== verification/Caddyfile.v ===== *)
(** * Caddyfile: the directive of the Caddy module ([UnmarshalCaddyfile] of
    [adapters/caddy/jitaccess.go]).

    Caddy's dispenser of tokens is not part of the repository: it is the
    interface [Dispenser], and what its documentation promises of it, for a
    directive with a block of plain lines, is [DispenserLaws].  So is Caddy's
    parser of durations, a parameter. *)

From stdpp Require Import pretty.
From S2P Require Import Prelude GoStrings Json JsonFacts Registry Caddy.
Import strings.

(** [fmt.Sscanf(s, "%d", &n)]: white space, a sign, digits; what follows them is
    left unread. *)
Module fmt.
Definition is_space1 (b : byte) : bool := bool_decide (b ∈ [x09; x0b; x0c; x0d; x20]).
Definition is_space2 (b1 b2 : byte) : bool := bool_decide (b1 = xc2) && bool_decide (b2 ∈ [x85; xa0]).
Definition is_space3 (b1 b2 b3 : byte) : bool :=
  bool_decide ((b1, b2, b3) = (xe1, x9a, x80)) || bool_decide ((b1, b2, b3) = (xe3, x80, x80)) ||
  bool_decide ((b1, b2, b3) = (xe2, x81, x9f)) ||
  bool_decide (b1 = xe2) && bool_decide (b2 = x80) &&
    ((b2z b3 <=? 0x8a) || bool_decide (b3 ∈ [xa8; xa9; xaf])).

(** A new line is an error. *)
Fixpoint SkipSpace (s : bytes) : option bytes :=
  match s with
  | [] => Some []
  | b :: r =>
      if bool_decide (b = x0a) then None
      else if is_space1 b then SkipSpace r
      else
        match r with
        | b2 :: r2 =>
            if is_space2 b b2 then SkipSpace r2
            else
              match r2 with
              | b3 :: r3 => if is_space3 b b2 b3 then SkipSpace r3 else Some s
              | [] => Some s
              end
        | [] => Some s
        end
  end.

Definition Sscanf_d (s : bytes) : option Z :=
  s ← SkipSpace s;
  let '(sign, r) := match s with
                    | c :: r => if decide (c = "-"%byte) then ([c], r)
                                else if decide (c = "+"%byte) then ([], r) else ([], s)
                    | [] => ([], [])
                    end in
  ParseInt (sign ++ take_while is_digit r).
End fmt.

(** The part of [caddyfile.Dispenser] the module uses. *)
Class Dispenser (D : Type) := {
  Next : D -> bool * D;
  NextBlock : Z -> D -> bool * D;
  NextArg : D -> bool * D;
  RemainingArgs : D -> list bytes * D;
  Val : D -> bytes }.

Inductive caddyfile_err :=
| CArg
| CDuration (key : bytes)
| CNumber (key : bytes)
| CTrustedProxies
| CToken
| CAllow
| CUnknown (opt : bytes).

(** The fields of the handler one at a time. *)
Section fields.
Import Caddy.Caddy.

(** The handler before anything is read, its registry not made yet. *)
Definition zeroJIT : JITAccess :=
  {| Prefix := []; Allow := []; Tokens := []; GrantTTL := 0; NonceTTL := 0; EnrollTTL := 0;
     FailureMode := []; Binding := []; IPv6Prefix := 0; RateLimit := 0; TrustForwarded := false;
     TrustedProxies := []; reg := NewRegistry None None; trusted := [] |}.

Definition set_Prefix v (j : JITAccess) := mkJIT v (Allow j) (Tokens j) (GrantTTL j) (NonceTTL j) (EnrollTTL j) (FailureMode j) (Binding j) (IPv6Prefix j) (RateLimit j) (TrustForwarded j) (TrustedProxies j) (reg j) (trusted j).
Definition set_Allow v (j : JITAccess) := mkJIT (Prefix j) v (Tokens j) (GrantTTL j) (NonceTTL j) (EnrollTTL j) (FailureMode j) (Binding j) (IPv6Prefix j) (RateLimit j) (TrustForwarded j) (TrustedProxies j) (reg j) (trusted j).
Definition set_Tokens v (j : JITAccess) := mkJIT (Prefix j) (Allow j) v (GrantTTL j) (NonceTTL j) (EnrollTTL j) (FailureMode j) (Binding j) (IPv6Prefix j) (RateLimit j) (TrustForwarded j) (TrustedProxies j) (reg j) (trusted j).
Definition set_GrantTTL v (j : JITAccess) := mkJIT (Prefix j) (Allow j) (Tokens j) v (NonceTTL j) (EnrollTTL j) (FailureMode j) (Binding j) (IPv6Prefix j) (RateLimit j) (TrustForwarded j) (TrustedProxies j) (reg j) (trusted j).
Definition set_NonceTTL v (j : JITAccess) := mkJIT (Prefix j) (Allow j) (Tokens j) (GrantTTL j) v (EnrollTTL j) (FailureMode j) (Binding j) (IPv6Prefix j) (RateLimit j) (TrustForwarded j) (TrustedProxies j) (reg j) (trusted j).
Definition set_EnrollTTL v (j : JITAccess) := mkJIT (Prefix j) (Allow j) (Tokens j) (GrantTTL j) (NonceTTL j) v (FailureMode j) (Binding j) (IPv6Prefix j) (RateLimit j) (TrustForwarded j) (TrustedProxies j) (reg j) (trusted j).
Definition set_FailureMode v (j : JITAccess) := mkJIT (Prefix j) (Allow j) (Tokens j) (GrantTTL j) (NonceTTL j) (EnrollTTL j) v (Binding j) (IPv6Prefix j) (RateLimit j) (TrustForwarded j) (TrustedProxies j) (reg j) (trusted j).
Definition set_Binding v (j : JITAccess) := mkJIT (Prefix j) (Allow j) (Tokens j) (GrantTTL j) (NonceTTL j) (EnrollTTL j) (FailureMode j) v (IPv6Prefix j) (RateLimit j) (TrustForwarded j) (TrustedProxies j) (reg j) (trusted j).
Definition set_IPv6Prefix v (j : JITAccess) := mkJIT (Prefix j) (Allow j) (Tokens j) (GrantTTL j) (NonceTTL j) (EnrollTTL j) (FailureMode j) (Binding j) v (RateLimit j) (TrustForwarded j) (TrustedProxies j) (reg j) (trusted j).
Definition set_RateLimit v (j : JITAccess) := mkJIT (Prefix j) (Allow j) (Tokens j) (GrantTTL j) (NonceTTL j) (EnrollTTL j) (FailureMode j) (Binding j) (IPv6Prefix j) v (TrustForwarded j) (TrustedProxies j) (reg j) (trusted j).
Definition set_TrustForwarded v (j : JITAccess) := mkJIT (Prefix j) (Allow j) (Tokens j) (GrantTTL j) (NonceTTL j) (EnrollTTL j) (FailureMode j) (Binding j) (IPv6Prefix j) (RateLimit j) v (TrustedProxies j) (reg j) (trusted j).
Definition set_TrustedProxies v (j : JITAccess) := mkJIT (Prefix j) (Allow j) (Tokens j) (GrantTTL j) (NonceTTL j) (EnrollTTL j) (FailureMode j) (Binding j) (IPv6Prefix j) (RateLimit j) (TrustForwarded j) v (reg j) (trusted j).

Definition add_Allow v (j : JITAccess) := set_Allow (Allow j ++ v) j.
Definition add_Token t (j : JITAccess) := set_Tokens (Tokens j ++ [t]) j.
Definition add_TrustedProxies v (j : JITAccess) := set_TrustedProxies (TrustedProxies j ++ v) j.
End fields.

Notation JITAccess := Caddy.Caddy.JITAccess.

(** The options with one argument, by what the argument is. *)
Inductive option_kind :=
| KText (set : bytes -> JITAccess -> JITAccess)
| KDuration (set : Z -> JITAccess -> JITAccess)
| KNumber (set : Z -> JITAccess -> JITAccess)
| KTrustForwarded
| KTrustedProxies
| KToken
| KAllow
| KUnknown.

(** The cases of the switch on [d.Val()]. *)
Definition option_of (opt : bytes) : option_kind :=
  if bool_decide (opt = lit "prefix") then KText set_Prefix
  else if bool_decide (opt = lit "failure_mode") then KText set_FailureMode
  else if bool_decide (opt = lit "binding") then KText set_Binding
  else if bool_decide (opt = lit "grant_ttl") then KDuration set_GrantTTL
  else if bool_decide (opt = lit "nonce_ttl") then KDuration set_NonceTTL
  else if bool_decide (opt = lit "enroll_ttl") then KDuration set_EnrollTTL
  else if bool_decide (opt = lit "ipv6_prefix") then KNumber set_IPv6Prefix
  else if bool_decide (opt = lit "rate_limit") then KNumber set_RateLimit
  else if bool_decide (opt = lit "trust_forwarded") then KTrustForwarded
  else if bool_decide (opt = lit "trusted_proxies") then KTrustedProxies
  else if bool_decide (opt = lit "token") then KToken
  else if bool_decide (opt = lit "allow") then KAllow
  else KUnknown.

Section unmarshal.
Context {D : Type} `{!Dispenser D}.
Variable (ParseDuration : bytes -> option Z).

Definition one_arg {A} (d : D) (k : bytes -> D -> result caddyfile_err A) : result caddyfile_err A :=
  let '(ok, d') := NextArg d in
  if ok then k (Val d') d' else Err CArg.

(** One pass of the inner loop: the option [d.Val()] and its arguments. *)
Definition read_option (j : JITAccess) (d : D) : result caddyfile_err (JITAccess * D) :=
  let key := Val d in
  match option_of key with
  | KText set => one_arg d (fun v d => Ok (set v j, d))
  | KDuration set =>
      one_arg d (fun v d => match ParseDuration v with
                            | Some dur => Ok (set dur j, d) | None => Err (CDuration key) end)
  | KNumber set =>
      one_arg d (fun v d => match fmt.Sscanf_d v with
                            | Some n => Ok (set n j, d) | None => Err (CNumber key) end)
  | KTrustForwarded => Ok (set_TrustForwarded true j, d)
  | KTrustedProxies =>
      let '(args, d) := RemainingArgs d in
      if bool_decide (args = []) then Err CTrustedProxies else Ok (add_TrustedProxies args j, d)
  | KToken =>
      let '(args, d) := RemainingArgs d in
      match args with
      | kid :: secret :: label =>
          Ok (add_Token (Caddy.Caddy.mkToken kid secret (Join label (lit " ")) 0) j, d)
      | _ => Err CToken
      end
  | KAllow =>
      let '(args, d) := RemainingArgs d in
      if bool_decide (args = []) then Err CAllow else Ok (add_Allow args j, d)
  | KUnknown => Err (CUnknown key)
  end.

(** [for d.NextBlock(0)]; [None]: out of fuel. *)
Fixpoint read_block (fuel : nat) (j : JITAccess) (d : D)
    : option (result caddyfile_err (JITAccess * D)) :=
  match fuel with
  | O => None
  | S fuel =>
      let '(more, d) := NextBlock 0 d in
      if more then
        match read_option j d with
        | Err e => Some (Err e)
        | Ok (j, d) => read_block fuel j d
        end
      else Some (Ok (j, d))
  end.

(** [for d.Next()] *)
Fixpoint UnmarshalCaddyfile (fuel : nat) (j : JITAccess) (d : D)
    : option (result caddyfile_err JITAccess) :=
  match fuel with
  | O => None
  | S fuel' =>
      let '(more, d) := Next d in
      if more then
        r ← read_block fuel j d;
        match r with
        | Err e => Some (Err e)
        | Ok (j, d) => UnmarshalCaddyfile fuel' j d
        end
      else Some (Ok j)
  end.

Definition parseCaddyfile (fuel : nat) (d : D) : option (result caddyfile_err JITAccess) :=
  UnmarshalCaddyfile fuel zeroJIT d.
End unmarshal.

(** ** What the dispenser promises

    In a block of plain lines: [in_block d args rest] is the dispenser on a token
    of a line that [args] are left of, [rest] being the lines below.  Asking for
    the next token of the block finds what is left of the line first. *)
Class DispenserLaws (D : Type) `{!Dispenser D} := {
  at_directive : D -> list (list bytes) -> Prop;
  in_block : D -> list bytes -> list (list bytes) -> Prop;
  at_end : D -> Prop;
  Next_directive : forall d ls, at_directive d ls ->
    exists d', Next d = (true, d') /\ in_block d' [] ls;
  Next_end : forall d, at_end d -> exists d', Next d = (false, d');
  NextBlock_line : forall d a args rest, in_block d [] ((a :: args) :: rest) ->
    exists d', NextBlock 0 d = (true, d') /\ Val d' = a /\ in_block d' args rest;
  NextBlock_same : forall d a args rest, in_block d (a :: args) rest ->
    exists d', NextBlock 0 d = (true, d') /\ Val d' = a /\ in_block d' args rest;
  NextBlock_end : forall d, in_block d [] [] -> exists d', NextBlock 0 d = (false, d') /\ at_end d';
  NextArg_some : forall d a args rest, in_block d (a :: args) rest ->
    exists d', NextArg d = (true, d') /\ Val d' = a /\ in_block d' args rest;
  NextArg_none : forall d rest, in_block d [] rest -> exists d', NextArg d = (false, d');
  RemainingArgs_all : forall d args rest, in_block d args rest ->
    exists d', RemainingArgs d = (args, d') /\ in_block d' [] rest }.

(** ** What a block says

    The lines of a block as options: an option takes the arguments it has a use
    for, and what is left of its line is read as the next option. *)

Definition text_options : list bytes := [lit "prefix"; lit "failure_mode"; lit "binding"].
Definition duration_options : list bytes := [lit "grant_ttl"; lit "nonce_ttl"; lit "enroll_ttl"].
Definition number_options : list bytes := [lit "ipv6_prefix"; lit "rate_limit"].

(** How many arguments an option takes: [None] for all of its line. *)
Definition arity (opt : bytes) : option nat :=
  if bool_decide (opt ∈ text_options ++ duration_options ++ number_options) then Some 1%nat
  else if bool_decide (opt = lit "trust_forwarded") then Some 0%nat
  else None.

Definition taken (opt : bytes) (args : list bytes) : list bytes :=
  match arity opt with Some n => take n args | None => args end.
Definition left_over (opt : bytes) (args : list bytes) : list bytes :=
  match arity opt with Some n => drop n args | None => [] end.

Fixpoint options_of (l : list bytes) : list (list bytes) :=
  match l with
  | [] => []
  | opt :: args =>
      match arity opt, args with
      | None, _ => [opt :: args]
      | Some 0%nat, _ => [opt] :: options_of args
      | Some _, [] => [[opt]]
      | Some _, v :: args => [opt; v] :: options_of args
      end
  end.

Definition options (ls : list (list bytes)) : list (list bytes) := concat (map options_of ls).

Lemma arity_cases opt : arity opt = None \/ arity opt = Some 0%nat \/ arity opt = Some 1%nat.
Proof. unfold arity. repeat case_bool_decide; auto. Qed.

Lemma left_over_length opt args : (length (left_over opt args) <= length args)%nat.
Proof. unfold left_over. destruct (arity opt); [rewrite length_drop; lia|cbn; lia]. Qed.

Lemma options_of_cons opt args :
  options_of (opt :: args) = (opt :: taken opt args) :: options_of (left_over opt args).
Proof.
  cbn [options_of]. unfold taken, left_over. destruct (arity_cases opt) as [->|[->| ->]]; [done|by rewrite ?drop_0|].
  by destruct args.
Qed.

(** The token an option lists, and the kids it allows. *)
Definition token_of (l : list bytes) : option Caddy.Caddy.Token :=
  match l with
  | opt :: args =>
      if bool_decide (opt = lit "token") then
        match args with
        | kid :: secret :: label => Some (Caddy.Caddy.mkToken kid secret (Join label (lit " ")) 0)
        | _ => None
        end
      else None
  | [] => None
  end.

(** The arguments of the options of one name, all together. *)
Definition args_of (name : bytes) (l : list bytes) : list bytes :=
  match l with opt :: args => if bool_decide (opt = name) then args else [] | [] => [] end.

Notation allowed_by := (args_of (lit "allow")).

(** The value an option gives to the setting [name]; the last one counts. *)
Definition value_of {A} (parse : bytes -> option A) (name : bytes) (l : list bytes) : option A :=
  match l with opt :: v :: _ => if bool_decide (opt = name) then parse v else None | _ => None end.

Definition setting {A} (parse : bytes -> option A) (dflt : A) (name : bytes) (os : list (list bytes)) : A :=
  default dflt (last (omap (value_of parse name) os)).

Section meaning.
Variable (ParseDuration : bytes -> option Z).

(** An option that exists, with the arguments it needs. *)
Definition understood (l : list bytes) : bool :=
  match l with
  | [] => false
  | opt :: args =>
      if bool_decide (opt ∈ text_options) then negb (bool_decide (args = []))
      else if bool_decide (opt ∈ duration_options) then
        match args with v :: _ => bool_decide (is_Some (ParseDuration v)) | [] => false end
      else if bool_decide (opt ∈ number_options) then
        match args with v :: _ => bool_decide (is_Some (fmt.Sscanf_d v)) | [] => false end
      else if bool_decide (opt = lit "trust_forwarded") then true
      else if bool_decide (opt ∈ [lit "trusted_proxies"; lit "allow"]) then negb (bool_decide (args = []))
      else bool_decide (opt = lit "token") && (2 <=? length args)%nat
  end.

(** The settings [os] gives, over those of [j]. *)
Definition configured (j : JITAccess) (os : list (list bytes)) : JITAccess := {|
  Caddy.Caddy.Prefix := setting Some (Caddy.Caddy.Prefix j) (lit "prefix") os;
  Caddy.Caddy.Allow := Caddy.Caddy.Allow j ++ concat (map allowed_by os);
  Caddy.Caddy.Tokens := Caddy.Caddy.Tokens j ++ omap token_of os;
  Caddy.Caddy.GrantTTL := setting ParseDuration (Caddy.Caddy.GrantTTL j) (lit "grant_ttl") os;
  Caddy.Caddy.NonceTTL := setting ParseDuration (Caddy.Caddy.NonceTTL j) (lit "nonce_ttl") os;
  Caddy.Caddy.EnrollTTL := setting ParseDuration (Caddy.Caddy.EnrollTTL j) (lit "enroll_ttl") os;
  Caddy.Caddy.FailureMode := setting Some (Caddy.Caddy.FailureMode j) (lit "failure_mode") os;
  Caddy.Caddy.Binding := setting Some (Caddy.Caddy.Binding j) (lit "binding") os;
  Caddy.Caddy.IPv6Prefix := setting fmt.Sscanf_d (Caddy.Caddy.IPv6Prefix j) (lit "ipv6_prefix") os;
  Caddy.Caddy.RateLimit := setting fmt.Sscanf_d (Caddy.Caddy.RateLimit j) (lit "rate_limit") os;
  Caddy.Caddy.TrustForwarded :=
    Caddy.Caddy.TrustForwarded j || existsb (fun l => bool_decide (head l = Some (lit "trust_forwarded"))) os;
  Caddy.Caddy.TrustedProxies := Caddy.Caddy.TrustedProxies j ++ concat (map (args_of (lit "trusted_proxies")) os);
  Caddy.Caddy.reg := Caddy.Caddy.reg j; Caddy.Caddy.trusted := Caddy.Caddy.trusted j |}.

(** What a block configures: nothing is set but what it says. *)
Definition meaning (ls : list (list bytes)) : JITAccess := configured zeroJIT (options ls).

Lemma setting_cons {A} (parse : bytes -> option A) dflt name l os :
  setting parse dflt name (l :: os) = setting parse (setting parse dflt name [l]) name os.
Proof.
  unfold setting. cbn [omap list_omap]. destruct (value_of parse name l) as [x|]; [|done].
  cbn [last default]. rewrite last_cons. by destruct (last _).
Qed.

Lemma configured_nil j : configured j [] = j.
Proof. destruct j. unfold configured, setting. cbn. by rewrite !app_nil_r, orb_false_r. Qed.

Lemma configured_cons j l os : configured j (l :: os) = configured (configured j [l]) os.
Proof.
  unfold configured. cbn [Caddy.Caddy.Prefix Caddy.Caddy.Allow Caddy.Caddy.Tokens Caddy.Caddy.GrantTTL
    Caddy.Caddy.NonceTTL Caddy.Caddy.EnrollTTL Caddy.Caddy.FailureMode Caddy.Caddy.Binding Caddy.Caddy.IPv6Prefix
    Caddy.Caddy.RateLimit Caddy.Caddy.TrustForwarded Caddy.Caddy.TrustedProxies Caddy.Caddy.reg Caddy.Caddy.trusted
    map concat existsb omap list_omap].
  f_equal; try apply setting_cons; rewrite ?app_nil_r, ?orb_false_r, <- ?app_assoc, <- ?orb_assoc; try done.
  by destruct (token_of l); rewrite ?app_nil_r, <- ?app_assoc.
Qed.

Context {D : Type} `{!Dispenser D} `{!DispenserLaws D}.

Lemma one_arg_read {A} d args rest (k : bytes -> D -> result caddyfile_err A) :
  in_block d args rest ->
  match args with
  | [] => one_arg d k = Err CArg
  | v :: args => exists d', one_arg d k = k v d' /\ in_block d' args rest
  end.
Proof.
  unfold one_arg. intros H. destruct args as [|v args].
  - destruct (NextArg_none d rest H) as [d' ->]. done.
  - destruct (NextArg_some d v args rest H) as (d' & -> & <- & Hd). by exists d'.
Qed.

(** What reading one option comes to. *)
Definition reads_option (j : JITAccess) (d : D) (opt : bytes) (args : list bytes) (rest : list (list bytes)) : Prop :=
  if understood (opt :: taken opt args) then
    exists d', read_option ParseDuration j d = Ok (configured j [opt :: taken opt args], d') /\
      in_block d' (left_over opt args) rest
  else exists e, read_option ParseDuration j d = Err e.

(** The options with one argument. *)
Lemma reads_one {A} (parse : bytes -> option A) (set : A -> JITAccess -> JITAccess) err j d opt args rest :
  arity opt = Some 1%nat -> in_block d args rest ->
  read_option ParseDuration j d =
    one_arg d (fun v d => match parse v with Some x => Ok (set x j, d) | None => Err err end) ->
  (forall args, understood (opt :: args) = match args with v :: _ => bool_decide (is_Some (parse v)) | [] => false end) ->
  (forall v x, parse v = Some x -> set x j = configured j [[opt; v]]) ->
  reads_option j d opt args rest.
Proof.
  intros Ha Hb Hr Hu Hs. unfold reads_option, taken, left_over. rewrite Ha, Hu, Hr.
  pose proof (one_arg_read d args rest (fun v d => match parse v with Some x => Ok (set x j, d) | None => Err err end) Hb) as H.
  destruct args as [|v args]; cbn [take drop]; [by eexists|]. destruct H as (d' & -> & Hd').
  destruct (parse v) as [x|] eqn:Hp; cbn; [|by eexists]. exists d'. by rewrite (Hs v x Hp).
Qed.

(** The tests of words that are known. *)
Ltac decide_words :=
  repeat match goal with
  | |- context [bool_decide ?P] =>
      let b := eval vm_compute in (bool_decide P) in
      match b with true => change (bool_decide P) with true | false => change (bool_decide P) with false end
  end.

Ltac configured_one :=
  unfold configured, setting; cbn; decide_words; cbn; rewrite ?app_nil_r, ?orb_false_r, ?orb_true_r;
  try (match goal with j : JITAccess |- _ => by destruct j end).

Lemma read_option_reads j d opt args rest :
  Val d = opt -> in_block d args rest -> reads_option j d opt args rest.
Proof.
  intros Hv Hb. destruct (RemainingArgs_all d args rest Hb) as (dr & Hrem & Hdr).
  destruct (decide (opt ∈ text_options ++ duration_options ++ number_options)) as [Hin|Hout].
  - repeat (apply elem_of_cons in Hin as [Hin|Hin]; [revert Hv; subst opt; intros Hv|]); [..|by apply elem_of_nil in Hin].
    1-3: eapply (reads_one Some _ CArg); [reflexivity|done|unfold read_option; rewrite Hv; reflexivity
      |by intros []|intros v x [= <-]; configured_one].
    1-3: eapply (reads_one ParseDuration); [reflexivity|done|unfold read_option; rewrite Hv; reflexivity
      |by intros []|intros v x Hp; configured_one; by rewrite Hp].
    all: eapply (reads_one fmt.Sscanf_d); [reflexivity|done|unfold read_option; rewrite Hv; reflexivity
      |by intros []|intros v x Hp; configured_one; by rewrite Hp].
  - assert (Hk : option_of opt =
      if bool_decide (opt = lit "trust_forwarded") then KTrustForwarded
      else if bool_decide (opt = lit "trusted_proxies") then KTrustedProxies
      else if bool_decide (opt = lit "token") then KToken
      else if bool_decide (opt = lit "allow") then KAllow else KUnknown).
    { unfold option_of. do 8 (rewrite bool_decide_eq_false_2; [|intros ->; apply Hout; by apply (bool_decide_unpack _)]).
      done. }
    assert (Hu : forall l, understood (opt :: l) =
      if bool_decide (opt = lit "trust_forwarded") then true
      else if bool_decide (opt ∈ [lit "trusted_proxies"; lit "allow"]) then negb (bool_decide (l = []))
      else bool_decide (opt = lit "token") && (2 <=? length l)%nat).
    { intros l. rewrite !elem_of_app in Hout. cbn [understood].
      by rewrite (bool_decide_eq_false_2 (opt ∈ text_options)), (bool_decide_eq_false_2 (opt ∈ duration_options)),
        (bool_decide_eq_false_2 (opt ∈ number_options)) by tauto. }
    assert (Ha : arity opt = if bool_decide (opt = lit "trust_forwarded") then Some 0%nat else None).
    { unfold arity. by rewrite bool_decide_eq_false_2. }
    unfold reads_option, taken, left_over, read_option. rewrite Hv, Hk, Hu, Ha, Hrem. clear Hout Hk Hu Ha Hv Hrem.
    destruct (decide (opt = lit "trust_forwarded")) as [->|H1];
      [|rewrite (bool_decide_eq_false_2 (opt = lit "trust_forwarded")) by done].
    { decide_words. exists d. split; [|done]. configured_one. }
    destruct (decide (opt = lit "trusted_proxies")) as [->|H2];
      [|rewrite (bool_decide_eq_false_2 (opt = lit "trusted_proxies")) by done].
    { decide_words. destruct args as [|a args]; [by eexists|]. decide_words. cbn. exists dr. split; [|done]. configured_one. }
    destruct (decide (opt = lit "allow")) as [->|H3];
      [|rewrite (bool_decide_eq_false_2 (opt = lit "allow")) by done].
    { decide_words. destruct args as [|a args]; [by eexists|]. decide_words. cbn. exists dr. split; [|done]. configured_one. }
    rewrite (bool_decide_eq_false_2 (opt ∈ _)) by set_solver.
    destruct (decide (opt = lit "token")) as [->|H4];
      [|rewrite (bool_decide_eq_false_2 (opt = lit "token")) by done; by eexists].
    decide_words. destruct args as [|kid [|secret label]]; [by eexists..|]. cbn. exists dr. split; [|done]. configured_one.
Qed.

(** The loop over a block, from the middle of a line on. *)
Lemma read_block_meaning fuel : forall j d args rest,
  in_block d args rest -> Forall (fun l => l <> []) rest -> (length args + length (concat rest) < fuel)%nat ->
  let os := options_of args ++ options rest in
  if forallb understood os
  then exists d', read_block ParseDuration fuel j d = Some (Ok (configured j os, d')) /\ at_end d'
  else exists e, read_block ParseDuration fuel j d = Some (Err e).
Proof.
  induction fuel as [|fuel IH]; intros j d args rest Hb Hne Hf; [lia|]. cbn [read_block].
  assert (Hstep : forall opt args' rest' os, (length args' + length (concat rest') < fuel)%nat ->
    Forall (fun l => l <> []) rest' -> os = options_of (opt :: args') ++ options rest' ->
    (exists d', NextBlock 0 d = (true, d') /\ Val d' = opt /\ in_block d' args' rest') ->
    let r := (let '(more, d) := NextBlock 0 d in if more then
      match read_option ParseDuration j d with
      | Ok p => let '(j, d) := p in read_block ParseDuration fuel j d | Err e => Some (Err e) end
      else Some (Ok (j, d))) in
    if forallb understood os then exists d', r = Some (Ok (configured j os, d')) /\ at_end d'
    else exists e, r = Some (Err e)).
  { intros opt args' rest' os Hl Hr -> (d' & -> & Hv & Hb') r. subst r.
    pose proof (read_option_reads j d' opt args' rest' Hv Hb') as Ho. unfold reads_option in Ho.
    rewrite options_of_cons. cbn [app forallb]. destruct (understood _); cbn [andb].
    - destruct Ho as (d2 & -> & Hd2). rewrite (configured_cons j _ (options_of (left_over opt args') ++ _)). pose proof (left_over_length opt args').
      apply IH; [done|done|lia].
    - destruct Ho as [e ->]. by eexists. }
  destruct args as [|a args]; [destruct rest as [|[|a args] rest]|].
  - destruct (NextBlock_end d Hb) as (d' & -> & He). cbn. exists d'. by rewrite configured_nil.
  - by apply Forall_cons in Hne as [? _].
  - apply Forall_cons in Hne as [_ Hne]. apply (Hstep a args rest); [cbn in Hf; rewrite length_app in Hf; lia|done|done|].
    by apply NextBlock_line.
  - apply (Hstep a args rest); [cbn in Hf; lia|done|done|]. by apply NextBlock_same.
Qed.

(** A directive, all of it. *)
Lemma parse_meaning d ls fuel :
  at_directive d ls -> Forall (fun l => l <> []) ls -> (length (concat ls) + 1 < fuel)%nat ->
  if forallb understood (options ls)
  then parseCaddyfile ParseDuration fuel d = Some (Ok (meaning ls))
  else exists e, parseCaddyfile ParseDuration fuel d = Some (Err e).
Proof.
  intros Hd Hne Hfuel. destruct fuel as [|fuel]; [lia|]. unfold parseCaddyfile. cbn [UnmarshalCaddyfile].
  destruct (Next_directive d ls Hd) as (d1 & -> & Hb).
  pose proof (read_block_meaning (S fuel) zeroJIT d1 [] ls Hb Hne ltac:(cbn; lia)) as H. cbn [options_of app] in H.
  destruct (forallb understood (options ls)).
  - destruct H as (d2 & -> & He). cbn [mbind option_bind]. destruct fuel as [|fuel]; [lia|].
    cbn [UnmarshalCaddyfile]. by destruct (Next_end d2 He) as [d3 ->].
  - destruct H as [e ->]. by exists e.
Qed.
End meaning.

(** ** A dispenser

    The lines of one directive's block, as lists of tokens. *)
Inductive lines :=
| LStart (ls : list (list bytes))
| LIn (cur : bytes) (args : list bytes) (rest : list (list bytes))
| LEnd.

#[export] Instance lines_dispenser : Dispenser lines := {
  Next d := match d with LStart ls => (true, LIn [] [] ls) | _ => (false, LEnd) end;
  NextBlock _ d :=
    match d with
    | LIn _ (a :: args) rest => (true, LIn a args rest)
    | LIn _ [] ((a :: args) :: rest) => (true, LIn a args rest)
    | _ => (false, LEnd)
    end;
  NextArg d := match d with LIn _ (a :: args) rest => (true, LIn a args rest) | _ => (false, d) end;
  RemainingArgs d := match d with LIn c args rest => (args, LIn c [] rest) | _ => ([], d) end;
  Val d := match d with LIn c _ _ => c | _ => [] end }.

#[export] Instance lines_laws : DispenserLaws lines.
Proof.
  refine {| at_directive d ls := d = LStart ls;
            in_block d args rest := exists c, d = LIn c args rest;
            at_end d := d = LEnd |}.
  - intros d ls ->. eexists. split; [done|]. by eexists.
  - intros d ->. by eexists.
  - intros d a args rest [c ->]. eexists. split; [done|]. split; [done|]. by eexists.
  - intros d a args rest [c ->]. eexists. split; [done|]. split; [done|]. by eexists.
  - intros d [c ->]. by eexists.
  - intros d a args rest [c ->]. eexists. split; [done|]. split; [done|]. by eexists.
  - intros d rest [c ->]. by eexists.
  - intros d args rest [c ->]. eexists. split; [done|]. by eexists.
Defined.

(** ** Properties *)

(** C33: a [jit_access] directive with a block of plain lines configures exactly
    what its options say: of [prefix], [binding], [failure_mode], the three
    lifetimes and the two numbers the last that is given, every [token], [allow]
    and [trusted_proxies] in order, and nothing else.  An option that does not
    exist, or one without an argument it needs or with one that is malformed,
    refuses the directive, so that no misspelt protection is dropped silently.
    An option takes the arguments it has a use for; what a line has beyond them
    is read as an option too.  Reading ends: one pass per token is enough. *)
Theorem Caddyfile_reads {D} `{!Dispenser D} `{!DispenserLaws D} ParseDuration d ls fuel
    (Hd : at_directive d ls) (Hne : Forall (fun l => l <> []) ls)
    (Hfuel : (length (concat ls) + 1 < fuel)%nat) :
  if forallb (understood ParseDuration) (options ls)
  then parseCaddyfile ParseDuration fuel d = Some (Ok (meaning ParseDuration ls))
  else exists e, parseCaddyfile ParseDuration fuel d = Some (Err e).
Proof. exact (parse_meaning ParseDuration d ls fuel Hd Hne Hfuel). Qed.

(** ** Examples and witnesses *)

(** Seconds, as in ["90s"]. *)
Definition ex_duration (s : bytes) : option Z :=
  if HasSuffix s (lit "s") then (fun n => n * Caddy.Caddy.second) <$> ParseInt (TrimSuffix s (lit "s")) else None.

Definition words (s : string) : list bytes := Split (lit s) " "%byte.

Definition ex_block : list (list bytes) := Eval vm_compute in
  [words "prefix /knock"; words "grant_ttl 600s"; words "binding ip+cookie"; words "ipv6_prefix 64";
   words "trust_forwarded"; words "trusted_proxies 10.0.0.0/8 192.0.2.1"; words "token k1 c2VjcmV0c2VjcmV0c2VjcmV0 ops laptop";
   words "allow k1 k2"; words "allow k3"].

Lemma Caddyfile_reads_witness :
  (exists j, parseCaddyfile ex_duration 40 (LStart ex_block) = Some (Ok j) /\
    Caddy.Caddy.GrantTTL j = 600000000000 /\ Caddy.Caddy.Allow j = [lit "k1"; lit "k2"; lit "k3"]) /\
  (exists e, parseCaddyfile ex_duration 40 (LStart [words "prefix /knock"; words "alow k1"]) = Some (Err e)).
Proof.
  split.
  - pose proof (@Caddyfile_reads lines _ lines_laws ex_duration (LStart ex_block) ex_block 40 eq_refl
      ltac:(repeat (constructor; [vm_compute; discriminate|]); constructor) ltac:(vm_compute; lia)) as H.
    exists (meaning ex_duration ex_block). split; [exact H|]. vm_compute. split; reflexivity.
  - pose proof (@Caddyfile_reads lines _ lines_laws ex_duration (LStart [words "prefix /knock"; words "alow k1"]) [words "prefix /knock"; words "alow k1"] 40 eq_refl
      ltac:(repeat (constructor; [vm_compute; discriminate|]); constructor) ltac:(vm_compute; lia)) as H.
    exact H.
Defined.

Example unknown_option : parseCaddyfile ex_duration 9 (LStart [words "stealth on"]) = Some (Err (CUnknown (lit "stealth"))).
Proof. vm_compute. reflexivity. Qed.

(** An argument too many is read as an option of its own. *)
Example option_on_a_line :
  options [words "binding ip trust_forwarded"] = [words "binding ip"; words "trust_forwarded"] /\
  Caddy.Caddy.TrustForwarded (meaning ex_duration [words "binding ip trust_forwarded"]) = true.
Proof. vm_compute. split; reflexivity. Qed.

(** A number is read up to its first other character. *)
Example number_prefix : fmt.Sscanf_d (lit "64/8") = Some 64 /\ fmt.Sscanf_d (lit " +1e6") = Some 1.
Proof. vm_compute. split; reflexivity. Qed.
