(* ===== verification/Traefik.v ===== *)
(** * Traefik: the Traefik plugin ([adapters/traefik/plugin/jitaccess.go]).

    A separate program from the Caddy module, with its own copy of the handlers;
    [ServeHTTP_caddy] proves that, up to the unit of its durations, it is the
    same gate, so the theorems on one hold for the other. *)

From stdpp Require Import pretty.
From S2P Require Import Prelude GoStrings Json Wire Base64 Crypto ServerName NetIP CanonIP Registry RateLimit.
From S2P Require Import Store Http Config RealIP Pages Server Plug Caddy.
From S2P Require NonceStore EnrollStore.
Import strings netip.

Module Traefik.

Record Token := mkToken {
  Kid : bytes;
  Secret : bytes;
  Label : bytes;
  Expires : Z }.

Record Config := mkConfig {
  Allow : list bytes;
  Tokens : list Token;
  Prefix : bytes;
  FailureMode : bytes;
  Binding : bytes;
  GrantTTL : Z;
  NonceTTL : Z;
  IPv6Prefix : Z;
  RateLimit : Z;
  TrustForwarded : bool;
  TrustedProxies : list bytes }.

Definition CreateConfig : Config :=
  {| Allow := []; Tokens := []; Prefix := DefaultURIPrefix; FailureMode := FailInterstitial;
     Binding := BindingIP; GrantTTL := 3600; NonceTTL := 60; IPv6Prefix := 128; RateLimit := 10;
     TrustForwarded := false; TrustedProxies := [] |}.

Record JITAccess := mkJIT {
  cfg : Config;
  reg : Registry;
  trusted : list netip.Prefix }.

Inductive new_err :=
| ERng
| ENoTokens
| ENoAllow
| EFailureMode
| EBinding
| EPrefix (s : bytes)
| ETrustForwarded
| ESecretEncoding (kid : bytes)
| ESecretShort (kid : bytes).

Fixpoint parsePrefixes (l : list bytes) : result new_err (list netip.Prefix) :=
  match l with
  | [] => Ok []
  | s :: l' =>
      let s := TrimSpace s in
      if bool_decide (s = []) then parsePrefixes l'
      else
        p ← match ParsePrefix s with
            | Some p => Ok p
            | None => match ParseAddr s with
                      | None => Err (EPrefix s)
                      | Some a => Ok (PrefixFrom a (BitLen a))
                      end
            end;
        ps ← parsePrefixes l';
        Ok (p :: ps)
  end.

Fixpoint build_tokens (m : gmap bytes Registry.Token) (ts : list Token)
    : result new_err (gmap bytes Registry.Token) :=
  match ts with
  | [] => Ok m
  | t :: ts' =>
      match B64uDecode (Secret t) with
      | None => Err (ESecretEncoding (Kid t))
      | Some sec =>
          if (length sec <? 16)%nat then Err (ESecretShort (Kid t))
          else
            build_tokens
              (<[Kid t := {| Registry.Secret := sec; Registry.Alg := AlgHMACSHA256;
                             Registry.Label := Label t; Registry.Expires := Expires t |}]> m) ts'
      end
  end.

(** The defaults [New] fills in. *)
Definition normalise (c : Config) : Config :=
  {| Allow := Allow c; Tokens := Tokens c;
     Prefix := clean_prefix (Prefix c);
     FailureMode := if bool_decide (FailureMode c = []) then FailInterstitial else FailureMode c;
     Binding := if bool_decide (Binding c = []) then BindingIP else Binding c;
     GrantTTL := if GrantTTL c <=? 0 then 3600 else GrantTTL c;
     NonceTTL := if NonceTTL c <=? 0 then 60 else NonceTTL c;
     IPv6Prefix := if (IPv6Prefix c <=? 0) || (128 <? IPv6Prefix c) then 128 else IPv6Prefix c;
     RateLimit := if RateLimit c <=? 0 then 10 else RateLimit c;
     TrustForwarded := TrustForwarded c; TrustedProxies := TrustedProxies c |}.

(** [shared()]: [sharedOnce] runs its function once, and what came of it stays,
    a failure of the generator too. *)
Definition shared (draw : nat -> option bytes) (once : option (option Shared))
    : option Shared * option (option Shared) :=
  match once with
  | Some made => (made, once)
  | None =>
      let made :=
        nk ← RandomBytes draw 32;
        Some (mkShared NewGrantStore NonceStore.NewNonceStore EnrollStore.NewEnrollStore
                (NewRateLimiter DefaultRateLimitEntries) nk 0) in
      (made, Some made)
  end.

(** [New], after [shared()] has succeeded. *)
Definition New (c : Config) : result new_err JITAccess :=
  if bool_decide (length (Tokens c) = 0%nat) then Err ENoTokens
  else if bool_decide (length (Allow c) = 0%nat) then Err ENoAllow
  else if negb (mode_ok (FailureMode c)) then Err EFailureMode
  else if negb (binding_ok (Binding c)) then Err EBinding
  else
    let c := normalise c in
    ps ← parsePrefixes (TrustedProxies c);
    if TrustForwarded c && bool_decide (ps = []) then Err ETrustForwarded
    else
      tokens ← build_tokens ∅ (Tokens c);
      let allow := foldl (fun m k => <[k := true]> m) ∅ (Allow c) in
      Ok {| cfg := c; reg := NewRegistry (Some tokens) (Some {[ star := allow ]}); trusted := ps |}.

(** The whole of it. *)
Definition New_shared (draw : nat -> option bytes) (once : option (option Shared)) (c : Config)
    : result new_err JITAccess * option (option Shared) :=
  let '(made, once) := shared draw once in
  (match made with None => Err ERng | Some _ => New c end, once).

Definition isTrusted (j : JITAccess) (a : Addr) : bool :=
  let a := Unmap a in existsb (fun p => Contains p a) (trusted j).

Definition parseHostAddr (s : bytes) : option Addr :=
  let s := TrimSpace s in
  let s := match SplitHostPort s with Some (h, _) => h | None => s end in
  a ← ParseAddr (Trim s (lit "[]"));
  Some (Unmap a).

Fixpoint walk (j : JITAccess) (chain : list bytes) : option bytes :=
  match chain with
  | [] => None
  | s :: rest =>
      match parseHostAddr s with
      | None => walk j rest
      | Some a =>
          if isTrusted j a then walk j rest
          else match CanonIP (String a) (IPv6Prefix (cfg j)) 32 with Ok c => Some c | Err _ => None end
      end
  end.

Definition clientIP (j : JITAccess) (r : Request) : option bytes :=
  peer ← parseHostAddr (RemoteAddr r);
  if negb (TrustForwarded (cfg j)) || negb (isTrusted j peer) then
    match CanonIP (String peer) (IPv6Prefix (cfg j)) 32 with Ok c => Some c | Err _ => None end
  else
    walk j (reverse (concat (map (fun v => Split v ","%byte) (Values (RHeader r) (lit "X-Forwarded-For"))))).

Section engine.
Context {F : Type -> Type} `{!MRet F, !MBind F, !POps F}.

Notation now := pnow.
Notation random := prandom.

(** The plugin's own copy of the denial page. *)
Definition interstitialHTML : bytes := Pages.interstitialHTML.

Definition sweepEvery : Z := 60.

Definition maybeSweep (t : Z) : F unit :=
  d ← pdue sweepEvery t;
  if (d : bool) then psweep KGrants t;; psweep KNonces t;; psweep KCodes t;; psweep KRates t
  else mret tt.

Definition deny (j : JITAccess) : F unit :=
  pout (r_set (lit "Cache-Control") (lit "no-store"));;
  if bool_decide (FailureMode (cfg j) = FailStealth) then pout (r_status StatusNotFound)
  else
    pout (r_set (lit "X-JIT-Access") JITMarker);;
    pout (r_set (lit "Content-Type") (lit "text/html; charset=utf-8"));;
    pout (r_status StatusForbidden);;
    pout (r_write interstitialHTML).

Definition challenge (j : JITAccess) (service ip : bytes) : F unit :=
  t0 ← now;
  ok ← pallow (RateKey service ip) (RateLimit (cfg j)) t0;
  if negb ok then deny j
  else
    rnd ← random 16;
    match rnd with
    | None => deny j
    | Some rnd =>
        ts ← now;
        nk ← pkey;
        match IssueNonce nk (u64 ts) rnd service ip (IPv6Prefix (cfg j)) with
        | Err _ => deny j
        | Ok nonce =>
            pout (r_set (lit "X-JIT-Nonce") (B64u nonce));;
            pout (r_set (lit "X-JIT-TS") (FormatInt ts));;
            pout (r_set (lit "Cache-Control") (lit "no-store"));;
            pout (r_status StatusNoContent)
        end
    end.

(** [respond] from the successful claim on. *)
Definition mint (j : JITAccess) (r : Request) (service ip kid : bytes) (token : Registry.Token) (n : Z)
    : F unit :=
  let ttl := GrantTTL (cfg j) in
  let grant hash := {| gV := 1; gKid := kid; gService := service; gIP := ip; gBinding := Binding (cfg j);
    gCookieHash := hash; gIssued := n; gExp := i64 (n + ttl); gManual := false;
    gSecretFP := Fingerprint (Some token) |} in
  let finish g :=
    let oldHash := match RCookie r GrantCookieName with
                   | Some v => if bool_decide (v = []) then [] else CookieHash v
                   | None => []
                   end in
    pput g [oldHash];;
    pout (r_set (lit "Cache-Control") (lit "no-store"));;
    pout (r_status StatusNoContent) in
  if bool_decide (Binding (cfg j) = BindingIPCookie) then
    idBytes ← random 32;
    match idBytes with
    | None => deny j
    | Some idBytes =>
        let id := B64u idBytes in
        pout (r_cookie {| ckName := GrantCookieName; ckValue := id; ckPath := lit "/";
                          ckHttpOnly := true; ckSecure := true; ckSameSiteStrict := true;
                          ckMaxAge := ttl |});;
        finish (grant (CookieHash id))
    end
  else finish (grant []).

Definition respond (j : JITAccess) (r : Request) (service ip : bytes) : F unit :=
  t0 ← now;
  ok ← pallow (RateKey service ip) (RateLimit (cfg j)) t0;
  if negb ok then deny j
  else
    match json_respond 4096 (Body r) with
    | None => deny j
    | Some body =>
        match B64uDecode (rbNonce body), B64uDecode (rbProof body) with
        | Some nonceRaw, Some tag =>
            if negb (length nonceRaw =? NonceLen)%nat || negb (length tag =? 32)%nat then deny j
            else
              n ← now;
              nk ← pkey;
              match VerifyNonce nk nonceRaw service ip n (NonceTTL (cfg j))
                      (IPv6Prefix (cfg j)) with
              | None => deny j
              | Some rnd =>
                  let token := Lookup (Some (reg j)) (rbKid body) in
                  let secret := match token with Some tk => Registry.Secret tk | None => dummySecret end in
                  let proofOK := VerifyProof secret service (rbKid body) nonceRaw tag in
                  match token with
                  | None => deny j
                  | Some tk =>
                      if IsExpired (Some tk) n || negb (AllowedForService (Some (reg j)) (rbKid body) star) || negb proofOK
                      then deny j
                      else
                        first ← pclaim (B64u rnd) n (NonceTTL (cfg j));
                        if negb first then deny j
                        else mint j r service ip (rbKid body) tk n
                  end
              end
        | _, _ => deny j
        end
    end.

Definition register (j : JITAccess) : F unit :=
  if bool_decide (FailureMode (cfg j) = FailStealth) then deny j
  else
    pout (r_set (lit "Content-Type") (lit "text/html; charset=utf-8"));;
    pout (r_set (lit "Cache-Control") (lit "no-store"));;
    pout (r_set (lit "Referrer-Policy") (lit "no-referrer"));;
    pout (r_status StatusOK);;
    pout (r_write RegisterHTML).

Definition enroll (j : JITAccess) (r : Request) (service ip : bytes) : F unit :=
  t0 ← now;
  ok ← pallow (RateKey service ip) (RateLimit (cfg j)) t0;
  if negb ok then deny j
  else
    match json_enroll 4096 (Body r) with
    | None => deny j
    | Some code =>
        if bool_decide (code = []) then deny j
        else
          t1 ← now;
          seen ← ppeek code t1;
          match seen with
          | None => deny j
          | Some peek =>
              match Lookup (Some (reg j)) (EnrollStore.ecKid peek) with
              | None => deny j
              | Some _ =>
                  t2 ← now;
                  got ← pconsume code t2;
                  match got with
                  | None => deny j
                  | Some ec =>
                      match Lookup (Some (reg j)) (EnrollStore.ecKid ec) with
                      | None => deny j
                      | Some token =>
                          pout (r_set (lit "X-JIT-Kid") (EnrollStore.ecKid ec));;
                          pout (r_set (lit "X-JIT-Secret") (B64u (Registry.Secret token)));;
                          pout (r_set (lit "X-JIT-Origins") (Join (EnrollStore.ecOrigins ec) (lit ",")));;
                          pout (r_set (lit "Cache-Control") (lit "no-store"));;
                          pout (r_status StatusNoContent)
                      end
                  end
              end
          end
    end.

Definition answered (m : F unit) : F outcome := m;; mret Answered.

Definition ServeHTTP (j : JITAccess) (r : Request) : F outcome :=
  t ← now;
  maybeSweep t;;
  let service := CanonServerName (Host r) in
  match clientIP j r with
  | None => answered (deny j)
  | Some ip =>
      if bool_decide (service = []) then answered (deny j)
      else
        let p := Prefix (cfg j) in
        if bool_decide (URLPath r = p) || HasPrefix (URLPath r) (p ++ lit "/") then
          if bool_decide (URLPath r = p ++ lit "/challenge") && bool_decide (Method r = MethodGet)
          then answered (challenge j service ip)
          else if bool_decide (URLPath r = p ++ lit "/respond") && bool_decide (Method r = MethodPost)
          then answered (respond j r service ip)
          else if bool_decide (URLPath r = p ++ lit "/enroll") && bool_decide (Method r = MethodPost)
          then answered (enroll j r service ip)
          else if bool_decide (URLPath r = p ++ lit "/register") && bool_decide (Method r = MethodGet)
          then answered (register j)
          else answered (deny j)
        else
          let cookie := default [] (RCookie r GrantCookieName) in
          t' ← now;
          found ← pis_allowed service ip (reg j) t' cookie;
          match found with
          | Some g =>
              if bool_decide (Binding (cfg j) = BindingIPCookie) && negb (bool_decide (gBinding g = BindingIPCookie))
              then answered (deny j)
              else mret Passed
          | None => answered (deny j)
          end
  end.

Definition MintEnrollCode (code kid : bytes) (origins : list bytes) (exp : Z) : F unit :=
  pput_code code {| EnrollStore.ecKid := kid; EnrollStore.ecOrigins := origins; EnrollStore.ecExp := exp |}.
End engine.

(** ** The same gate as Caddy's *)

(** The Caddy site with the same settings, durations in nanoseconds. *)
Definition to_caddy (j : JITAccess) : Caddy.JITAccess :=
  {| Caddy.Prefix := Prefix (cfg j); Caddy.Allow := Allow (cfg j);
     Caddy.Tokens := map (fun t => {| Caddy.Kid := Kid t; Caddy.Secret := Secret t;
                                      Caddy.Label := Label t; Caddy.Expires := Expires t |})
                         (Tokens (cfg j));
     Caddy.GrantTTL := GrantTTL (cfg j) * Caddy.second;
     Caddy.NonceTTL := NonceTTL (cfg j) * Caddy.second;
     Caddy.EnrollTTL := 86400 * Caddy.second;
     Caddy.FailureMode := FailureMode (cfg j); Caddy.Binding := Binding (cfg j);
     Caddy.IPv6Prefix := IPv6Prefix (cfg j); Caddy.RateLimit := RateLimit (cfg j);
     Caddy.TrustForwarded := TrustForwarded (cfg j); Caddy.TrustedProxies := TrustedProxies (cfg j);
     Caddy.reg := reg j; Caddy.trusted := trusted j |}.

Lemma seconds_second z : Caddy.seconds (z * Caddy.second) = z.
Proof. unfold Caddy.seconds. apply Z.quot_mul. by vm_compute. Qed.

Lemma walk_caddy j chain : walk j chain = Caddy.walk (to_caddy j) chain.
Proof.
  induction chain as [|s chain IH]; [done|]. cbn [walk Caddy.walk].
  change (Caddy.parseHostAddr s) with (parseHostAddr s).
  destruct (parseHostAddr s) as [a|]; [|done].
  change (Caddy.isTrusted (to_caddy j) a) with (isTrusted j a). by destruct (isTrusted j a).
Qed.

Lemma clientIP_caddy j r : clientIP j r = Caddy.clientIP (to_caddy j) r.
Proof.
  unfold clientIP, Caddy.clientIP.
  change (Caddy.parseHostAddr (RemoteAddr r)) with (parseHostAddr (RemoteAddr r)).
  destruct (parseHostAddr (RemoteAddr r)) as [peer|]; [|done]. cbn [mbind option_bind].
  change (Caddy.isTrusted (to_caddy j) peer) with (isTrusted j peer).
  change (Caddy.TrustForwarded (to_caddy j)) with (TrustForwarded (cfg j)).
  destruct (_ || _); [done|]. apply walk_caddy.
Qed.

Section same.
Context {F : Type -> Type} `{!MRet F, !MBind F, !POps F}.

Lemma respond_caddy j r service ip :
  respond j r service ip =
  Caddy.handleRespond (to_caddy j) r service ip.
Proof.
  unfold respond, Caddy.handleRespond, mint, Caddy.mint.
  change (Caddy.NonceTTL (to_caddy j)) with (NonceTTL (cfg j) * Caddy.second).
  change (Caddy.GrantTTL (to_caddy j)) with (GrantTTL (cfg j) * Caddy.second).
  rewrite !seconds_second. reflexivity.
Qed.
End same.

(** ** Properties *)

(** The Traefik plugin is the Caddy module: whatever its operations run on, on
    every request the two are one program, so they make the same decision, write
    the same response and leave the same stores behind. *)
Theorem ServeHTTP_caddy {F} `{!MRet F, !MBind F, !POps F} j r :
  ServeHTTP j r = Caddy.ServeHTTP (to_caddy j) r :> F outcome.
Proof.
  unfold ServeHTTP, Caddy.ServeHTTP. cbv zeta. rewrite <- clientIP_caddy.
  destruct (clientIP j r) as [ip|]; [|reflexivity].
  rewrite <- respond_caddy. reflexivity.
Qed.

End Traefik.
