(* ===== verification/Gate.v ===== *)
(** * Gate: what the in-process gate lets through.

    Stated for the Caddy module; [Traefik.ServeHTTP_caddy] carries each theorem
    over to the Traefik plugin. *)

From S2P Require Import Prelude GoStrings Json Wire Base64 Sha256 Crypto ServerName NetIP CanonIP Registry RateLimit.
From S2P Require Import Store StoreHistory Http Config RealIP Pages Server App AppHistory Plug Caddy Traefik.
From S2P Require NonceStore EnrollStore.
Import strings netip Caddy.

#[local] Opaque r_set r_write r_status r_cookie r_error r_notfound FormatInt.

Section gate.
Variables
  (now_at : nat -> Z)
  (rand_at : nat -> nat -> option bytes).

Notation ops := (pworld_ops now_at rand_at).
Notation ServeHTTP := (Caddy.ServeHTTP (POps0 := ops)).
Notation respond := (handleRespond (POps0 := ops)).
Notation challenge := (handleChallenge (POps0 := ops)).
Notation enroll := (handleEnroll (POps0 := ops)).
Notation register := (handleRegister (POps0 := ops)).
Notation mint := (Caddy.mint (POps0 := ops)).
Notation deny := (Caddy.deny (POps0 := ops)).
Notation pout := (Plug.pout (POps := ops)).
Notation pallow := (Plug.pallow (POps := ops)).

Lemma pout_eq f w : pout f w = (tt, pout_resp f w).
Proof. done. Qed.

(** Run the operations of a handler, but for those on the limiter and the response. *)
Ltac pw_run := st_run; cbn [pworld_ops pnow prandom pkey pclaim pput pis_allowed ppeek pconsume pdue psweep];
  unfold pact; cbv beta iota; cbn [sh pticks pdraws presp].

Ltac st_out := repeat (rewrite pout_eq; cbv beta iota).

(** The denial of a site: one function of its failure mode. *)
Definition gate_denial (j : JITAccess) (w : Response) : Response :=
  let w := r_set (lit "Cache-Control") (lit "no-store") w in
  if bool_decide (FailureMode j = FailStealth) then r_status StatusNotFound w
  else r_write interstitialHTML (r_status StatusForbidden
         (r_set (lit "Content-Type") (lit "text/html; charset=utf-8")
           (r_set (lit "X-JIT-Access") JITMarker w))).

Lemma gate_deny_eq j w : deny j w = (tt, pout_resp (gate_denial j) w).
Proof.
  unfold Caddy.deny, gate_denial. st_run. st_out.
  destruct (bool_decide _); st_out; done.
Qed.

(** ** The entry of a request *)

(** The stores a request is judged against: swept, when a sweep is due. *)
Definition swept (w : PWorld) : Shared :=
  let t := now_at (pticks w) in
  if i64 (t - lastSweep (sh w)) <? sweepEvery then sh w else 
  sweep_store KRates t (sweep_store KCodes t (sweep_store KNonces t (sweep_store KGrants t (on_last t (sh w))))).

Definition entered (w : PWorld) : PWorld :=
  {| sh := swept w; pticks := S (pticks w); pdraws := pdraws w; presp := presp w |}.

Lemma enter_eq w :
  (t ← pnow (POps := ops); maybeSweep (POps0 := ops) t) w = (tt, entered w).
Proof.
  unfold maybeSweep, entered, swept. pw_run. unfold due. by destruct (_ <? _).
Qed.

Lemma ServeHTTP_entered j r w :
  ServeHTTP j r w =
    (let service := CanonServerName (Host r) in
     match clientIP j r with
     | None => answered (deny j)
     | Some ip =>
         if bool_decide (service = []) then answered (deny j)
         else
           let p := Prefix j in
           if bool_decide (URLPath r = p) || HasPrefix (URLPath r) (p ++ lit "/") then
             if bool_decide (URLPath r = p ++ lit "/challenge") && bool_decide (Method r = MethodGet)
             then answered (challenge j service ip)
             else if bool_decide (URLPath r = p ++ lit "/respond") && bool_decide (Method r = MethodPost)
             then answered (respond j r service ip)
             else if bool_decide (URLPath r = p ++ lit "/enroll") && bool_decide (Method r = MethodPost)
             then answered (enroll j r service ip)
             else if bool_decide (URLPath r = p ++ lit "/register") && bool_decide (Method r = MethodGet)
             then answered (register j)
             else answered (deny j)
           else
             let cookie := default [] (RCookie r GrantCookieName) in
             t' ← pnow (POps := ops);
             found ← pis_allowed (POps := ops) service ip (reg j) t' cookie;
             match found with
             | Some g =>
                 if bool_decide (Binding j = BindingIPCookie) && negb (bool_decide (gBinding g = BindingIPCookie))
                 then answered (deny j)
                 else mret Passed
             | None => answered (deny j)
             end
     end) (entered w).
Proof.
  unfold Caddy.ServeHTTP. pose proof (enter_eq w) as He. revert He. st_run.
  destruct (pnow (POps := ops) w) as [t w1]. st_run. intros ->. reflexivity.
Qed.

(** ** Grants only by knocking *)

(** Everything [handleRespond] checks before it mints. *)
Record site_knock (j : JITAccess) (r : Request) (s : Shared) (service ip kid : bytes)
    (token : Registry.Token) (n : Z) : Prop := {
  sk_method : Method r = MethodPost;
  sk_path : URLPath r = Prefix j ++ lit "/respond";
  sk_token : Lookup (Some (reg j)) kid = Some token;
  sk_live : IsExpired (Some token) n = false;
  sk_allowed : allowedForService j kid = true;
  sk_proof : exists nonceRaw tag rnd,
    VerifyNonce (sharedKey s) nonceRaw service ip n (seconds (NonceTTL j)) (IPv6Prefix j) = Some rnd /\
    VerifyProof (Registry.Secret token) service kid nonceRaw tag = true /\
    (NonceStore.Claim (sharedNonces s) (B64u rnd) n (seconds (NonceTTL j))).1 = true }.

(** The grant such a knock mints. *)
Definition site_grant (j : JITAccess) (service ip kid : bytes) (token : Registry.Token) (n : Z)
    (hash : bytes) : Grant :=
  {| gV := 1; gKid := kid; gService := service; gIP := ip; gBinding := Binding j; gCookieHash := hash;
     gIssued := n; gExp := i64 (n + seconds (GrantTTL j)); gManual := false;
     gSecretFP := Fingerprint (Some token) |}.

Definition site_origin (j : JITAccess) (r : Request) (s : Shared) (g : Grant) : Prop :=
  exists ip kid token n hash,
    clientIP j r = Some ip /\ CanonServerName (Host r) <> [] /\
    site_knock j r s (CanonServerName (Host r)) ip kid token n /\
    g = site_grant j (CanonServerName (Host r)) ip kid token n hash /\
    (Binding j = BindingIPCookie -> hash <> []).

(** What any of the handlers answers: its own success, or the denial; and what
    it may add to the grants. *)
Record site_ok (j : JITAccess) (Q : Grant -> Prop) (success : Z) (w w' : PWorld) : Prop := {
  so_resp : status (presp w') = success \/ presp w' = gate_denial j fresh;
  so_grants : effect Q (sharedGrants (sh w)) (sharedGrants (sh w')) }.

Lemma deny_ok j Q success w w' :
  presp w' = fresh -> sharedGrants (sh w') = sharedGrants (sh w) ->
  site_ok j Q success w (deny j w').2.
Proof.
  intros Hr Hg. rewrite gate_deny_eq. split.
  - right. cbn [snd pout_resp presp]. by rewrite Hr.
  - apply effect_eq. done.
Qed.

Lemma pallow_keeps key limit t w :
  sharedGrants (sh (pallow key limit t w).2) = sharedGrants (sh w) /\
  sharedNonces (sh (pallow key limit t w).2) = sharedNonces (sh w) /\
  sharedKey (sh (pallow key limit t w).2) = sharedKey (sh w) /\
  presp (pallow key limit t w).2 = presp w.
Proof. cbn [Plug.pallow pworld_ops]. unfold pact. by destruct (RateLimit.Allow _ _ _ _). Qed.

(** Ask the limiter: only its table moves. *)
Ltac ask_limiter :=
  let w1 := fresh "w1" in let Hk := fresh "Hk" in let Er := fresh "Er" in
  match goal with
  | |- context [pallow ?k ?l ?t ?w] =>
      pose proof (pallow_keeps k l t w) as Hk;
      destruct (pallow k l t w) as [ok w1] eqn:Er; cbn [fst snd] in Hk;
      destruct Hk as (Hg & Hn & Hkey & Hresp);
      cbn [sh presp] in Hg, Hn, Hkey, Hresp
  end.

Lemma challenge_ok j service ip Q w :
  presp w = fresh -> site_ok j Q StatusNoContent w (challenge j service ip w).2.
Proof.
  intros Hf. unfold handleChallenge. pw_run. ask_limiter.
  destruct ok; cbn [negb]; [|by apply deny_ok; rewrite ?Hresp].
  destruct (rand_at _ 16) as [rnd|]; [|by apply deny_ok; cbn [presp sh]; rewrite ?Hresp].
  destruct (IssueNonce _ _ _ _ _ _) as [nonce|e]; [|by apply deny_ok; cbn [presp sh]; rewrite ?Hresp].
  st_out. split; [left|].
  - cbn [snd pout_resp presp]. by rewrite Hresp, Hf.
  - apply effect_eq. done.
Qed.

Lemma enroll_ok j r service ip Q w :
  presp w = fresh -> site_ok j Q StatusNoContent w (enroll j r service ip w).2.
Proof.
  intros Hf. unfold handleEnroll. pw_run. ask_limiter.
  destruct ok; cbn [negb]; [|by apply deny_ok; rewrite ?Hresp].
  destruct (json_enroll 4096 (Body r)) as [code|]; [|by apply deny_ok; rewrite ?Hresp].
  destruct (bool_decide (code = [])); [by apply deny_ok; rewrite ?Hresp|].
  destruct (EnrollStore.Peek _ _ _) as [peek|]; [|by apply deny_ok; cbn [presp sh]; rewrite ?Hresp].
  destruct (Lookup (Some (reg j)) (EnrollStore.ecKid peek)); [|by apply deny_ok; cbn [presp sh]; rewrite ?Hresp].
  destruct (EnrollStore.Consume _ _ _) as [got e].
  destruct got as [ec|]; [|by apply deny_ok; cbn [presp sh]; rewrite ?Hresp].
  destruct (Lookup (Some (reg j)) (EnrollStore.ecKid ec)) as [tk|];
    [|by apply deny_ok; cbn [presp sh]; rewrite ?Hresp].
  st_out. split; [left|].
  - cbn [snd pout_resp presp]. by rewrite Hresp, Hf.
  - apply effect_eq. cbn [snd pout_resp sh on_codes sharedGrants]. done.
Qed.

Lemma register_ok j Q w :
  presp w = fresh -> site_ok j Q StatusOK w (register j w).2.
Proof.
  intros Hf. unfold handleRegister. destruct (bool_decide _); [by apply deny_ok|]. st_run. st_out.
  split; [left|by apply effect_eq]. cbn [snd pout_resp presp]. by rewrite Hf.
Qed.

Lemma mint_ok j r service ip kid token n Q w :
  presp w = fresh ->
  (forall hash, (Binding j = BindingIPCookie -> hash <> []) -> Q (site_grant j service ip kid token n hash)) ->
  site_ok j Q StatusNoContent w (mint j r service ip kid token n w).2.
Proof.
  intros Hf HQ. unfold Caddy.mint. pw_run.
  destruct (bool_decide (Binding j = BindingIPCookie)) eqn:Hb.
  - destruct (rand_at _ 32) as [raw|]; [|by apply deny_ok].
    st_out. split; [left; cbn [snd pout_resp presp]; by rewrite Hf|].
    apply effect_put. apply HQ. intros _. apply CookieHash_nonempty.
  - st_out. split; [left; cbn [snd pout_resp presp]; by rewrite Hf|].
    apply effect_put. apply HQ. by bool_prop.
Qed.

Lemma respond_ok j r ip w :
  clientIP j r = Some ip -> CanonServerName (Host r) <> [] ->
  URLPath r = Prefix j ++ lit "/respond" -> Method r = MethodPost -> presp w = fresh ->
  site_ok j (site_origin j r (sh w)) StatusNoContent w
    (respond j r (CanonServerName (Host r)) ip w).2.
Proof.
  intros Hip Hsv Hpath Hm Hf. unfold handleRespond. pw_run. ask_limiter.
  destruct ok; cbn [negb]; [|by apply deny_ok; rewrite ?Hresp].
  destruct (json_respond 4096 (Body r)) as [body|]; [|by apply deny_ok; rewrite ?Hresp].
  destruct (B64uDecode (rbNonce body)) as [nr|]; [|by apply deny_ok; rewrite ?Hresp].
  destruct (B64uDecode (rbProof body)) as [tag|]; [|by apply deny_ok; rewrite ?Hresp].
  destruct (negb _ || negb _); [by apply deny_ok; rewrite ?Hresp|].
  set (n := now_at (pticks w1)). cbn [sh].
  destruct (VerifyNonce _ _ _ _ _ _ _) as [rnd|] eqn:Hv; [|by apply deny_ok; cbn [presp sh]; rewrite ?Hresp].
  destruct (Lookup (Some (reg j)) (rbKid body)) as [tk|] eqn:Hl; [|by apply deny_ok; cbn [presp sh]; rewrite ?Hresp].
  destruct (_ || _) eqn:Hc; [by apply deny_ok; cbn [presp sh]; rewrite ?Hresp|]. bool_prop. pw_run.
  destruct (NonceStore.Claim _ _ _ _) as [first nn] eqn:Hcl.
  destruct first; cbn [negb]; [|by apply deny_ok; cbn [presp sh]; rewrite ?Hresp].
  edestruct (mint_ok j r (CanonServerName (Host r)) ip (rbKid body) tk n (site_origin j r (sh w)))
    as [Hr He]; [| |split; [exact Hr|]].
  - cbn [presp]. by rewrite Hresp.
  - intros hash Hhash. exists ip, (rbKid body), tk, n, hash. split; [done|]. split; [done|].
    split; [|done]. split; try done. exists nr, tag, rnd. rewrite <- Hkey, <- Hn. split; [done|].
    split; [done|]. by rewrite Hcl.
  - intros Hwf. destruct He as [Hwf' He].
    + cbn [sh on_nonces sharedGrants]. by rewrite Hg.
    + split; [done|]. intros k g Hk. destruct (He k g Hk) as [Hk'|?]; [left|by right].
      cbn [sh on_nonces sharedGrants] in Hk'. by rewrite Hg in Hk'.
Qed.
(** ** The whole request *)

Definition under_prefix (j : JITAccess) (r : Request) : bool :=
  bool_decide (URLPath r = Prefix j) || HasPrefix (URLPath r) (Prefix j ++ lit "/").

(** The decision on a path outside the protocol prefix. *)
Definition gate_pass (j : JITAccess) (r : Request) (w : PWorld) : bool :=
  match clientIP j r with
  | None => false
  | Some ip =>
      let service := CanonServerName (Host r) in
      negb (bool_decide (service = [])) && negb (under_prefix j r) &&
      match IsAllowed (sharedGrants (swept w)) service ip (Some (reg j)) (now_at (S (pticks w)))
              (default [] (RCookie r GrantCookieName)) with
      | None => false
      | Some g => negb (bool_decide (Binding j = BindingIPCookie)
                        && negb (bool_decide (gBinding g = BindingIPCookie)))
      end
  end.

Lemma answered_eq (m : P unit) w : answered m w = (Answered, (m w).2).
Proof. unfold answered. st_run. by destruct (m w). Qed.

Definition success (j : JITAccess) (r : Request) : Z :=
  if bool_decide (URLPath r = Prefix j ++ lit "/register") then StatusOK else StatusNoContent.

(** Either the request goes through, untouched, or it is answered here. *)
Lemma ServeHTTP_cases j r w :
  presp w = fresh ->
  (gate_pass j r w = true /\
     exists w', ServeHTTP j r w = (Passed, w') /\ presp w' = fresh /\ sh w' = swept w) \/
  (gate_pass j r w = false /\
     exists w', ServeHTTP j r w = (Answered, w') /\
       site_ok j (site_origin j r (swept w)) (success j r) (entered w) w' /\
       (under_prefix j r = false -> presp w' = gate_denial j fresh)).
Proof.
  intros Hf. rewrite ServeHTTP_entered. unfold gate_pass, success. cbv zeta.
  change (bool_decide (URLPath r = Prefix j) || HasPrefix (URLPath r) (Prefix j ++ lit "/"))
    with (under_prefix j r).
  assert (Hd : forall w1 P c, sharedGrants (sh w1) = sharedGrants (sh (entered w)) -> presp w1 = fresh ->
    site_ok j P c (entered w) (deny j w1).2 /\ (under_prefix j r = false -> presp (deny j w1).2 = gate_denial j fresh)).
  { intros w1 P c Hg H1. split; [|intros _; by rewrite gate_deny_eq; cbn [snd pout_resp presp]; rewrite H1].
    destruct (deny_ok j P c (entered w) w1); [done|done|by split]. }
  assert (Hp : forall w1 P c, site_ok j P c (entered w) w1 -> under_prefix j r = true ->
    site_ok j P c (entered w) w1 /\ (under_prefix j r = false -> presp w1 = gate_denial j fresh))
    by (intros w1 P c H Hu; split; [done|by rewrite Hu]).
  destruct (clientIP j r) as [ip|] eqn:Hip.
  2: { right. split; [done|]. eexists. rewrite answered_eq. split; [done|by apply Hd]. }
  destruct (bool_decide (CanonServerName (Host r) = [])) eqn:Hs; cbn [negb andb].
  { right. split; [done|]. eexists. rewrite answered_eq. split; [done|by apply Hd]. }
  bool_prop.
  destruct (under_prefix j r) eqn:Hu; cbn [negb andb].
  - right. split; [done|].
    destruct (bool_decide (URLPath r = Prefix j ++ lit "/challenge") && _) eqn:E1.
    { bool_prop. eexists. rewrite answered_eq. split; [done|]. apply Hp; [|done].
      rewrite bool_decide_eq_false_2 by (rewrite H; by intros ?%(inj (app _))).
      by apply challenge_ok. }
    destruct (bool_decide (URLPath r = Prefix j ++ lit "/respond") && _) eqn:E2.
    { bool_prop. eexists. rewrite answered_eq. split; [done|]. apply Hp; [|done].
      rewrite bool_decide_eq_false_2 by (rewrite H; by intros ?%(inj (app _))).
      by apply (respond_ok j r ip (entered w)). }
    destruct (bool_decide (URLPath r = Prefix j ++ lit "/enroll") && _) eqn:E3.
    { bool_prop. eexists. rewrite answered_eq. split; [done|]. apply Hp; [|done].
      rewrite bool_decide_eq_false_2 by (rewrite H; by intros ?%(inj (app _))).
      by apply enroll_ok. }
    destruct (bool_decide (URLPath r = Prefix j ++ lit "/register") && _) eqn:E4.
    { bool_prop. eexists. rewrite answered_eq. split; [done|]. apply Hp; [|done].
      rewrite bool_decide_eq_true_2 by done. by apply register_ok. }
    eexists. rewrite answered_eq. split; [done|by apply Hd].
  - pw_run. cbn [sh pticks entered].
    destruct (IsAllowed _ _ _ _ _ _) as [g|].
    + destruct (_ && _) eqn:Hb; cbn [negb].
      * right. split; [done|]. eexists. rewrite answered_eq. split; [done|]. by apply Hd.
      * left. split; [done|]. by eexists.
    + right. split; [done|]. eexists. rewrite answered_eq. split; [done|]. by apply Hd.
Qed.

(** ** Runs *)

(** What the four sweeps leave of the grants is well formed and no larger. *)
Lemma swept_effect P w : effect P (sharedGrants (sh w)) (sharedGrants (swept w)).
Proof. unfold swept. destruct (_ <? _); [by apply effect_eq|]. apply effect_sweep. Qed.

(** One request, from a blank response, to one of the sites that share the stores. *)
Definition blank (w : PWorld) : PWorld :=
  {| sh := sh w; pticks := pticks w; pdraws := pdraws w; presp := fresh |}.

Definition gate_step (w : PWorld) (e : JITAccess * Request) : PWorld :=
  (ServeHTTP e.1 e.2 (blank w)).2.

Definition gate_run (w : PWorld) (es : list (JITAccess * Request)) : PWorld := foldl gate_step w es.

(** The request of [e], met in [w], minted [g]. *)
Definition gate_origin (w : PWorld) (e : JITAccess * Request) (g : Grant) : Prop :=
  site_origin e.1 e.2 (swept (blank w)) g.

Lemma gate_step_effect w e :
  effect (gate_origin w e) (sharedGrants (sh w)) (sharedGrants (sh (gate_step w e))).
Proof.
  apply (effect_trans _ _ (sharedGrants (swept (blank w)))); [exact (swept_effect _ (blank w))|].
  unfold gate_step.
  destruct (ServeHTTP_cases e.1 e.2 (blank w) eq_refl)
    as [(_ & w' & -> & _ & Hsh)|(_ & w' & -> & [_ Heff] & _)]; cbn [snd]; [|done].
  rewrite Hsh. apply effect_refl.
Qed.

Lemma gate_run_grants w es :
  wf (sharedGrants (sh w)) -> Store.grants (sharedGrants (sh w)) = ∅ ->
  wf (sharedGrants (sh (gate_run w es))) /\
  forall k g, Store.grants (sharedGrants (sh (gate_run w es))) !! k = Some g ->
    exists before e after, es = before ++ e :: after /\ gate_origin (gate_run w before) e g.
Proof.
  intros Hwf He. induction es as [|e es [IHwf IH]] using rev_ind.
  - split; [done|]. intros k g. cbn. by rewrite He, lookup_empty.
  - unfold gate_run in *. rewrite foldl_app. cbn [foldl].
    destruct (gate_step_effect (foldl gate_step w es) e IHwf) as [Hwf' Hg]. split; [done|].
    intros k g Hk. destruct (Hg k g Hk) as [Hk'|Ho].
    + destruct (IH k g Hk') as (before & e' & after & -> & Ho).
      exists before, e', (after ++ [e]). by rewrite <- app_assoc.
    + exists es, e, []. done.
Qed.

(** What a request that is let through rides on. *)
Record gate_admitted (j : JITAccess) (r : Request) (w : PWorld) (ip : bytes) (g : Grant) : Prop := {
  ga_ip : clientIP j r = Some ip;
  ga_service : CanonServerName (Host r) <> [];
  ga_path : under_prefix j r = false;
  ga_candidate : candidate (Store.grants (sharedGrants (swept w))) (CanonServerName (Host r)) ip
                   (default [] (RCookie r GrantCookieName)) = Some g;
  ga_admits : admits g (CanonServerName (Host r)) ip (Some (reg j)) (now_at (S (pticks w)))
                (default [] (RCookie r GrantCookieName));
  ga_binding : Binding j = BindingIPCookie -> gBinding g = BindingIPCookie }.

Lemma gate_pass_admitted j r w : gate_pass j r w = true <-> exists ip g, gate_admitted j r w ip g.
Proof.
  unfold gate_pass. cbv zeta. split.
  - destruct (clientIP j r) as [ip|] eqn:Hip; [|done]. intros H. bool_prop.
    destruct (IsAllowed _ _ _ _ _ _) as [g|] eqn:Hg; [|done].
    apply IsAllowed_iff in Hg as [Hc Ha]. exists ip, g. bool_prop. split; try done.
    intros Hb. rewrite bool_decide_eq_true_2 in * by done.
    destruct (bool_decide (gBinding g = BindingIPCookie)) eqn:E; by bool_prop.
  - intros (ip & g & [-> Hs -> Hc Ha Hb]).
    rewrite (bool_decide_eq_false_2 (_ = [])) by done.
    assert (Hg : IsAllowed (sharedGrants (swept w)) (CanonServerName (Host r)) ip (Some (reg j))
      (now_at (S (pticks w))) (default [] (RCookie r GrantCookieName)) = Some g)
      by (apply IsAllowed_iff; by split).
    rewrite Hg. cbn [negb andb].
    destruct (bool_decide (Binding j = BindingIPCookie)) eqn:E; [|done]. bool_prop.
    by rewrite (bool_decide_eq_true_2 _ (Hb E)).
Qed.

(** ** Properties *)

(** C27: the gate forwards a request to the site exactly when the path is outside
    the protocol prefix and its client holds, for this host, a live grant whose
    token still authorizes it and which is at least as strong as the site's
    binding; it forwards it with nothing written. *)
Theorem gate_exact j r w (Hfresh : presp w = fresh) :
  ((ServeHTTP j r w).1 = Passed <-> exists ip g, gate_admitted j r w ip g) /\
  ((ServeHTTP j r w).1 = Passed -> presp (ServeHTTP j r w).2 = fresh).
Proof.
  rewrite <- gate_pass_admitted.
  destruct (ServeHTTP_cases j r w Hfresh) as [(-> & w' & -> & Hr & _)|(-> & w' & -> & _)]; done.
Qed.

(** C28: whatever the gate answers itself is the success of a protocol endpoint
    or the one denial of the site, the same for every reason of refusal. *)
Theorem gate_uniform_denial j r w (Hfresh : presp w = fresh)
    (Hans : (ServeHTTP j r w).1 = Answered) :
  (status (presp (ServeHTTP j r w).2) = success j r /\ under_prefix j r = true) \/
  presp (ServeHTTP j r w).2 = gate_denial j fresh.
Proof.
  destruct (ServeHTTP_cases j r w Hfresh) as [(_ & w' & He & _)|(_ & w' & He & [Hr _] & Hu)];
    rewrite He in *; cbn [fst snd] in *; [done|].
  destruct (under_prefix j r); [naive_solver|right; auto].
Qed.

(** The gate opens only to a knock.  Take any run of requests to the sites
    that share one set of stores, from a start with no grants.  If a site lets
    a request through, the run contains an earlier POST to a site's knock path
    by this very client for this very host, with a nonce of this process not
    spent before, a proof under a registered live token, and a token allowed
    on that site; that knock minted the grant the request rides on. *)
Theorem gate_access_has_origin w0 es j r
    (Hwf : wf (sharedGrants (sh w0))) (Hempty : Store.grants (sharedGrants (sh w0)) = ∅)
    (Hpass : (ServeHTTP j r (blank (gate_run w0 es))).1 = Passed) :
  exists ip g before e after,
    es = before ++ e :: after /\ gate_origin (gate_run w0 before) e g /\
    gate_admitted j r (blank (gate_run w0 es)) ip g /\
    gIP g = ip /\ gService g = CanonServerName (Host r).
Proof.
  destruct (ServeHTTP_cases j r (blank (gate_run w0 es)) eq_refl)
    as [(Hp & w' & He & _)|(_ & w' & He & _)]; rewrite He in Hpass; [|done].
  apply gate_pass_admitted in Hp as (ip & g & Hga).
  destruct (candidate_lookup _ _ _ _ _ (ga_candidate _ _ _ _ _ Hga)) as [k Hk].
  destruct (gate_run_grants w0 es Hwf Hempty) as [Hwf' Horig].
  destruct (swept_effect (fun _ => False) (blank (gate_run w0 es)) Hwf') as [_ Hsw].
  destruct (Hsw k g Hk) as [Hk'|[]].
  destruct (Horig k g Hk') as (before & e & after & -> & Ho).
  exists ip, g, before, e, after. destruct (ga_admits _ _ _ _ _ Hga). done.
Qed.
End gate.

(** ** Witnesses *)

Definition ex_site : JITAccess :=
  let j0 := {| Prefix := lit "/knock"; Allow := [lit "k1"];
    Tokens := [{| Kid := lit "k1"; Secret := B64u ex_secret; Label := []; Expires := 0 |}];
    GrantTTL := 0; NonceTTL := 0; EnrollTTL := 0; FailureMode := FailStealth;
    Binding := BindingIPCookie; IPv6Prefix := 64; RateLimit := 0; TrustForwarded := false;
    TrustedProxies := []; reg := NewRegistry None None; trusted := [] |} in
  match Provision j0 with Ok j => j | Err _ => j0 end.

Definition ex_visit (method path : string) (body : bytes) (cookie : string) : Request :=
  {| Method := lit method; Host := lit "Wiki.example:443"; RemoteAddr := lit "203.0.113.9:4711";
     URLPath := lit path; EscapedPath := lit path;
     RHeader := list_to_map [(lit "Cookie", [lit cookie])]; Body := body |}.

Definition ex_pworld : PWorld :=
  {| sh := mkShared NewGrantStore NonceStore.NewNonceStore EnrollStore.NewEnrollStore
             (NewRateLimiter 0) ex_nk 1000;
     pticks := 0; pdraws := 0; presp := fresh |}.

Definition ex_visits : list (JITAccess * Request) :=
  [(ex_site, ex_visit "POST" "/knock/respond" ex_knock_body "")].

(** The device returns with its cookie. *)
Definition ex_revisit : Request :=
  ex_visit "GET" "/page" [] ("__Host-jit-grant=" ++ String.string_of_list_byte ex_device).

#[local] Notation ex_serve := (Caddy.ServeHTTP (POps0 := pworld_ops (now_at ex_env) (rand_at ex_env)) ex_site).
#[local] Notation ex_after := (blank (gate_run (now_at ex_env) (rand_at ex_env) ex_pworld ex_visits)).

Lemma ex_revisit_passes : (ex_serve ex_revisit ex_after).1 = Passed.
Proof. vm_compute. reflexivity. Qed.

Lemma gate_exact_witness : exists ip g, gate_admitted (now_at ex_env) ex_site ex_revisit ex_after ip g.
Proof.
  apply (gate_exact (now_at ex_env) (rand_at ex_env)
    ex_site ex_revisit ex_after eq_refl). exact ex_revisit_passes.
Defined.

Lemma gate_uniform_denial_witness :
  presp (ex_serve ex_revisit ex_pworld).2 = gate_denial ex_site fresh.
Proof.
  assert (Ha : (ex_serve ex_revisit ex_pworld).1 = Answered) by (vm_compute; reflexivity).
  destruct (gate_uniform_denial (now_at ex_env) (rand_at ex_env) ex_site ex_revisit ex_pworld eq_refl Ha) as [[_ H]|H]; [|exact H].
  vm_compute in H. discriminate H.
Defined.

Lemma gate_access_has_origin_witness : exists g, gService g = lit "wiki.example".
Proof.
  destruct (gate_access_has_origin (now_at ex_env) (rand_at ex_env) ex_pworld ex_visits ex_site ex_revisit
    wf_NewGrantStore eq_refl ex_revisit_passes) as (ip & g & _ & _ & _ & _ & _ & _ & _ & H).
  exists g. rewrite H. vm_compute. reflexivity.
Defined.
