(* ===== verification/Sites.v ===== *)
(** * Sites: from the configuration of a site to who may enter.

    What [Provision] and [Validate] accept and what they make of it; the policy a
    configuration states, and that the gate enforces it and nothing else; and that
    the Traefik plugin, configured alike, is the same gate from [New] on. *)

From S2P Require Import Prelude GoStrings Json Wire Base64 Sha256 Crypto ServerName NetIP CanonIP Registry RateLimit.
From S2P Require Import Store StoreHistory Http Config RealIP Pages Server App AppHistory Plug Caddy Caddyfile Traefik Gate.
From S2P Require NonceStore EnrollStore.
Import strings netip.

(** ** The registry of a site *)

(** The device a site lists under [kid]: a later entry replaces an earlier one. *)
Definition listed (ts : list Caddy.Token) (kid : bytes) : option Caddy.Token :=
  last (filter (fun t => Caddy.Kid t = kid) ts).

(** A token of the configuration as a token of the registry. *)
Definition decoded (t : Caddy.Token) : option Registry.Token :=
  sec ← B64uDecode (Caddy.Secret t);
  if (length sec <? 16)%nat then None
  else Some {| Registry.Secret := sec; Registry.Alg := AlgHMACSHA256;
               Registry.Label := Caddy.Label t; Registry.Expires := Caddy.Expires t |}.

Lemma listed_cons t ts kid :
  listed (t :: ts) kid =
    match listed ts kid with Some t' => Some t' | None => if decide (Caddy.Kid t = kid) then Some t else None end.
Proof.
  unfold listed. rewrite filter_cons. case_decide as H.
  - rewrite last_cons. by destruct (last _).
  - by destruct (last _).
Qed.

Lemma build_step m t ts tok :
  decoded t = Some tok -> Caddy.build_tokens m (t :: ts) = Caddy.build_tokens (<[Caddy.Kid t := tok]> m) ts.
Proof.
  unfold decoded. cbn [Caddy.build_tokens]. destruct (B64uDecode _) as [sec|]; [|done].
  cbn [mbind option_bind]. by destruct (_ <? 16)%nat; [|intros [= <-]].
Qed.

Lemma build_stuck m t ts : decoded t = None -> exists e, Caddy.build_tokens m (t :: ts) = Err e.
Proof.
  unfold decoded. cbn [Caddy.build_tokens]. destruct (B64uDecode _) as [sec|]; [|by eexists].
  cbn [mbind option_bind]. destruct (_ <? 16)%nat; [by eexists|done].
Qed.

Lemma build_tokens_Ok m ts :
  (Forall (fun t => is_Some (decoded t)) ts /\ exists m', Caddy.build_tokens m ts = Ok m' /\
     forall kid, m' !! kid = match listed ts kid with Some t => decoded t | None => m !! kid end) \/
  (~ Forall (fun t => is_Some (decoded t)) ts /\ exists e, Caddy.build_tokens m ts = Err e).
Proof.
  revert m. induction ts as [|t ts IH]; intros m; [left; split; [done|by exists m]|].
  destruct (decoded t) as [tok|] eqn:Ht.
  2: { right. split; [|by apply build_stuck]. intros [[x Hx] _]%Forall_cons. congruence. }
  rewrite (build_step _ _ _ _ Ht). destruct (IH (<[Caddy.Kid t := tok]> m)) as [(Hall & m' & -> & Hm')|[Hn He]].
  - left. split; [constructor; [by eexists|done]|]. exists m'. split; [done|]. intros kid.
    rewrite Hm', listed_cons. destruct (listed ts kid); [done|]. case_decide as Hk.
    + subst. by rewrite lookup_insert_eq, Ht.
    + by rewrite lookup_insert_ne.
  - right. split; [|done]. by intros [_ ?]%Forall_cons.
Qed.

Lemma allow_lookup (m : gmap bytes bool) l k :
  foldl (fun m k => <[k := true]> m) m l !! k = if decide (k ∈ l) then Some true else m !! k.
Proof.
  revert m. induction l as [|x l IH]; intros m; cbn [foldl]; [by rewrite decide_False by apply not_elem_of_nil|].
  rewrite IH. destruct (decide (k ∈ l)) as [Hin|Hin].
  - rewrite decide_True by (by right). done.
  - destruct (decide (k = x)) as [->|Hne].
    + rewrite lookup_insert_eq, decide_True by (by left). done.
    + rewrite lookup_insert_ne, decide_False by done || (rewrite elem_of_cons; naive_solver). done.
Qed.

(** ** The policy of a site *)

(** What the configuration of a site says of a device: it is listed with this
    token, which is live, and its kid or the wildcard is on the allow-list. *)
Record site_policy (j0 : Caddy.JITAccess) (kid : bytes) (now : Z) (t : Registry.Token) : Prop := {
  sp_listed : listed (Caddy.Tokens j0) kid ≫= decoded = Some t;
  sp_live : Registry.Expires t = 0 \/ now < Registry.Expires t;
  sp_allow : kid ∈ Caddy.Allow j0 \/ star ∈ Caddy.Allow j0 }.

Lemma decoded_alg t tok : decoded t = Some tok -> Alg tok = AlgHMACSHA256.
Proof.
  unfold decoded. destruct (B64uDecode _); [|done]. cbn [mbind option_bind].
  by destruct (_ <? 16)%nat; [|intros [= <-]].
Qed.

Lemma site_registry_authorizes tokens j0 svc kid now t :
  (forall kid, tokens !! kid = listed (Caddy.Tokens j0) kid ≫= decoded) ->
  Authorize (Some (Caddy.site_registry tokens (Caddy.Allow j0))) kid svc now = Ok t <-> site_policy j0 kid now t.
Proof.
  intros Ht. rewrite Authorize_Ok_iff. unfold Caddy.site_registry.
  set (al := foldl _ _ _). assert (Hal : forall k, flag al k = bool_decide (k ∈ Caddy.Allow j0)).
  { intros k. unfold flag, al. rewrite allow_lookup, lookup_empty. by case_decide; case_bool_decide. }
  assert (Hallow : AllowedForService (Some (NewRegistry (Some tokens) (Some {[star := al]}))) kid svc =
    bool_decide (star ∈ Caddy.Allow j0) || bool_decide (kid ∈ Caddy.Allow j0)).
  { rewrite AllowedForService_list. unfold allow_list. 
    change (Services (NewRegistry (Some tokens) (Some {[star := al]})))
      with ({[star := al]} : gmap bytes (gmap bytes bool)).
    rewrite map_size_singleton, lookup_singleton_eq. cbn [Nat.eqb]. destruct ({[star := al]} !! svc) as [l|] eqn:Hs; [|by rewrite !Hal].
    apply lookup_singleton_Some in Hs as [_ <-]. by rewrite !Hal. }
  split.
  - intros [Hl _ Hlive Ha]. rewrite Hallow in Ha. cbn in Hl. rewrite Ht in Hl.
    split; [done|done|]. apply orb_true_iff in Ha as [Ha|Ha]; bool_prop; auto.
  - intros [Hl Hlive Ha]. split.
    + cbn. by rewrite Ht.
    + apply bind_Some in Hl as (x & _ & Hx). by eapply decoded_alg.
    + done.
    + rewrite Hallow. apply orb_true_iff. destruct Ha; [right|left]; by apply bool_decide_eq_true.
Qed.

(** ** Provisioning *)

Lemma Provision_reg j0 j :
  Caddy.Provision j0 = Ok j -> exists tokens,
    Caddy.reg j = Caddy.site_registry tokens (Caddy.Allow j0) /\
    (forall kid, tokens !! kid = listed (Caddy.Tokens j0) kid ≫= decoded).
Proof.
  unfold Caddy.Provision. destruct (Caddy.parsePrefixes _) as [ps|]; [|done]. cbn [mbind result_bind].
  destruct (_ && _); [done|].
  destruct (build_tokens_Ok ∅ (Caddy.Tokens j0)) as [(_ & m & -> & Hm)|[_ [e ->]]]; [|done].
  cbn [mbind result_bind]. intros [= <-]. exists m. split; [done|]. intros kid. rewrite Hm, lookup_empty.
  by destruct (listed _ _).
Qed.

(** What an entry of the trusted proxies is read as. *)
Definition proxy_prefix (s : bytes) : option Prefix :=
  match ParsePrefix s with
  | Some p => Some p
  | None => (fun a => PrefixFrom a (BitLen a)) <$> ParseAddr s
  end.

(** The entries that are not blank. *)
Definition entries (l : list bytes) : list bytes := filter (fun s => s <> []) (map TrimSpace l).

Lemma parsePrefixes_spec l :
  (exists ps, Caddy.parsePrefixes l = Ok ps /\ Traefik.parsePrefixes l = Ok ps /\
     mapM proxy_prefix (entries l) = Some ps) \/
  ((exists e, Caddy.parsePrefixes l = Err e) /\ (exists e, Traefik.parsePrefixes l = Err e) /\
     mapM proxy_prefix (entries l) = None).
Proof.
  induction l as [|s l IH]; [left; by exists []|]. cbn [Caddy.parsePrefixes Traefik.parsePrefixes].
  unfold entries in *. cbn [map]. rewrite filter_cons.
  destruct (bool_decide (TrimSpace s = [])) eqn:Hs; bool_prop.
  { by rewrite decide_False by (by intros ?). }
  rewrite decide_True by done.
  change (mapM proxy_prefix (TrimSpace s :: ?r)) with
    (p ← proxy_prefix (TrimSpace s); ps ← mapM proxy_prefix r; Some (p :: ps)).
  destruct (proxy_prefix (TrimSpace s)) as [p|] eqn:Hq; unfold proxy_prefix in Hq;
    destruct (ParsePrefix (TrimSpace s)) as [p'|].
  - injection Hq as ->. cbn [mbind result_bind option_bind].
    destruct IH as [(ps & -> & -> & ->)|((e & ->) & (e' & ->) & ->)]; cbn; [left|right]; eauto.
  - apply fmap_Some in Hq as (a & -> & ->). cbn [mbind result_bind option_bind].
    destruct IH as [(ps & -> & -> & ->)|((e & ->) & (e' & ->) & ->)]; cbn; [left|right]; eauto.
  - done.
  - apply fmap_None in Hq. rewrite Hq. right. eauto.
Qed.

(** What a configuration must satisfy to be served. *)
Record acceptable (j0 : Caddy.JITAccess) : Prop := {
  ac_proxies : Forall (fun s => is_Some (proxy_prefix s)) (entries (Caddy.TrustedProxies j0));
  ac_forwarded : Caddy.TrustForwarded j0 = true -> entries (Caddy.TrustedProxies j0) <> [];
  ac_secrets : Forall (fun t => is_Some (decoded t)) (Caddy.Tokens j0);
  ac_mode : mode_ok (Caddy.FailureMode j0) = true;
  ac_binding : binding_ok (Caddy.Binding j0) = true;
  ac_tokens : Caddy.Tokens j0 <> [];
  ac_allow : Caddy.Allow j0 <> [] }.

(** What is served: the settings of [j0] with the defaults filled in. *)
Record serves (j0 j : Caddy.JITAccess) : Prop := {
  pv_prefix : Caddy.Prefix j = clean_prefix (Caddy.Prefix j0);
  pv_mode : Caddy.FailureMode j = if bool_decide (Caddy.FailureMode j0 = []) then FailInterstitial else Caddy.FailureMode j0;
  pv_binding : Caddy.Binding j = if bool_decide (Caddy.Binding j0 = []) then BindingIP else Caddy.Binding j0;
  pv_ipv6 : Caddy.IPv6Prefix j =
    if decide (1 <= Caddy.IPv6Prefix j0 <= 128) then Caddy.IPv6Prefix j0 else 128;
  pv_rate : Caddy.RateLimit j = if decide (1 <= Caddy.RateLimit j0) then Caddy.RateLimit j0 else 10;
  pv_grant : Caddy.GrantTTL j = if decide (Caddy.GrantTTL j0 = 0) then 3600 * Caddy.second else Caddy.GrantTTL j0;
  pv_nonce : Caddy.NonceTTL j = if decide (Caddy.NonceTTL j0 = 0) then 60 * Caddy.second else Caddy.NonceTTL j0;
  pv_enroll : Caddy.EnrollTTL j = if decide (Caddy.EnrollTTL j0 = 0) then 86400 * Caddy.second else Caddy.EnrollTTL j0;
  pv_lists : Caddy.Tokens j = Caddy.Tokens j0 /\ Caddy.Allow j = Caddy.Allow j0;
  pv_forwarded : Caddy.TrustForwarded j = Caddy.TrustForwarded j0;
  pv_trusted : mapM proxy_prefix (entries (Caddy.TrustedProxies j0)) = Some (Caddy.trusted j);
  pv_policy : forall kid svc now t,
    Authorize (Some (Caddy.reg j)) kid svc now = Ok t <-> site_policy j0 kid now t }.

Lemma or_default_zero z d : Caddy.orb_default z d = if decide (z = 0) then d else z.
Proof. unfold Caddy.orb_default. destruct (z =? 0) eqn:E; bool_prop; by case_decide. Qed.

Lemma Provision_serves j0 j : Caddy.Provision j0 = Ok j -> serves j0 j.
Proof.
  intros H. destruct (Provision_reg _ _ H) as (tokens & Hreg & Htok). revert H.
  unfold Caddy.Provision.
  destruct (parsePrefixes_spec (Caddy.TrustedProxies j0)) as [(ps & -> & _ & Hps)|((e & ->) & _)]; [|done].
  cbn [mbind result_bind]. destruct (_ && _); [done|].
  destruct (Caddy.build_tokens _ _) as [m|]; [|done]. cbn [mbind result_bind]. intros [= <-].
  split; cbn [Caddy.Prefix Caddy.FailureMode Caddy.Binding Caddy.IPv6Prefix Caddy.RateLimit Caddy.GrantTTL
    Caddy.NonceTTL Caddy.EnrollTTL Caddy.TrustForwarded Caddy.trusted Caddy.reg Caddy.Tokens Caddy.Allow]; try done.
  - destruct (Caddy.IPv6Prefix j0 <=? 0) eqn:E1, (128 <? Caddy.IPv6Prefix j0) eqn:E2; cbn [orb]; bool_prop;
      case_decide; lia.
  - destruct (Caddy.RateLimit j0 <=? 0) eqn:E1; bool_prop; case_decide; lia.
  - apply or_default_zero.
  - apply or_default_zero.
  - apply or_default_zero.
  - intros kid svc now t. cbn [Caddy.reg] in Hreg. rewrite Hreg. by apply site_registry_authorizes.
Qed.

(** An empty choice stands for the first of two. *)
Lemma default_choice (m a b : bytes) :
  let d := if bool_decide (m = []) then a else m in
  bool_decide (d = a) || bool_decide (d = b) = bool_decide (m = []) || bool_decide (m = a) || bool_decide (m = b).
Proof. cbv zeta. destruct (bool_decide (m = [])); [by rewrite bool_decide_eq_true_2|done]. Qed.

Lemma length_none {A} (l : list A) : bool_decide (length l = 0%nat) = bool_decide (l = []).
Proof. by destruct l. Qed.

Lemma Validate_ok j0 j :
  serves j0 j ->
  Caddy.Validate j = Ok tt <->
    mode_ok (Caddy.FailureMode j0) = true /\ binding_ok (Caddy.Binding j0) = true /\
    Caddy.Tokens j0 <> [] /\ Caddy.Allow j0 <> [].
Proof.
  intros H. destruct (pv_lists _ _ H) as [Ht Ha]. pose proof (pv_mode _ _ H) as Hm.
  pose proof (pv_binding _ _ H) as Hb. unfold Caddy.Validate. rewrite Hm, Hb, Ht, Ha, !default_choice.
  fold (mode_ok (Caddy.FailureMode j0)) (binding_ok (Caddy.Binding j0)).
  destruct (mode_ok _), (binding_ok _), (Caddy.Tokens j0), (Caddy.Allow j0); cbn; naive_solver.
Qed.

Lemma Provision_total j0 :
  (exists j, Caddy.Provision j0 = Ok j) <->
    Forall (fun s => is_Some (proxy_prefix s)) (entries (Caddy.TrustedProxies j0)) /\
    (Caddy.TrustForwarded j0 = true -> entries (Caddy.TrustedProxies j0) <> []) /\
    Forall (fun t => is_Some (decoded t)) (Caddy.Tokens j0).
Proof.
  unfold Caddy.Provision.
  destruct (parsePrefixes_spec (Caddy.TrustedProxies j0)) as [(ps & -> & _ & Hps)|((e & ->) & _ & Hps)];
    cbn [mbind result_bind].
  2: { split; [by intros [? ?]|]. intros (H & _). exfalso. apply (is_Some_None (A := list Prefix)).
       rewrite <- Hps. by apply mapM_is_Some_2. }
  assert (Hall : Forall (fun s => is_Some (proxy_prefix s)) (entries (Caddy.TrustedProxies j0)))
    by (apply mapM_is_Some_1; by rewrite Hps).
  assert (Hnil : ps = [] <-> entries (Caddy.TrustedProxies j0) = []).
  { apply mapM_Some, Forall2_length in Hps. destruct ps, (entries _); done. }
  destruct (Caddy.TrustForwarded j0 && bool_decide (ps = [])) eqn:Hf.
  { bool_prop. split; [by intros [? ?]|]. intros (_ & Hn & _). exfalso. naive_solver. }
  destruct (build_tokens_Ok ∅ (Caddy.Tokens j0)) as [(Hs & m & -> & _)|[Hn [e ->]]]; cbn [mbind result_bind].
  - split; [intros _|by eexists]. split; [done|]. split; [|done]. intros Ht Hn. rewrite Ht in Hf.
    cbn [andb] in Hf. bool_prop. naive_solver.
  - split; [by intros [? ?]|by intros (_ & _ & ?)].
Qed.

(** ** The plugin's [New] *)

(** The Caddy site with the settings of a plugin configuration: durations in
    nanoseconds, where a duration that is not positive is the default. *)
Definition caddy_of (c : Traefik.Config) : Caddy.JITAccess :=
  let dur z := if z <=? 0 then 0 else z * Caddy.second in
  {| Caddy.Prefix := Traefik.Prefix c; Caddy.Allow := Traefik.Allow c;
     Caddy.Tokens := map (fun t => {| Caddy.Kid := Traefik.Kid t; Caddy.Secret := Traefik.Secret t;
                                      Caddy.Label := Traefik.Label t; Caddy.Expires := Traefik.Expires t |})
                         (Traefik.Tokens c);
     Caddy.GrantTTL := dur (Traefik.GrantTTL c); Caddy.NonceTTL := dur (Traefik.NonceTTL c);
     Caddy.EnrollTTL := 0; Caddy.FailureMode := Traefik.FailureMode c; Caddy.Binding := Traefik.Binding c;
     Caddy.IPv6Prefix := Traefik.IPv6Prefix c; Caddy.RateLimit := Traefik.RateLimit c;
     Caddy.TrustForwarded := Traefik.TrustForwarded c; Caddy.TrustedProxies := Traefik.TrustedProxies c;
     Caddy.reg := NewRegistry None None; Caddy.trusted := [] |}.

Lemma tokens_caddy m c :
  match Traefik.build_tokens m (Traefik.Tokens c) with
  | Ok m' => Caddy.build_tokens m (Caddy.Tokens (caddy_of c)) = Ok m'
  | Err _ => exists e, Caddy.build_tokens m (Caddy.Tokens (caddy_of c)) = Err e
  end.
Proof.
  cbn [caddy_of Caddy.Tokens]. revert m. induction (Traefik.Tokens c) as [|t ts IH]; intros m; [done|].
  cbn [map Traefik.build_tokens Caddy.build_tokens Caddy.Secret Caddy.Kid Caddy.Label Caddy.Expires].
  destruct (B64uDecode _) as [sec|]; [|by eexists]. destruct (_ <? 16)%nat; [by eexists|]. apply IH.
Qed.

Lemma dur_default z d : 0 < d ->
  Caddy.orb_default (if z <=? 0 then 0 else z * Caddy.second) (d * Caddy.second) =
  (if z <=? 0 then d else z) * Caddy.second.
Proof.
  intros Hd. unfold Caddy.orb_default. destruct (z <=? 0) eqn:E; [done|]. bool_prop.
  assert (Hz : (z * Caddy.second =? 0) = false) by (apply Z.eqb_neq; unfold Caddy.second; lia).
  by rewrite Hz.
Qed.

(** Past the checks it makes first, the plugin is provisioned as the site is. *)
Lemma New_Provision c :
  Traefik.Tokens c <> [] -> Traefik.Allow c <> [] ->
  mode_ok (Traefik.FailureMode c) = true -> binding_ok (Traefik.Binding c) = true ->
  match Traefik.New c with
  | Ok j => Caddy.Provision (caddy_of c) = Ok (Traefik.to_caddy j)
  | Err _ => exists e, Caddy.Provision (caddy_of c) = Err e
  end.
Proof.
  intros Ht Ha Hm Hb. unfold Traefik.New, Caddy.Provision. rewrite Hm, Hb, !length_none.
  rewrite !bool_decide_eq_false_2 by done. cbn [negb].
  change (Traefik.TrustedProxies (Traefik.normalise c)) with (Traefik.TrustedProxies c).
  change (Caddy.TrustedProxies (caddy_of c)) with (Traefik.TrustedProxies c).
  destruct (parsePrefixes_spec (Traefik.TrustedProxies c)) as [(ps & -> & -> & _)|((e & ->) & (e' & ->) & _)];
    cbn [mbind result_bind]; [|by eexists].
  change (Traefik.TrustForwarded (Traefik.normalise c)) with (Traefik.TrustForwarded c).
  change (Caddy.TrustForwarded (caddy_of c)) with (Traefik.TrustForwarded c).
  destruct (_ && _); [by eexists|].
  pose proof (tokens_caddy ∅ c) as Htok. change (Traefik.Tokens (Traefik.normalise c)) with (Traefik.Tokens c).
  destruct (Traefik.build_tokens ∅ (Traefik.Tokens c)) as [m|]; [|by destruct Htok as [e2 ->]; eexists].
  rewrite Htok. cbn [mbind result_bind caddy_of Caddy.Prefix Caddy.GrantTTL Caddy.NonceTTL Caddy.EnrollTTL
    Caddy.FailureMode Caddy.Binding Caddy.IPv6Prefix Caddy.RateLimit Caddy.Allow Caddy.Tokens
    Caddy.TrustForwarded Caddy.TrustedProxies].
  rewrite !dur_default by lia. reflexivity.
Qed.

Lemma acceptable_iff j0 :
  (exists j, Caddy.Provision j0 = Ok j /\ Caddy.Validate j = Ok tt) <-> acceptable j0.
Proof.
  split.
  - intros (j & Hp & Hv). destruct (proj1 (Provision_total j0)) as (H1 & H2 & H3); [by eexists|].
    apply (Validate_ok j0 j (Provision_serves _ _ Hp)) in Hv as (?&?&?&?). by split.
  - intros [H1 H2 H3 Hm Hb Hn Ha]. destruct (proj2 (Provision_total j0)) as [j Hp]; [done|].
    exists j. split; [done|]. by apply (Validate_ok j0 j (Provision_serves _ _ Hp)).
Qed.

Lemma New_acceptable c : (exists j, Traefik.New c = Ok j) <-> acceptable (caddy_of c).
Proof.
  assert (Htok : Caddy.Tokens (caddy_of c) <> [] <-> Traefik.Tokens c <> [])
    by (cbn; by destruct (Traefik.Tokens c)).
  split.
  - intros [j Hj]. assert (H : Traefik.Tokens c <> [] /\ Traefik.Allow c <> [] /\
      mode_ok (Traefik.FailureMode c) = true /\ binding_ok (Traefik.Binding c) = true).
    { revert Hj. unfold Traefik.New. rewrite !length_none.
      destruct (bool_decide (Traefik.Tokens c = [])) eqn:E1; [done|].
      destruct (bool_decide (Traefik.Allow c = [])) eqn:E2; [done|].
      destruct (mode_ok _) eqn:E3; [|done]. destruct (binding_ok _) eqn:E4; [|done]. by bool_prop. }
    destruct H as (Ht & Ha & Hm & Hb). pose proof (New_Provision c Ht Ha Hm Hb) as Hp. rewrite Hj in Hp.
    destruct (proj1 (Provision_total (caddy_of c))) as (H1 & H2 & H3); [by eexists|].
    split; try done. by apply Htok.
  - intros [H1 H2 H3 Hm Hb Ht%Htok Ha]. pose proof (New_Provision c Ht Ha Hm Hb) as Hp.
    destruct (Traefik.New c) as [j|e]; [by eexists|]. destruct Hp as [e' He].
    destruct (proj2 (Provision_total (caddy_of c))) as [j Hj]; [done|]. congruence.
Qed.

(** ** Properties *)

(** C15: a site is served exactly when its configuration is acceptable: every
    trusted proxy is an address or a prefix, forwarded addresses are trusted only
    with proxies named, every secret is base64url of sixteen bytes or more, the
    modes are known ones, and there are tokens and an allow-list.  It is then
    served with those settings: each is the one written, or its default where it is
    unset (zero for a duration, not positive for the rate, outside 1 to 128 for the
    prefix length), and
    its registry authorizes exactly the devices the configuration lists, each
    under the last secret it lists for it. *)
Theorem Provision_exact j0 :
  ((exists j, Caddy.Provision j0 = Ok j /\ Caddy.Validate j = Ok tt) <-> acceptable j0) /\
  forall j, Caddy.Provision j0 = Ok j -> serves j0 j.
Proof. split; [apply acceptable_iff|apply Provision_serves]. Qed.

(** C16: the Traefik plugin is the Caddy module, from the configuration on.  The
    plugin accepts a configuration exactly when the module accepts the same
    settings; it then serves what the module provisions from them; and on every
    request the two are one program, in whatever monad their operations run: on a
    world, they make the same decision, write the same response and leave the same
    stores; beside other requests, they do the same operations in the same order. *)
Theorem plugin_is_module c :
  ((exists j, Traefik.New c = Ok j) <->
     exists j', Caddy.Provision (caddy_of c) = Ok j' /\ Caddy.Validate j' = Ok tt) /\
  forall j, Traefik.New c = Ok j ->
    Caddy.Provision (caddy_of c) = Ok (Traefik.to_caddy j) /\
    forall {F} `{!MRet F, !MBind F, !POps F} r,
      Traefik.ServeHTTP j r = Caddy.ServeHTTP (Traefik.to_caddy j) r :> F outcome.
Proof.
  rewrite acceptable_iff, New_acceptable. split; [done|]. intros j Hj. split.
  - destruct (proj1 (New_acceptable c)) as [_ _ _ Hm Hb Ht Ha]; [by eexists|].
    assert (Ht' : Traefik.Tokens c <> []) by (intros Hn; apply Ht; cbn; by rewrite Hn).
    pose proof (New_Provision c Ht' Ha Hm Hb) as Hp. by rewrite Hj in Hp.
  - intros. apply Traefik.ServeHTTP_caddy.
Qed.

(** The gate enforces the configuration of its own site, whatever other sites
    share its stores.  Take any run of requests to the sites of one process from
    a start with no grants.  If a site lets a request through, the grant it rides
    on carries a kid that this site's configuration lists and allows, unexpired,
    and was minted under the very secret listed here: a knock at another site
    that lists the kid with another secret, or not at all, opens nothing. *)
Theorem gate_access_by_policy now_at rand_at j0 j w0 es r
    (Hprov : Caddy.Provision j0 = Ok j)
    (Hwf : wf (sharedGrants (sh w0))) (Hempty : Store.grants (sharedGrants (sh w0)) = ∅)
    (Hpass : (Caddy.ServeHTTP (POps0 := pworld_ops now_at rand_at) j r (blank (gate_run now_at rand_at w0 es))).1 = Passed) :
  let w := blank (gate_run now_at rand_at w0 es) in
  exists ip g t, gate_admitted now_at j r w ip g /\
    site_policy j0 (gKid g) (now_at (S (pticks w))) t /\
    gSecretFP g = Fingerprint (Some t).
Proof.
  cbv zeta. set (w := blank (gate_run now_at rand_at w0 es)) in *.
  destruct (ServeHTTP_cases now_at rand_at j r w eq_refl) as [(Hp & _)|(_ & w' & He & _)];
    [|by rewrite He in Hpass].
  apply gate_pass_admitted in Hp as (ip & g & Hga). exists ip, g.
  assert (Hm : gManual g = false).
  { destruct (candidate_lookup _ _ _ _ _ (ga_candidate _ _ _ _ _ _ Hga)) as [k Hk].
    destruct (gate_run_grants now_at rand_at w0 es Hwf Hempty) as [Hwf' Horig].
    destruct (swept_effect now_at (fun _ => False) w Hwf') as [_ Hsw].
    destruct (Hsw k g Hk) as [Hk'|[]].
    destruct (Horig k g Hk') as (before & e & after & _ & Ho).
    destruct Ho as (ip' & kid & tok & n & hash & _ & _ & _ & -> & _). done. }
  destruct (ga_admits _ _ _ _ _ _ Hga) as [_ _ _ [Hman|(t & Ha & Hfp)] _]; [congruence|].
  exists t. split; [done|]. split; [|done].
  apply Authorize_Ok_iff in Ha. by apply (pv_policy _ _ (Provision_serves _ _ Hprov)) in Ha.
Qed.

(** ** Witnesses *)

(** The site of the directive read in [Caddyfile], from its text to its door. *)
Definition ex_read : Caddy.JITAccess :=
  match parseCaddyfile ex_duration 40 (LStart ex_block) with Some (Ok j) => j | _ => zeroJIT end.

Definition ex_served : Caddy.JITAccess :=
  match Caddy.Provision ex_read with Ok j => j | Err _ => ex_read end.

Lemma ex_served_ok : Caddy.Provision ex_read = Ok ex_served.
Proof.
  unfold ex_served. assert (H : is_ok (Caddy.Provision ex_read) = true) by (vm_compute; reflexivity).
  by destruct (Caddy.Provision ex_read).
Qed.

Definition ex_knocks : list (Caddy.JITAccess * Request) :=
  [(ex_served, ex_visit "POST" "/knock/respond" ex_knock_body "")].

Lemma ex_served_passes :
  (Caddy.ServeHTTP (POps0 := pworld_ops (now_at ex_env) (rand_at ex_env)) ex_served ex_revisit
    (blank (gate_run (now_at ex_env) (rand_at ex_env) ex_pworld ex_knocks))).1 = Passed.
Proof. vm_compute. reflexivity. Qed.

(** The directive lists one device. *)
Lemma ex_read_kid kid now t : site_policy ex_read kid now t -> kid = lit "k1".
Proof.
  intros [Hl _ _]. destruct (decide (kid = lit "k1")) as [|Hne]; [done|]. exfalso.
  assert (Ht : Caddy.Tokens ex_read = [Caddy.mkToken (lit "k1") (lit "c2VjcmV0c2VjcmV0c2VjcmV0") (lit "ops laptop") 0])
    by (vm_compute; reflexivity).
  unfold listed in Hl. rewrite Ht, filter_cons in Hl. cbn [Caddy.Kid] in Hl. by rewrite decide_False in Hl.
Qed.

Lemma gate_access_by_policy_witness : exists t now, site_policy ex_read (lit "k1") now t.
Proof.
  destruct (gate_access_by_policy (now_at ex_env) (rand_at ex_env) ex_read ex_served ex_pworld ex_knocks
    ex_revisit ex_served_ok wf_NewGrantStore eq_refl ex_served_passes) as (ip & g & t & _ & Hp & _).
  rewrite (ex_read_kid _ _ _ Hp) in Hp. by exists t, (now_at ex_env (S (pticks (blank (gate_run (now_at ex_env) (rand_at ex_env) ex_pworld ex_knocks))))).
Defined.

Lemma Provision_exact_witness : acceptable ex_read.
Proof.
  apply (Provision_exact ex_read). exists ex_served. split; [exact ex_served_ok|]. vm_compute. reflexivity.
Defined.

Definition ex_plugin : Traefik.Config :=
  let c := Traefik.CreateConfig in
  Traefik.mkConfig [lit "k1"] [Traefik.mkToken (lit "k1") (B64u ex_secret) [] 0] (Traefik.Prefix c)
    (Traefik.FailureMode c) (Traefik.Binding c) (Traefik.GrantTTL c) (Traefik.NonceTTL c)
    (Traefik.IPv6Prefix c) (Traefik.RateLimit c) true [lit "10.0.0.0/8"; lit " "].

Lemma plugin_is_module_witness :
  exists j', Caddy.Provision (caddy_of ex_plugin) = Ok j' /\ Caddy.Validate j' = Ok tt.
Proof.
  apply (plugin_is_module ex_plugin).
  assert (H : match Traefik.New ex_plugin with Ok _ => true | Err _ => false end = true)
    by (vm_compute; reflexivity).
  destruct (Traefik.New ex_plugin) as [j|e]; [by exists j|done].
Defined.

(** A lifetime below a second is no lifetime: the knock answers, the door stays shut. *)
Example short_lifetime :
  match Caddy.Provision (set_GrantTTL (-5) ex_read) with
  | Ok j =>
      let w := gate_run (now_at ex_env) (rand_at ex_env) ex_pworld [(j, ex_visit "POST" "/knock/respond" ex_knock_body "")] in
      (status (presp w) =? StatusNoContent) &&
      bool_decide ((Caddy.ServeHTTP (POps0 := pworld_ops (now_at ex_env) (rand_at ex_env)) j ex_revisit (blank w)).1 = Answered)
  | Err _ => false
  end = true.
Proof. vm_compute. reflexivity. Qed.
