(* ===== verification/GateOps.v ===== *)
(** * GateOps: the in-process gate as a machine of threads.

    A web server runs the Caddy module, or the Traefik plugin, on many goroutines
    that share one set of stores.  Here the handlers are programs of the operations
    of [POps], each atomic under the lock of its store, and a system of [Threads]
    interleaves any number of requests to any sites; a sweep is four operations of
    the request it fell to.  The environment is the operator, who makes enrollment codes. *)

From S2P Require Import Prelude GoStrings Json Wire Base64 Sha256 Crypto ServerName NetIP CanonIP Registry RateLimit.
From S2P Require Import Store StoreHistory Http Threads Ledger Config RealIP Pages Server App AppHistory Plug Caddy Gate.
From S2P Require NonceStore EnrollStore.
Import strings netip Caddy.

Inductive pop : Type -> Type :=
| ONow : pop Z
| ORandom (n : nat) : pop (option bytes)
| OKey : pop bytes
| OAllow (key : bytes) (limit t : Z) : pop bool
| OClaim (id : bytes) (t ttl : Z) : pop bool
| OPut (g : Grant) (old : list bytes) : pop unit
| OIsAllowed (svc ip : bytes) (rg : Registry) (t : Z) (cookie : bytes) : pop (option Grant)
| OPeek (code : bytes) (t : Z) : pop (option EnrollStore.EnrollCode)
| OConsume (code : bytes) (t : Z) : pop (option EnrollStore.EnrollCode)
| OPutCode (code : bytes) (c : EnrollStore.EnrollCode) : pop unit
| ODue (every t : Z) : pop bool
| OSweep (k : store) (t : Z) : pop unit
| OOut (f : Response -> Response) : pop unit.

#[export] Instance prog_pops : POps (prog pop) := {|
  pnow := Vis ONow Ret;
  prandom n := Vis (ORandom n) Ret;
  pkey := Vis OKey Ret;
  pallow key limit t := Vis (OAllow key limit t) Ret;
  pclaim id t ttl := Vis (OClaim id t ttl) Ret;
  pput g old := Vis (OPut g old) Ret;
  pis_allowed svc ip rg t cookie := Vis (OIsAllowed svc ip rg t cookie) Ret;
  ppeek code t := Vis (OPeek code t) Ret;
  pconsume code t := Vis (OConsume code t) Ret;
  pput_code code c := Vis (OPutCode code c) Ret;
  pdue every t := Vis (ODue every t) Ret;
  psweep k t := Vis (OSweep k t) Ret;
  pout f := Vis (OOut f) Ret |}.

(** One operation, in a monad that has it. *)
Definition perform {F} `{!POps F} {B} (o : pop B) : F B :=
  match o with
  | ONow => pnow
  | ORandom n => prandom n
  | OKey => pkey
  | OAllow key limit t => pallow key limit t
  | OClaim id t ttl => pclaim id t ttl
  | OPut g old => pput g old
  | OIsAllowed svc ip rg t cookie => pis_allowed svc ip rg t cookie
  | OPeek code t => ppeek code t
  | OConsume code t => pconsume code t
  | OPutCode code c => pput_code code c
  | ODue every t => pdue every t
  | OSweep k t => psweep k t
  | OOut f => pout f
  end.

(** ** Programs and actions on a world *)

Section sim.
Variables (now_at : nat -> Z) (rand_at : nat -> nat -> option bytes).
#[local] Instance ops : POps P := pworld_ops now_at rand_at.

Notation runs_to := (runs_to (@perform P ops)).

Lemma gdeny_runs j : runs_to (deny j) (deny j).
Proof. unfold deny. running. Qed.
Lemma maybeSweep_runs t : runs_to (maybeSweep t) (maybeSweep t).
Proof. unfold maybeSweep. running. Qed.
#[local] Hint Resolve gdeny_runs maybeSweep_runs : runs.
Lemma gmint_runs j r service ip kid token n :
  runs_to (mint j r service ip kid token n) (mint j r service ip kid token n).
Proof. unfold mint. cbv zeta. running. Qed.
#[local] Hint Resolve gmint_runs : runs.
Lemma gchallenge_runs j service ip : runs_to (handleChallenge j service ip) (handleChallenge j service ip).
Proof. unfold handleChallenge. running. Qed.
Lemma grespond_runs j r service ip : runs_to (handleRespond j r service ip) (handleRespond j r service ip).
Proof. unfold handleRespond. cbv zeta. running. Qed.
Lemma genroll_runs j r service ip : runs_to (handleEnroll j r service ip) (handleEnroll j r service ip).
Proof. unfold handleEnroll. running. Qed.
Lemma gregister_runs j : runs_to (handleRegister j) (handleRegister j).
Proof. unfold handleRegister. running. Qed.
#[local] Hint Resolve gchallenge_runs grespond_runs genroll_runs gregister_runs : runs.

(** A request as a program is the request as it is on a world. *)
Lemma ServeHTTP_prog j r : runs_to (ServeHTTP j r) (ServeHTTP j r).
Proof. unfold ServeHTTP, answered. cbv zeta. running. Qed.
End sim.

(** ** Events *)

(** An operation that was served, with its answer. *)
Inductive pevent :=
| ENow (t : Z)
| ERandom (n : nat) (rnd : option bytes)
| EKey (nk : bytes)
| EAllow (key : bytes) (limit t : Z) (ok : bool)
| EClaim (id : bytes) (t ttl : Z) (ok : bool)
| EPut (g : Grant) (old : list bytes)
| EIsAllowed (svc ip : bytes) (rg : Registry) (t : Z) (cookie : bytes) (g : option Grant)
| EPeek (code : bytes) (t : Z) (c : option EnrollStore.EnrollCode)
| EConsume (code : bytes) (t : Z) (c : option EnrollStore.EnrollCode)
| EPutCode (code : bytes) (c : EnrollStore.EnrollCode)
| EDue (every t : Z) (d : bool)
| ESweep (k : store) (t : Z)
| EOut (f : Response -> Response).

Definition event_of {B} (o : pop B) : B -> pevent :=
  match o with
  | ONow => ENow
  | ORandom n => ERandom n
  | OKey => EKey
  | OAllow key limit t => EAllow key limit t
  | OClaim id t ttl => EClaim id t ttl
  | OPut g old => fun _ => EPut g old
  | OIsAllowed svc ip rg t cookie => EIsAllowed svc ip rg t cookie
  | OPeek code t => EPeek code t
  | OConsume code t => EConsume code t
  | OPutCode code c => fun _ => EPutCode code c
  | ODue every t => EDue every t
  | OSweep k t => fun _ => ESweep k t
  | OOut f => fun _ => EOut f
  end.

(** The answer of an event is the one of the stores in the state [s]. *)
Definition holds (e : pevent) (s : Shared) : Prop :=
  match e with
  | EKey nk => sharedKey s = nk
  | EAllow key limit t ok => (RateLimit.Allow (sharedRL s) key limit t).1 = ok
  | EClaim id t ttl ok => (NonceStore.Claim (sharedNonces s) id t ttl).1 = ok
  | EIsAllowed svc ip rg t cookie g => IsAllowed (sharedGrants s) svc ip (Some rg) t cookie = g
  | EPeek code t c => EnrollStore.Peek (sharedCodes s) code t = c
  | EConsume code t c => (EnrollStore.Consume (sharedCodes s) code t).1 = c
  | EDue every t d => (due every t s).1 = d
  | ENow _ | ERandom _ _ | EPut _ _ | EPutCode _ _ | ESweep _ _ | EOut _ => True
  end.

Definition apply (e : pevent) (s : Shared) : Shared :=
  match e with
  | EAllow key limit t _ => on_rl (fun l => (RateLimit.Allow l key limit t).2) s
  | EClaim id t ttl _ => on_nonces (fun n => (NonceStore.Claim n id t ttl).2) s
  | EPut g old => on_grants (fun gs => Put gs (Some g) old) s
  | EConsume code t _ => on_codes (fun c => (EnrollStore.Consume c code t).2) s
  | EPutCode code c => on_codes (fun e => EnrollStore.Put e code c) s
  | EDue every t _ => (due every t s).2
  | ESweep k t => sweep_store k t s
  | _ => s
  end.

Definition answer (e : pevent) (w : Response) : Response :=
  match e with EOut f => f w | _ => w end.

(** ** The machine *)

(** An operation on the stores and on the response of its request, at a time and
    with a source of randomness. *)
Definition on_stores {B} (o : pop B) (t : Z) (rnd : nat -> option bytes) (s : Shared) (rs : Response)
    : B * Shared * Response :=
  let '(b, w) := perform (POps0 := pworld_ops (fun _ => t) (fun _ => rnd)) o (mkPWorld s 0 0 rs) in
  (b, sh w, presp w).

(** One operation at a time: open its definition, in whatever world. *)
Ltac each_op o :=
  destruct o; cbn [perform pworld_ops pnow prandom pkey pallow pclaim pput pis_allowed ppeek pconsume
    pput_code pdue psweep pout]; unfold pact; cbn [sh pticks pdraws presp].

Lemma on_stores_event B (o : pop B) t rnd s rs :
  let '(b, s', rs') := on_stores o t rnd s rs in
  holds (event_of o b) s /\ s' = apply (event_of o b) s /\ rs' = answer (event_of o b) rs.
Proof.
  unfold on_stores. each_op o; try done.
  - by destruct (RateLimit.Allow _ _ _ _) eqn:E; cbn; unfold on_rl; rewrite E.
  - by destruct (NonceStore.Claim _ _ _ _) eqn:E; cbn; unfold on_nonces; rewrite E.
  - by destruct (EnrollStore.Consume _ _ _) eqn:E; cbn; unfold on_codes; rewrite E.
  - by destruct (due _ _ _) eqn:E; cbn; rewrite E.
Qed.

(** The clock and the generator matter to the one operation that asks them. *)
Lemma perform_on_stores now_at rand_at B (o : pop B) w :
  exists t rnd, on_stores o t rnd (sh w) (presp w) =
    let '(b, w') := perform (POps0 := pworld_ops now_at rand_at) o w in (b, sh w', presp w').
Proof.
  exists (now_at (pticks w)), (rand_at (pdraws w)). unfold on_stores. destruct w as [s tk dr rs].
  each_op o; try done.
  - by destruct (RateLimit.Allow _ _ _ _).
  - by destruct (NonceStore.Claim _ _ _ _).
  - by destruct (EnrollStore.Consume _ _ _).
  - by destruct (due _ _ _).
Qed.

(** The operator makes a code, with [MintEnrollCode]. *)
Inductive minting := MakeCode (code kid : bytes) (origins : list bytes) (exp : Z).

Definition make_code (a : minting) (s : Shared) : Shared :=
  let '(MakeCode code kid origins exp) := a in
  sh (MintEnrollCode (POps0 := pworld_ops (fun _ => 0) (fun _ _ => None)) code kid origins exp
        (mkPWorld s 0 0 fresh)).2.

Definition gateway
    : machine pop pevent Shared Response (JITAccess * Request) outcome unit minting minting := {|
  m_blank := fresh;
  m_code q := ServeHTTP q.1 q.2;
  m_event := @event_of;
  m_exec := @on_stores;
  m_holds := holds;
  m_apply := apply;
  m_answer := answer;
  m_exec_event := on_stores_event;
  m_go a p := Some (Some a, p);
  m_act := make_code |}.

Notation gentry := (entry pevent minting).
Notation gthread := (thread pop Response (JITAccess * Request) outcome).
Notation gsystem := (system pop pevent Shared Response (JITAccess * Request) outcome unit minting).
Notation wlp := (wlp (@event_of)).
Notation calm G := (calm (@event_of) G).
Notation reachable s := (reachable gateway s tt).
Notation response := (response gateway).
Notation replay := (replay gateway).
