(* ===== verification/GateOverlap.v ===== *)
(** * GateOverlap: what holds of the in-process gate when requests overlap.

    [pguard] says what a request to a site has done before it burns a nonce, stores
    a grant or sweeps, [pended] what it has done when it ends; the module's handler
    meets both, whatever the other requests do in between.  On every interleaving
    of requests to any sites of one process: what is let through rides on a grant
    that a verified knock stored and that the site's own configuration lists; a
    nonce is redeemed once; a code gives its secret once; and the runs of [Gate],
    one request after another, are among the interleavings. *)

From S2P Require Import Prelude GoStrings Json Wire Base64 Sha256 Crypto ServerName NetIP CanonIP Registry RateLimit.
From S2P Require Import Store StoreHistory Http Threads Ledger Config RealIP Pages Server App AppHistory Plug Caddy Gate.
From S2P Require Import Caddyfile Traefik Sites GateOps.
From S2P Require NonceStore EnrollStore.
Import strings netip Caddy.

(** ** What a request has checked *)

(** A knock that holds up; its times and its key are answers the request got. *)
Record site_verified (j : JITAccess) (r : Request) (h : list pevent) (ip kid nonceRaw rnd : bytes)
    (token : Registry.Token) (t : Z) : Prop := {
  sv_ip : clientIP j r = Some ip;
  sv_service : CanonServerName (Host r) <> [];
  sv_method : Method r = MethodPost;
  sv_path : URLPath r = Prefix j ++ lit "/respond";
  sv_rate : exists t0, EAllow (RateKey (CanonServerName (Host r)) ip) (RateLimit j) t0 true ∈ h;
  sv_now : ENow t ∈ h;
  sv_nonce : exists nk, EKey nk ∈ h /\
    VerifyNonce nk nonceRaw (CanonServerName (Host r)) ip t (seconds (NonceTTL j)) (IPv6Prefix j) = Some rnd;
  sv_token : Lookup (Some (reg j)) kid = Some token;
  sv_live : IsExpired (Some token) t = false;
  sv_allowed : allowedForService j kid = true;
  sv_proof : exists body tag, json_respond 4096 (Body r) = Some body /\ rbKid body = kid /\
    B64uDecode (rbNonce body) = Some nonceRaw /\ B64uDecode (rbProof body) = Some tag /\
    VerifyProof (Registry.Secret token) (CanonServerName (Host r)) kid nonceRaw tag = true }.

Definition site_claimed (j : JITAccess) (r : Request) (h : list pevent) (id : bytes) (t ttl : Z) : Prop :=
  exists ip kid nonceRaw rnd token, site_verified j r h ip kid nonceRaw rnd token t /\
    id = B64u rnd /\ ttl = seconds (NonceTTL j).

Definition site_minted (j : JITAccess) (r : Request) (h : list pevent) (g : Grant) : Prop :=
  exists ip kid nonceRaw rnd token t hash, site_verified j r h ip kid nonceRaw rnd token t /\
    EClaim (B64u rnd) t (seconds (NonceTTL j)) true ∈ h /\
    (if bool_decide (Binding j = BindingIPCookie)
     then exists raw, ERandom 32 (Some raw) ∈ h /\ hash = CookieHash (B64u raw) else hash = []) /\
    g = site_grant j (CanonServerName (Host r)) ip kid token t hash.

(** A request sweeps at the time it read, and makes no codes. *)
Definition pguard (q : JITAccess * Request) (h : list pevent) (e : pevent) : Prop :=
  match e with
  | EClaim id t ttl _ => site_claimed q.1 q.2 h id t ttl
  | EPut g _ => site_minted q.1 q.2 h g
  | ESweep _ t => ENow t ∈ h
  | EPutCode _ _ => False
  | _ => True
  end.

Lemma site_verified_mono j r h h' ip kid nr rnd token t :
  h ⊆ h' -> site_verified j r h ip kid nr rnd token t -> site_verified j r h' ip kid nr rnd token t.
Proof.
  intros Hs [? ? ? ? (t0 & H1) H2 (nk & H3 & ?) ? ? ? ?].
  split; try done; repeat esplit; try done; by apply Hs.
Qed.

(** ** The handlers *)

(** One operation of the program, with its answer. *)
Ltac next x := apply wlp_op; intros x; split; [exact I|cbn [event_of]].

Section handlers.
Variables (j : JITAccess) (r : Request).

Notation calm := (calm (pguard (j, r))).
Notation wlp := (wlp (pguard (j, r))).

Lemma gdeny_calm : calm (deny j).
Proof. unfold deny. calming. Qed.
#[local] Hint Resolve gdeny_calm : calm.
Lemma gchallenge_calm service ip : calm (handleChallenge j service ip).
Proof. unfold handleChallenge. calming. Qed.
Lemma gregister_calm : calm (handleRegister j).
Proof. unfold handleRegister. calming. Qed.
Lemma genroll_calm service ip : calm (handleEnroll j r service ip).
Proof. unfold handleEnroll. calming. Qed.

Ltac calmly := solve [apply calm_wlp; eauto using gdeny_calm].

(** *** The knock *)

Lemma gfinish_wlp h ip kid nr rnd token t hash old :
  site_verified j r h ip kid nr rnd token t -> EClaim (B64u rnd) t (seconds (NonceTTL j)) true ∈ h ->
  (if bool_decide (Binding j = BindingIPCookie)
   then exists raw, ERandom 32 (Some raw) ∈ h /\ hash = CookieHash (B64u raw) else hash = []) ->
  wlp h (pput (site_grant j (CanonServerName (Host r)) ip kid token t hash) old ;;
    pout (r_set (lit "Cache-Control") (lit "no-store")) ;; pout (r_status StatusNoContent)) (fun _ _ => True).
Proof.
  intros Hv Hc Hh. apply wlp_op. intros []. split; [by exists ip, kid, nr, rnd, token, t, hash|].
  do 2 (intros []; split; [exact I|]). done.
Qed.

Lemma gmint_wlp h ip kid nr rnd token t :
  site_verified j r h ip kid nr rnd token t -> EClaim (B64u rnd) t (seconds (NonceTTL j)) true ∈ h ->
  wlp h (mint j r (CanonServerName (Host r)) ip kid token t) (fun _ _ => True).
Proof.
  intros Hv Hc. unfold mint. cbv zeta. destruct (bool_decide (Binding j = BindingIPCookie)) eqn:Hb.
  - next raw. destruct raw as [raw|]; [|calmly]. next u.
    eapply (gfinish_wlp _ ip kid nr rnd token t (CookieHash (B64u raw))).
    + eapply site_verified_mono; [|exact Hv]. set_solver.
    + set_solver.
    + rewrite Hb. exists raw. split; [recent|done].
  - eapply (gfinish_wlp _ ip kid nr rnd token t []); [done|done|by rewrite Hb].
Qed.

Lemma grespond_wlp h ip :
  clientIP j r = Some ip -> CanonServerName (Host r) <> [] ->
  URLPath r = Prefix j ++ lit "/respond" -> Method r = MethodPost ->
  wlp h (handleRespond j r (CanonServerName (Host r)) ip) (fun _ _ => True).
Proof.
  intros Hip Hs Hp Hm. unfold handleRespond. next t0. next ok. destruct ok; cbn [negb]; [|calmly].
  destruct (json_respond 4096 (Body r)) as [body|] eqn:Hj; [|calmly].
  destruct (B64uDecode (rbNonce body)) as [nr|] eqn:Hn; [|calmly].
  destruct (B64uDecode (rbProof body)) as [tag|] eqn:Hpr; [|calmly].
  destruct (_ || _); [calmly|]. next t. next nk. destruct (VerifyNonce _ _ _ _ _ _ _) as [rnd|] eqn:Hv; [|calmly].
  cbv zeta. destruct (Lookup (Some (reg j)) (rbKid body)) as [token|] eqn:Hl; [|calmly].
  destruct (_ || _) eqn:Hc; [calmly|]. bool_prop.
  match goal with |- Threads.wlp _ _ ?h0 _ _ =>
    assert (Hver : site_verified j r h0 ip (rbKid body) nr rnd token t) end.
  { split; try done; [exists t0; recent|recent|exists nk; split; [recent|done]|by exists body, tag]. }
  apply wlp_op. intros first. split; [by exists ip, (rbKid body), nr, rnd, token|]. cbn [event_of].
  destruct first; cbn [negb]; [|calmly].
  eapply gmint_wlp; [|recent]. eapply site_verified_mono; [|exact Hver]. set_solver.
Qed.

(** *** How a request ends *)

(** The request was let through, with nothing written. *)
Definition site_passed (h : list pevent) : Prop :=
  response h = fresh /\ CanonServerName (Host r) <> [] /\ under_prefix j r = false /\
  exists ip t g, clientIP j r = Some ip /\ ENow t ∈ h /\
    EIsAllowed (CanonServerName (Host r)) ip (reg j) t (default [] (RCookie r GrantCookieName)) (Some g) ∈ h /\
    (Binding j = BindingIPCookie -> gBinding g = BindingIPCookie).

(** The code of the request was traded for a secret. *)
Definition site_traded (h : list pevent) : Prop :=
  exists code t ec token, json_enroll 4096 (Body r) = Some code /\ EConsume code t (Some ec) ∈ h /\
    Lookup (Some (reg j)) (EnrollStore.ecKid ec) = Some token.

Definition site_ended (h : list pevent) (a : outcome) : Prop :=
  (a = Passed -> site_passed h) /\
  (URLPath r = Prefix j ++ lit "/enroll" -> Method r = MethodPost ->
   status (response h) = StatusNoContent -> site_traded h).

Lemma gdeny_ends h :
  status (response h) = 0 -> wlp h (deny j) (fun h' _ => status (response h') <> StatusNoContent).
Proof.
  intros Hh. apply (wlp_mono _ _ _ _ (fun h' _ => status (response h') = StatusNotFound \/ status (response h') = StatusForbidden)).
  { by intros h' _ [-> | ->]. }
  unfold deny. next u. destruct (bool_decide _).
  - intros []. split; [exact I|]. left. by apply status_open.
  - next u1. next u2. next u3. intros []. split; [exact I|]. right. apply status_write; [done|]. by apply status_open.
Qed.

Lemma enroll_ends h service ip :
  status (response h) = 0 ->
  wlp h (handleEnroll j r service ip) (fun h' _ => status (response h') = StatusNoContent -> site_traded h').
Proof.
  intros Hh.
  assert (Hd : forall h', status (response h') = 0 ->
    wlp h' (deny j) (fun h' _ => status (response h') = StatusNoContent -> site_traded h')).
  { intros h' Hu. eapply wlp_mono; [|by apply gdeny_ends]. done. }
  unfold handleEnroll. next t0. next ok. destruct ok; cbn [negb]; [|by apply Hd].
  destruct (json_enroll 4096 (Body r)) as [code|] eqn:Hj; [|by apply Hd].
  destruct (bool_decide (code = [])); [by apply Hd|].
  next t1. next seen. destruct seen as [p|]; [|by apply Hd].
  destruct (Lookup _ (EnrollStore.ecKid p)); [|by apply Hd].
  next t2. next got. destruct got as [ec|]; [|by apply Hd].
  destruct (Lookup _ (EnrollStore.ecKid ec)) as [token|] eqn:Hl; [|by apply Hd].
  do 4 (let u := fresh "u" in next u). intros []. split; [exact I|]. intros _.
  exists code, t2, ec, token. split; [done|]. split; [recent|done].
Qed.
(** *** The whole request *)

Lemma entered_wlp {A} (p : prog pop A) Q :
  (forall h, response h = fresh -> wlp h p Q) ->
  wlp [] (t ← pnow; (maybeSweep t;; p)) Q.
Proof.
  intros Hp. next t. apply wlp_bind. unfold maybeSweep. next d. destruct d; [|by apply Hp].
  do 4 (apply wlp_op; intros []; split; [recent|cbn [event_of]]). by apply Hp.
Qed.

Lemma answered_wlp h (p : prog pop unit) :
  wlp h p (fun h' _ => URLPath r = Prefix j ++ lit "/enroll" -> Method r = MethodPost ->
    status (response h') = StatusNoContent -> site_traded h') ->
  wlp h (answered p) site_ended.
Proof.
  intros Hp. unfold answered. apply wlp_bind. eapply wlp_mono; [|exact Hp]. intros h' u H. by split.
Qed.

(** Another endpoint ends as it likes. *)
Lemma elsewhere_wlp h (p : prog pop unit) e :
  e <> lit "/enroll" -> URLPath r = Prefix j ++ e -> wlp h p (fun _ _ => True) -> wlp h (answered p) site_ended.
Proof.
  intros He Hu Hp. apply answered_wlp. eapply wlp_mono; [|exact Hp]. intros h' _ _ H.
  rewrite Hu in H. by apply (inj (app _)) in H.
Qed.

Lemma serve_wlp : wlp [] (ServeHTTP j r) site_ended.
Proof.
  unfold ServeHTTP. apply entered_wlp. intros h Hh. cbv zeta.
  assert (Hs : status (response h) = 0) by (by rewrite Hh).
  assert (Hd : forall h', status (response h') = 0 -> wlp h' (answered (deny j)) site_ended).
  { intros h' Hu. apply answered_wlp. eapply wlp_mono; [|by apply gdeny_ends]. done. }
  destruct (clientIP j r) as [ip|] eqn:Hip; [|by apply Hd].
  destruct (bool_decide (CanonServerName (Host r) = [])) eqn:Hn; [by apply Hd|]. bool_prop.
  fold (under_prefix j r). destruct (under_prefix j r) eqn:Hu.
  - destruct (bool_decide (URLPath r = Prefix j ++ lit "/challenge") && _) eqn:E1.
    { bool_prop. apply (elsewhere_wlp _ _ (lit "/challenge")); [done|done|apply gchallenge_calm]. }
    destruct (bool_decide (URLPath r = Prefix j ++ lit "/respond") && _) eqn:E2.
    { bool_prop. apply (elsewhere_wlp _ _ (lit "/respond")); [done|done|by apply grespond_wlp]. }
    destruct (bool_decide (URLPath r = Prefix j ++ lit "/enroll") && _) eqn:E3.
    { apply answered_wlp. eapply wlp_mono; [|by apply enroll_ends]. auto. }
    destruct (bool_decide (URLPath r = Prefix j ++ lit "/register") && _) eqn:E4.
    { bool_prop. apply (elsewhere_wlp _ _ (lit "/register")); [done|done|apply gregister_calm]. }
    by apply Hd.
  - next t. next found. destruct found as [g|]; [|by apply Hd].
    destruct (_ && _) eqn:Hb; [by apply Hd|]. split.
    + intros _. split; [exact Hh|]. split; [done|]. split; [done|]. exists ip, t, g.
      split; [done|]. do 2 (split; [recent|]). intros Hbind.
      rewrite bool_decide_eq_true_2 in Hb by done. cbn [andb] in Hb. by bool_prop.
    + intros _ _. change (status (response h) = StatusNoContent -> site_traded
        (EIsAllowed (CanonServerName (Host r)) ip (reg j) t (default [] (RCookie r GrantCookieName)) (Some g) :: ENow t :: h)).
      by rewrite Hs.
Qed.
End handlers.

(** Every request meets the guard and ends as it should. *)
Lemma gateway_wlp q : wlp (pguard q) [] (m_code gateway q) (site_ended q.1 q.2).
Proof. destruct q as [j r]. apply serve_wlp. Qed.

(** ** Systems *)

Section systems.
Variables (s0 : Shared) (y : gsystem).
Hypothesis (Hreach : reachable s0 y).

Notation Q := (fun q => site_ended q.1 q.2).

Lemma gthread_ended i th a :
  threads y !! i = Some th -> tcode th = Ret a ->
  site_ended (treq th).1 (treq th).2 (trace i (log y)) a /\ tout th = response (trace i (log y)).
Proof. exact (ended_at gateway pguard Q gateway_wlp s0 tt y Hreach i th a). Qed.

Lemma glog_guarded after i e before :
  log y = after ++ LOp i e :: before ->
  exists th, threads y !! i = Some th /\ pguard (treq th) (trace i before) e.
Proof. exact (guarded_at gateway pguard Q gateway_wlp s0 tt y Hreach after i e before). Qed.

Lemma glog_truthful after x before :
  log y = after ++ x :: before -> holds1 gateway x (replay s0 before).
Proof. exact (true_at gateway pguard Q gateway_wlp s0 tt y Hreach after x before). Qed.

Lemma gtrace_at i e : e ∈ trace i (log y) ->
  exists after before, log y = after ++ LOp i e :: before /\ holds e (replay s0 before).
Proof. exact (told_at gateway pguard Q gateway_wlp s0 tt y Hreach i e). Qed.

Lemma gsystem_truthful : truthful gateway s0 (log y).
Proof. exact (so_log _ _ _ _ _ (reachable_ok gateway pguard Q gateway_wlp s0 tt y Hreach)). Qed.
End systems.

(** *** Grants *)

Definition puts (x : gentry) (g : Grant) : Prop := exists i old, x = LOp i (EPut g old).

Lemma greplay1_effect x s : effect (puts x) (sharedGrants s) (sharedGrants (replay1 gateway x s)).
Proof.
  destruct x as [i e|[]]; [|by apply effect_eq]. cbn [replay1 gateway m_apply].
  destruct e; cbn [apply]; try by apply effect_eq.
  - apply effect_put. by exists i, old.
  - apply effect_eq. unfold due. by destruct (_ <? _).
  - destruct k; try by apply effect_eq. apply effect_sweep.
Qed.

Lemma greplay_grants s l :
  wf (sharedGrants s) -> Store.grants (sharedGrants s) = ∅ ->
  wf (sharedGrants (replay s l)) /\
  forall k g, Store.grants (sharedGrants (replay s l)) !! k = Some g ->
    exists i old after before, l = after ++ LOp i (EPut g old) :: before.
Proof.
  intros Hwf He.
  destruct (replay_puts gateway sharedGrants _ greplay1_effect s l Hwf He) as [Hwf' Hg]. split; [done|].
  intros k g Hk. destruct (Hg k g Hk) as (x & after & before & -> & i & old & ->). by exists i, old, after, before.
Qed.
