(* ===== verification/Gateways.v ===== *)
(** * Gateways: the properties of the in-process gate under overlapping requests.

    On every interleaving of requests to the sites of one process, from its start:
    access follows the site's own policy, as its Caddyfile states it, and a knock, a nonce is redeemed once, a code gives its
    secret once; and one request after another is one of the interleavings.  By
    [Sites.plugin_is_module] the Traefik plugin runs the same programs. *)

From S2P Require Import Prelude GoStrings Json Wire Base64 Sha256 Crypto ServerName NetIP CanonIP Registry RateLimit.
From S2P Require Import Store StoreHistory Http Threads Ledger Config RealIP Pages Server App AppHistory Plug Caddy Gate.
From S2P Require Import Caddyfile Traefik Sites GateOps GateOverlap.
From S2P Require NonceStore EnrollStore.
Import strings netip Caddy.

(** ** One request at a time *)

Section sequential.
Variables (now_at : nat -> Z) (rand_at : nat -> nat -> option bytes).

Notation gate_step := (gate_step now_at rand_at).
Notation gate_run := (gate_run now_at rand_at).
Notation serve j r := (ServeHTTP (POps0 := pworld_ops now_at rand_at) j r).

(** The requests of a run, each finished before the next. *)
Fixpoint gserved (w : PWorld) (es : list (JITAccess * Request)) : list gthread :=
  match es with
  | [] => []
  | e :: es' =>
      let '(a, w') := serve e.1 e.2 (blank w) in mkThread e (Ret a) (presp w') :: gserved w' es'
  end.

Lemma gate_run_steps es w ths l :
  exists l', rtc (step gateway) (mkSystem (sh w) ths tt l)
    (mkSystem (sh (gate_run w es)) (ths ++ gserved w es) tt l').
Proof.
  revert w ths l. induction es as [|e es IH]; intros w ths l.
  { exists l. cbn [gserved]. by rewrite app_nil_r. }
  destruct (arrive_solo gateway _ sh presp (perform_on_stores now_at rand_at) e (blank w) ths tt l eq_refl)
    as [l1 H1].
  cbn [gateway m_code] in H1. rewrite (ServeHTTP_prog now_at rand_at) in H1.
  cbn [gserved]. change (gate_run w (e :: es)) with (gate_run (gate_step w e) es). unfold Gate.gate_step.
  unfold GateOps.ops in H1.
  destruct (serve e.1 e.2 (blank w)) as [a w']. cbn [fst snd] in *.
  destruct (IH w' (ths ++ [mkThread e (Ret a) (presp w')]) l1) as [l2 H2].
  exists l2. etrans; [exact H1|]. by rewrite <- app_assoc in H2.
Qed.
End sequential.

(** ** Nonces *)

Definition gnoted (x : gentry) : note :=
  match x with
  | LOp _ (EClaim id t ttl ok) => NClaim id t ttl ok
  | LOp _ (ESweep KNonces t) => NSwept t
  | _ => NNothing
  end.

Definition gpresented (ths : list gthread) (x : gentry) : option bytes :=
  match x with LOp i _ => (ths !! i) ≫= (fun th => knock_nonce (treq th).2) | LAct _ => None end.

Definition gredeemed (ths : list gthread) (nonce : bytes) (l : list gentry) : nat :=
  tally (redeeming gnoted (gpresented ths) nonce) l.

Lemma gnoted_claim x id t ttl ok : gnoted x = NClaim id t ttl ok -> exists i, x = LOp i (EClaim id t ttl ok).
Proof. destruct x as [i [| | | | | | | | | | |[]|]|]; try done. intros [= -> -> -> ->]. by exists i. Qed.

Lemma gnoted_swept x t : gnoted x = NSwept t -> exists i, x = LOp i (ESweep KNonces t).
Proof. destruct x as [i [| | | | | | | | | | |[]|]|]; try done. intros [= ->]. by exists i. Qed.

Lemma gnoted_is_right x s : holds1 gateway x s -> noted_right gateway sharedNonces gnoted x s.
Proof.
  unfold noted_right. destruct x as [i e|[]]; [|done].
  destruct e as [| | | |id t ttl ok| | | | | |every t d|[]|]; try done;
    cbn [gnoted replay1 holds1 gateway m_holds m_apply holds apply].
  - cbn [sharedNonces on_nonces]. intros <-. by destruct (NonceStore.Claim _ _ _ _).
  - intros _. unfold due. by destruct (_ <? _).
Qed.

Section nonces.
Variables (s0 : Shared) (y : gsystem) (nonce : bytes) (ttl : Z).
Hypothesis (Hreach : reachable s0 y).
Hypothesis (Httl : forall i th, threads y !! i = Some th -> seconds (NonceTTL (treq th).1) = ttl).
Hypothesis (Hclock : forall i t, LOp i (ENow t) ∈ log y -> NonceStore.clock_ok ttl t).
Hypothesis (Htimely : forall i th id t l ok after before k ts,
  threads y !! i = Some th -> knock_nonce (treq th).2 = Some nonce ->
  log y = after ++ LOp i (EClaim id t l ok) :: before -> LOp k (ESweep KNonces ts) ∈ before ->
  NonceStore.timely ttl nonce ts t).

(** What a request read of the clock before an event of its own. *)
Lemma read_before after i e before t :
  log y = after ++ LOp i e :: before -> ENow t ∈ trace i before -> NonceStore.clock_ok ttl t.
Proof. intros Hl Ht%trace_in. apply (Hclock i). rewrite Hl. set_solver. Qed.

Lemma gclaim_lawful after i id t l ok before :
  log y = after ++ LOp i (EClaim id t l ok) :: before ->
  lawful (gpresented (threads y)) ttl (LOp i (EClaim id t l ok)) id t l.
Proof.
  intros Hl. destruct (glog_guarded s0 y Hreach _ _ _ _ Hl) as (th & Hi & Hg).
  destruct Hg as (ip & kid & n & rnd & token & Hv & -> & ->).
  destruct Hv as [_ _ _ _ _ Hnow (nk & _ & Hn) _ _ _ (body & tag & Hj & _ & Hd & _)].
  rewrite (Httl i th Hi) in *. exists n, (CanonServerName (Host (treq th).2)), ip, nk, (IPv6Prefix (treq th).1), rnd.
  split; [cbn; rewrite Hi; cbn; unfold knock_nonce; by rewrite Hj|]. split; [done|]. split; [done|]. split; [|done].
  by eapply read_before.
Qed.

Lemma gsweep_clock k t : LOp k (ESweep KNonces t) ∈ log y -> NonceStore.clock_ok ttl t.
Proof.
  intros (after & before & Hl)%list_elem_of_split.
  destruct (glog_guarded s0 y Hreach _ _ _ _ Hl) as (th & Hi & Hg). by eapply read_before.
Qed.

Lemma gredeemed_once : (gredeemed (threads y) nonce (log y) <= 1)%nat.
Proof.
  apply (redeemed_once gateway sharedNonces gnoted (gpresented (threads y)) s0 (log y) nonce ttl).
  - apply gnoted_is_right.
  - exact (gsystem_truthful s0 y Hreach).
  - intros after x before id t l ok Hl [i ->]%gnoted_claim. by eapply gclaim_lawful.
  - intros x t Hx [i ->]%gnoted_swept. by eapply gsweep_clock.
  - intros after x before id t l ok x' ts Hl [i ->]%gnoted_claim (th & Hi & Hn)%bind_Some Hx' [k ->]%gnoted_swept.
    by eapply Htimely.
Qed.
End nonces.

(** ** Enrollment codes *)

Definition gconsuming (code : bytes) (x : gentry) : bool :=
  match x with LOp _ (EConsume k _ (Some _)) => bool_decide (k = code) | _ => false end.

Definition gmaking (code : bytes) (x : gentry) : bool :=
  match x with
  | LOp _ (EPutCode k _) | LAct (MakeCode k _ _ _) => bool_decide (k = code)
  | _ => false
  end.

Notation present code s := (EnrollStore.present code (sharedCodes s)).

Lemma greplay1_present code x s :
  holds1 gateway x s ->
  (present code (replay1 gateway x s) + (if gconsuming code x then 1 else 0) <=
   present code s + (if gmaking code x then 1 else 0))%nat.
Proof.
  destruct x as [i e|[k kid origins exp]];
    cbn [replay1 holds1 gateway m_holds m_apply m_act make_code gconsuming gmaking]; intros Hh.
  2: { rewrite Nat.add_0_r. apply EnrollStore.Put_present. }
  destruct e as [| | | | | | | |k t c|k c|every t d|[] t|]; cbn [apply]; try (cbn; lia).
  - cbn [sharedCodes on_codes]. cbn [holds] in Hh. destruct (decide (k = code)) as [->|Hne].
    + pose proof (EnrollStore.Consume_present code (sharedCodes s) t) as Hp. rewrite Hh in Hp.
      destruct c; [rewrite bool_decide_eq_true_2 by done|]; lia.
    + rewrite EnrollStore.Consume_other by done. destruct c; [rewrite bool_decide_eq_false_2 by done|]; lia.
  - rewrite Nat.add_0_r. apply EnrollStore.Put_present.
  - unfold due. destruct (_ <? _); cbn; lia.
  - pose proof (EnrollStore.Sweep_present code (sharedCodes s) t) as Hs. cbn [sharedCodes on_codes sweep_store]. lia.
Qed.

(** ** Access *)

(** The process has started: its stores are those the first [shared()] made. *)
Lemma shared_start draw s0 :
  (Caddy.shared draw None).1 = Some s0 ->
  wf (sharedGrants s0) /\ Store.grants (sharedGrants s0) = ∅ /\ EnrollStore.codes (sharedCodes s0) = ∅.
Proof.
  cbn. intros (nk & _ & [= <-])%bind_Some. split; [apply wf_NewGrantStore|done].
Qed.

(** What a request that was let through rides on: what the store showed it, what
    the site's configuration says of the token, and who stored the grant. *)
Record ridden (y : gsystem) (i : nat) (j0 : JITAccess) (j : JITAccess) (r : Request)
    (ip : bytes) (t : Z) (g : Grant) (tok : Registry.Token) : Prop := {
  rd_client : clientIP j r = Some ip;
  rd_read : ENow t ∈ trace i (log y);
  rd_admits : admits g (CanonServerName (Host r)) ip (Some (reg j)) t (default [] (RCookie r GrantCookieName));
  rd_binding : Binding j = BindingIPCookie -> gBinding g = BindingIPCookie;
  rd_policy : site_policy j0 (gKid g) t tok;
  rd_secret : gSecretFP g = Fingerprint (Some tok);
  rd_knock : exists after before k thk old later earlier,
    log y = after ++ LOp i (EIsAllowed (CanonServerName (Host r)) ip (reg j) t
      (default [] (RCookie r GrantCookieName)) (Some g)) :: before /\
    before = later ++ LOp k (EPut g old) :: earlier /\
    threads y !! k = Some thk /\ site_minted (treq thk).1 (treq thk).2 (trace k earlier) g }.

Lemma passed_rides draw s0 y i th j0 :
  (Caddy.shared draw None).1 = Some s0 -> reachable s0 y ->
  threads y !! i = Some th -> tcode th = Ret Passed -> Provision j0 = Ok (treq th).1 ->
  tout th = fresh /\ under_prefix (treq th).1 (treq th).2 = false /\
  exists ip t g tok, ridden y i j0 (treq th).1 (treq th).2 ip t g tok.
Proof.
  intros (Hwf & Hempty & _)%shared_start Hreach Hi Hpass Hprov.
  destruct (gthread_ended s0 y Hreach i th Passed Hi Hpass) as [[Hend _] Hout].
  destruct (treq th) as [j r]. cbn [fst snd] in *.
  destruct (Hend eq_refl) as (Hfresh & Hs & Hu & ip & t & g & Hip & Ht & Hal & Hb).
  split; [by rewrite Hout|]. split; [done|].
  destruct (gtrace_at s0 y Hreach i _ Hal) as (after & before & Hlog & Hh). cbn [holds] in Hh.
  apply IsAllowed_iff in Hh as [Hc Ha]. destruct (candidate_lookup _ _ _ _ _ Hc) as [key Hkey].
  destruct (greplay_grants _ before Hwf Hempty) as [_ Horigin].
  destruct (Horigin key g Hkey) as (k & old & later & earlier & ->).
  pose proof Hlog as Hlog'. rewrite app_comm_cons, app_assoc in Hlog'.
  destruct (glog_guarded s0 y Hreach _ _ _ _ Hlog') as (thk & Hk & Hg). cbn [pguard] in Hg.
  assert (Hm : gManual g = false) by (by destruct Hg as (? & ? & ? & ? & ? & ? & ? & _ & _ & _ & ->)).
  destruct (adm_token _ _ _ _ _ _ Ha) as [Hman|(tok & Hauth & Hfp)]; [congruence|].
  exists ip, t, g, tok. split; try done.
  - apply Authorize_Ok_iff in Hauth. by apply (pv_policy _ _ (Provision_serves _ _ Hprov)) in Hauth.
  - exists after, (later ++ LOp k (EPut g old) :: earlier), k, thk, old, later, earlier. done.
Qed.

(** ** Properties *)

(** C4: access follows the policy of the site and a knock, however requests
    overlap.  From the start of a process, requests to any of its sites proceed in
    any interleaving of their operations, at any times, beside the operator's
    codes.  If a site provisioned from [j0] has let a request through, then it
    forwarded it with nothing written; at the moment it asked the store it was
    shown a grant for this very client and host, unexpired, under a kid that the
    configuration of this site lists and allows at the time the request read, with
    the secret listed here; and before that moment a request had stored this
    grant, having itself, before storing it, passed every check of a knock at its
    own site and burnt its nonce. *)
Theorem overlapping_gate_access draw s0 y i th j0
    (Hstart : (Caddy.shared draw None).1 = Some s0) (Hreach : reachable s0 y)
    (Hi : threads y !! i = Some th) (Hpass : tcode th = Ret Passed)
    (Hprov : Provision j0 = Ok (treq th).1) :
  tout th = fresh /\ under_prefix (treq th).1 (treq th).2 = false /\
  exists ip t g tok, ridden y i j0 (treq th).1 (treq th).2 ip t g tok.
Proof. by apply (passed_rides draw s0 y i th j0). Qed.

(** C14: from the text of a Caddyfile to who may enter.  Take the block of a
    [jit_access] directive, read and provisioned, in a process whose requests
    overlap in any way.  Whoever it lets through holds a grant for this client and
    host under a kid that an [allow] option of the block names (or the wildcard),
    whose last [token] option gives the secret the grant was minted under; and a
    request had proved knowledge of a token with that fingerprint by a full knock
    before.  The block is one of plain lines; what a line has beyond the arguments
    its option takes counts as an option of its own, as the parser has it, so that
    in [binding ip allow k] the kid is allowed too. *)
Theorem Caddyfile_access {D} `{!Dispenser D} `{!DispenserLaws D} ParseDuration d ls fuel j0 draw s0 y i th
    (Hd : at_directive d ls) (Hne : Forall (fun l => l <> []) ls) (Hfuel : (length (concat ls) + 1 < fuel)%nat)
    (Hread : parseCaddyfile ParseDuration fuel d = Some (Ok j0))
    (Hprov : Provision j0 = Ok (treq th).1)
    (Hstart : (Caddy.shared draw None).1 = Some s0) (Hreach : reachable s0 y)
    (Hi : threads y !! i = Some th) (Hpass : tcode th = Ret Passed) :
  exists ip g tok, clientIP (treq th).1 (treq th).2 = Some ip /\
    gIP g = ip /\ gService g = CanonServerName (Host (treq th).2) /\
    listed (omap token_of (options ls)) (gKid g) ≫= decoded = Some tok /\
    (gKid g ∈ concat (map allowed_by (options ls)) \/ star ∈ concat (map allowed_by (options ls))) /\
    gSecretFP g = Fingerprint (Some tok) /\
    exists k thk earlier, threads y !! k = Some thk /\ earlier `suffix_of` log y /\
      site_minted (treq thk).1 (treq thk).2 (trace k earlier) g.
Proof.
  destruct (passed_rides draw s0 y i th j0 Hstart Hreach Hi Hpass Hprov) as (_ & _ & ip & t & g & tok & H).
  destruct H as [Hip _ Ha _ [Hl _ Hal] Hfp (after & before & k & thk & old & later & earlier & Hlog & -> & Hk & Hm)].
  pose proof (parse_meaning ParseDuration d ls fuel Hd Hne Hfuel) as Hm'.
  destruct (forallb _ _); [|by destruct Hm' as [e He]; rewrite He in Hread].
  rewrite Hm' in Hread. injection Hread as <-. exists ip, g, tok. destruct Ha. do 6 (split; [done|]).
  exists k, thk, earlier. split; [done|]. split; [|done].
  exists (after ++ LOp i (EIsAllowed (CanonServerName (Host (treq th).2)) ip (reg (treq th).1) t
    (default [] (RCookie (treq th).2 GrantCookieName)) (Some g)) :: later ++ [LOp k (EPut g old)]).
  rewrite Hlog, <- app_assoc. cbn [app]. by rewrite <- app_assoc.
Qed.

(** C18: a nonce is redeemed at most once at the sites of a process, however requests
    overlap, if the sites have one nonce lifetime and no request that presents the
    nonce claims it after a sweep, by whatever request, that ran past the nonce's
    end and past the time the claiming request read.  Nothing is asked of the
    claims of other nonces. *)
Theorem overlapping_gate_nonces s0 y nonce ttl
    (Hreach : reachable s0 y)
    (Httl : forall i th, threads y !! i = Some th -> seconds (NonceTTL (treq th).1) = ttl)
    (Hclock : forall i t, LOp i (ENow t) ∈ log y -> NonceStore.clock_ok ttl t)
    (Htimely : forall i th id t l ok after before k ts,
       threads y !! i = Some th -> knock_nonce (treq th).2 = Some nonce ->
       log y = after ++ LOp i (EClaim id t l ok) :: before -> LOp k (ESweep KNonces ts) ∈ before ->
       NonceStore.timely ttl nonce ts t) :
  (gredeemed (threads y) nonce (log y) <= 1)%nat.
Proof. by apply (gredeemed_once s0 y nonce ttl Hreach Httl Hclock Htimely). Qed.

(** C19: the gate hands out a device secret at most once per code the operator made:
    however enrollments overlap, the requests answered with a secret for a code are
    no more than the times [MintEnrollCode] was given that code; and no request
    makes one. *)
Theorem overlapping_gate_enrollments draw s0 y code reqs
    (Hstart : (Caddy.shared draw None).1 = Some s0) (Hreach : reachable s0 y)
    (Hdup : NoDup reqs)
    (Hreqs : forall i, i ∈ reqs -> exists th, threads y !! i = Some th /\
       URLPath (treq th).2 = Prefix (treq th).1 ++ lit "/enroll" /\ Method (treq th).2 = MethodPost /\
       json_enroll 4096 (Body (treq th).2) = Some code /\
       (exists a, tcode th = Ret a) /\ status (tout th) = StatusNoContent) :
  (length reqs <= tally (gmaking code) (log y))%nat /\
  (forall i k c, LOp i (EPutCode k c) ∉ log y).
Proof.
  destruct (shared_start _ _ Hstart) as (_ & _ & Hempty). split.
  - pose proof (tally_balance gateway (fun s => present code s) (gconsuming code) (gmaking code) s0 (log y)
      (greplay1_present code) (gsystem_truthful s0 y Hreach)) as Hp.
    unfold EnrollStore.present in Hp. rewrite Hempty, lookup_empty in Hp.
    transitivity (tally (gconsuming code) (log y)); [|lia].
    apply tally_requests; [done|]. intros i Hin.
    destruct (Hreqs i Hin) as (th & Hi & Hpath & Hm & Hj & [a Ha] & Hst).
    destruct (gthread_ended s0 y Hreach i th a Hi Ha) as [[_ Hend] Hout]. rewrite Hout in Hst.
    destruct (Hend Hpath Hm Hst) as (code' & t & ec & tk & Hj' & Hc & _). simplify_eq.
    exists (EConsume code t (Some ec)). split; [by apply trace_in|]. cbn. by rewrite bool_decide_eq_true_2.
  - intros i k c (after & before & Hl)%list_elem_of_split.
    by destruct (glog_guarded s0 y Hreach _ _ _ _ Hl) as (th & _ & []).
Qed.

(** The sequential runs of [Gate] are interleavings: for every run of requests
    one after another there is a run of the system with the same stores at the end
    and, request by request, the same decisions and the same responses. *)
Theorem gate_runs_interleave now_at rand_at w0 es :
  exists y, reachable (sh w0) y /\ Threads.shared y = sh (gate_run now_at rand_at w0 es) /\
    threads y = gserved now_at rand_at w0 es.
Proof. destruct (gate_run_steps now_at rand_at es w0 [] []) as [l' Hl']. by eexists. Qed.

(** ** Witnesses *)

(** Request [i] does its next [n] operations, at time [t]. *)
Definition ggoes (i n : nat) (t : Z) : list (sched (JITAccess * Request) minting) :=
  replicate n (SOp i t (fun k => Some (take k ex_rand32))).

Notation ex_stores := (on_last 0 (sh ex_pworld)).

Lemma ex_process : (Caddy.shared (fun _ => Some ex_nk) None).1 = Some ex_stores.
Proof. reflexivity. Qed.

Notation ex_knocking := (ex_visit "POST" "/knock/respond" ex_knock_body "").

(** The device knocks while its next visit is already under way, and a third
    request sweeps between its operations. *)
Definition ex_crowd_schedule : list (sched (JITAccess * Request) minting) :=
  [SArrive (ex_served, ex_revisit); SArrive (ex_served, ex_knocking); SArrive (ex_served, ex_visit "GET" "/page" [] "")]
    ++ ggoes 0 6 1001 ++ ggoes 1 7 1001 ++ ggoes 2 4 1070 ++ ggoes 1 30 1002 ++ ggoes 0 30 1003 ++ ggoes 2 30 1071.

Notation ex_crowd := (exec gateway (start ex_stores tt) ex_crowd_schedule).

Definition passedb (y : gsystem) (i : nat) : bool :=
  match threads y !! i with
  | Some th => match tcode th with Ret Passed => true | _ => false end
  | None => false
  end.

Lemma passedb_ok y i : passedb y i = true -> exists th, threads y !! i = Some th /\ tcode th = Ret Passed.
Proof.
  unfold passedb. destruct (threads y !! i) as [th|]; [|done]. intros H. exists th. split; [done|].
  by destruct (tcode th) as [[]|].
Qed.

Lemma ex_crowd_reachable : reachable ex_stores ex_crowd.
Proof. apply exec_reachable. Qed.

Lemma ex_crowd_passed : passedb ex_crowd 0 = true.
Proof. vm_compute. reflexivity. Qed.

Lemma ex_crowd_first : arrivals ex_crowd_schedule !! 0%nat = Some (ex_served, ex_revisit).
Proof. reflexivity. Qed.

Lemma ex_crowd_request th : threads ex_crowd !! 0%nat = Some th -> treq th = (ex_served, ex_revisit).
Proof. intros Hi%thread_request. rewrite ex_crowd_first in Hi. by apply (inj Some) in Hi. Qed.

Lemma ex_crowd_served th : threads ex_crowd !! 0%nat = Some th -> Provision ex_read = Ok (treq th).1.
Proof. intros Hi. rewrite (ex_crowd_request th Hi). exact ex_served_ok. Qed.

Lemma overlapping_gate_access_witness : exists t tok, site_policy ex_read (lit "k1") t tok.
Proof.
  destruct (passedb_ok _ _ ex_crowd_passed) as (th & Hi & Hpass).
  destruct (overlapping_gate_access _ _ ex_crowd 0 th ex_read ex_process ex_crowd_reachable
    Hi Hpass (ex_crowd_served th Hi)) as (_ & _ & ip & t & g & tok & H).
  exists t, tok. pose proof (rd_policy _ _ _ _ _ _ _ _ _ H) as Hp. by rewrite <- (ex_read_kid _ _ _ Hp).
Defined.

Lemma ex_block_at : at_directive (LStart ex_block) ex_block.
Proof. reflexivity. Qed.

Lemma ex_block_ok : Forall (fun l => l <> []) ex_block.
Proof. repeat (constructor; [discriminate|]). constructor. Qed.

Lemma ex_block_read : parseCaddyfile ex_duration 40 (LStart ex_block) = Some (Ok ex_read).
Proof. vm_compute. reflexivity. Qed.

Lemma Caddyfile_access_witness : exists kid tok, listed (omap token_of (options ex_block)) kid ≫= decoded = Some tok.
Proof.
  destruct (passedb_ok _ _ ex_crowd_passed) as (th & Hi & Hpass).
  assert (Hf : (length (concat ex_block) + 1 < 40)%nat) by (apply Nat.ltb_lt; vm_compute; reflexivity).
  destruct (Caddyfile_access ex_duration (LStart ex_block) ex_block 40 ex_read _ _ ex_crowd 0 th ex_block_at
    ex_block_ok Hf ex_block_read (ex_crowd_served th Hi) ex_process ex_crowd_reachable Hi Hpass)
    as (ip & g & tok & _ & _ & _ & Hl & _).
  by exists (gKid g), tok.
Defined.

(** Two requests race one nonce, and one of them sweeps meanwhile. *)
Definition ex_grace : gsystem :=
  exec gateway (start ex_stores tt)
    ([SArrive (ex_served, ex_knocking); SArrive (ex_served, ex_knocking)]
       ++ ggoes 0 3 1001 ++ ggoes 1 12 1001 ++ ggoes 0 5 1002 ++ ggoes 1 30 1002 ++ ggoes 0 30 1003).

Definition gsteadyb (x : gentry) : bool :=
  match x with
  | LOp _ (ENow t) => (0 <=? t) && (t <=? 2000)
  | LOp _ (ESweep _ t) => t <? 1060
  | _ => true
  end.

(** What the run shows, in one evaluation. *)
Definition ex_gracious (y : gsystem) : bool :=
  forallb gsteadyb (log y) &&
  forallb (fun th => seconds (NonceTTL (treq th).1) =? 60) (threads y) &&
  (1 <=? gredeemed (threads y) ex_issued (log y))%nat.

Lemma ex_grace_shows : ex_gracious ex_grace = true.
Proof. vm_compute. reflexivity. Qed.

Lemma ex_grace_reachable : reachable ex_stores ex_grace.
Proof. apply exec_reachable. Qed.

#[local] Opaque ex_grace.

Lemma ex_grace_steady x : x ∈ log ex_grace -> gsteadyb x = true.
Proof. pose proof ex_grace_shows as [[H _]%andb_true_iff _]%andb_true_iff. exact (forallb_elem _ _ x H). Qed.

Lemma ex_grace_ttl i th : threads ex_grace !! i = Some th -> seconds (NonceTTL (treq th).1) = 60.
Proof.
  pose proof ex_grace_shows as [[_ H]%andb_true_iff _]%andb_true_iff.
  intros Hi%list_elem_of_lookup_2. apply Z.eqb_eq. exact (forallb_elem _ _ th H Hi).
Qed.

Lemma ex_grace_redeemed : (1 <= gredeemed (threads ex_grace) ex_issued (log ex_grace))%nat.
Proof. pose proof ex_grace_shows as [_ H]%andb_true_iff. by apply Nat.leb_le. Qed.

Lemma overlapping_gate_nonces_witness : gredeemed (threads ex_grace) ex_issued (log ex_grace) = 1%nat.
Proof.
  pose proof ex_grace_redeemed as Hone.
  enough (gredeemed (threads ex_grace) ex_issued (log ex_grace) <= 1)%nat by lia. clear Hone.
  apply (overlapping_gate_nonces ex_stores ex_grace ex_issued 60 ex_grace_reachable ex_grace_ttl).
  - intros i t H%ex_grace_steady. cbn [gsteadyb] in H. bool_prop. unfold NonceStore.clock_ok, in_i64. lia.
  - intros i th id t l ok after before k ts _ _ Hl Hts.
    assert (H : gsteadyb (LOp k (ESweep KNonces ts)) = true).
    { apply ex_grace_steady. rewrite Hl. apply elem_of_app. right. right. exact Hts. }
    cbn [gsteadyb] in H. bool_prop.
    change (NonceStore.timely 60 ex_issued ts t) with (ts <= t \/ ts < 1000 + 60). lia.
Defined.

(** Two requests race for the code the operator makes; the first one gets it. *)
Definition ex_genroll : Request :=
  ex_visit "POST" "/knock/enroll" (Encode (JObj [(lit "code", JStr (lit "cafe"))])) "".

Definition ex_genrollments : list (sched (JITAccess * Request) minting) :=
  [SEnv (MakeCode (lit "cafe") (lit "k1") [] 2000); SArrive (ex_served, ex_genroll); SArrive (ex_served, ex_genroll)]
    ++ ggoes 0 6 1001 ++ ggoes 1 6 1001 ++ ggoes 0 30 1002 ++ ggoes 1 30 1002.

Notation ex_genrolling := (exec gateway (start ex_stores tt) ex_genrollments).

Definition tradedb (y : gsystem) (i : nat) : bool :=
  match threads y !! i with
  | Some th => match tcode th with Ret _ => status (tout th) =? StatusNoContent | _ => false end
  | None => false
  end.

Lemma ex_gtraded : tradedb ex_genrolling 0 = true.
Proof. vm_compute. reflexivity. Qed.

Lemma tradedb_ok y i : tradedb y i = true ->
  exists th, threads y !! i = Some th /\ (exists a, tcode th = Ret a) /\ status (tout th) = StatusNoContent.
Proof.
  unfold tradedb. destruct (threads y !! i) as [th|]; [|done]. intros H. exists th. split; [done|].
  destruct (tcode th) as [a|]; [|done]. split; [by exists a|by apply Z.eqb_eq].
Qed.

Lemma ex_genroll_asks :
  bool_decide (URLPath ex_genroll = Prefix ex_served ++ lit "/enroll") &&
  bool_decide (Method ex_genroll = MethodPost) &&
  bool_decide (json_enroll 4096 (Body ex_genroll) = Some (lit "cafe")) = true.
Proof. vm_compute. reflexivity. Qed.

Lemma ex_gtraded_request i : i ∈ [0%nat] -> exists th, threads ex_genrolling !! i = Some th /\
  URLPath (treq th).2 = Prefix (treq th).1 ++ lit "/enroll" /\ Method (treq th).2 = MethodPost /\
  json_enroll 4096 (Body (treq th).2) = Some (lit "cafe") /\
  (exists a, tcode th = Ret a) /\ status (tout th) = StatusNoContent.
Proof.
  intros ->%list_elem_of_singleton. destruct (tradedb_ok _ _ ex_gtraded) as (th & Hi & Ha & Hs).
  exists th. split; [exact Hi|].
  pose proof (thread_request gateway _ _ _ _ _ Hi) as Hq.
  change (arrivals ex_genrollments !! 0%nat) with (Some (ex_served, ex_genroll)) in Hq.
  apply (inj Some) in Hq. rewrite <- Hq. cbn [fst snd].
  pose proof ex_genroll_asks as H. apply andb_true_iff in H as [[H1 H2]%andb_true_iff H3].
  apply bool_decide_eq_true in H1, H2, H3.
  exact (conj H1 (conj H2 (conj H3 (conj Ha Hs)))).
Qed.

Lemma ex_genrolling_reachable : reachable ex_stores ex_genrolling.
Proof. apply exec_reachable. Qed.

Lemma overlapping_gate_enrollments_witness : (1 <= tally (gmaking (lit "cafe")) (log ex_genrolling))%nat.
Proof.
  exact (proj1 (overlapping_gate_enrollments _ _ ex_genrolling (lit "cafe") [0%nat]
    ex_process ex_genrolling_reachable (NoDup_singleton 0%nat) ex_gtraded_request)).
Defined.
